(* ===== verification/_CoqProject ===== *)
-Q . S2P
Prelude.v
GoRuntime.v
PathFacts.v
Kube.v
Wire.v
Env.v
PodSpec.v
Threads.v
Pool.v
Logger.v
Core.v
CoreFacts.v
CoreMethods.v
Plugin.v
PluginFacts.v
Locks.v
CycleTypes.v
Gang.v
Release.v
System.v
Interleaving.v
Jgf.v
JgfFacts.v
ClusterGraph.v
ClusterFacts.v
ClusterTree.v
JobSpec.v
Fluxion.v
FluxionFacts.v
Apart.v
Serving.v
Startup.v
Placement.v
Landing.v
Webhook.v
Controller.v
ControllerFacts.v
ControlPlane.v
Workers.v
Setup.v
Pipeline.v
EndToEnd.v
Ending.v
Packing.v
Concrete.v
Witnesses.v
Scenarios.v
