(* ===== verification/Prelude.v ===== *)
(** * Fluence: a verification development

    Fluence places groups of Kubernetes pods with the Fluxion graph scheduler.
    The repository holds two Go modules. In src/sig-scheduler-plugins there
    are an admission webhook, which puts every pod into a group; a PodGroup
    controller, which creates the groups and tracks their phases; and a
    scheduler plugin, which asks Fluxion for the nodes of a whole group when
    the first of its pods is scheduled and pins each pod to its node. In
    src/src/fluence there is the server the plugin talks to over gRPC: it
    turns the cluster into a resource graph, hands it to the Fluxion library,
    turns requests into job specifications and allocations into node lists.

    ** The files

    Shared ground:
    - [Prelude] (this file): scopes, hint databases, lemmas on lists, sums,
      strings;
    - [GoRuntime]: what the code uses of Go: integers of a fixed width ([GoInt],
      values in [Z] with the wrap-around written out), computations with a
      state and panics ([GoM], a function from a state to an outcome and a
      state, so that what was written before a panic stays written), maps that
      may be nil ([GoMap]), and the functions of fmt, strconv, strings, path
      and time; round trip of printing and parsing numbers;
    - [PathFacts]: the effect of path.Clean on containment paths;
    - [Kube]: pods, PodGroups (apis/scheduling/v1alpha1/types.go), and packages
      pkg/fluence/labels ([flabel]) and pkg/fluence/group ([fgroup]);
    - [Wire]: the messages of the Fluxion service;
    - [Env]: the outside parties of the plugin, as classes of operations with
      classes of laws;
    - [Threads]: goroutines as trees of atomic actions on a shared state and a
      mutex, and their meaning when run alone ([runs_as]);
    - [Pool]: pools of goroutines in any interleaving, a rely-guarantee logic
      for single goroutines ([safe], [triple]) over a class [Protocol], and its
      soundness: invariants, no data races, no deadlock, termination;
    - [Apart]: goroutines that each keep to a part of the state of their own
      ([conforms]: what one relies on, the others guarantee) end as their
      programs say.

    The scheduler plugin (pkg/fluence):
    - [PodSpec]: podspec/podspec.go, the request made of one pod;
    - [Core]: core/core.go and core/flux.go. The struct PodGroupManager is the
      record [PodGroupManager]; a [Sys] adds the cycle state of the current
      scheduling cycle and the outside world. One definition per method,
      under the method's name; PreFilter is split at the comparison of the
      sizes ([admit_nodes]) and at the body of its loop ([assign_node]), and
      UpdatePod and DeletePod share the lines they have in common
      ([event_group], [cancel_if_known]). The interface Manager is the class
      [Manager], the manager its instance;
    - [CoreFacts], [CoreMethods]: every branch of the manager's methods, with
      the frame of the calls ([shrinks]: a cancellation only drops entries of
      one group) as reusable lemmas;
    - [Plugin], [PluginFacts]: fluence.go, the extension points over any
      [Manager], and the queue order, the pinning of pods to nodes (proved for
      a manager with the promises of [PinningManager], which [Core] keeps) and
      the release or rejection of the waiting pods of a gang;
    - [CycleTypes]: the entries of the cycle state keep their type through a
      scheduling cycle, so that the type assertion in Filter never fails;
    - [Locks]: PreFilter, UpdatePod and DeletePod action by action, with every
      Lock and Unlock of the manager's mutex; run alone they are the methods
      of [Core] and [Plugin];
    - [Gang]: the two ends of gang scheduling: one answer of Fluxion places all
      pods of a group, and a pod that waits at Permit
      activates its siblings;
    - [Release]: the pods of a gang at Permit over many scheduling cycles
      ([cycles]): all but the last wait, and the last releases those before it;
    - [System]: the scheduler as a transition system. A [step] is any entry
      point with any arguments, the start of a new scheduling cycle, or a
      change of the outside world that does not touch Fluxion's jobs. By
      induction over reachable states: recorded jobs are live and recorded
      once, no job is lost when Fluxion is reliable, jobs of others and jobs of
      an earlier run of the scheduler are never cancelled, and node assignments
      are never removed;
    - [Interleaving]: the scheduling goroutine and the event handlers of
      [Locks] in any interleaving. What is between an allocation and its
      record, and between a cancellation and the removal of its entry, is ghost
      state of the protocol [manager_protocol]; the invariants of [System] hold
      whenever the mutex is free and the scheduling goroutine is between two
      calls, neither table has a data race, the answer of PreFilter stays the
      recorded node whatever the handlers do, and every goroutine ends;
    - [Logger]: pkg/logger, over a model of files; two overlapping calls lose
      a line;
    - [Packing]: gangs whose pods share a node: the server answers with one
      entry per node, the manager takes it for too short an answer;
    - [Setup]: the plugin's constructor with the registration of the handlers
      and the events it asks for (fluence.go, register.go), the scheduler
      program (cmd/scheduler/main.go), the set-up of the controller, and the
      controller program (cmd/controller/app/server.go).

    The Fluxion server (src/fluence):
    - [Jgf], [JgfFacts]: jgf/jgf.go and jgf/types.go, the graph builder, and
      the well-formedness of all it can build;
    - [ClusterGraph]: utils/utils.go, CreateInClusterJGF, computeTotalRequests
      and RegisterExisting. [ClusterFacts] proves the graph equal to a layout
      computed from the list of nodes; [ClusterTree] derives from it that the
      graph is a containment tree, and what its capacity is: the cpus and the
      memory that are allocatable and not requested, and all allocatable gpus;
    - [JobSpec]: jobspec/jobspec.go, and what a job specification asks for in
      total;
    - [Fluxion], [FluxionFacts]: fluxion/fluxion.go and ParseAllocResult, and
      the refinement that ties the two halves of the program together: the
      server over a library client with the laws [ReapiLaws] is a service with
      the laws [FluxServiceLaws] that [System] relies on;
    - [Serving]: Match and Cancel as goroutines of concurrent requests, action
      by action: they race for the library's client;
    - [Startup]: cmd/main.go and service/service.go; the graph that is
      made at start-up is the one loaded into the library and served;
    - [Placement]: the graph's compute vertices carry the names of the eligible
      nodes ([eligible]), so that a match only names those;
    - [Landing]: the scheduler over the server over a library that was given
      that graph ([AllocatesFrom]): every recorded node and every candidate of
      PreFilter is an eligible node of the cluster.

    The webhook and the controller:
    - [Webhook]: apis/scheduling/v1alpha1/podgroup_webhook.go, with the labels
      it writes, its idempotence and its panics, and the agreement of its two
      entry points;
    - [Controller], [ControllerFacts]: pkg/controllers/podgroup_controller.go.
      [Reconcile] refines a pure step of the stored group ([next_group]), and
      iterating that step converges;
    - [ControlPlane]: the life cycle of a group as an automaton ([life]);
      reconciles and pod events, in any order and among changes by pods and
      users, move each group along it and keep the stored groups well-formed;
      but under the schema of the repository's charts no group ever moves;
    - [Workers]: Reconcile and the pod watch call by call, as goroutines on the
      API server's store: workers of different groups keep apart in any
      interleaving, and a user's edit between two calls is overwritten;
    - [Pipeline]: the size the webhook writes on a job is the size of the group
      the controller creates for its pods;
    - [EndToEnd]: the webhook, the controller and the scheduler one after the
      other, from the admission of a job to the nodes of its pods;
    - [Ending]: the end of a group, where the controller deletes what the
      scheduler needs to release its job, so that the order decides.

    Instances:
    - [Concrete]: an instance of each class the theorems name, with its laws
      proved;
    - [Witnesses], [Scenarios]: each theorem with hypotheses applied at a
      concrete input, the second those on interacting components.

    ** Code outside the repository

    It is never defined here: it is a class of operations that the
    definitions take, and a class of laws (documented behaviour) that the
    theorems name. Quantities of resources: [QuantityLib], [QuantityLaws]. The
    helper functions of the upstream scheduler-plugins and component-helpers
    modules: [Upstream], [UpstreamLaws]. The TTL cache: [GoCacheLib],
    [GoCacheLaws]. The framework's cycle state: [CycleStateLib],
    [CycleStateLaws]. Client, lister, snapshot, waiting pods and clock:
    [Cluster], [ClientLaws] and [ListerLaws] (a listed pod has the label asked
    for; a value with a slash is no label value and matches nothing), and, for
    what is seen of the cluster at Permit, [SeenLaws]. The
    service as the plugin sees it: [FluxService], [FluxServiceLaws], and
    [FluxReliable] where a theorem needs cancellations to be confirmed. The
    order in which Go ranges over a map: [MapOrder], any permutation. The node
    lister of the server and its resource helper: [KubeClient],
    [ResourceHelper]. YAML and JSON: [YamlLib], [JsonLib]. The Fluxion
    library's client and the gRPC transport: [ReapiClient], [ReapiLaws],
    [Transport], and [AnswersArrive] where a theorem needs every answer to
    arrive; its context and the file system: [FileLaws]. Package net and
    the gRPC server: [NetLib], [NetLaws]. The framework's handle at start-up:
    [HandleLib]; the scheduler's command with the other plugins:
    [SchedulerApp]; the manager of controller-runtime and its builder of
    controllers: [ManagerLib]. Decoding of
    admission requests: [Codec]. The API server of the controller, and the
    label helper it uses: [ApiServer], [ApiLaws], [ControllerLib],
    [ControllerLibLaws]. The API server prunes a field that the installed
    schema of PodGroups lacks. [ApiLaws] leaves open whether the schema has
    status.creationTime ([keeps_creationTime]): the Go type has it, the schemas
    the repository installs do not. Theorems that hold for one of the two say
    so; of those on groups with a phase ([release_depends_on_order]) the
    premises can hold only for a schema that has it.

    ** Integers, loops and bounds

    Integers are kept at their width: a conversion or a sum that can wrap is
    [GoInt.wrap] or [GoInt.uint64]; the theorems state the range in which it
    does not (sums of requests in 32 or 64 bits, at most 2^31 pods of a group
    for the counters of a status, at most 2^63 vertices of a graph). No
    definition uses fuel: every loop of the code ranges over a list, a map or
    a number known before it starts, and is a structural recursion
    ([Go.range_loop], [Go.for_upto], folds), so every definition is total and
    a failure of the code is a value: an error, or [Panic].

    ** What is not modelled

    Only the methods that take the manager's mutex are modelled action by
    action; the others touch neither of its tables nor Fluxion's jobs
    ([lock_free_methods_quiet]) and are one step each. The plugin's own mutex,
    held around one lookup of the scheduling goroutine, is left out, and so
    are the calls of the logger inside the methods. Actions are atomic and
    ordered, which Go promises for programs without data races; for the two
    tables that is a theorem ([tables_race_free]). A call to Fluxion or to the
    cluster takes effect at one instant. A panic ends its goroutine,
    where Go ends the whole process.

    A change of the outside world leaves Fluxion's jobs alone in [step]: what
    other clients of Fluxion hold is there from the start. The library does
    not document what it does when calls of one client overlap. [Serving] shows
    that they can, for any two requests; the scheduler too calls Match without
    the mutex under which the event handlers call Cancel. The theorems on the
    scheduler take each call to be over at one instant. A connection that breaks after a request has been handled
    is excluded by [AnswersArrive]; what it leads to is
    [lost_answer_leaks_job]. A reconcile is one step in
    [ControlPlane] and a sequence of calls in [Workers], where no two are of
    the same group: controller-runtime runs at most one per group. Resource
    versions and the conflicts they detect are not modelled; the calls of
    [size_edit_overwritten] carry none, since its status update changes
    nothing and a merge patch then has the new size only. The reads of the
    controller see the store as it is, where a cache may lag behind.

    Functions that only print are left out. The code protoc generates has no
    state of the program in it. ElasticQuota is part of the API package but no
    code of this repository reads it. *)

From stdpp Require Import prelude gmap strings list fin_maps pretty sorting.

(** ** Scopes and hint databases *)

Declare Scope go_scope.
Delimit Scope go_scope with go.

Create HintDb go discriminated.

(** ** Generic tactics *)

(** Case analysis on the innermost [if]/[match] of the goal or a hypothesis,
    keeping the equation. *)
Ltac split_match :=
  match goal with
  | |- context [match ?x with _ => _ end] => destruct x eqn:?
  | H : context [match ?x with _ => _ end] |- _ => destruct x eqn:?
  end.

Ltac crush_match := repeat (split_match; simplify_eq/=); try done.

(** ** Lists *)

Section list_lemmas.
Context {A : Type}.
Implicit Types (l k : list A).

(** A left fold that only counts is an addition of the length of a filter. *)
Lemma foldl_count (P : A → Prop) `{∀ x, Decision (P x)} l (n : Z) :
  foldl (λ c x, if decide (P x) then (c + 1)%Z else c) n l
  = (n + Z.of_nat (length (filter P l)))%Z.
Proof.
  revert n. induction l as [|x l IH]; intros n; simpl; [lia|].
  rewrite IH, filter_cons. case_decide; simpl; lia.
Qed.

(** A filter that lets everything pass. *)
Lemma filter_all (P : A → Prop) `{∀ x, Decision (P x)} l :
  (∀ x, x ∈ l → P x) → filter P l = l.
Proof.
  induction l as [|x l IH]; [done|]. intros Hl. rewrite filter_cons.
  rewrite decide_True by (apply Hl; left). f_equal. apply IH. intros y Hy. apply Hl. by right.
Qed.
End list_lemmas.

(** ** Integers as sums over lists *)

Fixpoint zsum (l : list Z) : Z :=
  match l with [] => 0%Z | x :: l => (x + zsum l)%Z end.

Lemma zsum_app l k : zsum (l ++ k) = (zsum l + zsum k)%Z.
Proof. induction l as [|x l IH]; simpl; lia. Qed.

Lemma zsum_nonneg l : Forall (λ x, (0 ≤ x)%Z) l → (0 ≤ zsum l)%Z.
Proof. induction 1; simpl; lia. Qed.

Lemma zsum_replicate n x : zsum (replicate n x) = (Z.of_nat n * x)%Z.
Proof. induction n as [|n IH]; simpl; [done|]. rewrite IH. lia. Qed.

(** ** Strings *)

Lemma string_app_assoc (a b c : string) : (a +:+ b) +:+ c = a +:+ (b +:+ c).
Proof.
  induction a as [|x a IH]; [done|].
  change (String x ((a +:+ b) +:+ c) = String x (a +:+ (b +:+ c))). by rewrite IH.
Qed.

Lemma string_app_nil_r (a : string) : a +:+ "" = a.
Proof.
  induction a as [|x a IH]; [done|].
  change (String x (a +:+ "") = String x a). by rewrite IH.
Qed.

Lemma string_app_length (a b : string) :
  String.length (a +:+ b) = String.length a + String.length b.
Proof.
  induction a as [|x a IH]; [done|].
  change (S (String.length (a +:+ b)) = S (String.length a + String.length b)).
  by rewrite IH.
Qed.

Lemma string_cons_app (c : Ascii.ascii) (a b : string) :
  String c a +:+ b = String c (a +:+ b).
Proof. done. Qed.

(** The characters of a string. *)
Fixpoint chars (s : string) : list Ascii.ascii :=
  match s with
  | EmptyString => []
  | String c s => c :: chars s
  end.

Lemma chars_app a b : chars (a +:+ b) = chars a ++ chars b.
Proof.
  induction a as [|c a IH]; [done|].
  change (c :: chars (a +:+ b) = c :: (chars a ++ chars b)). by rewrite IH.
Qed.

(** A string with the character [c] in it. *)
Definition has_char (c : Ascii.ascii) (s : string) : Prop := c ∈ chars s.

#[export] Instance has_char_dec c s : Decision (has_char c s).
Proof. unfold has_char. apply _. Defined.

Lemma has_char_app c a b : has_char c (a +:+ b) ↔ has_char c a ∨ has_char c b.
Proof. unfold has_char. rewrite chars_app. set_solver. Qed.
