(* ===== verification/GoRuntime.v ===== *)
(** * The part of the Go language and of its standard library the code uses

    - [GoInt]: fixed-width integers as [Z] with their wrap-around written out;
    - [GoM]: computations that thread a state and may panic (a Go panic stops
      the function; what it wrote before stays written);
    - [GoMap]: [map[string]string] with the nil map told apart from the empty
      one (reading a nil map is fine, writing to it panics);
    - [Fmt], [Strconv], [Strings], [Path], [Time]: the functions of those
      packages that the code calls. *)

From Stdlib Require Import Ascii.
From stdpp Require Import prelude gmap strings list fin_maps pretty sorting.
From S2P Require Import Prelude.

(** ** Fixed-width integers *)

Module GoInt.
Local Open Scope Z_scope.

(** Conversion to a signed [w]-bit integer: two's complement truncation. *)
Definition wrap (w x : Z) : Z := (x + 2 ^ (w - 1)) `mod` 2 ^ w - 2 ^ (w - 1).

Abbreviation int32 := (wrap 32).
Abbreviation int64 := (wrap 64).

(** Conversion to [uint64]. *)
Definition uint64 (x : Z) : Z := x `mod` 2 ^ 64.

Definition fits (w x : Z) : Prop := - 2 ^ (w - 1) ≤ x < 2 ^ (w - 1).
#[export] Instance fits_dec w x : Decision (fits w x).
Proof. unfold fits. apply _. Defined.

Lemma pow_split w : 0 < w → 2 ^ w = 2 * 2 ^ (w - 1).
Proof. intros. rewrite <- Z.pow_succ_r by lia. f_equal. lia. Qed.

Lemma wrap_fits w x : 0 < w → fits w (wrap w x).
Proof.
  intros Hw. unfold fits, wrap. pose proof (pow_split w Hw).
  assert (0 < 2 ^ (w - 1)) by (apply Z.pow_pos_nonneg; lia).
  pose proof (Z.mod_pos_bound (x + 2 ^ (w - 1)) (2 ^ w)). lia.
Qed.

Lemma wrap_id w x : 0 < w → fits w x → wrap w x = x.
Proof.
  intros Hw [? ?]. unfold wrap. pose proof (pow_split w Hw).
  rewrite Z.mod_small; lia.
Qed.

Lemma wrap_plus w x k : 0 < w → wrap w (x + k * 2 ^ w) = wrap w x.
Proof.
  intros Hw. unfold wrap. f_equal.
  rewrite <- (Z_mod_plus_full (x + 2 ^ (w - 1)) k). f_equal. lia.
Qed.

Lemma wrap_congr w x : 0 < w → ∃ k, wrap w x = x + k * 2 ^ w.
Proof.
  intros Hw. exists (- ((x + 2 ^ (w - 1)) `div` 2 ^ w)). unfold wrap.
  rewrite Z.mod_eq by (apply Z.pow_nonzero; lia). lia.
Qed.

(** Truncating in the middle of a sum does not change the truncated sum. *)
Lemma wrap_add_l w x y : 0 < w → wrap w (wrap w x + y) = wrap w (x + y).
Proof.
  intros Hw. destruct (wrap_congr w x Hw) as [k ->].
  rewrite <- (wrap_plus w (x + y) k Hw). f_equal. lia.
Qed.

Lemma wrap_add_r w x y : 0 < w → wrap w (x + wrap w y) = wrap w (x + y).
Proof. intros. rewrite !(Z.add_comm x). by apply wrap_add_l. Qed.

Lemma wrap_wrap w x : 0 < w → wrap w (wrap w x) = wrap w x.
Proof. intros. apply wrap_id; [done|]. by apply wrap_fits. Qed.

(** A loop [acc += f(x)] in [w]-bit arithmetic computes the truncated sum. *)
Lemma foldl_wrap_sum {A} (f : A → Z) w (l : list A) (n : Z) :
  0 < w →
  foldl (λ acc x, wrap w (acc + f x)) (wrap w n) l
  = wrap w (n + zsum (f <$> l)).
Proof.
  intros Hw. revert n. induction l as [|x l IH]; intros n; csimpl.
  - f_equal. lia.
  - rewrite wrap_add_l by done. rewrite IH. f_equal. lia.
Qed.

(** [int64(uint64(x))], the round trip a job id makes through the plugin. *)
Lemma int64_uint64 x : fits 64 x → wrap 64 (uint64 x) = x.
Proof.
  intros Hx. unfold uint64.
  replace (x `mod` 2 ^ 64) with (x + (- (x `div` 2 ^ 64)) * 2 ^ 64)
    by (rewrite Z.mod_eq by done; ring).
  rewrite wrap_plus by done. by apply wrap_id.
Qed.

#[export] Hint Resolve wrap_fits : go.
End GoInt.

Notation "x +32 y" := (GoInt.wrap 32 (x + y)) (at level 50, left associativity) : go_scope.
Notation "x +64 y" := (GoInt.wrap 64 (x + y)) (at level 50, left associativity) : go_scope.

(** ** Stateful computations that may panic *)

Inductive outcome (A : Type) : Type :=
| Ret (a : A)
| Panic (msg : string).
Arguments Ret {A} a.
Arguments Panic {A} msg.

#[export] Instance outcome_ret : MRet outcome := λ A a, Ret a.
#[export] Instance outcome_bind : MBind outcome := λ A B f m,
  match m with Ret a => f a | Panic e => Panic e end.
#[export] Instance outcome_fmap : FMap outcome := λ A B f m,
  match m with Ret a => Ret (f a) | Panic e => Panic e end.

Definition GoM (S A : Type) : Type := S → outcome A * S.

#[export] Instance GoM_ret {S} : MRet (GoM S) := λ A a s, (Ret a, s).
#[export] Instance GoM_bind {S} : MBind (GoM S) := λ A B f m s,
  match m s with
  | (Ret a, s') => f a s'
  | (Panic e, s') => (Panic e, s')
  end.

Module Go.
Section ops.
Context {S : Type}.

Definition get : GoM S S := λ s, (Ret s, s).
Definition put (s : S) : GoM S () := λ _, (Ret (), s).
Definition modify (f : S → S) : GoM S () := λ s, (Ret (), f s).
Definition gets {A} (f : S → A) : GoM S A := λ s, (Ret (f s), s).
Definition panic {A} (msg : string) : GoM S A := λ s, (Panic msg, s).
Definition lift {A} (o : outcome A) : GoM S A := λ s, (o, s).

(** [for i, x := range l { body }] *)
Fixpoint range_loop {A} (body : nat → A → GoM S ()) (i : nat) (l : list A) : GoM S () :=
  match l with
  | [] => mret ()
  | x :: l => _ ← body i x; range_loop body (i + 1) l
  end.

(** [for i := 0; i < n; i++ { body }] *)
Definition for_upto (n : Z) (body : Z → GoM S ()) : GoM S () :=
  range_loop (λ i _, body (Z.of_nat i)) 0 (replicate (Z.to_nat n) ()).

Lemma run_ret {A} (a : A) s : mret (M:=GoM S) a s = (Ret a, s).
Proof. done. Qed.

Lemma run_bind {A B} (m : GoM S A) (f : A → GoM S B) s :
  (m ≫= f) s =
  match m s with (Ret a, s') => f a s' | (Panic e, s') => (Panic e, s') end.
Proof. done. Qed.

Lemma run_bind_ret {A B} (m : GoM S A) (f : A → GoM S B) s a s' :
  m s = (Ret a, s') → (m ≫= f) s = f a s'.
Proof. intros E. by rewrite run_bind, E. Qed.

Lemma run_bind_panic {A B} (m : GoM S A) (f : A → GoM S B) s e s' :
  m s = (Panic e, s') → (m ≫= f) s = (Panic e, s').
Proof. intros E. by rewrite run_bind, E. Qed.

Lemma run_bind_inv {A B} (m : GoM S A) (f : A → GoM S B) s b s'' :
  (m ≫= f) s = (Ret b, s'') →
  ∃ a s', m s = (Ret a, s') ∧ f a s' = (Ret b, s'').
Proof. rewrite run_bind. destruct (m s) as [[a|e] s'] eqn:E; naive_solver. Qed.
End ops.

(** [m] never leaves the reachability relation [R] between states, whether
    it returns or panics. For a preorder [R] this is compositional, which is
    how frame conditions ("this call does not touch that table") are
    proved. *)
Definition within {S A} (R : S → S → Prop) (m : GoM S A) : Prop := ∀ s, R s (m s).2.

Section within.
Context {S : Type} (R : S → S → Prop) `{!PreOrder R}.

Lemma within_ret {A} (a : A) : within R (mret (M:=GoM S) a).
Proof. intros s. simpl. reflexivity. Qed.
Lemma within_gets {A} (f : S → A) : within R (gets f).
Proof. intros s. simpl. reflexivity. Qed.
Lemma within_get : within R get.
Proof. intros s. simpl. reflexivity. Qed.
Lemma within_lift {A} (o : outcome A) : within R (lift o).
Proof. intros s. simpl. reflexivity. Qed.
Lemma within_panic {A} msg : within R (panic (A:=A) msg).
Proof. intros s. simpl. reflexivity. Qed.
Lemma within_modify (f : S → S) : (∀ s, R s (f s)) → within R (modify f).
Proof. intros H s. apply H. Qed.
Lemma within_bind {A B} (m : GoM S A) (f : A → GoM S B) :
  within R m → (∀ a, within R (f a)) → within R (m ≫= f).
Proof.
  intros Hm Hf s. rewrite run_bind. specialize (Hm s).
  destruct (m s) as [[a|e] s']; simpl in *; [|done].
  etrans; [exact Hm|]. apply Hf.
Qed.
(** The same, remembering which values [m] can return. *)
Lemma within_bind_returns {A B} (m : GoM S A) (f : A → GoM S B) :
  within R m → (∀ a, (∃ s s', m s = (Ret a, s')) → within R (f a)) →
  within R (m ≫= f).
Proof.
  intros Hm Hf s. rewrite run_bind. specialize (Hm s).
  destruct (m s) as [[a|e] s'] eqn:E; simpl in *; [|done].
  etrans; [exact Hm|]. apply Hf. by exists s, s'.
Qed.
Lemma within_range_loop_in {A} (body : nat → A → GoM S ()) l i :
  (∀ i x, x ∈ l → within R (body i x)) → within R (range_loop body i l).
Proof.
  revert i. induction l as [|x l IH]; intros i Hb; simpl.
  - apply within_ret.
  - apply within_bind; [apply Hb; by left|]. intros []. apply IH.
    intros j y Hy. apply Hb. by right.
Qed.
Lemma within_range_loop {A} (body : nat → A → GoM S ()) l i :
  (∀ i x, within R (body i x)) → within R (range_loop body i l).
Proof. intros Hb. by apply within_range_loop_in. Qed.
End within.

(** [xs[i]]: an index out of range panics. *)
Definition index {A} (l : list A) (i : nat) : outcome A :=
  match l !! i with
  | Some x => Ret x
  | None => Panic "runtime error: index out of range"
  end.

(** [*p]: a nil pointer panics. *)
Definition deref {A} (p : option A) : outcome A :=
  match p with
  | Some x => Ret x
  | None => Panic "runtime error: invalid memory address or nil pointer dereference"
  end.

(** [a / b] on signed [w]-bit integers. *)
Definition quot (w a b : Z) : outcome Z :=
  if decide (b = 0)%Z then Panic "runtime error: integer divide by zero"
  else Ret (GoInt.wrap w (Z.quot a b)).
End Go.

(** Walk through a computation with [within_bind], splitting on the branches
    it takes; what remains are the conditions on its primitive steps. *)
Ltac within_step :=
  lazymatch goal with
  | |- Go.within _ (mbind _ _) => refine (Go.within_bind _ _ _ _ _); [|intros ?]
  | |- Go.within _ (Go.range_loop _ _ _) => refine (Go.within_range_loop _ _ _ _ _); intros ? ?
  | |- Go.within _ (Go.modify _) => apply Go.within_modify; intros ?
  | |- Go.within _ (match ?x with _ => _ end) => destruct x
  | |- Go.within _ (let _ := _ in _) => cbv zeta
  | |- Go.within _ (mret _) => refine (Go.within_ret _ _)
  | |- Go.within _ (Go.gets _) => refine (Go.within_gets _ _)
  | |- Go.within _ Go.get => refine (Go.within_get _)
  | |- Go.within _ (Go.lift _) => refine (Go.within_lift _ _)
  | |- Go.within _ (Go.panic _) => refine (Go.within_panic _ _)
  end.
Ltac within_go := repeat within_step.

(** Symbolic execution of a computation on a given state. *)
Ltac go_unfold :=
  unfold mbind, GoM_bind, mret, GoM_ret, Go.gets, Go.get, Go.modify, Go.lift,
    Go.panic in *; simpl in *.

(** ** [map[string]string], nil or not *)

Module GoMap.
Abbreviation t := (option (gmap string string)).

Definition get (m : t) (k : string) : option string := m ≫= λ m, m !! k.

(** [m[k]] in a single-value context: the zero value for a missing key. *)
Definition index (m : t) (k : string) : string := default "" (get m k).

(** [m[k] = v] *)
Definition set (m : t) (k v : string) : outcome t :=
  match m with
  | None => Panic "assignment to entry in nil map"
  | Some m => Ret (Some (<[k := v]> m))
  end.

(** [if m == nil { m = map[string]string{} }] *)
Definition init (m : t) : t := Some (default ∅ m).

Definition entries (m : t) : gmap string string := default ∅ m.

Lemma get_init m k : get (init m) k = get m k.
Proof. by destruct m. Qed.
Lemma get_Some m k : get (Some m) k = m !! k.
Proof. done. Qed.
End GoMap.

(** ** Package fmt: [%d], and [%v] of an integer *)

Module Fmt.
Definition d (z : Z) : string := pretty z.
End Fmt.

(** ** Package strconv *)

Module Strconv.
Local Open Scope Z_scope.

Definition digit_val (c : Ascii.ascii) : option Z :=
  let n := Z.of_N (Ascii.N_of_ascii c) in
  if decide (48 ≤ n ≤ 57) then Some (n - 48) else None.

Fixpoint digits (acc : Z) (s : string) : option Z :=
  match s with
  | EmptyString => Some acc
  | String c s => d ← digit_val c; digits (acc * 10 + d) s
  end.

(** [strconv.ParseInt(s, 10, 32)]: [None] for a non-nil error (bad syntax or
    out of range), whose accompanying value the code never uses. *)
Definition ParseInt (s : string) : option Z :=
  let '(neg, body) :=
    match s with
    | String c r =>
        if decide (c = "-"%char) then (true, r)
        else if decide (c = "+"%char) then (false, r)
        else (false, s)
    | EmptyString => (false, s)
    end in
  if decide (body = "") then None else
  n ← digits 0 body;
  let z := if neg : bool then - n else n in
  if decide (GoInt.fits 32 z) then Some z else None.
End Strconv.

(** *** [ParseInt] reads back what [%d] prints *)

Section parse_print.
Local Open Scope Z_scope.

Lemma digit_val_pretty (n : N) :
  (n < 10)%N → Strconv.digit_val (pretty_N_char n) = Some (Z.of_N n).
Proof.
  intros Hn.
  assert (n ∈ [0; 1; 2; 3; 4; 5; 6; 7; 8; 9]%N) as H.
  { rewrite !elem_of_cons. lia. }
  repeat (apply elem_of_cons in H as [->|H]; [reflexivity|]). set_solver.
Qed.

Lemma pretty_N_go_ind (P : N → string → string → Prop) :
  (∀ s, P 0%N s s) →
  (∀ n s, (0 < n)%N →
     P (n `div` 10)%N (String (pretty_N_char (n `mod` 10)) s)
       (pretty_N_go (n `div` 10) (String (pretty_N_char (n `mod` 10)) s)) →
     P n s (pretty_N_go (n `div` 10) (String (pretty_N_char (n `mod` 10)) s))) →
  ∀ n s, P n s (pretty_N_go n s).
Proof.
  intros H0 HS n. induction n as [n IH] using (well_founded_induction N.lt_wf_0).
  intros s. destruct (decide (n = 0%N)) as [->|Hn].
  - rewrite pretty_N_go_0. apply H0.
  - rewrite pretty_N_go_step by lia. apply HS; [lia|].
    apply IH. apply N.div_lt; lia.
Qed.

Lemma digits_pretty_N_go n s :
  Strconv.digits 0 (pretty_N_go n s) = Strconv.digits (Z.of_N n) s.
Proof.
  revert n s. apply (pretty_N_go_ind (λ n s r,
    Strconv.digits 0 r = Strconv.digits (Z.of_N n) s)); [done|].
  intros n s Hn ->. simpl. rewrite digit_val_pretty by (apply N.mod_lt; lia).
  simpl. f_equal. pose proof (N.div_mod' n 10). lia.
Qed.

(** The first character printed for a positive number is a digit. *)
Lemma pretty_N_go_head n s :
  (0 < n)%N → ∃ m r, (m < 10)%N ∧ pretty_N_go n s = String (pretty_N_char m) r.
Proof.
  revert n s. apply (pretty_N_go_ind (λ n s r, (0 < n)%N →
    ∃ m r', (m < 10)%N ∧ r = String (pretty_N_char m) r')); [lia|].
  intros n s Hn IH _. destruct (decide (n `div` 10 = 0)%N) as [E|?].
  - rewrite E, pretty_N_go_0.
    exists (n `mod` 10)%N, s. split; [apply N.mod_lt; lia|done].
  - apply IH. by apply N.neq_0_lt_0.
Qed.

Lemma pretty_N_head (n : N) : ∃ m r, (m < 10)%N ∧ pretty n = String (pretty_N_char m) r.
Proof.
  unfold pretty, pretty_N. case_decide as E.
  - exists 0%N, "". split; [lia|done].
  - apply pretty_N_go_head. lia.
Qed.

Lemma pretty_digit_not_sign m :
  (m < 10)%N → pretty_N_char m ≠ "-"%char ∧ pretty_N_char m ≠ "+"%char.
Proof.
  intros Hm. apply digit_val_pretty in Hm.
  split; intros E; rewrite E in Hm; discriminate.
Qed.

Lemma digits_pretty_N (n : N) : Strconv.digits 0 (pretty n) = Some (Z.of_N n).
Proof.
  unfold pretty, pretty_N. case_decide as E; [by subst|].
  by rewrite digits_pretty_N_go.
Qed.

Lemma digits_d z : 0 ≤ z → Strconv.digits 0 (Fmt.d z) = Some z.
Proof.
  intros Hz. destruct z as [|p|p]; [done| |lia].
  change (Fmt.d (Z.pos p)) with (pretty (N.pos p)). apply digits_pretty_N.
Qed.

Lemma ParseInt_pretty_N (n : N) :
  GoInt.fits 32 (Z.of_N n) → Strconv.ParseInt (pretty n) = Some (Z.of_N n).
Proof.
  intros Hn. unfold Strconv.ParseInt.
  destruct (pretty_N_head n) as (m&r&Hm&E).
  destruct (pretty_digit_not_sign m Hm) as [? ?].
  pose proof (digits_pretty_N n) as Hd. rewrite E in Hd |- *.
  rewrite !decide_False by done.
  rewrite Hd. simpl. by rewrite decide_True.
Qed.

Lemma ParseInt_d z : GoInt.fits 32 z → Strconv.ParseInt (Fmt.d z) = Some z.
Proof.
  intros Hz. unfold Fmt.d. destruct z as [|p|p].
  - reflexivity.
  - change (pretty (Z.pos p)) with (pretty (N.pos p)).
    by apply (ParseInt_pretty_N (N.pos p)).
  - change (pretty (Z.neg p)) with (String "-" (pretty (N.pos p))).
    unfold Strconv.ParseInt. rewrite decide_True by done.
    destruct (pretty_N_head (N.pos p)) as (m&r&Hm&E).
    rewrite decide_False by (rewrite E; done).
    rewrite digits_pretty_N. simpl. by rewrite decide_True.
Qed.

(** Every character [%d] prints for a natural number is a digit. *)
Lemma chars_pretty_N_go n s :
  Forall (λ c, is_Some (Strconv.digit_val c)) (chars s) →
  Forall (λ c, is_Some (Strconv.digit_val c)) (chars (pretty_N_go n s)).
Proof.
  revert n s. apply (pretty_N_go_ind (λ n s r,
    Forall (λ c, is_Some (Strconv.digit_val c)) (chars s) →
    Forall (λ c, is_Some (Strconv.digit_val c)) (chars r))); [done|].
  intros n s Hn IH Hs. apply IH. constructor; [|done].
  rewrite digit_val_pretty by (apply N.mod_lt; lia). eauto.
Qed.

Lemma chars_d z :
  0 ≤ z → Forall (λ c, is_Some (Strconv.digit_val c)) (chars (Fmt.d z)).
Proof.
  intros Hz. unfold Fmt.d. destruct z as [|p|p]; [..|lia].
  - repeat constructor. by eexists.
  - change (pretty (Z.pos p)) with (pretty (N.pos p)).
    unfold pretty, pretty_N. case_decide; [done|].
    apply chars_pretty_N_go. constructor.
Qed.

Lemma d_no_char c z :
  0 ≤ z → Strconv.digit_val c = None → ¬ has_char c (Fmt.d z).
Proof.
  intros Hz Hc Hin. pose proof (chars_d z Hz) as HF.
  rewrite Forall_forall in HF. apply HF in Hin. rewrite Hc in Hin.
  by destruct Hin.
Qed.

Lemma d_inj z1 z2 : Fmt.d z1 = Fmt.d z2 → z1 = z2.
Proof. intros E. by apply (inj pretty). Qed.
End parse_print.

#[export] Hint Resolve ParseInt_d : go.

(** ** Package strings, package sort, and [<] on strings *)

Module Strings.
(** [strings.HasPrefix(s, prefix)] *)
Definition HasPrefix (s prefix : string) : bool := String.prefix prefix s.

(** [strings.Contains(s, substr)] *)
Fixpoint Contains (s substr : string) : bool :=
  String.prefix substr s ||
  match s with
  | EmptyString => false
  | String _ s => Contains s substr
  end.

(** [strings.Join(l, sep)] *)
Fixpoint Join (l : list string) (sep : string) : string :=
  match l with
  | [] => ""
  | [x] => x
  | x :: l => x +:+ sep +:+ Join l sep
  end.

(** [a < b] on strings: bytewise lexicographic. *)
Definition lt (a b : string) : bool := String.ltb a b.

(** [sort.Strings] *)
Definition Sort (l : list string) : list string := merge_sort String.le l.
End Strings.

(** ** Package path: [Clean] *)

Module Path.
Definition slash : Ascii.ascii := "/"%char.

(** The components between slashes. *)
Fixpoint split (s : string) : list string :=
  match s with
  | EmptyString => [""]
  | String c s =>
      if decide (c = slash) then "" :: split s
      else match split s with
           | [] => [String c ""]
           | x :: l => String c x :: l
           end
  end.

(** One component against the stack of components already output: empty
    ones and [.] vanish, [..] removes the one before it, and at the root is
    dropped. *)
Definition clean_step (rooted : bool) (out : list string) (c : string) : list string :=
  if decide (c = "" ∨ c = ".") then out
  else if decide (c = "..") then
    match out with
    | top :: rest => if decide (top = "..") then c :: out else rest
    | [] => if rooted then [] else [c]
    end
  else c :: out.

Definition clean_comps (rooted : bool) (l : list string) : list string :=
  reverse (foldl (clean_step rooted) [] l).

Definition is_rooted (s : string) : bool :=
  match s with String c _ => bool_decide (c = slash) | EmptyString => false end.

Definition Clean (s : string) : string :=
  if decide (s = "") then "."
  else
    let body := Strings.Join (clean_comps (is_rooted s) (split s)) "/" in
    if is_rooted s then "/" +:+ body
    else if decide (body = "") then "." else body.
End Path.

(** ** Package time *)

Module Time.
Local Open Scope Z_scope.

(** A [time.Time] (and a [metav1.MicroTime]) is the number of nanoseconds
    since Go's zero time, so that [IsZero] is [= 0]. *)
Abbreviation t := Z.
Definition IsZero (x : t) : bool := bool_decide (x = 0).

Definition Nanosecond : Z := 1.
Definition Second : Z := 1000000000.
Definition Hour : Z := 3600 * Second.

Definition maxDuration : Z := 2 ^ 63 - 1.
Definition minDuration : Z := - 2 ^ 63.

(** [x.Sub(y)] saturates at the ends of the [Duration] range. *)
Definition Sub (x y : t) : Z := Z.max minDuration (Z.min maxDuration (x - y)).

(** [metav1.NewMicroTime(x)] wraps [x] unchanged. *)
Definition NewMicroTime (x : t) : t := x.
End Time.
