(* ===== verification/PathFacts.v ===== *)
(** * Containment paths

    [path.Clean] leaves a rooted path alone when its components are proper
    names, and the names the graph builder makes (a name followed by an
    index) are proper as soon as they hold no slash. *)

From Stdlib Require Import Ascii.
From stdpp Require Import prelude strings list pretty.
From S2P Require Import Prelude GoRuntime.

(** A component that [Clean] keeps. *)
Definition proper (c : string) : Prop :=
  c ≠ "" ∧ c ≠ "." ∧ c ≠ ".." ∧ ¬ has_char "/" c.

#[export] Instance proper_dec c : Decision (proper c).
Proof. unfold proper. apply _. Defined.

Lemma has_char_cons (c x : Ascii.ascii) s : has_char c (String x s) ↔ c = x ∨ has_char c s.
Proof. unfold has_char. simpl. by rewrite elem_of_cons. Qed.

Lemma Join_cons2 x y l sep :
  Strings.Join (x :: y :: l) sep = x +:+ sep +:+ Strings.Join (y :: l) sep.
Proof. done. Qed.

Lemma Join_snoc l x sep :
  l ≠ [] → Strings.Join (l ++ [x]) sep = Strings.Join l sep +:+ sep +:+ x.
Proof.
  induction l as [|y [|z l] IH]; intros Hl; [done|done|].
  change ((y :: z :: l) ++ [x]) with (y :: z :: (l ++ [x])).
  rewrite !Join_cons2. change (z :: l ++ [x]) with ((z :: l) ++ [x]).
  rewrite IH by done. by rewrite !string_app_assoc.
Qed.

Lemma split_slash s : Path.split ("/" +:+ s) = "" :: Path.split s.
Proof. done. Qed.

Lemma split_plain c : ¬ has_char "/" c → Path.split c = [c].
Proof.
  induction c as [|x c IH]; intros Hc; [done|]. rewrite has_char_cons in Hc. simpl.
  rewrite decide_False by naive_solver. by rewrite IH by naive_solver.
Qed.

Lemma split_app c s :
  ¬ has_char "/" c → Path.split (c +:+ "/" +:+ s) = c :: Path.split s.
Proof.
  induction c as [|x c IH]; intros Hc; [done|]. rewrite has_char_cons in Hc.
  change (Path.split (String x (c +:+ "/" +:+ s)) = String x c :: Path.split s). simpl.
  rewrite decide_False by naive_solver. by rewrite IH by naive_solver.
Qed.

Lemma split_Join l : l ≠ [] → Forall proper l → Path.split (Strings.Join l "/") = l.
Proof.
  induction l as [|x [|y l] IH]; intros Hl HF; [done|..].
  - apply split_plain. by apply Forall_cons in HF as [(?&?&?&?) _].
  - apply Forall_cons in HF as [Hx HF]. rewrite Join_cons2.
    rewrite split_app by apply Hx. by rewrite IH.
Qed.

Lemma clean_comps_proper l : Forall proper l → Path.clean_comps true l = l.
Proof.
  intros HF. unfold Path.clean_comps.
  assert (∀ out, foldl (Path.clean_step true) out l = reverse l ++ out) as ->.
  { induction HF as [|x l (H1&H2&H3&_) HF IH]; intros out; [done|]. simpl.
    unfold Path.clean_step at 2.
    rewrite decide_False by naive_solver. rewrite decide_False by done.
    rewrite IH, reverse_cons, <- app_assoc. done. }
  by rewrite app_nil_r, reverse_involutive.
Qed.

(** The path of a vertex, from the components under the root. *)
Definition path_of (comps : list string) : string := "/" +:+ Strings.Join comps "/".

Lemma Clean_path_of l : l ≠ [] → Forall proper l → Path.Clean (path_of l) = path_of l.
Proof.
  intros Hl HF. unfold path_of, Path.Clean. rewrite decide_False by done.
  change (Path.is_rooted ("/" +:+ Strings.Join l "/")) with true. cbv iota.
  rewrite split_slash. f_equal. f_equal.
  unfold Path.clean_comps. simpl. unfold Path.clean_step at 2.
  rewrite decide_True by auto. change (Path.clean_comps true (Path.split (Strings.Join l "/")) = l).
  rewrite split_Join by done. by apply clean_comps_proper.
Qed.

Lemma path_of_snoc l x : l ≠ [] → path_of (l ++ [x]) = path_of l +:+ "/" +:+ x.
Proof. intros Hl. unfold path_of. rewrite Join_snoc by done. by rewrite string_app_assoc. Qed.

(** A name with an index at its end is proper. *)
Lemma proper_indexed name i :
  ¬ has_char "/" name → (0 ≤ i)%Z → proper (name +:+ Fmt.d i).
Proof.
  intros Hn Hi.
  assert (∃ c, has_char c (name +:+ Fmt.d i) ∧ is_Some (Strconv.digit_val c)) as (c&Hc&Hd).
  { pose proof (chars_d i Hi) as HF.
    destruct (chars (Fmt.d i)) as [|c l] eqn:E.
    - exfalso. unfold Fmt.d in E. destruct i as [|p|p]; [done| |lia].
      change (pretty (Z.pos p)) with (pretty (N.pos p)) in E.
      destruct (pretty_N_head (N.pos p)) as (m&r&_&E'). by rewrite E' in E.
    - exists c. split; [|by apply Forall_cons in HF as [? _]].
      rewrite has_char_app. right. unfold has_char. rewrite E. by left. }
  assert (∀ s, has_char c s → s ≠ "" ∧ s ≠ "." ∧ s ≠ "..") as Hs.
  { intros s Hin. split_and!; intros ->; unfold has_char in Hin; simpl in Hin;
      repeat (apply elem_of_cons in Hin as [->|Hin]; [by destruct Hd|]);
      by apply elem_of_nil in Hin. }
  destruct (Hs _ Hc) as (?&?&?). split_and!; [done..|].
  rewrite has_char_app. intros [?|Hx]; [done|].
  by apply (d_no_char "/" i) in Hx.
Qed.
