(* ===== verification/Kube.v ===== *)
(** * Kubernetes data and the small shared packages

    - [QuantityLib]: [resource.Quantity] and the accessors of [ResourceList]
      of the Kubernetes API library, as parameters with their documented laws;
    - [corev1]: the fields of pods that the code reads;
    - [v1alpha1]: the PodGroup resource (apis/scheduling/v1alpha1/types.go);
    - [flabel], [fgroup]: packages pkg/fluence/labels and pkg/fluence/group;
    - [Upstream]: the two helper functions of libraries outside this
      repository that the plugin calls on pods. *)

From Stdlib Require Import Ascii.
From stdpp Require Import prelude gmap strings list fin_maps.
From S2P Require Import Prelude GoRuntime.

(** ** Quantities *)

Class QuantityLib := {
  Quantity : Type;
  (** the zero value of the Go struct *)
  Quantity_zero : Quantity;
  Quantity_Value : Quantity → Z;
  Quantity_MilliValue : Quantity → Z;
  (** [v.Add(w)]: the new value of [v] *)
  Quantity_Add : Quantity → Quantity → Quantity;
  (** accessors of [corev1.ResourceList] *)
  RL_Cpu : gmap string Quantity → Quantity;
  RL_Memory : gmap string Quantity → Quantity;
  RL_StorageEphemeral : gmap string Quantity → Quantity;
}.

Class QuantityLaws (Q : QuantityLib) : Prop := {
  Value_fits q : GoInt.fits 64 (Quantity_Value q);
  Value_zero : Quantity_Value Quantity_zero = 0%Z;
  RL_Cpu_spec rl : RL_Cpu rl = default Quantity_zero (rl !! "cpu");
  RL_Memory_spec rl : RL_Memory rl = default Quantity_zero (rl !! "memory");
  RL_StorageEphemeral_spec rl :
    RL_StorageEphemeral rl = default Quantity_zero (rl !! "ephemeral-storage");
}.

Module corev1.
Inductive PodPhase :=
| PodPending | PodRunning | PodSucceeded | PodFailed | PodUnknown
| PodPhaseOther (s : string).

#[export] Instance PodPhase_eq_dec : EqDecision PodPhase.
Proof. solve_decision. Defined.

(** The text of a phase, which is a string type in the API. *)
Definition PodPhase_string (p : PodPhase) : string :=
  match p with
  | PodPending => "Pending" | PodRunning => "Running"
  | PodSucceeded => "Succeeded" | PodFailed => "Failed"
  | PodUnknown => "Unknown" | PodPhaseOther s => s
  end.

Record OwnerReference := mkOwnerReference {
  owner_Kind : string;
  owner_Name : string;
  owner_UID : string;
}.

#[export] Instance OwnerReference_eq_dec : EqDecision OwnerReference.
Proof. solve_decision. Defined.

Section pod.
Context {Q : QuantityLib}.

Record Container := mkContainer {
  container_Requests : gmap string Quantity;
  container_Limits : gmap string Quantity;
}.

Record Pod := mkPod {
  pod_Name : string;
  pod_Namespace : string;
  pod_UID : string;
  pod_Labels : GoMap.t;
  pod_OwnerReferences : list OwnerReference;
  (** [None] for a nil or zero timestamp *)
  pod_DeletionTimestamp : option Time.t;
  pod_NodeName : string;
  pod_Containers : list Container;
  pod_Phase : PodPhase;
}.
End pod.
End corev1.
Export corev1.

Module v1alpha1.
Inductive PodGroupPhase :=
| PodGroupPhaseEmpty
| PodGroupPending | PodGroupRunning | PodGroupScheduling
| PodGroupUnknown | PodGroupFinished | PodGroupFailed
| PodGroupPhaseOther (s : string).

#[export] Instance PodGroupPhase_eq_dec : EqDecision PodGroupPhase.
Proof. solve_decision. Defined.

Definition PodGroupLabel : string := "scheduling.x-k8s.io/pod-group".

Section podgroup.
Context {Q : QuantityLib}.

Record PodGroupSpec := mkPodGroupSpec {
  spec_MinMember : Z;
  spec_MinResources : gmap string Quantity;
  spec_ScheduleTimeoutSeconds : option Z;
}.

Record PodGroupStatus := mkPodGroupStatus {
  status_Phase : PodGroupPhase;
  status_OccupiedBy : string;
  status_Running : Z;
  status_Succeeded : Z;
  status_Failed : Z;
  status_CreationTime : Time.t;
  status_ScheduleStartTime : Time.t;
}.

Record PodGroup := mkPodGroup {
  pg_Name : string;
  pg_Namespace : string;
  pg_OwnerReferences : list OwnerReference;
  pg_CreationTimestamp : Time.t;
  pg_Spec : PodGroupSpec;
  pg_Status : PodGroupStatus;
}.

(** Zero values of the structs. *)
Definition zeroSpec : PodGroupSpec := mkPodGroupSpec 0 ∅ None.
Definition zeroStatus : PodGroupStatus :=
  mkPodGroupStatus PodGroupPhaseEmpty "" 0 0 0 0 0.
Definition zeroPodGroup : PodGroup := mkPodGroup "" "" [] 0 zeroSpec zeroStatus.

Definition set_MinMember (n : Z) (pg : PodGroup) : PodGroup :=
  mkPodGroup (pg_Name pg) (pg_Namespace pg) (pg_OwnerReferences pg)
    (pg_CreationTimestamp pg)
    (mkPodGroupSpec n (spec_MinResources (pg_Spec pg))
       (spec_ScheduleTimeoutSeconds (pg_Spec pg)))
    (pg_Status pg).

Definition set_Status (st : PodGroupStatus) (pg : PodGroup) : PodGroup :=
  mkPodGroup (pg_Name pg) (pg_Namespace pg) (pg_OwnerReferences pg)
    (pg_CreationTimestamp pg) (pg_Spec pg) st.

Definition set_OwnerReferences (l : list OwnerReference) (pg : PodGroup) : PodGroup :=
  mkPodGroup (pg_Name pg) (pg_Namespace pg) l
    (pg_CreationTimestamp pg) (pg_Spec pg) (pg_Status pg).

(** The lists of the API, and the quotas that are part of it. *)
Record PodGroupList := mkPodGroupList { pgl_Items : list PodGroup }.

Record ElasticQuotaSpec := mkElasticQuotaSpec {
  eq_Min : gmap string Quantity;
  eq_Max : gmap string Quantity;
}.

Record ElasticQuotaStatus := mkElasticQuotaStatus { eq_Used : gmap string Quantity }.

Record ElasticQuota := mkElasticQuota {
  eq_Name : string;
  eq_Namespace : string;
  eq_Spec : ElasticQuotaSpec;
  eq_Status : ElasticQuotaStatus;
}.

Record ElasticQuotaList := mkElasticQuotaList { eql_Items : list ElasticQuota }.
End podgroup.
End v1alpha1.
Export v1alpha1.

(** Package pkg/fluence/labels. *)
Module flabel.
Definition PodGroupLabel : string := "scheduling.x-k8s.io/pod-group".
Definition PodGroupSizeLabel : string := "fluence.group-size".
Definition PodGroupTimeCreated : string := "flunce.created-at".

Section labels.
Context {Q : QuantityLib}.

Definition GetPodGroupLabel (pod : Pod) : string :=
  GoMap.index (pod_Labels pod) PodGroupLabel.

Definition GetPodGroupFullName (pod : Pod) : string :=
  let groupName := GetPodGroupLabel pod in
  if decide (String.length groupName = 0) then ""
  else pod_Namespace pod +:+ "/" +:+ groupName.

Definition GetPodGroupSize (pod : Pod) : string :=
  GoMap.index (pod_Labels pod) PodGroupSizeLabel.
End labels.
End flabel.

(** Helper functions of libraries outside the repository:
    [sigs.k8s.io/scheduler-plugins/pkg/util.GetPodGroupLabel] and
    [k8s.io/component-helpers/scheduling/corev1.PodPriority]. *)
Class Upstream {Q : QuantityLib} := {
  util_GetPodGroupLabel : Pod → string;
  corev1helpers_PodPriority : Pod → Z;
}.

Class UpstreamLaws {Q : QuantityLib} (U : Upstream) : Prop := {
  util_GetPodGroupLabel_spec pod :
    util_GetPodGroupLabel pod = flabel.GetPodGroupLabel pod;
}.

(** [framework.QueuedPodInfo]. *)
Record QueuedPodInfo {Q : QuantityLib} := mkQueuedPodInfo {
  queued_Pod : Pod;
  queued_InitialAttemptTimestamp : option Time.t;
}.

(** Package pkg/fluence/group. *)
Module fgroup.
Local Open Scope Z_scope.

Definition DefaultWaitTime : Z := 60 * Time.Second.

Section group.
Context {Q : QuantityLib}.

Definition CreateFakeGroup (pod : Pod) : PodGroup :=
  let groupName := "fluence-solo-" +:+ pod_Namespace pod +:+ "-" +:+ pod_Name pod in
  mkPodGroup groupName (pod_Namespace pod) [] 0 (mkPodGroupSpec 1 ∅ None) zeroStatus.

(** The timestamp the queue is sorted by; a nil attempt timestamp panics. *)
Definition GetCreationTimestamp (groupName : string) (podGroup : option PodGroup)
    (podInfo : QueuedPodInfo) : outcome Time.t :=
  match podGroup with
  | None =>
      t ← Go.deref (queued_InitialAttemptTimestamp podInfo);
      mret (Time.NewMicroTime t)
  | Some pg =>
      if negb (Time.IsZero (status_ScheduleStartTime (pg_Status pg)))
      then mret (status_ScheduleStartTime (pg_Status pg))
      else
        t ← Go.deref (queued_InitialAttemptTimestamp podInfo);
        mret (Time.NewMicroTime t)
  end.

Definition GetWaitTimeDuration (podGroup : option PodGroup)
    (scheduleTimeout : option Z) : Z :=
  match podGroup ≫= λ pg, spec_ScheduleTimeoutSeconds (pg_Spec pg) with
  | Some secs => GoInt.wrap 64 (secs * Time.Second)
  | None =>
      match scheduleTimeout with
      | Some d => if decide (d ≠ 0) then d else DefaultWaitTime
      | None => DefaultWaitTime
      end
  end.
End group.
End fgroup.

Section label_lemmas.
Context {Q : QuantityLib}.

(** The full name identifies both the namespace and the group name, because
    a namespace has no slash in it. *)
Lemma namespaced_inj (ns1 n1 ns2 n2 : string) :
  ¬ has_char "/"%char ns1 → ¬ has_char "/"%char ns2 →
  ns1 +:+ "/" +:+ n1 = ns2 +:+ "/" +:+ n2 → ns1 = ns2 ∧ n1 = n2.
Proof.
  unfold has_char.
  revert ns2. induction ns1 as [|c ns1 IH]; intros [|c' ns2] H1 H2 E.
  - split; [done|]. by injection E.
  - injection E as E1 E2. exfalso. apply H2. rewrite <- E1. simpl. set_solver.
  - injection E as E1 E2. exfalso. apply H1. rewrite E1. simpl. set_solver.
  - injection E as E1 E2. subst c'.
    destruct (IH ns2) as [-> ->]; [set_solver..|exact E2|done].
Qed.

Lemma length_zero_empty (s : string) : String.length s = 0 ↔ s = "".
Proof. destruct s; simpl; split; intros; [done..|lia|done]. Qed.
End label_lemmas.
