(* ===== verification/Wire.v ===== *)
(** * Messages of the Fluxion gRPC service

    The structs protoc generates from fluxcli-grpc/fluxcli.proto, field by
    field (the bookkeeping fields of the generated code are left out). *)

From stdpp Require Import prelude strings list.
From S2P Require Import Prelude.

(** [error] values are opaque to the code apart from their text. *)
Abbreviation error := string (only parsing).

(** The result of a call to code outside the repository that returns [(A, error)]. *)
Inductive go_result (A : Type) : Type :=
| OK (a : A)
| Err (e : error).
Arguments OK {A} a.
Arguments Err {A} e.

Module pb.
Record PodSpec := mkPodSpec {
  Id : string;
  Container : string;
  Cpu : Z;
  Memory : Z;
  Gpu : Z;
  Storage : Z;
  Labels : list string;
}.

Record MatchRequest := mkMatchRequest {
  (** a pointer in the message *)
  Ps : option PodSpec;
  Request : string;
  Count : Z;
}.

Record NodeAlloc := mkNodeAlloc {
  NodeID : string;
  Tasks : Z;
}.

Record MatchResponse := mkMatchResponse {
  PodID : string;
  Nodelist : list NodeAlloc;
  JobID : Z;
}.

Record CancelRequest := mkCancelRequest {
  cancel_JobID : Z;
}.

Record CancelResponse := mkCancelResponse {
  cancelled_JobID : Z;
  Error : Z;
}.

#[export] Instance PodSpec_eq_dec : EqDecision PodSpec.
Proof. solve_decision. Defined.
#[export] Instance NodeAlloc_eq_dec : EqDecision NodeAlloc.
Proof. solve_decision. Defined.
#[export] Instance MatchResponse_eq_dec : EqDecision MatchResponse.
Proof. solve_decision. Defined.
End pb.
