(* ===== verification/Env.v ===== *)
(** * Interfaces to the code outside the repository

    The scheduler plugin calls five outside parties. Each is a class of
    operations and, apart from it, a class of the laws its documentation
    states; definitions take the operations only, theorems name the laws they
    rely on.

    - [GoCacheLib]: the TTL cache of github.com/patrickmn/go-cache;
    - [CycleStateLib]: the per-cycle key/value store of the scheduling framework;
    - [Cluster W]: the controller-runtime client, the pod lister, the scheduler
      snapshot, the waiting pods and the clock, over a world [W] they may read
      and change;
    - [FluxService W]: the Fluxion gRPC service seen from the client;
    - [MapOrder]: the unspecified iteration order of Go maps. *)

From stdpp Require Import prelude gmap strings list fin_maps.
From S2P Require Import Prelude GoRuntime Kube Wire.

(** ** go-cache *)

Class GoCacheLib := {
  Cache : Type;
  (** [New(defaultExpiration, cleanupInterval)] *)
  cache_New : Z → Z → Cache;
  (** [Add(k, _, d)] at time [now]; the code ignores its error *)
  cache_Add : string → Z → Time.t → Cache → Cache;
  (** [_, found := Get(k)] at time [now] *)
  cache_Get : string → Time.t → Cache → bool;
  cache_Delete : string → Cache → Cache;
}.

Class GoCacheLaws (C : GoCacheLib) : Prop := {
  Get_New d i k t : cache_Get k t (cache_New d i) = false;
  (** a fresh item lives until [d] nanoseconds after it was added *)
  Get_Add_eq k d t0 t c :
    (0 < d)%Z → (t0 ≤ t)%Z → cache_Get k t0 c = false →
    cache_Get k t (cache_Add k d t0 c) = bool_decide (t ≤ t0 + d)%Z;
  (** an item that is present is kept as it is *)
  Get_Add_present k k' d t0 t c :
    cache_Get k t0 c = true → (t0 ≤ t)%Z →
    cache_Get k' t (cache_Add k d t0 c) = cache_Get k' t c;
  Get_Add_ne k k' d t0 t c :
    k ≠ k' → cache_Get k' t (cache_Add k d t0 c) = cache_Get k' t c;
  Get_Delete_eq k t c : cache_Get k t (cache_Delete k c) = false;
  Get_Delete_ne k k' t c :
    k ≠ k' → cache_Get k' t (cache_Delete k c) = cache_Get k' t c;
}.

(** ** CycleState *)

Inductive StateData {Q : QuantityLib} :=
| SD_Flux (NodeName : string)
| SD_Permit (Activate : bool)
| SD_PodsToActivate (Map : gmap string Pod)
(** data another plugin stored *)
| SD_Other.

Class CycleStateLib {Q : QuantityLib} := {
  CycleState : Type;
  (** [Read(key)]: [None] for a non-nil error *)
  cs_Read : string → CycleState → option StateData;
  cs_Write : string → StateData → CycleState → CycleState;
}.

Class CycleStateLaws {Q : QuantityLib} (S : CycleStateLib) : Prop := {
  cs_Read_Write_eq k d c : cs_Read k (cs_Write k d c) = Some d;
  cs_Read_Write_ne k k' d c : k ≠ k' → cs_Read k' (cs_Write k d c) = cs_Read k' c;
}.

(** ** The cluster *)

Class Cluster {Q : QuantityLib} (W : Type) := {
  (** [client.Get] of a PodGroup by namespace and name *)
  client_Get : string → string → W → go_result PodGroup * W;
  (** [podLister.Pods(ns).List(SelectorFromSet({key: value}))] *)
  lister_List : string → string * string → W → go_result (list Pod) * W;
  (** [snapshotSharedLister.NodeInfos().List()]: the pods of each node *)
  NodeInfos_List : W → go_result (list (list Pod)) * W;
  (** the waiting pods the framework iterates over *)
  WaitingPods : W → list Pod * W;
  waiting_Allow : string → Pod → W → W;
  waiting_Reject : string → string → Pod → W → W;
  time_Now : W → Time.t * W;
}.

(** ** The Fluxion service *)

Class FluxService (W : Type) := {
  grpc_Dial : W → option error * W;
  flux_Match : pb.MatchRequest → W → go_result pb.MatchResponse * W;
  flux_Cancel : pb.CancelRequest → W → go_result pb.CancelResponse * W;
}.

(** ** Iteration over a map *)

Class MapOrder := {
  range_order {V : Type} : gmap string V → list (string * V);
}.

Class MapOrderLaws (M : MapOrder) : Prop := {
  range_order_perm {V} (m : gmap string V) : range_order m ≡ₚ map_to_list m;
}.
