(* ===== verification/PodSpec.v ===== *)
(** * Package pkg/fluence/podspec: from a pod to the resources it asks for *)

From stdpp Require Import prelude gmap strings list fin_maps.
From S2P Require Import Prelude GoRuntime Kube Wire Env.

Local Open Scope Z_scope.

Section podspec.
Context {Q : QuantityLib} {MO : MapOrder}.

(** The values of the labels whose key mentions [jobspec]. *)
Definition getPodJobspecLabels (pod : Pod) : list string :=
  omap (λ '(label, value),
          if Strings.Contains label "jobspec" then Some value else None)
       (range_order (GoMap.entries (pod_Labels pod))).

(** The accumulators of the loop over the containers. *)
Record totals := mkTotals { cpus : Z; memory : Z; storage : Z; gpus : Z }.

Definition add_container (t : totals) (c : Container) : totals :=
  let specRequests := container_Requests c in
  let gpuSpec := default Quantity_zero (container_Limits c !! "nvidia.com/gpu") in
  mkTotals
    (GoInt.wrap 32 (cpus t + GoInt.wrap 32 (Quantity_Value (RL_Cpu specRequests))))
    (GoInt.wrap 64 (memory t + Quantity_Value (RL_Memory specRequests)))
    (GoInt.wrap 64 (storage t + Quantity_Value (RL_StorageEphemeral specRequests)))
    (GoInt.wrap 64 (gpus t + Quantity_Value gpuSpec)).

Definition PreparePodJobSpec (pod : Pod) (groupName : string) : pb.PodSpec :=
  let t := foldl add_container (mkTotals 0 0 0 0) (pod_Containers pod) in
  pb.mkPodSpec groupName groupName
    (if decide (cpus t = 0) then 1 else cpus t)
    (memory t) (gpus t) (storage t)
    (getPodJobspecLabels pod).

(** ** What the loop computes *)

Definition cpu_request (c : Container) : Z := Quantity_Value (RL_Cpu (container_Requests c)).
Definition memory_request (c : Container) : Z := Quantity_Value (RL_Memory (container_Requests c)).
Definition storage_request (c : Container) : Z :=
  Quantity_Value (RL_StorageEphemeral (container_Requests c)).
Definition gpu_limit (c : Container) : Z :=
  Quantity_Value (default Quantity_zero (container_Limits c !! "nvidia.com/gpu")).

Lemma add_container_totals cs a b s g :
  foldl add_container
    (mkTotals (GoInt.wrap 32 a) (GoInt.wrap 64 b) (GoInt.wrap 64 s) (GoInt.wrap 64 g)) cs
  = mkTotals (GoInt.wrap 32 (a + zsum (cpu_request <$> cs)))
             (GoInt.wrap 64 (b + zsum (memory_request <$> cs)))
             (GoInt.wrap 64 (s + zsum (storage_request <$> cs)))
             (GoInt.wrap 64 (g + zsum (gpu_limit <$> cs))).
Proof.
  revert a b s g. induction cs as [|c cs IH]; intros a b s g; csimpl.
  - by rewrite !Z.add_0_r.
  - unfold add_container at 2. simpl.
    rewrite !GoInt.wrap_add_r, !GoInt.wrap_add_l by done.
    rewrite IH. unfold cpu_request, memory_request, storage_request, gpu_limit.
    by rewrite !Z.add_assoc.
Qed.

(** The field the service divides by is never zero. *)
Lemma PreparePodJobSpec_Cpu_nonzero pod groupName :
  pb.Cpu (PreparePodJobSpec pod groupName) ≠ 0.
Proof. unfold PreparePodJobSpec. simpl. by case_decide. Qed.

Lemma PreparePodJobSpec_totals (pod : Pod) :
  foldl add_container (mkTotals 0 0 0 0) (pod_Containers pod)
  = mkTotals (GoInt.wrap 32 (zsum (cpu_request <$> pod_Containers pod)))
             (GoInt.wrap 64 (zsum (memory_request <$> pod_Containers pod)))
             (GoInt.wrap 64 (zsum (storage_request <$> pod_Containers pod)))
             (GoInt.wrap 64 (zsum (gpu_limit <$> pod_Containers pod))).
Proof.
  change (mkTotals 0 0 0 0) with
    (mkTotals (GoInt.wrap 32 0) (GoInt.wrap 64 0) (GoInt.wrap 64 0) (GoInt.wrap 64 0)).
  rewrite add_container_totals. by rewrite !Z.add_0_l.
Qed.

(** The label values that a jobspec carries, in some order. *)
Definition jobspec_values (m : gmap string string) : list string :=
  omap (λ '(label, value),
          if Strings.Contains label "jobspec" then Some value else None) (map_to_list m).

Lemma getPodJobspecLabels_perm `{!MapOrderLaws MO} (pod : Pod) :
  getPodJobspecLabels pod ≡ₚ jobspec_values (GoMap.entries (pod_Labels pod)).
Proof.
  unfold getPodJobspecLabels, jobspec_values. by rewrite range_order_perm.
Qed.

Lemma getPodJobspecLabels_elem `{!MapOrderLaws MO} (pod : Pod) v :
  v ∈ getPodJobspecLabels pod ↔
  ∃ k, GoMap.get (pod_Labels pod) k = Some v ∧ Strings.Contains k "jobspec" = true.
Proof.
  rewrite getPodJobspecLabels_perm. unfold jobspec_values.
  rewrite list_elem_of_omap. split.
  - intros ([k v']&Hin&E). apply elem_of_map_to_list in Hin.
    destruct (Strings.Contains k "jobspec") eqn:EC; simplify_eq.
    exists k. split; [|done]. unfold GoMap.entries in Hin.
    by destruct (pod_Labels pod).
  - intros (k&Hk&HC). exists (k, v). rewrite HC. split; [|done].
    apply elem_of_map_to_list. unfold GoMap.entries.
    by destruct (pod_Labels pod).
Qed.

(** C21: The job request of a pod carries the sums over its containers, in 32 or 64
    bits, exact when they fit, with at least one cpu in place of zero, and as labels the
    values of the pod's labels whose key mentions jobspec. *)
Theorem PreparePodJobSpec_correct `{!MapOrderLaws MO} (pod : Pod) (groupName : string) :
  let cpu := zsum (cpu_request <$> pod_Containers pod) in
  let mem := zsum (memory_request <$> pod_Containers pod) in
  let sto := zsum (storage_request <$> pod_Containers pod) in
  let gpu := zsum (gpu_limit <$> pod_Containers pod) in
  let ps := PreparePodJobSpec pod groupName in
  pb.Id ps = groupName ∧ pb.Container ps = groupName ∧
  pb.Cpu ps = (if decide (GoInt.wrap 32 cpu = 0) then 1 else GoInt.wrap 32 cpu) ∧
  (0 ≤ cpu < 2 ^ 31 → pb.Cpu ps = Z.max 1 cpu) ∧
  (GoInt.fits 64 mem → pb.Memory ps = mem) ∧
  (GoInt.fits 64 sto → pb.Storage ps = sto) ∧
  (GoInt.fits 64 gpu → pb.Gpu ps = gpu) ∧
  (∀ v, v ∈ pb.Labels ps ↔
     ∃ k, GoMap.get (pod_Labels pod) k = Some v ∧ Strings.Contains k "jobspec" = true).
Proof.
  intros cpu mem sto gpu ps. unfold ps, PreparePodJobSpec.
  rewrite PreparePodJobSpec_totals. simpl. fold cpu mem sto gpu.
  split_and!; [done..| | | | |].
  - intros Hc. rewrite GoInt.wrap_id by (unfold GoInt.fits; lia). case_decide; lia.
  - intros. by apply GoInt.wrap_id.
  - intros. by apply GoInt.wrap_id.
  - intros. by apply GoInt.wrap_id.
  - intros v. apply getPodJobspecLabels_elem.
Qed.
End podspec.
