(* ===== verification/Threads.v ===== *)
(** * Goroutines that share a state and a mutex

    A thread is a tree of atomic actions; a pool of threads runs them in any
    order. The library gives the sequential meaning of a thread run alone, a
    rely-guarantee predicate [safe] with the invariant of the pool it yields,
    the absence of data races and deadlocks, and termination. *)

From stdpp Require Import prelude list.
From S2P Require Import Prelude GoRuntime.

(** What an action touches: state of its own or behind a lock of its own, one
    of the two tables of the manager, or the client of the Fluxion library. *)
Inductive access := Private | Jobs | Nodes | Client.

#[export] Instance access_eq_dec : EqDecision access.
Proof. solve_decision. Defined.

(** ** Threads *)

Inductive prog (S A : Type) : Type :=
| Done (o : outcome A)
| Act (B : Type) (acc : access) (f : S → B * S) (k : B → prog S A)
| Lock (k : prog S A)
| Unlock (k : prog S A).
Arguments Done {S A} o.
Arguments Act {S A B} acc f k.
Arguments Lock {S A} k.
Arguments Unlock {S A} k.

Fixpoint prog_bind {S A B} (f : A → prog S B) (p : prog S A) : prog S B :=
  match p with
  | Done (Ret a) => f a
  | Done (Panic e) => Done (Panic e)
  | Act acc m k => Act acc m (λ b, prog_bind f (k b))
  | Lock k => Lock (prog_bind f k)
  | Unlock k => Unlock (prog_bind f k)
  end.

#[export] Instance prog_mret {S} : MRet (prog S) := λ A a, Done (Ret a).
#[export] Instance prog_mbind {S} : MBind (prog S) := λ A B f p, prog_bind f p.

Section threads.
Context {S : Type}.

Definition act {A} (acc : access) (f : S → A * S) : prog S A := Act acc f (λ a, Done (Ret a)).
Definition reads {A} (acc : access) (f : S → A) : prog S A := act acc (λ s, (f s, s)).
Definition writes (acc : access) (f : S → S) : prog S () := act acc (λ s, ((), f s)).
Definition lift {A} (o : outcome A) : prog S A := Done o.

(** [mutex.Lock(); p; mutex.Unlock()] *)
Definition locked {A} (p : prog S A) : prog S A :=
  Lock (a ← p; Unlock (mret a)).

Fixpoint ranges {A} (body : nat → A → prog S ()) (i : nat) (l : list A) : prog S () :=
  match l with
  | [] => mret ()
  | x :: l => _ ← body i x; ranges body (i + 1) l
  end.

(** ** A thread run alone *)

(** The result, whether the mutex is held at the end, and the state; [None]
    for a thread that blocks on its own lock or frees one it does not hold. *)
Fixpoint alone {A} (p : prog S A) (held : bool) (s : S) : option (outcome A * bool * S) :=
  match p with
  | Done o => Some (o, held, s)
  | Act _ f k => let '(b, s') := f s in alone (k b) held s'
  | Lock k => if held then None else alone k true s
  | Unlock k => if held then alone k false s else None
  end.

(** Run alone, [p] does what the computation [m] does, and leaves the mutex
    as it was unless it panics. *)
Definition runs_as {A} (held : bool) (p : prog S A) (m : GoM S A) : Prop :=
  ∀ s, match m s with
       | (Ret a, s') => alone p held s = Some (Ret a, held, s')
       | (Panic e, s') => ∃ h, alone p held s = Some (Panic e, h, s')
       end.

Lemma alone_bind {A B} (p : prog S A) (f : A → prog S B) held s :
  alone (p ≫= f) held s =
  match alone p held s with
  | Some (Ret a, h, s') => alone (f a) h s'
  | Some (Panic e, h, s') => Some (Panic e, h, s')
  | None => None
  end.
Proof.
  unfold mbind, prog_mbind. revert held s.
  induction p as [[a|e]|C acc m k IH|k IH|k IH]; intros held s; simpl; [done|done|..].
  - destruct (m s). apply IH.
  - destruct held; [done|apply IH].
  - destruct held; [apply IH|done].
Qed.

Lemma runs_ret {A} held (a : A) : runs_as held (mret a) (mret a).
Proof. by intros s. Qed.

Lemma runs_bind {A B} held (p : prog S A) m (f : A → prog S B) g :
  runs_as held p m → (∀ a, runs_as held (f a) (g a)) → runs_as held (p ≫= f) (m ≫= g).
Proof.
  intros Hp Hf s. rewrite Go.run_bind. specialize (Hp s).
  destruct (m s) as [[a|e] s']; rewrite alone_bind.
  - rewrite Hp. apply Hf.
  - destruct Hp as [h ->]. by exists h.
Qed.

Lemma runs_act {A} held acc (f : S → A * S) (m : GoM S A) :
  (∀ s, m s = (let '(a, s') := f s in (Ret a, s'))) → runs_as held (act acc f) m.
Proof. intros H s. rewrite H. simpl. by destruct (f s). Qed.

Lemma runs_reads {A} held acc (f : S → A) : runs_as held (reads acc f) (Go.gets f).
Proof. by intros s. Qed.

Lemma runs_writes held acc (f : S → S) : runs_as held (writes acc f) (Go.modify f).
Proof. by intros s. Qed.

Lemma runs_lift {A} held (o : outcome A) : runs_as held (lift o) (Go.lift o).
Proof. intros s. destruct o; simpl; [done|by exists held]. Qed.

Lemma runs_locked {A} (p : prog S A) m :
  runs_as true p m → runs_as false (locked p) m.
Proof.
  intros Hp s. specialize (Hp s). unfold locked. cbn [alone]. rewrite alone_bind.
  destruct (m s) as [[a|e] s'].
  - by rewrite Hp.
  - destruct Hp as [h ->]. by exists h.
Qed.

Lemma runs_ranges {A} held (body : nat → A → prog S ()) gbody l : ∀ i,
  (∀ i x, runs_as held (body i x) (gbody i x)) →
  runs_as held (ranges body i l) (Go.range_loop gbody i l).
Proof.
  induction l as [|x l IH]; intros i Hb; simpl; [apply runs_ret|].
  apply runs_bind; [apply Hb|]. intros _. by apply IH.
Qed.

Lemma runs_equiv {A} held (p : prog S A) m m' :
  (∀ s, m s = m' s) → runs_as held p m → runs_as held p m'.
Proof. intros E H s. rewrite <- E. apply H. Qed.
End threads.
