(* ===== verification/Pool.v ===== *)
(** * Pools of goroutines: semantics, program logic, soundness

    [pstep] interleaves the atomic actions of any number of threads that share
    a state and a mutex; threads can be started at any time, and at most one of
    them is the scheduling goroutine, which takes up one call after the other.
    A [Protocol] says what the threads may do to each other: an invariant over
    the state and a ghost, what a thread relies on and guarantees, and which
    accesses are open to it. A program logic ([triple]) for single threads is
    sound for the pool: in every reachable pool the invariant holds, no two
    threads are about to touch a table that needs exclusive access, somebody
    can always move, and nobody runs for ever. *)

From Stdlib Require Import Wellfounded.Inverse_Image.
From stdpp Require Import prelude list relations strings.
From S2P Require Import Prelude GoRuntime Threads.

(** ** Semantics *)

(** [R] is what the calls of the threads return. *)
Record thread (S R : Type) := mkThread {
  is_sched : bool;
  code : prog S R;
}.
Arguments mkThread {S R} is_sched code.
Arguments is_sched {S R} _.
Arguments code {S R} _.

(** [owner] is the thread that holds the mutex. *)
Record pool (S R : Type) := mkPool {
  threads : list (thread S R);
  owner : option nat;
  shared : S;
}.
Arguments mkPool {S R} threads owner shared.
Arguments threads {S R} _.
Arguments owner {S R} _.
Arguments shared {S R} _.

(** The next step of thread [i], [None] when it has ended or has to wait. *)
Definition tstep {S A} (i : nat) (o : option nat) (p : prog S A) (s : S)
    : option (prog S A * option nat * S) :=
  match p with
  | Done _ => None
  | Act _ f k => let '(b, s') := f s in Some (k b, o, s')
  | Lock k => match o with None => Some (k, Some i, s) | Some _ => None end
  | Unlock k => if decide (o = Some i) then Some (k, None, s) else None
  end.

(** The table a thread is about to touch. *)
Definition touches {S A} (p : prog S A) : option access :=
  match p with Act acc _ _ => Some acc | _ => None end.

Definition ended {S A} (p : prog S A) : bool :=
  match p with Done _ => true | _ => false end.

(** A thread of the pool takes a step. *)
Inductive run {S R} (ps : pool S R) : pool S R → Prop :=
| run_thread i t p' o' s' :
    threads ps !! i = Some t →
    tstep i (owner ps) (code t) (shared ps) = Some (p', o', s') →
    run ps (mkPool (<[i := mkThread (is_sched t) p']> (threads ps)) o' s').

(** What the threads may be: [entry] for the calls of the scheduling
    goroutine, [handler] for the code of all others, [env] for changes of the
    state from elsewhere. *)
Record Goroutines (S R : Type) := mkGoroutines {
  entry : prog S R → Prop;
  handler : prog S R → Prop;
  env : S → S → Prop;
}.
Arguments entry {S R} _ _.
Arguments handler {S R} _ _.
Arguments env {S R} _ _ _.

Inductive pstep {S R} (wl : Goroutines S R) (ps : pool S R) : pool S R → Prop :=
| pstep_run ps' : run ps ps' → pstep wl ps ps'
| pstep_handler p :
    handler wl p →
    pstep wl ps (mkPool (threads ps ++ [mkThread false p]) (owner ps) (shared ps))
| pstep_entry i a p :
    threads ps !! i = Some (mkThread true (Done (Ret a))) → entry wl p →
    pstep wl ps (mkPool (<[i := mkThread true p]> (threads ps)) (owner ps) (shared ps))
| pstep_env s' :
    env wl (shared ps) s' → pstep wl ps (mkPool (threads ps) (owner ps) s').

(** The scheduling goroutine, about to take up its first call. *)
Definition start_pool {S R} (r : R) (s : S) : pool S R :=
  mkPool [mkThread true (Done (Ret r))] None s.

(** Threads without a scheduling goroutine, before their first steps. *)
Definition start {S R} (progs : list (prog S R)) (s : S) : pool S R :=
  mkPool (mkThread false <$> progs) None s.

(** Two threads that are about to touch the same table. *)
Definition race {S R} (acc : access) (ps : pool S R) : Prop :=
  ∃ i j t u, i ≠ j ∧ threads ps !! i = Some t ∧ threads ps !! j = Some u ∧
    touches (code t) = Some acc ∧ touches (code u) = Some acc.

(** *** Running a given schedule *)

Definition step_thread {S R} (i : nat) (ps : pool S R) : option (pool S R) :=
  t ← threads ps !! i;
  '(p', o', s') ← tstep i (owner ps) (code t) (shared ps);
  Some (mkPool (<[i := mkThread (is_sched t) p']> (threads ps)) o' s').

Fixpoint run_schedule {S R} (l : list nat) (ps : pool S R) : option (pool S R) :=
  match l with
  | [] => Some ps
  | i :: l => ps' ← step_thread i ps; run_schedule l ps'
  end.

Lemma step_thread_run {S R} i (ps ps' : pool S R) : step_thread i ps = Some ps' → run ps ps'.
Proof.
  unfold step_thread. intros (t&Ht&E)%bind_Some. apply bind_Some in E as ([[p' o'] s']&Es&E).
  injection E as <-. by eapply run_thread.
Qed.

Lemma run_schedule_run {S R} l (ps ps' : pool S R) : run_schedule l ps = Some ps' → rtc run ps ps'.
Proof.
  revert ps. induction l as [|i l IH]; intros ps; [by intros [= ->]|].
  intros (ps1&H1&H2)%bind_Some. eapply rtc_l; [by eapply step_thread_run|by apply IH].
Qed.

(** ** Termination *)

Section termination.
Context {S R : Type}.

(** [q] is what can be left of [p] after one step. *)
Definition child {A} (q p : prog S A) : Prop :=
  match p with
  | Done _ => False
  | Act _ _ k => ∃ b, q = k b
  | Lock k | Unlock k => q = k
  end.

Lemma child_wf {A} : well_founded (child (A:=A)).
Proof.
  intros p. induction p as [o|B acc f k IH|k IH|k IH]; constructor; intros q Hq.
  - done.
  - destruct Hq as [b ->]. apply IH.
  - by rewrite Hq.
  - by rewrite Hq.
Qed.

Lemma tstep_child {A} i o (p p' : prog S A) s o' s' :
  tstep i o p s = Some (p', o', s') → child p' p.
Proof.
  destruct p as [|B acc f k|k|k]; simpl; [done|..].
  - destruct (f s) as [b ?]. intros [= <- _ _]. by exists b.
  - by destruct o; intros [= <- _ _].
  - case_decide; by intros [= <- _ _].
Qed.

(** One element of a list gets smaller. *)
Definition one_smaller {A} (rel : A → A → Prop) (l' l : list A) : Prop :=
  ∃ i x x', l !! i = Some x ∧ l' = <[i := x']> l ∧ rel x' x.

Lemma one_smaller_acc {A} (rel : A → A → Prop) (l : list A) :
  Forall (Acc rel) l → Acc (one_smaller rel) l.
Proof.
  induction 1 as [|x l Hx _ IHl]; [by constructor; intros ? (?&?&?&?&_)|].
  revert l IHl. induction Hx as [x _ IHx]. intros l Hl.
  induction Hl as [l Hl IHl]. constructor. intros k ([|i]&y&y'&E&->&HR); simpl in *.
  - injection E as <-. apply (IHx y' HR). by constructor.
  - apply IHl. by exists i, y, y'.
Qed.

Lemma run_smaller (ps ps' : pool S R) :
  run ps ps' → one_smaller (λ t' t, child (code t') (code t)) (threads ps') (threads ps).
Proof.
  intros [i t p' o' s' Ht Hs]. eexists i, t, _. split; [done|].
  split; [reflexivity|]. by eapply tstep_child.
Qed.

(** No run of the threads' steps is infinite. *)
Lemma run_terminates (ps : pool S R) : Acc (λ ps' ps, run ps ps') ps.
Proof.
  assert (Acc (λ a b, one_smaller (λ t' t, child (code t') (code t)) (threads a) (threads b)) ps)
    as Hacc.
  { apply (Acc_inverse_image _ _ _ threads), one_smaller_acc, Forall_forall.
    intros t _. apply (Acc_inverse_image _ _ _ code), child_wf. }
  induction Hacc as [ps _ IH]. constructor. intros ps' Hr. apply IH. by apply run_smaller.
Qed.
End termination.

(** ** Protocols *)

(** The flags of a thread: whether it is the scheduling goroutine, and
    whether it holds the mutex. [ghost] is state of the proof only. *)
Class Protocol (S R : Type) := {
  ghost : Type;
  inv : ghost * S → Prop;
  rely : bool → bool → ghost * S → ghost * S → Prop;
  guar : bool → bool → ghost * S → ghost * S → Prop;
  (** what the mutex protects is in order *)
  free : ghost * S → Prop;
  (** between two calls of the scheduling goroutine, the first of which has
      returned this *)
  idle : R → ghost * S → Prop;
  may : bool → bool → access → Prop;
}.

Class ProtocolLaws {S R} (P : Protocol S R) (wl : Goroutines S R) : Prop := {
  rely_refl c h x : rely c h x x;
  rely_trans c h x y z : rely c h x y → rely c h y z → rely c h x z;
  (** neither the flag of the scheduler nor the mutex is shared *)
  guar_rely c h c' h' x y :
    ¬ (c = true ∧ c' = true) → ¬ (h = true ∧ h' = true) →
    guar c h x y → rely c' h' x y;
  guar_free c x y : guar c false x y → free x → free y;
  rely_idle h r x y : rely true h x y → idle r x → idle r y;
  env_ok g s s' :
    env wl s s' → inv (g, s) →
    inv (g, s') ∧ (∀ c h, rely c h (g, s) (g, s')) ∧ (free (g, s) → free (g, s'));
}.

Section logic.
Context {S R : Type} {P : Protocol S R} {wl : Goroutines S R} {PL : ProtocolLaws P wl}.
Implicit Types (c h : bool) (x y : ghost * S).

(** A thread is safe from [x] on with postcondition [Q]: whatever the others
    did in the meantime, its next action is allowed, keeps the invariant and
    is what it guarantees, and it is safe from there on. It gives up the mutex
    only in good order, never locks twice, and ends without the mutex if it
    panics. *)
Fixpoint safe {A} c h (p : prog S A) (Q : A → bool → ghost * S → Prop) x : Prop :=
  ∀ y, inv y → rely c h x y →
  match p with
  | Done (Ret a) => Q a h y
  | Done (Panic _) => h = false
  | Act acc f k =>
      may c h acc ∧ ∃ g, let z := (g, (f y.2).2) in
        inv z ∧ guar c h y z ∧ safe c h (k (f y.2).1) Q z
  | Lock k => h = false ∧ (free y → safe c true k Q y)
  | Unlock k => h = true ∧ free y ∧ safe c false k Q y
  end.

Lemma safe_stable {A} c h (p : prog S A) Q x y :
  safe c h p Q x → rely c h x y → safe c h p Q y.
Proof. destruct p; intros Hs Hxy z Hz Hyz; (apply Hs; [done|by eapply rely_trans]). Qed.

Lemma safe_close {A} c h (p : prog S A) Q x :
  (∀ y, inv y → rely c h x y → safe c h p Q y) → safe c h p Q x.
Proof. destruct p; intros Hs y Hy Hxy; (apply (Hs y); [done|done|done|apply rely_refl]). Qed.

Lemma safe_mono {A} c h (p : prog S A) Q Q' x :
  (∀ a h' y, inv y → Q a h' y → Q' a h' y) → safe c h p Q x → safe c h p Q' x.
Proof.
  intros HQ. revert h x. induction p as [[a|e]|B acc f k IH|k IH|k IH];
    intros h x Hs y Hy Hxy; specialize (Hs y Hy Hxy); simpl in Hs.
  - by apply HQ.
  - done.
  - destruct Hs as (?&g&?&?&?). split; [done|]. exists g. split; [done|]. split; [done|]. eauto.
  - destruct Hs as [? Hs]. split; [done|]. intros Hf. by apply IH, Hs.
  - destruct Hs as (?&?&?). split; [done|]. split; [done|]. by apply IH.
Qed.

Lemma safe_bind {A B} c h (p : prog S A) (f : A → prog S B) Q x :
  safe c h p (λ a h' y, safe c h' (f a) Q y) x → safe c h (p ≫= f) Q x.
Proof.
  unfold mbind, prog_mbind. revert h x.
  induction p as [[a|e]|C acc m k IH|k IH|k IH]; intros h x Hs; simpl prog_bind.
  - apply safe_close. intros y Hy Hxy. by apply (Hs y).
  - exact Hs.
  - intros y Hy Hxy. destruct (Hs y Hy Hxy) as (?&g&?&?&?). split; [done|].
    exists g. split; [done|]. split; [done|]. by apply IH.
  - intros y Hy Hxy. destruct (Hs y Hy Hxy) as [? Hs']. split; [done|].
    intros Hf. by apply IH, Hs'.
  - intros y Hy Hxy. destruct (Hs y Hy Hxy) as (?&?&?). split; [done|].
    split; [done|]. by apply IH.
Qed.

(** ** Triples *)

(** A condition the other threads cannot break. *)
Definition stable c h (pre : ghost * S → Prop) : Prop :=
  ∀ x y, inv x → inv y → rely c h x y → pre x → pre y.

(** From a state with [pre] the thread is safe, and ends with the mutex held
    as [h'] says and with [post]. *)
Definition triple {A} c h (pre : ghost * S → Prop) (p : prog S A) h'
    (post : A → ghost * S → Prop) : Prop :=
  ∀ x, inv x → pre x → safe c h p (λ a h'' y, h'' = h' ∧ post a y) x.

Lemma triple_conseq {A} c h h' (p : prog S A) (pre pre' : ghost * S → Prop) post post' :
  triple c h pre p h' post → (∀ x, inv x → pre' x → pre x) →
  (∀ a x, inv x → post a x → post' a x) → triple c h pre' p h' post'.
Proof.
  intros Ht Hpre Hpost x Hx Hp. eapply safe_mono; [|apply Ht; auto].
  intros a h1 y Hy [-> Hq]. split; [done|]. by apply Hpost.
Qed.

Lemma triple_ret {A} c h (a : A) (pre : ghost * S → Prop) (post : A → ghost * S → Prop) :
  stable c h pre → (∀ x, inv x → pre x → post a x) → triple c h pre (mret a) h post.
Proof. intros Hst Hp x Hx Hpre y Hy Hxy. split; [done|]. apply Hp; [done|]. by apply (Hst x y). Qed.

Lemma triple_bind {A B} c h h' h'' (p : prog S A) (f : A → prog S B) pre mid post :
  triple c h pre p h' mid → (∀ a, triple c h' (mid a) (f a) h'' post) →
  triple c h pre (p ≫= f) h'' post.
Proof.
  intros Hp Hf x Hx Hpre. apply safe_bind. eapply safe_mono; [|by apply Hp].
  intros a h1 y Hy [-> Hm]. by apply Hf.
Qed.

Lemma triple_act {A} c h acc (f : S → A * S) pre (post : A → ghost * S → Prop) :
  stable c h pre → (∀ a, stable c h (post a)) → may c h acc →
  (∀ g s, inv (g, s) → pre (g, s) →
     ∃ g', let z := (g', (f s).2) in inv z ∧ guar c h (g, s) z ∧ post (f s).1 z) →
  triple c h pre (act acc f) h post.
Proof.
  intros Hpre Hpost Hmay Hf x Hx Hp [g s] Hy Hxy. split; [done|].
  destruct (Hf g s Hy) as (g'&Hz&Hg&Hq); [by apply (Hpre x (g, s))|].
  exists g'. split; [done|]. split; [done|].
  intros z Hz' Hzz. split; [done|]. by apply (Hpost _ (g', (f s).2) z).
Qed.

Lemma triple_panic {A} c (e : string) pre (post : A → ghost * S → Prop) :
  triple c false pre (Done (Panic e)) false post.
Proof. by intros x Hx Hp y Hy Hxy. Qed.

Lemma triple_lift {A} c (o : outcome A) pre (post : A → ghost * S → Prop) :
  stable c false pre → (∀ a x, o = Ret a → pre x → post a x) →
  triple c false pre (lift o) false post.
Proof.
  intros Hst Hp. destruct o as [a|e]; [|apply triple_panic].
  apply (triple_ret c false a); [done|]. eauto.
Qed.

Lemma triple_locked {A} c (p : prog S A) pre (post : A → ghost * S → Prop) :
  stable c false pre → (∀ a, stable c false (post a)) →
  (∀ a, stable c true (λ x, post a x ∧ free x)) →
  triple c true (λ x, pre x ∧ free x) p true (λ a x, post a x ∧ free x) →
  triple c false pre (locked p) false post.
Proof.
  intros Hpre Hpost Hpf Hp x Hx Hpx y Hy Hxy. split; [done|]. intros Hfree.
  apply safe_bind. eapply safe_mono; [|apply Hp; [done|]].
  2:{ split; [by apply (Hpre x y)|done]. }
  intros a h z Hz [-> Hq] z' Hz' Hzz. split; [done|].
  assert (post a z' ∧ free z') as [Hq' Hf'] by (by apply (Hpf a z z')).
  split; [done|]. intros w Hw Hzw. split; [done|]. by apply (Hpost a z' w).
Qed.

Lemma triple_ranges {A} c h (body : nat → A → prog S ()) (pre : ghost * S → Prop) (l : list A) : ∀ i,
  stable c h pre →
  (∀ i a, a ∈ l → triple c h pre (body i a) h (λ _, pre)) →
  triple c h pre (ranges body i l) h (λ _, pre).
Proof.
  induction l as [|a l IH]; intros i Hst Hb; simpl; [by apply triple_ret|].
  refine (triple_bind c h h h _ _ _ (λ _, pre) _ (Hb i a _) _); [by left|].
  intros _. apply IH; [done|].
  intros j y Hy. apply Hb. by right.
Qed.

(** Fresh code can be run by a thread. *)
Definition well_behaved c (pre : ghost * S → Prop) (p : prog S R) : Prop :=
  triple c false pre p false (λ r x, c = true → idle r x).

(** ** Soundness *)

Definition holds (ps : pool S R) (i : nat) : bool := bool_decide (owner ps = Some i).

Definition thread_ok (ps : pool S R) g (i : nat) (t : thread S R) : Prop :=
  safe (is_sched t) (holds ps i) (code t)
    (λ r h y, h = false ∧ (is_sched t = true → idle r y)) (g, shared ps).

Record pool_ok (ps : pool S R) (g : ghost) : Prop := {
  ok_inv : inv (g, shared ps);
  ok_free : owner ps = None → free (g, shared ps);
  ok_owner i : owner ps = Some i → is_Some (threads ps !! i);
  ok_threads i t : threads ps !! i = Some t → thread_ok ps g i t;
  ok_sched i j t u : threads ps !! i = Some t → threads ps !! j = Some u →
    is_sched t = true → is_sched u = true → i = j;
}.

(** The state and the mutex after a step of thread [i], as the other threads
    and the mutex see it. *)
Lemma pool_ok_step ps g i t p' o' s' g' :
  pool_ok ps g → threads ps !! i = Some t →
  (∀ j, j ≠ i → bool_decide (o' = Some j) = holds ps j) →
  inv (g', s') →
  guar (is_sched t) (holds ps i) (g, shared ps) (g', s') ∨ (g' = g ∧ s' = shared ps) →
  (o' = None → free (g', s')) →
  (∀ j, o' = Some j → is_Some (threads ps !! j)) →
  safe (is_sched t) (bool_decide (o' = Some i)) p'
    (λ r h y, h = false ∧ (is_sched t = true → idle r y)) (g', s') →
  pool_ok (mkPool (<[i := mkThread (is_sched t) p']> (threads ps)) o' s') g'.
Proof.
  intros [H1 H2 H3 H4 H5] Ht Ho Hinv Hg Hf Hown Hs. split; simpl; [done|done|..].
  - intros j Hj. destruct (Hown j Hj) as [u Hu].
    apply lookup_lt_is_Some. rewrite length_insert. by apply lookup_lt_Some in Hu.
  - intros j u Hu. destruct (decide (j = i)) as [->|Hne].
    + rewrite list_lookup_insert_eq in Hu by (by eapply lookup_lt_Some).
      injection Hu as <-. exact Hs.
    + rewrite list_lookup_insert_ne in Hu by done. specialize (H4 j u Hu).
      unfold thread_ok, holds in *. simpl. rewrite Ho by done.
      eapply safe_stable; [exact H4|]. destruct Hg as [Hg|[-> ->]]; [|apply rely_refl].
      eapply guar_rely, Hg.
      * intros [? ?]. apply Hne. by eapply (H5 j i u t).
      * unfold holds. rewrite !bool_decide_eq_true. intros [E1 E2]. congruence.
  - intros j k u v Hu Hv Hcu Hcv.
    assert (∀ j u, <[i:=mkThread (is_sched t) p']> (threads ps) !! j = Some u →
      is_sched u = true → ∃ u', threads ps !! j = Some u' ∧ is_sched u' = true) as Hback.
    { intros j' u' Hj' Hc. destruct (decide (j' = i)) as [->|Hne].
      - rewrite list_lookup_insert_eq in Hj' by (by eapply lookup_lt_Some).
        injection Hj' as <-. eauto.
      - rewrite list_lookup_insert_ne in Hj' by done. eauto. }
    destruct (Hback j u Hu Hcu) as (u'&Hu'&?). destruct (Hback k v Hv Hcv) as (v'&Hv'&?).
    by eapply (H5 j k u' v').
Qed.

Lemma run_ok ps ps' g : pool_ok ps g → run ps ps' → ∃ g', pool_ok ps' g'.
Proof.
  intros Hok [i t p' o' s' Ht Hs].
  pose proof (ok_threads _ _ Hok i t Ht) as Hsafe. unfold thread_ok in Hsafe.
  pose proof (ok_inv _ _ Hok) as Hinv.
  destruct (code t) as [o|B acc f k|k|k] eqn:Ec; simpl in Hs; [done|..];
    specialize (Hsafe _ Hinv (rely_refl _ _ _)); simpl in Hsafe.
  - destruct Hsafe as (Hmay&g'&Hz&Hg&Hk). destruct (f (shared ps)) as [b s1] eqn:Ef.
    simplify_eq/=. exists g'. eapply (pool_ok_step ps g); eauto.
    + intros Ho. eapply guar_free; [|by eapply ok_free].
      unfold holds in Hg. rewrite Ho in Hg. exact Hg.
    + intros j Hj. by eapply ok_owner.
  - destruct Hsafe as [Hh Hk]. destruct (owner ps) eqn:Eo; simplify_eq/=.
    exists g. eapply (pool_ok_step ps g); eauto.
    + intros j Hj. unfold holds. rewrite Eo. rewrite !bool_decide_eq_false_2; [done|done|].
      intros [= E]. congruence.
    + done.
    + intros j [= <-]. eauto.
    + rewrite bool_decide_eq_true_2 by done. apply Hk. by eapply ok_free.
  - destruct Hsafe as (Hh&Hf&Hk). case_decide as Eo; simplify_eq/=.
    exists g. eapply (pool_ok_step ps g); eauto.
    + intros j Hj. unfold holds. rewrite Eo. rewrite !bool_decide_eq_false_2; [done| |done].
      intros [= E]. congruence.
    + done.
Qed.

Definition goroutines_ok (wl : Goroutines S R) : Prop :=
  (∀ p, handler wl p → well_behaved false (λ _, True) p) ∧
  (∀ p, entry wl p → well_behaved true (λ x, ∃ r, idle r x) p).

Lemma handler_ok p ps g :
  well_behaved false (λ _, True) p → pool_ok ps g →
  pool_ok (mkPool (threads ps ++ [mkThread false p]) (owner ps) (shared ps)) g.
Proof.
  intros Hp [H1 H2 H3 H4 H5].
  assert (∀ i t, (threads ps ++ [mkThread false p]) !! i = Some t →
    threads ps !! i = Some t ∨ i = length (threads ps) ∧ t = mkThread false p) as Hcase.
  { intros i t. rewrite lookup_app_Some, list_lookup_singleton_Some.
    intros [?|(?&?&<-)]; [by left|right; split; [lia|done]]. }
  split; simpl; [done|done|..].
  - intros i [t Ht]%H3. exists t. by apply lookup_app_l_Some.
  - intros i t [Ht|[-> ->]]%Hcase; [by apply H4|].
    unfold thread_ok, holds. simpl. rewrite bool_decide_eq_false_2; [by apply Hp|].
    intros [t Ht]%H3. apply lookup_lt_Some in Ht. lia.
  - intros i j t u [Ht|[-> ->]]%Hcase [Hu|[-> ->]]%Hcase Hct Hcu; [by eapply H5|done..].
Qed.

Lemma entry_ok i a p ps g :
  well_behaved true (λ x, ∃ r, idle r x) p → threads ps !! i = Some (mkThread true (Done (Ret a))) →
  pool_ok ps g →
  pool_ok (mkPool (<[i := mkThread true p]> (threads ps)) (owner ps) (shared ps)) g.
Proof.
  intros Hp Hi Hok. pose proof (ok_inv _ _ Hok) as Hinv.
  destruct (ok_threads _ _ Hok i _ Hi _ Hinv (rely_refl _ _ _)) as [Hh Hidle].
  apply (pool_ok_step ps g i (mkThread true (Done (Ret a))) p (owner ps) (shared ps) g);
    simpl; try done.
  - by right.
  - apply (ok_free _ _ Hok).
  - apply (ok_owner _ _ Hok).
  - unfold holds in Hh. rewrite Hh. apply Hp; [done|]. exists a. by apply Hidle.
Qed.

Lemma pstep_ok ps ps' g :
  goroutines_ok wl → pool_ok ps g → pstep wl ps ps' → ∃ g', pool_ok ps' g'.
Proof.
  intros [Hh He] Hok [ps1 Hr|p Hp|i a p Hi Hp|s' Hs].
  - by eapply run_ok.
  - exists g. by apply handler_ok; [apply Hh|].
  - exists g. by eapply entry_ok; [apply He| |].
  - exists g. destruct Hok as [H1 H2 H3 H4 H5].
    destruct (env_ok g _ _ Hs H1) as (Hinv&Hrely&Hfree).
    split; simpl; [done|by auto|done| |done].
    intros i t Ht. specialize (H4 i t Ht). by eapply safe_stable.
Qed.

(** *** What every reachable pool has *)

Definition reachable (r0 : R) (s0 : S) (ps : pool S R) : Prop :=
  rtc (pstep wl) (start_pool r0 s0) ps.

Lemma psteps_ok ps ps' g :
  goroutines_ok wl → rtc (pstep wl) ps ps' → pool_ok ps g → ∃ g', pool_ok ps' g'.
Proof.
  intros Hwl Hr. revert g. induction Hr as [ps|ps1 ps2 ps3 H12 _ IH]; intros g Hok; [by exists g|].
  destruct (pstep_ok _ _ _ Hwl Hok H12) as [g' Hok']. by eapply IH.
Qed.

Lemma reachable_ok r0 s0 ps g0 :
  goroutines_ok wl → inv (g0, s0) → free (g0, s0) → idle r0 (g0, s0) →
  reachable r0 s0 ps → ∃ g, pool_ok ps g.
Proof.
  intros Hwl Hinv Hfree Hidle Hr. apply (psteps_ok _ _ g0 Hwl Hr).
  split; simpl; [done|done|done|..].
  - intros [|i] t [= <-] y Hy Hxy. split; [done|]. intros _. by eapply rely_idle.
  - intros [|i] [|j] t u [= <-] [= <-]; done.
Qed.

(** What the scheduling goroutine has returned, when it is between two calls. *)
Definition returned (t : thread S R) : option R :=
  match t with
  | mkThread true (Done (Ret r)) => Some r
  | _ => None
  end.
Definition sched_idle (ps : pool S R) : bool :=
  existsb (λ t, bool_decide (is_Some (returned t))) (threads ps).

Lemma returned_ok ps g i r :
  pool_ok ps g → threads ps !! i ≫= returned = Some r → idle r (g, shared ps).
Proof.
  intros Hok (t&Hi&Hr)%bind_Some.
  pose proof (ok_threads _ _ Hok i _ Hi) as H. unfold thread_ok in H.
  destruct t as [[] [[a|e]| | |]]; try done. injection Hr as ->.
  destruct (H _ (ok_inv _ _ Hok) (rely_refl _ _ _)) as [_ Hidle]. by apply Hidle.
Qed.

Lemma sched_idle_ok ps g :
  pool_ok ps g → sched_idle ps = true → ∃ r, idle r (g, shared ps).
Proof.
  intros Hok (t&Hin&[r Hr]%bool_decide_eq_true)%existsb_exists.
  apply list_elem_of_In, list_elem_of_lookup in Hin as [i Hi]. exists r.
  eapply returned_ok; [done|]. by rewrite Hi.
Qed.

(** A table that is open only to the scheduling goroutine, or only under the
    mutex, is touched by one thread at a time. *)
Lemma no_race acc ps g :
  (∀ c h c' h', may c h acc → may c' h' acc → (c = true ∧ c' = true) ∨ (h = true ∧ h' = true)) →
  pool_ok ps g → ¬ race acc ps.
Proof.
  intros Hmay Hok (i&j&t&u&Hij&Ht&Hu&Tt&Tu).
  assert (∀ i t, threads ps !! i = Some t → touches (code t) = Some acc →
    may (is_sched t) (holds ps i) acc) as Hm.
  { intros k v Hk Htouch. pose proof (ok_threads _ _ Hok k v Hk) as Hs. unfold thread_ok in Hs.
    destruct (code v); simplify_eq/=.
    by destruct (Hs _ (ok_inv _ _ Hok) (rely_refl _ _ _)) as [? _]. }
  destruct (Hmay _ _ _ _ (Hm i t Ht Tt) (Hm j u Hu Tu)) as [[??]|[Hi Hj]].
  - apply Hij. by eapply (ok_sched _ _ Hok i j t u).
  - unfold holds in *. apply bool_decide_eq_true in Hi, Hj. congruence.
Qed.

(** A thread that has not ended can step, or the owner of the mutex can. *)
Lemma progress ps g :
  pool_ok ps g →
  (∀ i t, threads ps !! i = Some t → ended (code t) = true) ∨ ∃ ps', run ps ps'.
Proof.
  intros Hok.
  assert (∀ i t, threads ps !! i = Some t → ended (code t) = false →
    owner ps = None ∨ owner ps = Some i → ∃ ps', run ps ps') as Hstep.
  { intros i t Ht He Ho. pose proof (ok_threads _ _ Hok i t Ht) as Hs. unfold thread_ok in Hs.
    assert (∃ p' o' s', tstep i (owner ps) (code t) (shared ps) = Some (p', o', s'))
      as (p'&o'&s'&E); [|eexists; by econstructor].
    destruct (code t) as [|B acc f k|k|k]; simpl in *; [done|..];
      specialize (Hs _ (ok_inv _ _ Hok) (rely_refl _ _ _)).
    - destruct (f (shared ps)) as [b s']. eauto.
    - destruct Hs as [Hh _]. unfold holds in Hh. apply bool_decide_eq_false in Hh.
      destruct Ho as [->|Ho]; [eauto|done].
    - destruct Hs as [Hh _]. unfold holds in Hh. apply bool_decide_eq_true in Hh.
      rewrite decide_True by done. eauto. }
  destruct (owner ps) as [i|] eqn:Eo.
  - destruct (ok_owner _ _ Hok i Eo) as [t Ht]. right. apply (Hstep i t Ht); [|by right].
    pose proof (ok_threads _ _ Hok i t Ht) as Hs. unfold thread_ok, holds in Hs.
    rewrite Eo, bool_decide_eq_true_2 in Hs by done.
    destruct (code t) as [[a|e]| | |]; try done;
      specialize (Hs _ (ok_inv _ _ Hok) (rely_refl _ _ _)); [by destruct Hs|done].
  - destruct (decide (Forall (λ t, ended (code t) = true) (threads ps))) as [Hall|Hn].
    + left. intros i t Ht. rewrite Forall_lookup in Hall. by eapply Hall.
    + right. apply (not_Forall_Exists _) in Hn.
      apply Exists_exists in Hn as (t&Hin&He). apply list_elem_of_lookup in Hin as [i Hi].
      apply (Hstep i t Hi); [|by left]. by apply not_true_is_false.
Qed.

Lemma all_end ps g :
  pool_ok ps g →
  ∃ ps', rtc run ps ps' ∧ owner ps' = None ∧
    ∀ i t, threads ps' !! i = Some t → ended (code t) = true.
Proof.
  revert g. induction (run_terminates ps) as [ps _ IH]. intros g Hok.
  destruct (progress ps g Hok) as [Hall|[ps' Hr]].
  - exists ps. split; [done|]. split; [|done]. destruct (owner ps) as [i|] eqn:Eo; [|done].
    destruct (ok_owner _ _ Hok i Eo) as [t Ht]. specialize (Hall i t Ht).
    pose proof (ok_threads _ _ Hok i t Ht) as Hs. unfold thread_ok, holds in Hs.
    rewrite Eo, bool_decide_eq_true_2 in Hs by done.
    destruct (code t) as [[a|e]| | |]; try done;
      specialize (Hs _ (ok_inv _ _ Hok) (rely_refl _ _ _)); [by destruct Hs|done].
  - destruct (run_ok _ _ _ Hok Hr) as [g' Hok']. destruct (IH ps' Hr g' Hok') as (qs&Hq&?).
    exists qs. split; [by eapply rtc_l|done].
Qed.
End logic.
