(* ===== verification/Logger.v ===== *)
(** * Package pkg/logger: the debug logger

    The logger opens its file for every message and closes it again through a
    field it shares with all its callers. One call on its own writes at most
    one line and leaves no file open; two calls that overlap, as those of the
    scheduling goroutine and of the event handlers do, lose a line and leak an
    open file. *)

From Stdlib Require Import Ascii.
From stdpp Require Import prelude gmap strings list fin_maps.
From S2P Require Import Prelude GoRuntime Kube Wire Threads Pool.

Local Open Scope Z_scope.

Module logger.

(** ** Files, as package os has them *)

(** The contents of the files, the open descriptors with the file each one
    writes to, the next descriptor, and the paths that cannot be opened. *)
Record Os := mkOs {
  os_files : gmap string string;
  os_open : gmap nat string;
  os_next : nat;
  os_denied : string → bool;
}.

(** A value of type any. *)
Inductive any := AnyString (s : string) | AnyOther.

Definition LevelNone : Z := 0.
Definition LevelInfo : Z := 1.
Definition LevelWarning : Z := 2.
Definition LevelError : Z := 3.
Definition LevelVerbose : Z := 4.
Definition LevelDebug : Z := 5.

Record DebugLogger := mkDebugLogger {
  level : Z;
  Filename : string;
  handle : option nat;
}.

Definition NewDebugLogger (level : Z) (filename : string) : DebugLogger :=
  mkDebugLogger level filename None.

Record LogState := mkLogState {
  lg : DebugLogger;
  os : Os;
}.

Definition set_handle (fd : nat) (s : LogState) : LogState :=
  mkLogState (mkDebugLogger (level (lg s)) (Filename (lg s)) (Some fd)) (os s).

(** [os.OpenFile] with O_CREATE and O_APPEND. *)
Definition OpenFile (name : string) (s : LogState) : go_result nat * LogState :=
  let o := os s in
  if os_denied o name then (Err ("open " +:+ name), s)
  else
    (OK (os_next o),
     mkLogState (lg s)
       (mkOs (<[name := default "" (os_files o !! name)]> (os_files o))
             (<[os_next o := name]> (os_open o)) (S (os_next o)) (os_denied o))).

(** [f.Close()] *)
Definition Close (fd : nat) (s : LogState) : option error * LogState :=
  let o := os s in
  match os_open o !! fd with
  | None => (Some "file already closed", s)
  | Some _ =>
      (None, mkLogState (lg s) (mkOs (os_files o) (delete fd (os_open o)) (os_next o) (os_denied o)))
  end.

(** A write to a closed file fails, and log.Printf drops the error. *)
Definition append (fd : nat) (text : string) (s : LogState) : LogState :=
  let o := os s in
  match os_open o !! fd with
  | None => s
  | Some name =>
      mkLogState (lg s)
        (mkOs (<[name := default "" (os_files o !! name) +:+ text]> (os_files o))
              (os_open o) (os_next o) (os_denied o))
  end.

(** log.Logger ends every entry with a newline. *)
Definition newline : string := String "010" "".
Fixpoint ends_line (s : string) : bool :=
  match s with
  | EmptyString => false
  | String c EmptyString => bool_decide (c = "010"%char)
  | String _ s => ends_line s
  end.
Definition entry_line (s : string) : string := if ends_line s then s else s +:+ newline.

Section log.
(** [fmt.Sprintf] on values of any type. *)
Context (Sprintf : string → list any → string).

Definition Start : GoM LogState (go_result nat) :=
  s ← Go.get;
  let '(r, s1) := OpenFile (Filename (lg s)) s in
  match r with
  | Err err => mret (Err err)
  | OK f => _ ← Go.put (set_handle f s1); mret (OK f)
  end.

Definition Stop : GoM LogState (option error) :=
  s ← Go.get;
  match handle (lg s) with
  | Some f => let '(e, s1) := Close f s in _ ← Go.put s1; mret e
  | None => mret None
  end.

(** [message[0].(string)] *)
Definition as_string (x : any) : outcome string :=
  match x with
  | AnyString s => Ret s
  | AnyOther => Panic "interface conversion"
  end.

Definition log (lvl : Z) (prefix : string) (message : list any) : GoM LogState (option error) :=
  r ← Start;
  match r with
  | Err err => mret (Some err)
  | OK f =>
      m0 ← Go.lift (Go.index message 0);
      prolog ← Go.lift (as_string m0);
      let prolog := if decide (prefix ≠ "") then prefix +:+ " " +:+ prolog else prolog in
      let rest := drop 1 message in
      own ← Go.gets (λ s, level (lg s));
      _ ← (if decide (lvl ≤ own)
           then Go.modify (append f (entry_line (Sprintf prolog rest)))
           else mret ());
      Stop
  end.

Definition Info := log LevelInfo "   INFO: ".
Definition Error := log LevelError "  ERROR: ".
Definition Debug := log LevelDebug "  DEBUG: ".
Definition Verbose := log LevelVerbose "VERBOSE: ".
Definition Warning := log LevelWarning "WARNING: ".

(** ** One call *)

(** Descriptors are handed out once. *)
Definition fresh_next (o : Os) : Prop := os_open o !! os_next o = None.

Definition contents (s : LogState) : string :=
  default "" (os_files (os s) !! Filename (lg s)).

(** The line a message makes. *)
Definition message_line (prefix prolog : string) (rest : list any) : string :=
  entry_line (Sprintf (if decide (prefix ≠ "") then prefix +:+ " " +:+ prolog else prolog) rest).

Lemma Start_run s :
  Start s =
  if os_denied (os s) (Filename (lg s)) then (Ret (Err ("open " +:+ Filename (lg s))), s)
  else (Ret (OK (os_next (os s))),
        set_handle (os_next (os s)) (OpenFile (Filename (lg s)) s).2).
Proof.
  unfold Start. rewrite Go.run_bind. cbn [Go.get]. unfold OpenFile.
  by destruct (os_denied _ _).
Qed.

(** A call of the logger on its own appends to the file exactly the prefixed
    message with a newline when the level allows it and nothing otherwise, touches no
    other file, returns no error and leaves no file open; when the file cannot be opened
    it changes nothing and returns the error; and a message that does not start with a
    string panics and leaks the file it opened. *)
Theorem log_writes lvl prefix message s :
  fresh_next (os s) →
  let name := Filename (lg s) in
  if os_denied (os s) name then log lvl prefix message s = (Ret (Some ("open " +:+ name)), s)
  else
    match message with
    | AnyString prolog :: rest =>
        ∃ s', log lvl prefix message s = (Ret None, s') ∧
          os_open (os s') = os_open (os s) ∧
          contents s' = contents s +:+
            (if decide (lvl ≤ level (lg s)) then message_line prefix prolog rest else "") ∧
          ∀ other, other ≠ name → os_files (os s') !! other = os_files (os s) !! other
    | _ =>
        ∃ msg s', log lvl prefix message s = (Panic msg, s') ∧
          os_open (os s') = <[os_next (os s) := name]> (os_open (os s)) ∧
          contents s' = contents s
    end.
Proof.
  intros Hfresh name. unfold log. rewrite Go.run_bind, Start_run. fold name.
  destruct (os_denied (os s) name) eqn:Ed; [done|].
  cbn beta iota. unfold OpenFile. rewrite Ed.
  destruct message as [|[prolog|] rest].
  - eexists _, _. split; [done|]. split; [done|]. unfold contents. simpl. 
    by rewrite lookup_insert_eq.
  - unfold contents, message_line. go_unfold. unfold Stop, set_handle. go_unfold.
    change (drop 0 rest) with rest.
    set (line := entry_line _). unfold fresh_next in Hfresh.
    case_decide; unfold append, Close; simpl; rewrite ?lookup_insert_eq; simpl;
      rewrite ?lookup_insert_eq; (eexists; split; [done|]); simpl.
    + split; [by apply delete_insert_id|]. unfold name in *.
      split; [by rewrite !lookup_insert_eq|].
      intros other Hne. by rewrite !lookup_insert_ne by done.
    + split; [by apply delete_insert_id|]. unfold name in *.
      split; [by rewrite lookup_insert_eq, string_app_nil_r|].
      intros other Hne. by rewrite lookup_insert_ne by done.
  - eexists _, _. split; [done|]. split; [done|]. unfold contents. simpl.
    by rewrite lookup_insert_eq.
Qed.

(** ** Overlapping calls *)

Definition Start_prog : prog LogState (go_result nat) :=
  r ← act Private (λ s, OpenFile (Filename (lg s)) s);
  match r with
  | Err err => mret (Err err)
  | OK f => _ ← writes Private (set_handle f); mret (OK f)
  end.

Definition Stop_prog : prog LogState (option error) :=
  h ← reads Private (λ s, handle (lg s));
  match h with
  | Some f => act Private (Close f)
  | None => mret None
  end.

(** The call with every access to the shared logger and to a file an action
    of its own. *)
Definition log_prog (lvl : Z) (prefix : string) (message : list any) : prog LogState (option error) :=
  r ← Start_prog;
  match r with
  | Err err => mret (Some err)
  | OK f =>
      m0 ← lift (Go.index message 0);
      prolog ← lift (as_string m0);
      let prolog := if decide (prefix ≠ "") then prefix +:+ " " +:+ prolog else prolog in
      let rest := drop 1 message in
      own ← reads Private (λ s, level (lg s));
      _ ← (if decide (lvl ≤ own)
           then writes Private (append f (entry_line (Sprintf prolog rest)))
           else mret ());
      Stop_prog
  end.

Lemma Start_runs : runs_as false Start_prog Start.
Proof.
  intros s. rewrite Start_run. unfold Start_prog. rewrite alone_bind. simpl. unfold OpenFile.
  by destruct (os_denied _ _).
Qed.

Lemma Stop_runs : runs_as false Stop_prog Stop.
Proof.
  intros s. unfold Stop, Stop_prog. rewrite Go.run_bind. cbn [Go.get]. rewrite alone_bind. simpl.
  destruct (handle (lg s)) as [f|]; [|done]. simpl. destruct (Close f s) as [e s']. done.
Qed.

Lemma log_runs lvl prefix message :
  runs_as false (log_prog lvl prefix message) (log lvl prefix message).
Proof.
  apply runs_bind; [apply Start_runs|]. intros [f|e]; [|apply runs_ret].
  apply runs_bind; [apply runs_lift|]. intros m0.
  apply runs_bind; [apply runs_lift|]. intros prolog. cbv zeta.
  apply runs_bind; [apply runs_reads|]. intros own.
  apply runs_bind; [|intros _; apply Stop_runs].
  case_decide; [apply runs_writes|apply runs_ret].
Qed.

(** A goroutine that logs one message. *)
Definition logs (lvl : Z) (prefix prolog : string) : thread LogState () :=
  mkThread false (_ ← log_prog lvl prefix [AnyString prolog]; mret ()).

(** The first call opens the file, then the second; then the first goes on to
    its end, then the second. *)
Definition overlap : list nat := ([0; 0; 1; 1; 0; 0; 0; 0; 1; 1; 1; 1])%nat.

(** When two calls of the logger overlap, so that both open the file before either
    writes, and the level allows both messages, the first call closes the file of the
    second: its own line is written, that of the second is lost, and the file it opened
    stays open. *)
Theorem overlapping_calls lvl1 prefix1 prolog1 lvl2 prefix2 prolog2 s :
  fresh_next (os s) → os_open (os s) !! S (os_next (os s)) = None →
  os_denied (os s) (Filename (lg s)) = false →
  lvl1 ≤ level (lg s) → lvl2 ≤ level (lg s) →
  ∃ ps, run_schedule overlap
          (mkPool [logs lvl1 prefix1 prolog1; logs lvl2 prefix2 prolog2] None s) = Some ps ∧
    Forall (λ t, ended (code t) = true) (threads ps) ∧
    contents (shared ps) = contents s +:+ message_line prefix1 prolog1 [] ∧
    os_open (os (shared ps)) = <[os_next (os s) := Filename (lg s)]> (os_open (os s)).
Proof.
  destruct s as [[lv name h] [files open next denied]]. unfold fresh_next. simpl.
  intros Hf1 Hf2 Hd Hl1 Hl2. unfold overlap, run_schedule, step_thread. simpl.
  unfold OpenFile. simpl. rewrite Hd. simpl.
  unfold OpenFile. simpl. rewrite Hd. simpl.
  rewrite (decide_True (P:=lvl1 ≤ lv)) by done. simpl.
  assert (next ≠ S next) as Hne by lia.
  unfold append. simpl.
  rewrite !(lookup_insert_ne _ (S next) next), !lookup_insert_eq by done. simpl.
  unfold Close. simpl. rewrite !lookup_insert_eq. simpl.
  rewrite delete_insert_id by (by rewrite lookup_insert_ne).
  rewrite (decide_True (P:=lvl2 ≤ lv)) by done. simpl.
  assert (<[next := name]> open !! S next = None) as Hclosed by (by rewrite lookup_insert_ne).
  rewrite !Hclosed. simpl.
  unfold Close. simpl. rewrite Hclosed. simpl. eexists. split; [done|]. split; [by repeat constructor|].
  split; [|done]. unfold contents. simpl. by rewrite lookup_insert_eq.
Qed.
End log.
End logger.
