(* ===== verification/Core.v ===== *)
(** * Package pkg/fluence/core: the PodGroupManager

    The manager's four tables ([groupToJobId], [podToNode] and the two TTL
    caches), its calls to the cluster and to Fluxion, and every method of
    core.go and flux.go, each as a computation over the state [Sys]. *)

From stdpp Require Import prelude gmap strings list fin_maps.
From S2P Require Import Prelude GoRuntime Kube Wire Env PodSpec.

Inductive Status := PodGroupNotSpecified | PodGroupNotFound | Success | Wait.

#[export] Instance Status_eq_dec : EqDecision Status.
Proof. solve_decision. Defined.

Definition permitStateKey : string := "PermitFluence".

(** [framework.PodsToActivateKey] *)
Definition PodsToActivateKey : string := "kubernetes.io/pods-to-activate".

(** What an informer hands to an event handler: a pod, or the tombstone of an
    object whose deletion was missed. *)
Inductive InformerObj {Q : QuantityLib} :=
| Obj_Pod (pod : Pod)
| Obj_DeletedFinalStateUnknown (key : string).

Section core.
Context {Q : QuantityLib} {U : Upstream} {MO : MapOrder} {GC : GoCacheLib}.
Context {CS : CycleStateLib} {W : Type} {CL : Cluster W} {FS : FluxService W}.

(** ** State *)

Record PodGroupManager := mkPodGroupManager {
  scheduleTimeout : option Z;
  permittedpodGroup : Cache;
  backedOffpodGroup : Cache;
  groupToJobId : gmap string Z;
  podToNode : gmap string string;
}.

(** The manager, the cycle state of the current scheduling cycle and the
    outside world. *)
Record Sys := mkSys {
  mgr : PodGroupManager;
  cycle : CycleState;
  world : W;
}.

Definition NewPodGroupManager (timeout : option Z) : PodGroupManager :=
  mkPodGroupManager timeout
    (cache_New (3 * Time.Second) (3 * Time.Second))
    (cache_New (10 * Time.Second) (10 * Time.Second))
    ∅ ∅.

Definition set_groupToJobId (f : gmap string Z → gmap string Z) (s : Sys) : Sys :=
  let m := mgr s in
  mkSys (mkPodGroupManager (scheduleTimeout m) (permittedpodGroup m)
           (backedOffpodGroup m) (f (groupToJobId m)) (podToNode m)) (cycle s) (world s).

Definition set_podToNode (f : gmap string string → gmap string string) (s : Sys) : Sys :=
  let m := mgr s in
  mkSys (mkPodGroupManager (scheduleTimeout m) (permittedpodGroup m)
           (backedOffpodGroup m) (groupToJobId m) (f (podToNode m))) (cycle s) (world s).

Definition set_permitted (f : Cache → Cache) (s : Sys) : Sys :=
  let m := mgr s in
  mkSys (mkPodGroupManager (scheduleTimeout m) (f (permittedpodGroup m))
           (backedOffpodGroup m) (groupToJobId m) (podToNode m)) (cycle s) (world s).

Definition set_backedOff (f : Cache → Cache) (s : Sys) : Sys :=
  let m := mgr s in
  mkSys (mkPodGroupManager (scheduleTimeout m) (permittedpodGroup m)
           (f (backedOffpodGroup m)) (groupToJobId m) (podToNode m)) (cycle s) (world s).

Definition set_cycle (f : CycleState → CycleState) (s : Sys) : Sys :=
  mkSys (mgr s) (f (cycle s)) (world s).

Definition set_world (w : W) (s : Sys) : Sys := mkSys (mgr s) (cycle s) w.

(** A call to the outside world. *)
Definition ext {A} (f : W → A * W) : GoM Sys A := λ s,
  let '(a, w) := f (world s) in (Ret a, set_world w s).

(** ** core.go *)

Definition GetNamespacedName (pod : Pod) : string :=
  pod_Namespace pod +:+ "/" +:+ pod_Name pod.

Definition BackoffPodGroup (groupName : string) (backoff : Z) : GoM Sys () :=
  if decide (backoff = 0%Z) then mret ()
  else
    now ← ext time_Now;
    Go.modify (set_backedOff (cache_Add groupName backoff now)).

Definition GetPodGroup (pod : Pod) : GoM Sys (string * option PodGroup) :=
  let groupName := util_GetPodGroupLabel pod in
  if decide (String.length groupName = 0) then mret ("", None)
  else
    r ← ext (client_Get (pod_Namespace pod) groupName);
    let full := pod_Namespace pod +:+ "/" +:+ groupName in
    match r with
    | Err _ => mret (full, None)
    | OK pg => mret (full, Some pg)
    end.

(** The first pod of the list with the given UID is cut out. *)
Fixpoint cut_uid (uid : string) (pods : list Pod) : list Pod :=
  match pods with
  | [] => []
  | p :: pods => if decide (pod_UID p = uid) then pods else p :: cut_uid uid pods
  end.

Definition ActivateSiblings (pod : Pod) : GoM Sys () :=
  let groupName := util_GetPodGroupLabel pod in
  if decide (groupName = "") then mret ()
  else
    c ← Go.gets (λ s, cs_Read permitStateKey (cycle s));
    match c with
    | Some (SD_Permit true) =>
        r ← ext (lister_List (pod_Namespace pod) (v1alpha1.PodGroupLabel, groupName));
        match r with
        | Err _ => mret ()
        | OK pods =>
            let pods := cut_uid (pod_UID pod) pods in
            if decide (length pods ≠ 0) then
              c ← Go.gets (λ s, cs_Read PodsToActivateKey (cycle s));
              match c with
              | Some (SD_PodsToActivate m) =>
                  let m := foldl (λ m p, <[GetNamespacedName p := p]> m) m pods in
                  Go.modify (set_cycle (cs_Write PodsToActivateKey (SD_PodsToActivate m)))
              | _ => mret ()
              end
            else mret ()
        end
    | _ => mret ()
    end.

Definition GetStatuses (pods : list Pod) : string :=
  foldl (λ statuses p, statuses +:+ " " +:+ PodPhase_string (pod_Phase p)) "" pods.

Definition GetPodNode (pod : Pod) : GoM Sys string :=
  Go.gets (λ s, default "" (podToNode (mgr s) !! pod_Name pod)).

(** Whether the snapshot's pod counts as assigned to the group. *)
Definition is_assigned (podGroupName namespace : string) (pod : Pod) : Prop :=
  util_GetPodGroupLabel pod = podGroupName ∧ pod_Namespace pod = namespace ∧
  pod_NodeName pod ≠ "".
#[export] Instance is_assigned_dec n ns pod : Decision (is_assigned n ns pod).
Proof. unfold is_assigned. apply _. Defined.

Definition CalculateAssignedPods (podGroupName namespace : string) : GoM Sys Z :=
  r ← ext NodeInfos_List;
  match r with
  | Err _ => mret 0%Z
  | OK nodeInfos =>
      mret (foldl (λ count node,
              foldl (λ count pod,
                if decide (is_assigned podGroupName namespace pod)
                then (count + 1)%Z else count) count node) 0%Z nodeInfos)
  end.

Definition Permit (pod : Pod) : GoM Sys Status :=
  '(groupName, podGroup) ← GetPodGroup pod;
  if decide (groupName = "") then mret PodGroupNotSpecified
  else match podGroup with
  | None => mret PodGroupNotFound
  | Some pg =>
      assigned ← CalculateAssignedPods (pg_Name pg) (pg_Namespace pg);
      if decide (spec_MinMember (pg_Spec pg) ≤ GoInt.wrap 32 (GoInt.wrap 32 assigned + 1))%Z
      then mret Success
      else
        _ ← (if decide (assigned = 0%Z)
             then Go.modify (set_cycle (cs_Write permitStateKey (SD_Permit true)))
             else mret ());
        mret Wait
  end.

Definition DeletePermittedPodGroup (groupName : string) : GoM Sys () :=
  Go.modify (set_permitted (cache_Delete groupName)).

(** The manager's own [GetCreationTimestamp], from the group's status. *)
Definition GetCreationTimestamp (pod : Pod) (ts : Time.t) : GoM Sys Time.t :=
  let groupName := util_GetPodGroupLabel pod in
  if decide (String.length groupName = 0) then mret (Time.NewMicroTime ts)
  else
    r ← ext (client_Get (pod_Namespace pod) groupName);
    match r with
    | Err _ => mret (Time.NewMicroTime ts)
    | OK pg =>
        if negb (Time.IsZero (status_CreationTime (pg_Status pg)))
        then mret (status_CreationTime (pg_Status pg))
        else mret (Time.NewMicroTime (pg_CreationTimestamp pg))
    end.

(** ** flux.go *)

Definition cleanup (pod : Pod) (groupName : string) : GoM Sys () :=
  _ ← Go.modify (set_groupToJobId (delete groupName));
  r ← ext (lister_List (pod_Namespace pod) (v1alpha1.PodGroupLabel, groupName));
  match r with
  | Err _ => mret ()
  | OK pods =>
      Go.modify (set_podToNode (λ m, foldl (λ m p, delete (pod_Name p) m) m pods))
  end.

Definition cancelFluxJob (groupName : string) (pod : Pod) : GoM Sys (option error) :=
  job ← Go.gets (λ s, groupToJobId (mgr s) !! groupName);
  match job with
  | None => mret None
  | Some jobid =>
      derr ← ext grpc_Dial;
      match derr with
      | Some err => mret (Some err)
      | None =>
          r ← ext (flux_Cancel (pb.mkCancelRequest (GoInt.wrap 64 jobid)));
          match r with
          | Err err => mret (Some err)
          | OK response =>
              if decide (pb.Error response = 0%Z)
              then _ ← cleanup pod groupName; mret None
              else mret None
          end
      end
  end.

Definition AskFlux (pod : Pod) (podGroup : PodGroup) (groupName : string)
    : GoM Sys (list string * option error) :=
  isAllocated ← Go.gets (λ s, bool_decide (is_Some (groupToJobId (mgr s) !! groupName)));
  _ ← (if isAllocated : bool
       then _ ← cancelFluxJob groupName pod; mret ()
       else mret ());
  let jobspec := PreparePodJobSpec pod groupName in
  derr ← ext grpc_Dial;
  match derr with
  | Some err => mret ([], Some err)
  | None =>
      let request :=
        pb.mkMatchRequest (Some jobspec) "allocate" (spec_MinMember (pg_Spec podGroup)) in
      r ← ext (flux_Match request);
      match r with
      | Err err => mret ([], Some err)
      | OK response =>
          let nodes := pb.NodeID <$> pb.Nodelist response in
          let jobid := GoInt.uint64 (pb.JobID response) in
          _ ← Go.modify (set_groupToJobId (<[groupName := jobid]>));
          mret (nodes, None)
      end
  end.

(** ** The manager's PreFilter *)

(** The body of the loop over the nodes Fluxion returned: the [i]-th node is
    stored for the [i]-th listed pod. *)
Definition assign_node (pods : list Pod) (i : nat) (node : string) : GoM Sys () :=
  pod ← Go.lift (Go.index pods i);
  _ ← Go.modify (set_cycle (cs_Write (pod_Name pod) (SD_Flux node)));
  Go.modify (set_podToNode (<[pod_Name pod := node]>)).

(** What PreFilter does with the nodes Fluxion returned (core.go, from the
    comparison of the sizes on). *)
Definition admit_nodes (groupName : string) (repPod : Pod) (pods : list Pod)
    (nodes : list string) : GoM Sys (option error) :=
  _ ← (if decide (length nodes ≠ length pods)
       then _ ← cancelFluxJob groupName repPod; mret ()
       else mret ());
  _ ← Go.range_loop (assign_node pods) 0 nodes;
  timeout ← Go.gets (λ s, scheduleTimeout (mgr s));
  timeout ← Go.lift (Go.deref timeout);
  now ← ext time_Now;
  _ ← Go.modify (set_permitted (cache_Add groupName timeout now));
  mret None.

Definition PreFilter (pod : Pod) : GoM Sys (option error) :=
  '(groupName, podGroup) ← GetPodGroup pod;
  match podGroup with
  | None => mret None
  | Some pg =>
      now ← ext time_Now;
      exists_ ← Go.gets (λ s, cache_Get groupName now (backedOffpodGroup (mgr s)));
      if exists_ : bool then
        mret (Some ("podGroup " +:+ groupName +:+ " failed recently"))
      else
        r ← ext (lister_List (pod_Namespace pod)
                   (v1alpha1.PodGroupLabel, util_GetPodGroupLabel pod));
        match r with
        | Err err => mret (Some ("podLister list pods failed: " +:+ err))
        | OK pods =>
            if decide (Z.of_nat (length pods) < spec_MinMember (pg_Spec pg))%Z then
              mret (Some ("pre-filter pod " +:+ pod_Name pod +:+
                          " cannot find enough sibling pods, current pods number: " +:+
                          Fmt.d (Z.of_nat (length pods)) +:+ ", minMember of group: " +:+
                          Fmt.d (spec_MinMember (pg_Spec pg))))
            else
              now ← ext time_Now;
              exists_ ← Go.gets (λ s, cache_Get groupName now (permittedpodGroup (mgr s)));
              if exists_ : bool then mret None
              else
                repPod ← Go.lift (Go.index pods 0);
                '(nodes, err) ← AskFlux repPod pg groupName;
                match err with
                | Some err => mret (Some err)
                | None => admit_nodes groupName repPod pods nodes
                end
        end
  end.

(** ** Informer events *)

(** The group name an event handler works with: the namespaced one, or the
    name of the fake group when there is no PodGroup. *)
Definition event_group (pod : Pod) : GoM Sys string :=
  '(groupName, podGroup) ← GetPodGroup pod;
  match podGroup with
  | None => mret (pg_Name (fgroup.CreateFakeGroup pod))
  | Some _ => mret groupName
  end.

Definition cancel_if_known (groupName : string) (pod : Pod) : GoM Sys () :=
  exists_ ← Go.gets (λ s, bool_decide (is_Some (groupToJobId (mgr s) !! groupName)));
  if exists_ : bool then _ ← cancelFluxJob groupName pod; mret () else mret ().

Definition as_pod (obj : InformerObj) : outcome Pod :=
  match obj with
  | Obj_Pod pod => Ret pod
  | Obj_DeletedFinalStateUnknown _ => Panic "interface conversion"
  end.

Definition UpdatePod (oldObj newObj : InformerObj) : GoM Sys () :=
  oldPod ← Go.lift (as_pod oldObj);
  newPod ← Go.lift (as_pod newObj);
  groupName ← event_group oldPod;
  match pod_Phase newPod with
  | PodPending => mret ()
  | PodRunning => mret ()
  | PodSucceeded => cancel_if_known groupName oldPod
  | PodFailed => cancel_if_known groupName oldPod
  | PodUnknown => mret ()
  | PodPhaseOther _ => mret ()
  end.

Definition DeletePod (podObj : InformerObj) : GoM Sys () :=
  pod ← Go.lift (as_pod podObj);
  groupName ← event_group pod;
  match pod_Phase pod with
  | PodSucceeded => mret ()
  | PodPending => cancel_if_known groupName pod
  | PodRunning => cancel_if_known groupName pod
  | _ => mret ()
  end.

Lemma run_ext {A} (f : W → A * W) (s : Sys) a w :
  f (world s) = (a, w) → ext f s = (Ret a, set_world w s).
Proof. intros E. unfold ext. by rewrite E. Qed.

Lemma set_world_twice w w' (s : Sys) : set_world w' (set_world w s) = set_world w' s.
Proof. done. Qed.
End core.

(** ** The interface the plugin uses *)

(** The interface Manager of core.go, over a state [S]. *)
Class Manager {Q : QuantityLib} (S : Type) := {
  mgr_PreFilter : Pod → GoM S (option error);
  mgr_GetPodNode : Pod → GoM S string;
  mgr_GetPodGroup : Pod → GoM S (string * option PodGroup);
  mgr_GetCreationTimestamp : Pod → Time.t → GoM S Time.t;
  mgr_DeletePermittedPodGroup : string → GoM S ();
  mgr_Permit : Pod → GoM S Status;
  mgr_CalculateAssignedPods : string → string → GoM S Z;
  mgr_ActivateSiblings : Pod → GoM S ();
  mgr_BackoffPodGroup : string → Z → GoM S ();
}.

(** Its implementation. *)
#[export] Instance PodGroupManager_Manager {Q : QuantityLib} {U : Upstream} {MO : MapOrder}
    {GC : GoCacheLib} {CS : CycleStateLib} {W : Type} {CL : Cluster W} {FS : FluxService W} :
    Manager (Sys (W:=W)) := {|
  mgr_PreFilter := PreFilter;
  mgr_GetPodNode := GetPodNode;
  mgr_GetPodGroup := GetPodGroup;
  mgr_GetCreationTimestamp := GetCreationTimestamp;
  mgr_DeletePermittedPodGroup := DeletePermittedPodGroup;
  mgr_Permit := Permit;
  mgr_CalculateAssignedPods := CalculateAssignedPods;
  mgr_ActivateSiblings := ActivateSiblings;
  mgr_BackoffPodGroup := BackoffPodGroup;
|}.

(** Opens the methods of the interface. *)
Tactic Notation "open_manager" :=
  unfold mgr_PreFilter, mgr_GetPodNode, mgr_GetPodGroup, mgr_GetCreationTimestamp,
    mgr_DeletePermittedPodGroup, mgr_Permit, mgr_CalculateAssignedPods, mgr_ActivateSiblings,
    mgr_BackoffPodGroup, PodGroupManager_Manager.
Tactic Notation "open_manager" "in" hyp(H) :=
  unfold mgr_PreFilter, mgr_GetPodNode, mgr_GetPodGroup, mgr_GetCreationTimestamp,
    mgr_DeletePermittedPodGroup, mgr_Permit, mgr_CalculateAssignedPods, mgr_ActivateSiblings,
    mgr_BackoffPodGroup, PodGroupManager_Manager in H.


(** The next step of the computation is the call whose result [E] states. *)
Ltac go_ext E := erewrite Go.run_bind_ret by (apply run_ext; exact E);
  rewrite ?set_world_twice; cbn beta iota.
