(* ===== verification/CoreFacts.v ===== *)
(** * Facts about the PodGroupManager

    Functional behaviour of the manager's methods on every branch, and frame
    conditions for the calls they share. *)

From Stdlib Require Import Ascii.
From stdpp Require Import prelude gmap strings list fin_maps.
From S2P Require Import Prelude GoRuntime Kube Wire Env PodSpec Core.

(** ** Laws of the cluster the manager relies on *)

(** Pods are listed by namespace and by one label; a label value has no slash
    in it (Kubernetes admits only letters, digits, '-', '_' and '.'). *)
Class ListerLaws {Q : QuantityLib} {W : Type} (CL : Cluster W) : Prop := {
  lister_sound ns k v w w' pods p :
    lister_List ns (k, v) w = (OK pods, w') → p ∈ pods →
    pod_Namespace p = ns ∧ GoMap.get (pod_Labels p) k = Some v;
  label_value_no_slash ns sel w w' pods p k v :
    lister_List ns sel w = (OK pods, w') → p ∈ pods →
    GoMap.get (pod_Labels p) k = Some v → ¬ has_char "/" v;
}.

(** The API server returns the object it was asked for. *)
Class ClientLaws {Q : QuantityLib} {W : Type} (CL : Cluster W) : Prop := {
  client_Get_key ns n w pg w' :
    client_Get ns n w = (OK pg, w') → pg_Name pg = n ∧ pg_Namespace pg = ns;
}.

Section facts.
Context {Q : QuantityLib} {U : Upstream} {MO : MapOrder} {GC : GoCacheLib}.
Context {CS : CycleStateLib} {W : Type} {CL : Cluster W} {FS : FluxService W}.

Local Abbreviation Sys := (Sys (W:=W)).
Implicit Types (s : Sys) (pod p : Pod) (pods : list Pod) (pg : PodGroup).

(** ** Assigning nodes to pods *)

Definition assign_pods (l : list (Pod * string)) (m : gmap string string) : gmap string string :=
  foldl (λ m '(p, n), <[pod_Name p := n]> m) m l.

Definition write_nodes (l : list (Pod * string)) (c : CycleState) : CycleState :=
  foldl (λ c '(p, n), cs_Write (pod_Name p) (SD_Flux n) c) c l.

Arguments assign_pods : simpl never.
Arguments write_nodes : simpl never.

Definition assigned_state (l : list (Pod * string)) s : Sys :=
  set_podToNode (assign_pods l) (set_cycle (write_nodes l) s).

Lemma assigned_state_cons p n l s :
  assigned_state ((p, n) :: l) s =
  assigned_state l (set_podToNode (<[pod_Name p := n]>)
                      (set_cycle (cs_Write (pod_Name p) (SD_Flux n)) s)).
Proof. done. Qed.

Lemma assigned_state_nil s : assigned_state [] s = s.
Proof. by destruct s as [[] ? ?]. Qed.

(** The loop stores node [i] for pod [i], and runs off the end of the pods
    when there are more nodes than pods. *)
Lemma assign_nodes_run pods nodes : ∀ i s, i ≤ length pods →
  Go.range_loop (assign_node pods) i nodes s =
    (if decide (i + length nodes ≤ length pods) then Ret ()
     else Panic "runtime error: index out of range",
     assigned_state (zip (drop i pods) nodes) s).
Proof.
  induction nodes as [|n nodes IH]; intros i s Hi; simpl.
  - rewrite zip_with_nil_r, assigned_state_nil.
    by rewrite decide_True by lia.
  - destruct (pods !! i) as [p|] eqn:E.
    + apply lookup_lt_Some in E as Hlt.
      rewrite (drop_S pods p i) by done. simpl. rewrite assigned_state_cons.
      unfold assign_node. rewrite Go.run_bind. go_unfold.
      unfold Go.index. rewrite E. rewrite IH by lia.
      replace (i + 1) with (S i) by lia.
      f_equal. repeat case_decide; done || lia.
    + apply lookup_ge_None in E.
      assert (i = length pods) as -> by lia.
      rewrite drop_all, assigned_state_nil. rewrite decide_False by lia.
      rewrite Go.run_bind. unfold assign_node at 1. go_unfold.
      unfold Go.index. by rewrite (proj2 (lookup_ge_None pods (length pods))).
Qed.

Lemma assign_pods_cons p n l m :
  assign_pods ((p, n) :: l) m = assign_pods l (<[pod_Name p := n]> m).
Proof. done. Qed.

Lemma write_nodes_cons p n l c :
  write_nodes ((p, n) :: l) c = write_nodes l (cs_Write (pod_Name p) (SD_Flux n) c).
Proof. done. Qed.

Lemma assign_pods_other l m k :
  k ∉ pod_Name <$> l.*1 → assign_pods l m !! k = m !! k.
Proof.
  revert m. induction l as [|[p n] l IH]; intros m Hk; [done|]. csimpl in *.
  apply not_elem_of_cons in Hk as [? ?].
  rewrite assign_pods_cons, IH by done. by apply lookup_insert_ne.
Qed.

Lemma assign_pods_lookup l m p n :
  NoDup (pod_Name <$> l.*1) → (p, n) ∈ l →
  assign_pods l m !! pod_Name p = Some n.
Proof.
  revert m. induction l as [|[p' n'] l IH]; intros m; csimpl; [set_solver|].
  intros [Hnin Hnd]%NoDup_cons [[= -> ->]|Hin]%elem_of_cons.
  - rewrite assign_pods_cons, assign_pods_other by done. apply lookup_insert_eq.
  - by apply IH.
Qed.

Lemma assign_pods_dom l m : dom m ⊆ dom (assign_pods l m).
Proof.
  revert m. induction l as [|[p n] l IH]; intros m; [done|].
  rewrite assign_pods_cons. etrans; [|apply IH]. set_solver.
Qed.

Lemma write_nodes_other `{!CycleStateLaws CS} l c k :
  k ∉ pod_Name <$> l.*1 → cs_Read k (write_nodes l c) = cs_Read k c.
Proof.
  revert c. induction l as [|[p n] l IH]; intros c Hk; [done|]. csimpl in *.
  apply not_elem_of_cons in Hk as [? ?].
  rewrite write_nodes_cons, IH by done. by apply cs_Read_Write_ne.
Qed.

Lemma write_nodes_lookup `{!CycleStateLaws CS} l c p n :
  NoDup (pod_Name <$> l.*1) → (p, n) ∈ l →
  cs_Read (pod_Name p) (write_nodes l c) = Some (SD_Flux n).
Proof.
  revert c. induction l as [|[p' n'] l IH]; intros c; csimpl; [set_solver|].
  intros [Hnin Hnd]%NoDup_cons [[= -> ->]|Hin]%elem_of_cons.
  - rewrite write_nodes_cons, write_nodes_other by done. apply cs_Read_Write_eq.
  - by apply IH.
Qed.

Lemma zip_fst_NoDup pods (nodes : list string) :
  NoDup (pod_Name <$> pods) → NoDup (pod_Name <$> (zip pods nodes).*1).
Proof.
  revert nodes. induction pods as [|p pods IH]; intros [|n nodes]; csimpl;
    try (intros; constructor).
  - apply NoDup_cons in H as [Hnin _]. intros Hin. apply Hnin.
    apply list_elem_of_fmap in Hin as (q&->&Hq).
    apply list_elem_of_fmap. exists q. split; [done|].
    apply list_elem_of_fmap in Hq as ([q' ?]&->&Hq').
    by eapply elem_of_zip_l.
  - apply NoDup_cons in H as [_ ?]. by apply IH.
Qed.

Lemma lookup_zip pods (nodes : list string) i p n :
  pods !! i = Some p → nodes !! i = Some n → (p, n) ∈ zip pods nodes.
Proof.
  intros Hp Hn. apply list_elem_of_lookup. exists i.
  apply lookup_zip_with_Some. eauto 6.
Qed.

(** ** Frame conditions *)

Lemma within_ext {A} (R : Sys → Sys → Prop) (f : W → A * W) :
  (∀ s w, R s (set_world w s)) → Go.within R (ext f).
Proof. intros H s. unfold ext. destruct (f (world s)) as [a w]. apply H. Qed.

Lemma set_world_id s : set_world (world s) s = s.
Proof. by destruct s. Qed.

(** Only entries of the job table under a name in [G], and entries of the
    node table, may have been dropped; nothing else of the manager moved. *)
Record shrinks (G : string → Prop) s s' : Prop := {
  sh_timeout : scheduleTimeout (mgr s') = scheduleTimeout (mgr s);
  sh_permitted : permittedpodGroup (mgr s') = permittedpodGroup (mgr s);
  sh_backedOff : backedOffpodGroup (mgr s') = backedOffpodGroup (mgr s);
  sh_cycle : cycle s' = cycle s;
  sh_nodes : podToNode (mgr s') ⊆ podToNode (mgr s);
  sh_jobs : groupToJobId (mgr s') ⊆ groupToJobId (mgr s);
  sh_other g : ¬ G g → groupToJobId (mgr s') !! g = groupToJobId (mgr s) !! g;
}.

#[export] Instance shrinks_preorder G : PreOrder (shrinks G).
Proof.
  split.
  - intros s. split; done.
  - intros s1 s2 s3 [] []. split; [congruence..|by etrans|by etrans|].
    intros g Hg. rewrite sh_other1 by done. by apply sh_other0.
Qed.

Lemma shrinks_world G s w : shrinks G s (set_world w s).
Proof. split; done. Qed.

Lemma foldl_delete_subseteq (l : list Pod) (m : gmap string string) :
  foldl (λ m p, delete (pod_Name p) m) m l ⊆ m.
Proof.
  revert m. induction l as [|p l IH]; intros m; [done|].
  change (foldl (λ m p, delete (pod_Name p) m) (delete (pod_Name p) m) l ⊆ m).
  etrans; [apply IH|]. apply delete_subseteq.
Qed.

Lemma shrinks_drop_job g s : shrinks (λ x, x = g) s (set_groupToJobId (delete g) s).
Proof.
  split; simpl; try done; [apply delete_subseteq|].
  intros g' Hg'. by apply lookup_delete_ne.
Qed.

Lemma shrinks_drop_nodes G l s :
  shrinks G s (set_podToNode (λ m, foldl (λ m p, delete (pod_Name p) m) m l) s).
Proof. split; simpl; try done. apply foldl_delete_subseteq. Qed.

Local Hint Resolve shrinks_world shrinks_drop_job shrinks_drop_nodes : go.

Lemma within_shrinks_ext {A} G (f : W → A * W) : Go.within (shrinks G) (ext f).
Proof. apply within_ext. auto with go. Qed.

Lemma cancelFluxJob_shrinks g pod :
  Go.within (shrinks (λ x, x = g)) (cancelFluxJob g pod).
Proof.
  unfold cancelFluxJob, cleanup.
  repeat first [ apply within_shrinks_ext | within_step ]; auto with go.
Qed.

Lemma cancelFluxJob_returns g pod s : ∃ e s', cancelFluxJob g pod s = (Ret e, s').
Proof.
  unfold cancelFluxJob, cleanup. go_unfold. unfold ext.
  repeat case_match; simplify_eq/=; eauto.
Qed.

(** A cancellation Fluxion confirms forgets the job. *)
Lemma cancelFluxJob_confirmed g pod s j w1 w2 resp :
  groupToJobId (mgr s) !! g = Some j →
  grpc_Dial (world s) = (None, w1) →
  flux_Cancel (pb.mkCancelRequest (GoInt.wrap 64 j)) w1 = (OK resp, w2) →
  pb.Error resp = 0%Z →
  groupToJobId (mgr (cancelFluxJob g pod s).2) = delete g (groupToJobId (mgr s)).
Proof.
  intros Hj ED EC He. unfold cancelFluxJob. rewrite Go.run_bind. cbn [Go.gets].
  rewrite Hj. cbn beta iota. go_ext ED. go_ext EC. rewrite decide_True by done.
  unfold cleanup. go_unfold. unfold ext.
  by destruct (lister_List _ _ _) as [[]].
Qed.

Lemma listed_no_slash `{!ListerLaws CL} ns k v w w' pods :
  lister_List ns (k, v) w = (OK pods, w') → has_char "/" v → pods = [].
Proof.
  intros EL Hv. destruct pods as [|p pods]; [done|]. exfalso.
  eapply label_value_no_slash; [exact EL|by left| |exact Hv].
  eapply lister_sound; [exact EL|by left].
Qed.

(** A slash in the name the clean-up lists by means that nothing is listed,
    so that the node table keeps all its entries. *)
Lemma cancelFluxJob_keeps_nodes `{!ListerLaws CL} g pod s :
  has_char "/" g →
  podToNode (mgr (cancelFluxJob g pod s).2) = podToNode (mgr s).
Proof.
  intros Hg. unfold cancelFluxJob. rewrite Go.run_bind. cbn [Go.gets].
  destruct (groupToJobId (mgr s) !! g) as [j|]; [|done].
  destruct (grpc_Dial (world s)) as [[err|] w1] eqn:ED; go_ext ED; [done|].
  destruct (flux_Cancel (pb.mkCancelRequest (GoInt.wrap 64 j)) w1) as [[resp|err] w2] eqn:EC; go_ext EC; [|done].
  case_decide; [|done]. rewrite Go.run_bind. unfold cleanup.
  rewrite Go.run_bind. cbn [Go.modify].
  destruct (lister_List (pod_Namespace pod) (v1alpha1.PodGroupLabel, g) w2)
    as [[pods|err] w3] eqn:EL; go_ext EL; [|done].
  by rewrite (listed_no_slash _ _ _ _ _ _ EL Hg).
Qed.

(** ** Looking a group up *)

Definition full_name (pod : Pod) : string :=
  pod_Namespace pod +:+ "/" +:+ util_GetPodGroupLabel pod.

Lemma full_name_slash pod : has_char "/" (full_name pod).
Proof. unfold full_name. rewrite !has_char_app. right; left. by apply elem_of_cons; left. Qed.

(** [GetPodGroup] only talks to the API server. *)
Lemma GetPodGroup_run pod s :
  GetPodGroup pod s =
  (if decide (util_GetPodGroupLabel pod = "") then (Ret ("", None), s)
   else match client_Get (pod_Namespace pod) (util_GetPodGroupLabel pod) (world s) with
        | (OK pg, w) => (Ret (full_name pod, Some pg), set_world w s)
        | (Err _, w) => (Ret (full_name pod, None), set_world w s)
        end).
Proof.
  unfold GetPodGroup.
  destruct (decide (util_GetPodGroupLabel pod = "")) as [E|E].
  - rewrite decide_True; [done|by apply length_zero_empty].
  - rewrite decide_False; [|by rewrite length_zero_empty].
    go_unfold. unfold ext. by destruct (client_Get _ _ _) as [[?|?] ?].
Qed.

(** ** AskFlux *)

Lemma AskFlux_run pod pg g s :
  ∃ s1, shrinks (λ x, x = g) s s1 ∧
  ((∃ e s', AskFlux pod pg g s = (Ret ([], Some e), s') ∧ mgr s' = mgr s1 ∧ cycle s' = cycle s1)
   ∨ ∃ resp w1 w2,
       flux_Match (pb.mkMatchRequest (Some (PreparePodJobSpec pod g)) "allocate"
                     (spec_MinMember (pg_Spec pg))) w1 = (OK resp, w2) ∧
       AskFlux pod pg g s =
         (Ret (pb.NodeID <$> pb.Nodelist resp, None),
          set_world w2 (set_groupToJobId (<[g := GoInt.uint64 (pb.JobID resp)]>) s1))).
Proof.
  set (c := if bool_decide (is_Some (groupToJobId (mgr s) !! g))
            then _ ← cancelFluxJob g pod; mret () else mret (M:=GoM Sys) ()).
  assert (∃ s1, c s = (Ret (), s1) ∧ shrinks (λ x, x = g) s s1) as (s1&Hc&Hsh).
  { unfold c. case_bool_decide; [|by exists s].
    destruct (cancelFluxJob_returns g pod s) as (e&s1&Ec).
    exists s1. rewrite Go.run_bind, Ec. split; [done|].
    pose proof (cancelFluxJob_shrinks g pod s) as Hs. by rewrite Ec in Hs. }
  exists s1. split; [done|].
  unfold AskFlux. rewrite Go.run_bind. simpl.
  rewrite Go.run_bind. fold c. rewrite Hc.
  destruct (grpc_Dial (world s1)) as [[err|] w1] eqn:ED; go_ext ED;
    [left; eexists _, _; split_and!; done|].
  destruct (flux_Match (pb.mkMatchRequest (Some (PreparePodJobSpec pod g)) "allocate"
              (spec_MinMember (pg_Spec pg))) w1) as [[resp|err] w2] eqn:EM; go_ext EM;
    [right|left; eexists _, _; split_and!; done].
  by exists resp, w1, w2.
Qed.

(** C14: AskFlux either fails, with no nodes and nothing but dropped entries of the
    group's own job and of nodes, or returns the nodes of Fluxion's answer to an
    allocate request for MinMember slots, in order, and records that answer's job for
    the group and changes no other job. *)
Theorem AskFlux_correct pod pg g s nodes err s' :
  AskFlux pod pg g s = (Ret (nodes, err), s') →
  match err with
  | Some _ => nodes = [] ∧ shrinks (λ x, x = g) s (set_world (world s) s')
  | None =>
      (∃ resp w,
         flux_Match (pb.mkMatchRequest (Some (PreparePodJobSpec pod g)) "allocate"
                       (spec_MinMember (pg_Spec pg))) w = (OK resp, world s') ∧
         nodes = pb.NodeID <$> pb.Nodelist resp ∧
         groupToJobId (mgr s') = <[g := GoInt.uint64 (pb.JobID resp)]> (groupToJobId (mgr s))) ∧
      podToNode (mgr s') ⊆ podToNode (mgr s) ∧
      permittedpodGroup (mgr s') = permittedpodGroup (mgr s)
  end.
Proof.
  destruct (AskFlux_run pod pg g s) as (s1&Hsh&[(e&s2&E&Hm&Hcy)|(resp&w1&w2&EM&E)]);
    rewrite E; intros [= <- <- <-].
  - split; [done|]. destruct Hsh. by split; simpl; rewrite ?Hm, ?Hcy.
  - split_and!; [|apply Hsh|apply Hsh].
    exists resp, w1. split_and!; [done..|]. simpl.
    apply map_eq. intros g'. destruct (decide (g = g')) as [<-|Hne].
    + by rewrite !lookup_insert_eq.
    + rewrite !lookup_insert_ne by done. apply (sh_other _ _ _ Hsh). congruence.
Qed.

(** ** Handing out the nodes *)

(** The job table after the comparison of the sizes. *)
Definition after_size_check (g : string) (rep : Pod) (pods : list Pod)
    (nodes : list string) s : Sys :=
  if decide (length nodes ≠ length pods) then (cancelFluxJob g rep s).2 else s.

Lemma after_size_check_shrinks g rep pods nodes s :
  shrinks (λ x, x = g) s (after_size_check g rep pods nodes s).
Proof.
  unfold after_size_check. case_decide; [|done]. apply cancelFluxJob_shrinks.
Qed.

Lemma admit_nodes_run g rep pods nodes s :
  let s1 := after_size_check g rep pods nodes s in
  let s2 := assigned_state (zip pods nodes) s1 in
  admit_nodes g rep pods nodes s =
  (if decide (length nodes ≤ length pods) then
     match scheduleTimeout (mgr s) with
     | Some d =>
         let '(now, w) := time_Now (world s1) in
         (Ret None, set_permitted (cache_Add g d now) (set_world w s2))
     | None => (Panic "runtime error: invalid memory address or nil pointer dereference", s2)
     end
   else (Panic "runtime error: index out of range", s2)).
Proof.
  intros s1 s2. unfold admit_nodes. rewrite Go.run_bind.
  assert ((if decide (length nodes ≠ length pods)
           then _ ← cancelFluxJob g rep; mret () else mret (M:=GoM Sys) ()) s
          = (Ret (), s1)) as ->.
  { unfold s1, after_size_check. case_decide; [|done].
    destruct (cancelFluxJob_returns g rep s) as (e&s'&E).
    by rewrite Go.run_bind, E. }
  rewrite Go.run_bind, assign_nodes_run by lia.
  rewrite drop_0, Nat.add_0_l. fold s2.
  case_decide; [|done].
  assert (scheduleTimeout (mgr s2) = scheduleTimeout (mgr s)) as Ht.
  { change (scheduleTimeout (mgr s1) = scheduleTimeout (mgr s)).
    apply (after_size_check_shrinks g rep pods nodes s). }
  go_unfold. unfold ext. rewrite Ht.
  destruct (scheduleTimeout (mgr s)) as [d|]; [|done]. simpl.
  by destruct (time_Now (world s1)).
Qed.

(** With as many nodes as pods, PreFilter stores node i for pod i in the node table
    and in the cycle state, leaves the other pods and the jobs alone, and marks the
    group as permitted for the schedule timeout. *)
Theorem admit_nodes_exact `{!CycleStateLaws CS, !GoCacheLaws GC} g rep pods nodes s d :
  length nodes = length pods →
  NoDup (pod_Name <$> pods) →
  scheduleTimeout (mgr s) = Some d → (0 < d)%Z →
  ∃ s', admit_nodes g rep pods nodes s = (Ret None, s') ∧
    (∀ i p n, pods !! i = Some p → nodes !! i = Some n →
       podToNode (mgr s') !! pod_Name p = Some n ∧
       cs_Read (pod_Name p) (cycle s') = Some (SD_Flux n)) ∧
    (∀ k, k ∉ pod_Name <$> pods → podToNode (mgr s') !! k = podToNode (mgr s) !! k) ∧
    groupToJobId (mgr s') = groupToJobId (mgr s) ∧
    (∀ t, let now := (time_Now (world s)).1 in
       cache_Get g now (permittedpodGroup (mgr s)) = false → (now ≤ t)%Z →
       cache_Get g t (permittedpodGroup (mgr s')) = bool_decide (t ≤ now + d)%Z).
Proof.
  intros Hlen Hnd Hd Hpos. rewrite admit_nodes_run.
  unfold after_size_check. rewrite (decide_False (P:=length nodes ≠ length pods)) by lia.
  rewrite decide_True by lia. rewrite Hd.
  destruct (time_Now (world s)) as [now w] eqn:Enow. eexists. split; [done|].
  simpl. split_and!.
  - intros i p n Hp Hn. pose proof (lookup_zip _ _ _ _ _ Hp Hn).
    pose proof (zip_fst_NoDup pods nodes Hnd).
    split; [by apply assign_pods_lookup|by apply write_nodes_lookup].
  - intros k Hk. apply assign_pods_other. rewrite fst_zip by lia. done.
  - done.
  - intros t Hno Ht. by apply Get_Add_eq.
Qed.

(** With a different number of nodes than pods the job is cancelled and forgotten,
    and yet its nodes are assigned to the pods; with fewer nodes the pod passes, with
    more the loop panics on an index out of range. *)
Theorem admit_nodes_wrong_size `{!CycleStateLaws CS} g rep pods nodes s d j w1 w2 resp :
  length nodes ≠ length pods →
  NoDup (pod_Name <$> pods) →
  scheduleTimeout (mgr s) = Some d →
  groupToJobId (mgr s) !! g = Some j →
  grpc_Dial (world s) = (None, w1) →
  flux_Cancel (pb.mkCancelRequest (GoInt.wrap 64 j)) w1 = (OK resp, w2) →
  pb.Error resp = 0%Z →
  let '(res, s') := admit_nodes g rep pods nodes s in
  (** the job is cancelled and forgotten *)
  groupToJobId (mgr s') !! g = None ∧
  (** but its nodes are assigned to the pods all the same *)
  (∀ i p n, pods !! i = Some p → nodes !! i = Some n →
     podToNode (mgr s') !! pod_Name p = Some n ∧
     cs_Read (pod_Name p) (cycle s') = Some (SD_Flux n)) ∧
  (** and the pod passes, unless there are more nodes than pods *)
  (length nodes < length pods → res = Ret None) ∧
  (length pods < length nodes → res = Panic "runtime error: index out of range").
Proof.
  intros Hlen Hnd Hd Hj Hdial Hcancel Herr. rewrite admit_nodes_run.
  set (s1 := after_size_check g rep pods nodes s).
  assert (groupToJobId (mgr s1) !! g = None) as Hnone.
  { unfold s1, after_size_check. rewrite decide_True by done.
    erewrite cancelFluxJob_confirmed by done. apply lookup_delete_eq. }
  assert (∀ i p n, pods !! i = Some p → nodes !! i = Some n →
    assign_pods (zip pods nodes) (podToNode (mgr s1)) !! pod_Name p = Some n ∧
    cs_Read (pod_Name p) (write_nodes (zip pods nodes) (cycle s1)) = Some (SD_Flux n)) as Ha.
  { intros i p n Hp Hn. pose proof (lookup_zip _ _ _ _ _ Hp Hn).
    pose proof (zip_fst_NoDup pods nodes Hnd).
    split; [by apply assign_pods_lookup|by apply write_nodes_lookup]. }
  rewrite Hd. case_decide.
  - destruct (time_Now (world s1)). split_and!; [done|done|done|lia].
  - split_and!; [done|done|lia|done].
Qed.
End facts.

Arguments assign_pods : simpl never.
Arguments write_nodes : simpl never.
