(* ===== verification/CoreMethods.v ===== *)
(** * The manager's scheduling methods and event handlers

    PreFilter with all its exits, Permit against the count of assigned pods,
    the back-off table, and the informer events. *)

From Stdlib Require Import Ascii.
From stdpp Require Import prelude gmap strings list fin_maps.
From S2P Require Import Prelude GoRuntime Kube Wire Env PodSpec Core CoreFacts.

Section methods.
Context {Q : QuantityLib} {U : Upstream} {MO : MapOrder} {GC : GoCacheLib}.
Context {CS : CycleStateLib} {W : Type} {CL : Cluster W} {FS : FluxService W}.

Local Abbreviation Sys := (Sys (W:=W)).
Implicit Types (s : Sys) (pod p : Pod) (pods : list Pod) (pg : PodGroup).

(** ** Every exit of PreFilter *)

(** The exits of PreFilter, in the order of the code. *)
Inductive prefilter_exit pod s : outcome (option string) * Sys → Prop :=
| exit_no_group w n :
    GetPodGroup pod s = (Ret (n, None), set_world w s) →
    prefilter_exit pod s (Ret None, set_world w s)
| exit_refused w e :
    prefilter_exit pod s (Ret (Some e), set_world w s)
| exit_permitted w now :
    cache_Get (full_name pod) now (permittedpodGroup (mgr s)) = true →
    prefilter_exit pod s (Ret None, set_world w s)
| exit_no_pods w e :
    prefilter_exit pod s (Panic e, set_world w s)
| exit_flux_error pg rep nodes w e s' :
    AskFlux rep pg (full_name pod) (set_world w s) = (Ret (nodes, Some e), s') →
    prefilter_exit pod s (Ret (Some e), s')
| exit_admit pg pods rep nodes w0 w1 w2 w s1 :
    client_Get (pod_Namespace pod) (util_GetPodGroupLabel pod) (world s) = (OK pg, w0) →
    lister_List (pod_Namespace pod)
      (v1alpha1.PodGroupLabel, util_GetPodGroupLabel pod) w1 = (OK pods, w2) →
    (spec_MinMember (pg_Spec pg) ≤ Z.of_nat (length pods))%Z →
    pods !! 0 = Some rep →
    AskFlux rep pg (full_name pod) (set_world w s) = (Ret (nodes, None), s1) →
    prefilter_exit pod s (admit_nodes (full_name pod) rep pods nodes s1).

Lemma PreFilter_exits pod s : prefilter_exit pod s (PreFilter pod s).
Proof.
  unfold PreFilter. rewrite Go.run_bind.
  pose proof (GetPodGroup_run pod s) as HG.
  case_decide as El.
  { rewrite HG. rewrite <- (set_world_id s) at 2.
    apply (exit_no_group _ _ _ ""). rewrite HG. by rewrite set_world_id. }
  destruct (client_Get _ _ (world s)) as [[pg|e] w0] eqn:EG.
  2:{ rewrite HG. by apply (exit_no_group _ _ _ (full_name pod)). }
  rewrite HG. cbn beta iota zeta.
  destruct (time_Now w0) as [now1 w1] eqn:ET1. go_ext ET1.
  rewrite Go.run_bind. cbn [Go.gets].
  destruct (cache_Get _ _ _); [apply exit_refused|].
  destruct (lister_List (pod_Namespace pod)
    (v1alpha1.PodGroupLabel, util_GetPodGroupLabel pod) w1) as [[pods|e] w2] eqn:EL;
    go_ext EL; [|apply exit_refused].
  case_decide as Emin; [apply exit_refused|].
  destruct (time_Now w2) as [now2 w3] eqn:ET2. go_ext ET2.
  rewrite Go.run_bind. cbn [Go.gets].
  destruct (cache_Get _ _ _) eqn:EP; [by eapply exit_permitted|].
  rewrite Go.run_bind. unfold Go.lift, Go.index.
  destruct (pods !! 0) as [rep|] eqn:Erep; [|apply exit_no_pods].
  rewrite Go.run_bind. unfold mret, outcome_ret.
  change (set_world w3 _) with (set_world w3 s).
  destruct (AskFlux_run rep pg (full_name pod) (set_world w3 s))
    as (s1&Hsh&[(e&s'&EA&_)|(resp&w4&w5&_&EA)]); rewrite EA.
  - by eapply exit_flux_error.
  - eapply exit_admit; [done|done|lia|done|done].
Qed.

Lemma assign_pods_inv l m k n :
  assign_pods l m !! k = Some n →
  m !! k = Some n ∨ ∃ p, (p, n) ∈ l ∧ pod_Name p = k.
Proof.
  revert m. induction l as [|[p' n'] l IH]; intros m; [by left|].
  rewrite (assign_pods_cons p' n').
  intros [Hm|(p&Hp&<-)]%IH.
  - apply lookup_insert_Some in Hm as [[<- <-]|[_ ?]]; [|by left].
    right. exists p'. split; [by left|done].
  - right. exists p. split; [by right|done].
Qed.

Lemma assigned_nodes_inv pods nodes s k n :
  podToNode (mgr (assigned_state (zip pods nodes) s)) !! k = Some n →
  podToNode (mgr s) !! k = Some n ∨
  ∃ i p, pods !! i = Some p ∧ nodes !! i = Some n ∧ pod_Name p = k.
Proof.
  intros [?|(p&Hin&<-)]%assign_pods_inv; [by left|right].
  apply list_elem_of_lookup in Hin as [i Hi].
  apply lookup_zip_with_Some in Hi as (p'&n'&[= <- <-]&?&?). by exists i, p.
Qed.

(** What [admit_nodes] leaves of the tables, whether it returns or panics. *)
Lemma admit_nodes_tables g rep pods nodes s :
  let s' := (admit_nodes g rep pods nodes s).2 in
  let s2 := assigned_state (zip pods nodes) (after_size_check g rep pods nodes s) in
  podToNode (mgr s') = podToNode (mgr s2) ∧ groupToJobId (mgr s') = groupToJobId (mgr s2).
Proof.
  rewrite admit_nodes_run. case_decide; [|done].
  destruct (scheduleTimeout _); [|done]. by destruct (time_Now _).
Qed.

Lemma admit_nodes_no_error g rep pods nodes s e :
  (admit_nodes g rep pods nodes s).1 ≠ Ret (Some e).
Proof.
  rewrite admit_nodes_run. case_decide; [|done].
  destruct (scheduleTimeout _); [|done]. by destruct (time_Now _).
Qed.

(** A node that PreFilter newly assigns to a pod name is, at the same position, a
    node of an allocation Fluxion gave for the pod's group, to a pod listed for that
    group, and the group had at least MinMember listed pods. *)
Theorem PreFilter_assigns_only_gangs pod s k n :
  podToNode (mgr (PreFilter pod s).2) !! k = Some n →
  podToNode (mgr s) !! k = Some n ∨
  ∃ pg pods rep resp w0 w1 w2 w3 w4 i p,
    client_Get (pod_Namespace pod) (util_GetPodGroupLabel pod) (world s) = (OK pg, w0) ∧
    lister_List (pod_Namespace pod)
      (v1alpha1.PodGroupLabel, util_GetPodGroupLabel pod) w1 = (OK pods, w2) ∧
    (spec_MinMember (pg_Spec pg) ≤ Z.of_nat (length pods))%Z ∧
    pods !! 0 = Some rep ∧
    flux_Match (pb.mkMatchRequest (Some (PreparePodJobSpec rep (full_name pod))) "allocate"
                  (spec_MinMember (pg_Spec pg))) w3 = (OK resp, w4) ∧
    pods !! i = Some p ∧ pod_Name p = k ∧
    (pb.NodeID <$> pb.Nodelist resp) !! i = Some n.
Proof.
  destruct (PreFilter_exits pod s)
    as [| | | |pg rep nodes w e s' EA|pg pods rep nodes w0 w1 w2 w s1 EG EL Hmin Hrep EA];
    simpl; try (by left).
  - intros Hk. left.
    destruct (AskFlux_run rep pg (full_name pod) (set_world w s))
      as (s1&Hsh&[(e'&s2&E&Hm&_)|(resp&w4&w5&_&E)]); rewrite E in EA; simplify_eq.
    rewrite Hm in Hk. eapply lookup_weaken; [exact Hk|]. exact (sh_nodes _ _ _ Hsh).
  - rewrite (proj1 (admit_nodes_tables _ _ _ _ _)).
    destruct (AskFlux_run rep pg (full_name pod) (set_world w s))
      as (s2&Hsh&[(e'&s3&E&_)|(resp&w4&w5&EM&E)]); rewrite E in EA; simplify_eq.
    intros [Hk|(i&p&?&?&?)]%assigned_nodes_inv.
    + left. eapply lookup_weaken; [exact Hk|].
      etrans; [apply (sh_nodes _ _ _ (after_size_check_shrinks _ _ _ _ _))|].
      exact (sh_nodes _ _ _ Hsh).
    + right. do 11 eexists. split_and!; try done.
Qed.

(** C18: When the manager's PreFilter reports an error, no pod has been assigned a node,
    no group has been permitted or backed off, the cycle state is as it was and no other
    group's job has changed. *)
Theorem PreFilter_error_safe pod s e s' :
  PreFilter pod s = (Ret (Some e), s') →
  shrinks (λ g, g = full_name pod) s s'.
Proof.
  intros E. pose proof (PreFilter_exits pod s) as HX. rewrite E in HX.
  inversion HX as [|w e' E1|w now H E1|w e' E1|pg rep nodes w e' s1 EA E1
                  |pg pods rep nodes w0 w1 w2 w s1 EG EL Hmin Hrep EA E1]; subst.
  - apply shrinks_world.
  - destruct (AskFlux_run rep pg (full_name pod) (set_world w s))
      as (s2&Hsh&[(e'&s3&E2&Hm&Hc)|(resp&w4&w5&_&E2)]); rewrite E2 in EA; simplify_eq.
    destruct Hsh. by split; rewrite ?Hm, ?Hc.
  - exfalso. eapply admit_nodes_no_error. by rewrite E1.
Qed.

(** ** Permit *)

Lemma foldl_count_nested (P : Pod → Prop) `{∀ p, Decision (P p)} (l : list (list Pod)) (n : Z) :
  foldl (λ count node,
    foldl (λ count p, if decide (P p) then (count + 1)%Z else count) count node) n l
  = (n + Z.of_nat (length (filter P (concat l))))%Z.
Proof.
  revert n. induction l as [|x l IH]; intros n; csimpl; [simpl; lia|].
  rewrite IH, foldl_count, filter_app, length_app. lia.
Qed.

(** The pods of a snapshot that are assigned to a group. *)
Definition assigned_count (pg : PodGroup) (nodeInfos : list (list Pod)) : Z :=
  Z.of_nat (length (filter (is_assigned (pg_Name pg) (pg_Namespace pg)) (concat nodeInfos))).

Lemma CalculateAssignedPods_run pg s nodeInfos w :
  NodeInfos_List (world s) = (OK nodeInfos, w) →
  CalculateAssignedPods (pg_Name pg) (pg_Namespace pg) s
  = (Ret (assigned_count pg nodeInfos), set_world w s).
Proof.
  intros E. unfold CalculateAssignedPods. go_ext E. cbn beta iota.
  rewrite (foldl_count_nested (is_assigned (pg_Name pg) (pg_Namespace pg))).
  unfold assigned_count. by rewrite Z.add_0_l.
Qed.

(** The manager's Permit succeeds exactly when the assigned pods of the group plus
    this one reach MinMember, and otherwise tells the pod to wait, asking for the
    siblings to be activated when it is the first. *)
Theorem Permit_correct pod s pg w1 nodeInfos w2 :
  util_GetPodGroupLabel pod ≠ "" →
  client_Get (pod_Namespace pod) (util_GetPodGroupLabel pod) (world s) = (OK pg, w1) →
  NodeInfos_List w1 = (OK nodeInfos, w2) →
  (assigned_count pg nodeInfos < 2 ^ 31 - 1)%Z →
  Permit pod s =
    (let assigned := assigned_count pg nodeInfos in
     if decide (spec_MinMember (pg_Spec pg) ≤ assigned + 1)%Z
     then (Ret Success, set_world w2 s)
     else if decide (assigned = 0%Z)
     then (Ret Wait, set_cycle (cs_Write permitStateKey (SD_Permit true)) (set_world w2 s))
     else (Ret Wait, set_world w2 s)).
Proof.
  intros Hl EG EN Hlt. unfold Permit.
  pose proof (GetPodGroup_run pod s) as HG. rewrite decide_False, EG in HG by done.
  erewrite Go.run_bind_ret by exact HG. cbn beta iota zeta.
  rewrite decide_False.
  2:{ intros E. pose proof (full_name_slash pod) as Hs. rewrite E in Hs.
      unfold has_char in Hs. simpl in Hs. set_solver. }
  erewrite Go.run_bind_ret by (apply CalculateAssignedPods_run; exact EN).
  rewrite set_world_twice.
  assert (0 ≤ assigned_count pg nodeInfos)%Z by (unfold assigned_count; lia).
  rewrite (GoInt.wrap_id 32 (assigned_count pg nodeInfos)) by (unfold GoInt.fits; lia).
  rewrite GoInt.wrap_id by (unfold GoInt.fits; lia).
  case_decide; [done|]. by case_decide.
Qed.

(** ** Back-off *)

(** A group that is backed off for d nanoseconds is refused by PreFilter for as
    long, with an error that names the group, and nothing is asked of Fluxion. *)
Theorem Backoff_blocks_PreFilter `{!GoCacheLaws GC} pod s d t0 w0 pg w1 t w2 :
  (0 < d)%Z →
  time_Now (world s) = (t0, w0) →
  cache_Get (full_name pod) t0 (backedOffpodGroup (mgr s)) = false →
  util_GetPodGroupLabel pod ≠ "" →
  client_Get (pod_Namespace pod) (util_GetPodGroupLabel pod) w0 = (OK pg, w1) →
  time_Now w1 = (t, w2) →
  (t0 ≤ t ≤ t0 + d)%Z →
  ∃ s', BackoffPodGroup (full_name pod) d s = (Ret (), s') ∧
    PreFilter pod s' =
      (Ret (Some ("podGroup " +:+ full_name pod +:+ " failed recently")), set_world w2 s').
Proof.
  intros Hd ET0 Hno Hl EG ET [Ht1 Ht2].
  unfold BackoffPodGroup. rewrite decide_False by lia. go_ext ET0.
  eexists. split; [reflexivity|]. unfold PreFilter.
  erewrite Go.run_bind_ret.
  2:{ rewrite GetPodGroup_run, decide_False by done. simpl. by rewrite EG. }
  cbn beta iota zeta. go_ext ET. rewrite Go.run_bind. cbn [Go.gets]. simpl.
  by rewrite Get_Add_eq, bool_decide_true by done.
Qed.

(** ** Informer events *)

Definition fake_name (pod : Pod) : string := pg_Name (fgroup.CreateFakeGroup pod).

Lemma event_group_found pod s pg w :
  util_GetPodGroupLabel pod ≠ "" →
  client_Get (pod_Namespace pod) (util_GetPodGroupLabel pod) (world s) = (OK pg, w) →
  event_group pod s = (Ret (full_name pod), set_world w s).
Proof.
  intros Hl EG. unfold event_group.
  erewrite Go.run_bind_ret; [|by rewrite GetPodGroup_run, decide_False, EG by done].
  done.
Qed.

Lemma event_group_missing pod s e w :
  client_Get (pod_Namespace pod) (util_GetPodGroupLabel pod) (world s) = (Err e, w) →
  ∃ w', event_group pod s = (Ret (fake_name pod), set_world w' s).
Proof.
  intros EG. unfold event_group. rewrite Go.run_bind, GetPodGroup_run.
  case_decide; [exists (world s); by rewrite set_world_id|]. rewrite EG. by exists w.
Qed.

Lemma cancel_if_known_run g pod s :
  cancel_if_known g pod s =
  (Ret (), match groupToJobId (mgr s) !! g with
           | Some _ => (cancelFluxJob g pod s).2
           | None => s
           end).
Proof.
  unfold cancel_if_known. rewrite Go.run_bind. cbn [Go.gets].
  destruct (groupToJobId (mgr s) !! g) eqn:E.
  - rewrite bool_decide_true by eauto.
    destruct (cancelFluxJob_returns g pod s) as (e&s'&Ec).
    by rewrite Go.run_bind, Ec.
  - by rewrite bool_decide_false by (intros []; congruence).
Qed.

(** When a pod of a known group succeeds or fails and Fluxion confirms the
    cancellation, the update handler returns and the group's job is forgotten. *)
Theorem finished_pod_releases_job oldPod newPod s pg w0 j w1 w2 resp :
  pod_Phase newPod = PodSucceeded ∨ pod_Phase newPod = PodFailed →
  util_GetPodGroupLabel oldPod ≠ "" →
  client_Get (pod_Namespace oldPod) (util_GetPodGroupLabel oldPod) (world s) = (OK pg, w0) →
  groupToJobId (mgr s) !! full_name oldPod = Some j →
  grpc_Dial w0 = (None, w1) →
  flux_Cancel (pb.mkCancelRequest (GoInt.wrap 64 j)) w1 = (OK resp, w2) →
  pb.Error resp = 0%Z →
  ∃ s', UpdatePod (Obj_Pod oldPod) (Obj_Pod newPod) s = (Ret (), s') ∧
    groupToJobId (mgr s') = delete (full_name oldPod) (groupToJobId (mgr s)).
Proof.
  intros Hphase Hl EG Hj ED EC He. unfold UpdatePod.
  do 2 (rewrite Go.run_bind; cbn [Go.lift as_pod]).
  rewrite (Go.run_bind_ret _ _ _ _ _ (event_group_found _ _ _ _ Hl EG)).
  destruct Hphase as [-> | ->]; rewrite cancel_if_known_run; simpl; rewrite Hj;
    (eexists; split; [reflexivity|]);
    by apply (cancelFluxJob_confirmed _ oldPod (set_world w0 s) j w1 w2 resp).
Qed.

(** When a pod's PodGroup can no longer be read, the update and delete handlers
    look up the name of a made-up group, so that the job of the real group is neither
    cancelled nor forgotten. *)
Theorem group_gone_keeps_job pod newPod s e w :
  client_Get (pod_Namespace pod) (util_GetPodGroupLabel pod) (world s) = (Err e, w) →
  groupToJobId (mgr s) !! fake_name pod = None →
  mgr (UpdatePod (Obj_Pod pod) (Obj_Pod newPod) s).2 = mgr s ∧
  mgr (DeletePod (Obj_Pod pod) s).2 = mgr s.
Proof.
  intros EG Hn. destruct (event_group_missing _ _ _ _ EG) as [w' Eg].
  unfold UpdatePod, DeletePod. split.
  - do 2 (rewrite Go.run_bind; cbn [Go.lift as_pod]).
    rewrite (Go.run_bind_ret _ _ _ _ _ Eg).
    destruct (pod_Phase newPod); try done; rewrite cancel_if_known_run; simpl; by rewrite Hn.
  - rewrite Go.run_bind; cbn [Go.lift as_pod].
    rewrite (Go.run_bind_ret _ _ _ _ _ Eg).
    destruct (pod_Phase pod); try done; rewrite cancel_if_known_run; simpl; by rewrite Hn.
Qed.

(** The delete handler panics on a tombstone, does nothing for a pod that has
    succeeded or failed, and cancels the recorded job of the group of a pending or
    running pod. *)
Theorem DeletePod_outcomes s :
  (∀ key, (DeletePod (Obj_DeletedFinalStateUnknown key) s).1 = Panic "interface conversion") ∧
  (∀ pod, (DeletePod (Obj_Pod pod) s).1 = Ret () ∧
     (pod_Phase pod = PodSucceeded ∨ pod_Phase pod = PodFailed →
      mgr (DeletePod (Obj_Pod pod) s).2 = mgr s) ∧
     (pod_Phase pod = PodPending ∨ pod_Phase pod = PodRunning →
      ∃ g w, event_group pod s = (Ret g, set_world w s) ∧
        DeletePod (Obj_Pod pod) s = cancel_if_known g pod (set_world w s))).
Proof.
  split; [done|]. intros pod.
  assert (∃ g w, event_group pod s = (Ret g, set_world w s)) as (g&w&Eg).
  { unfold event_group. rewrite Go.run_bind, GetPodGroup_run. case_decide.
    - exists (fake_name pod), (world s). by rewrite set_world_id.
    - destruct (client_Get _ _ _) as [[?|?] w]; by eexists _, w. }
  unfold DeletePod. rewrite Go.run_bind; cbn [Go.lift as_pod].
  rewrite (Go.run_bind_ret _ _ _ _ _ Eg). split_and!.
  - destruct (pod_Phase pod); rewrite ?cancel_if_known_run; done.
  - by intros [-> | ->].
  - intros [-> | ->]; by exists g, w.
Qed.
End methods.
