(* ===== verification/Plugin.v ===== *)
(** * Package pkg/fluence: the scheduling-framework plugin

    Every extension point of fluence.go: the queue order [Less], PreFilter,
    Filter, PostFilter, Permit, Reserve and Unreserve, over the interface
    [Manager] of [Core]. *)

From Stdlib Require Import Ascii.
From stdpp Require Import prelude gmap strings list fin_maps.
From S2P Require Import Prelude GoRuntime Kube Wire Env PodSpec Core.

(** The scheduling framework's status codes the plugin returns. *)
Inductive Code := fw_Success | fw_Unschedulable | fw_UnschedulableAndUnresolvable | fw_Wait.

#[export] Instance Code_eq_dec : EqDecision Code.
Proof. solve_decision. Defined.

(** [framework.NewStatus(code, reasons...)] *)
Record FwStatus := NewStatus {
  st_Code : Code;
  st_reasons : list string;
}.

Section plugin.
Context {Q : QuantityLib} {U : Upstream} {MO : MapOrder} {GC : GoCacheLib}.
Context {CS : CycleStateLib} {W : Type} {CL : Cluster W} {FS : FluxService W}.

Local Abbreviation Sys := (Sys (W:=W)).

Definition Name : string := "Fluence".

(** The fields of the plugin besides the manager and the framework handle. *)
Record Fluence := mkFluence {
  pl_scheduleTimeout : option Z;
  pl_podGroupBackoff : option Z;
}.

Definition permitWaitingTimeSeconds : Z := 300.
Definition podGroupBackoffSeconds : Z := 0.

(** The plugin and the manager [New] builds once its client exists. *)
Definition New : Fluence * PodGroupManager :=
  let scheduleTimeDuration := GoInt.wrap 64 (permitWaitingTimeSeconds * Time.Second) in
  let backoffSeconds := GoInt.wrap 64 (podGroupBackoffSeconds * Time.Second) in
  (mkFluence (Some scheduleTimeDuration) (Some backoffSeconds),
   NewPodGroupManager (Some scheduleTimeDuration)).

(** The plugin holds its manager by the interface. *)
Context {MG : Manager Sys}.

(** ** QueueSort *)

Definition Less (podInfo1 podInfo2 : QueuedPodInfo) : GoM Sys bool :=
  let prio1 := corev1helpers_PodPriority (queued_Pod podInfo1) in
  let prio2 := corev1helpers_PodPriority (queued_Pod podInfo2) in
  if decide (prio1 ≠ prio2) then mret (bool_decide (prio2 < prio1)%Z)
  else
    '(name1, podGroup1) ← mgr_GetPodGroup (queued_Pod podInfo1);
    '(name2, podGroup2) ← mgr_GetPodGroup (queued_Pod podInfo2);
    creationTime1 ← Go.lift (fgroup.GetCreationTimestamp name1 podGroup1 podInfo1);
    creationTime2 ← Go.lift (fgroup.GetCreationTimestamp name2 podGroup2 podInfo2);
    if decide (creationTime1 = creationTime2) then
      mret (Strings.lt (GetNamespacedName (queued_Pod podInfo1))
                       (GetNamespacedName (queued_Pod podInfo2)))
    else mret (bool_decide (creationTime1 < creationTime2)%Z).

(** ** PreFilter and Filter *)

(** [PreFilterResult.NodeNames] ([None] for a nil result) and the status. *)
Definition PreFilter (pod : Pod) : GoM Sys (option (gset string) * FwStatus) :=
  node ← mgr_GetPodNode pod;
  if decide (node ≠ "") then
    mret (Some {[ node ]}, NewStatus fw_Success [""])
  else
    err ← mgr_PreFilter pod;
    match err with
    | Some err => mret (None, NewStatus fw_UnschedulableAndUnresolvable [err])
    | None =>
        node ← mgr_GetPodNode pod;
        mret (Some {[ node ]}, NewStatus fw_Success [""])
    end.

Definition Filter (pod : Pod) (nodeName : string) : GoM Sys FwStatus :=
  state ← Go.gets (λ s, cs_Read (pod_Name pod) (cycle s));
  match state with
  | None => mret (NewStatus fw_Success [])
  | Some (SD_Flux n) =>
      if decide (n ≠ nodeName)
      then mret (NewStatus fw_Unschedulable ["pod is not permitted"])
      else mret (NewStatus fw_Success [])
  | Some _ =>
      (* the failed type assertion left a nil pointer, which the log line reads *)
      Go.panic "runtime error: invalid memory address or nil pointer dereference"
  end.

(** ** Waiting pods *)

Definition IterateOverWaitingPods (callback : Pod → GoM Sys ()) : GoM Sys () :=
  pods ← ext WaitingPods;
  Go.range_loop (λ _ p, callback p) 0 pods.

Definition Allow (p : Pod) : GoM Sys () :=
  Go.modify (λ s, set_world (waiting_Allow Name p (world s)) s).

Definition Reject (msg : string) (p : Pod) : GoM Sys () :=
  Go.modify (λ s, set_world (waiting_Reject Name msg p (world s)) s).

(** ** PostFilter *)

Definition PostFilter (plugin : Fluence) (pod : Pod) : GoM Sys FwStatus :=
  '(groupName, podGroup) ← mgr_GetPodGroup pod;
  match podGroup with
  | None => mret (NewStatus fw_Unschedulable ["can not find pod group"])
  | Some pg =>
      assigned ← mgr_CalculateAssignedPods (pg_Name pg) (pod_Namespace pod);
      if decide (spec_MinMember (pg_Spec pg) ≤ assigned)%Z then
        mret (NewStatus fw_Unschedulable [])
      else
        _ ← IterateOverWaitingPods (λ waitingPod,
              if decide (pod_Namespace waitingPod = pod_Namespace pod ∧
                         flabel.GetPodGroupLabel waitingPod = pg_Name pg)
              then Reject "optimistic rejection in PostFilter" waitingPod
              else mret ());
        _ ← match pl_podGroupBackoff plugin with
            | None => mret ()
            | Some backoff =>
                r ← ext (lister_List (pod_Namespace pod)
                           (v1alpha1.PodGroupLabel, flabel.GetPodGroupLabel pod));
                match r with
                | Err _ => mret ()
                | OK pods =>
                    if decide (spec_MinMember (pg_Spec pg) ≤ Z.of_nat (length pods))%Z
                    then mgr_BackoffPodGroup groupName backoff
                    else mret ()
                end
            end;
        _ ← mgr_DeletePermittedPodGroup groupName;
        mret (NewStatus fw_Unschedulable
                ["PodGroup " +:+ groupName +:+ " gets rejected due to Pod " +:+
                 pod_Name pod +:+ " is unschedulable even after PostFilter"])
  end.

(** ** Permit *)

Definition Permit (plugin : Fluence) (pod : Pod) (nodeName : string)
    : GoM Sys (FwStatus * Z) :=
  waitTime ← Go.lift (Go.deref (pl_scheduleTimeout plugin));
  s ← mgr_Permit pod;
  match s with
  | PodGroupNotSpecified => mret (NewStatus fw_Success [""], 0%Z)
  | PodGroupNotFound => mret (NewStatus fw_Unschedulable ["PodGroup not found"], 0%Z)
  | Wait =>
      '(_, podGroup) ← mgr_GetPodGroup pod;
      let wait := fgroup.GetWaitTimeDuration podGroup (pl_scheduleTimeout plugin) in
      let waitTime := if decide (wait ≠ 0%Z) then wait else waitTime in
      _ ← mgr_ActivateSiblings pod;
      mret (NewStatus fw_Wait [], waitTime)
  | Success =>
      let podGroupFullName := flabel.GetPodGroupFullName pod in
      _ ← IterateOverWaitingPods (λ waitingPod,
            if decide (flabel.GetPodGroupFullName waitingPod = podGroupFullName)
            then Allow waitingPod else mret ());
      mret (NewStatus fw_Success [], 0%Z)
  end.

(** ** Reserve *)

(** A nil status, which the framework takes for success. *)
Definition Reserve (pod : Pod) (nodeName : string) : GoM Sys (option FwStatus) := mret None.

Definition Unreserve (pod : Pod) (nodeName : string) : GoM Sys () :=
  '(groupName, podGroup) ← mgr_GetPodGroup pod;
  match podGroup with
  | None => mret ()
  | Some pg =>
      _ ← IterateOverWaitingPods (λ waitingPod,
            if decide (pod_Namespace waitingPod = pod_Namespace pod ∧
                       flabel.GetPodGroupLabel waitingPod = pg_Name pg)
            then Reject "rejection in Unreserve" waitingPod
            else mret ());
      mgr_DeletePermittedPodGroup groupName
  end.
End plugin.
