(* ===== verification/PluginFacts.v ===== *)
(** * Facts about the plugin's extension points

    The queue order, the node a pod can land on, and what happens to the
    waiting pods of a group. *)

From Stdlib Require Import Ascii.
From stdpp Require Import prelude gmap strings list fin_maps.
From S2P Require Import Prelude GoRuntime Kube Wire Env PodSpec Core CoreFacts CoreMethods Plugin.

(** ** The order on strings *)

Section string_order.
Lemma compare_refl (a : string) : String.compare a a = Eq.
Proof.
  induction a as [|c a IH]; simpl; [done|].
  unfold Ascii.compare. by rewrite N.compare_refl.
Qed.

Lemma string_lt_le (a b : string) : Strings.lt a b = true ↔ String.le a b ∧ a ≠ b.
Proof.
  unfold Strings.lt, String.le, String.ltb, String.leb.
  destruct (String.compare a b) eqn:E; split; intros H; try done.
  - apply String.compare_eq_iff in E. naive_solver.
  - split; [done|]. intros ->. by rewrite compare_refl in E.
  - naive_solver.
Qed.

Lemma string_lt_irrefl (a : string) : Strings.lt a a = false.
Proof.
  destruct (Strings.lt a a) eqn:E; [|done]. by apply string_lt_le in E as [_ ?].
Qed.

Lemma string_lt_trans (a b c : string) :
  Strings.lt a b = true → Strings.lt b c = true → Strings.lt a c = true.
Proof.
  rewrite !string_lt_le. intros [H1 N1] [H2 N2]. split; [by etrans|].
  intros ->. apply N1. by apply (anti_symm String.le).
Qed.

Lemma string_lt_total (a b : string) :
  Strings.lt a b = true ∨ a = b ∨ Strings.lt b a = true.
Proof.
  destruct (decide (a = b)) as [|Hne]; [auto|]. rewrite !string_lt_le.
  destruct (total String.le a b); naive_solver.
Qed.
End string_order.

Section facts.
Context {Q : QuantityLib} {U : Upstream} {MO : MapOrder} {GC : GoCacheLib}.
Context {CS : CycleStateLib} {W : Type} {CL : Cluster W} {FS : FluxService W}.

Local Abbreviation Sys := (Sys (W:=W)).
Implicit Types (s : Sys) (pod p : Pod) (pods : list Pod) (pg : PodGroup).

(** ** The queue order *)

(** During a comparison the API server's answers do not change. *)
Definition stable (w : W) : Prop := ∀ ns n, (client_Get ns n w).2 = w.

(** The group the API server knows for a pod. *)
Definition lookup_group (w : W) pod : option PodGroup :=
  if decide (util_GetPodGroupLabel pod = "") then None
  else match (client_Get (pod_Namespace pod) (util_GetPodGroupLabel pod) w).1 with
       | OK pg => Some pg
       | Err _ => None
       end.

Lemma GetPodGroup_stable pod s :
  stable (world s) →
  ∃ n, GetPodGroup pod s = (Ret (n, lookup_group (world s) pod), s).
Proof.
  intros Hst. rewrite GetPodGroup_run. unfold lookup_group.
  case_decide; [by eexists|].
  specialize (Hst (pod_Namespace pod) (util_GetPodGroupLabel pod)).
  destruct (client_Get _ _ _) as [[pg|e] w]; simpl in *; subst w;
    rewrite set_world_id; by eexists.
Qed.

(** A queued pod that has been attempted once. *)
Definition attempted (qi : QueuedPodInfo) : Prop :=
  is_Some (queued_InitialAttemptTimestamp qi).

(** The time a queued pod is sorted by. *)
Definition sort_time (w : W) (qi : QueuedPodInfo) : Z :=
  let attempt := default 0%Z (queued_InitialAttemptTimestamp qi) in
  match lookup_group w (queued_Pod qi) with
  | Some pg =>
      if Time.IsZero (status_ScheduleStartTime (pg_Status pg)) then attempt
      else status_ScheduleStartTime (pg_Status pg)
  | None => attempt
  end.

Lemma GetCreationTimestamp_sort_time w n qi :
  attempted qi →
  fgroup.GetCreationTimestamp n (lookup_group w (queued_Pod qi)) qi = Ret (sort_time w qi).
Proof.
  intros [t Ht]. unfold fgroup.GetCreationTimestamp, sort_time.
  destruct (lookup_group w (queued_Pod qi)) as [pg|]; [|by rewrite Ht].
  destruct (Time.IsZero _); simpl; [by rewrite Ht|done].
Qed.

(** Higher priority first, then the earlier time, then the name. *)
Definition before (w : W) (a b : QueuedPodInfo) : Prop :=
  let pa := corev1helpers_PodPriority (queued_Pod a) in
  let pb := corev1helpers_PodPriority (queued_Pod b) in
  let ta := sort_time w a in
  let tb := sort_time w b in
  (pb < pa)%Z ∨
  pa = pb ∧ ((ta < tb)%Z ∨
    ta = tb ∧ Strings.lt (GetNamespacedName (queued_Pod a))
                         (GetNamespacedName (queued_Pod b)) = true).

Lemma Less_run a b s :
  stable (world s) → attempted a → attempted b →
  ∃ r, Less a b s = (Ret r, s) ∧ (r = true ↔ before (world s) a b).
Proof.
  intros Hst Ha Hb. unfold Less, before; open_manager. case_decide as Hp.
  { eexists. split; [done|]. rewrite bool_decide_eq_true. lia. }
  destruct (GetPodGroup_stable (queued_Pod a) s Hst) as [n1 E1].
  destruct (GetPodGroup_stable (queued_Pod b) s Hst) as [n2 E2].
  rewrite (Go.run_bind_ret _ _ _ _ _ E1). cbn beta iota.
  rewrite (Go.run_bind_ret _ _ _ _ _ E2). cbn beta iota.
  rewrite !GetCreationTimestamp_sort_time by done.
  do 2 (rewrite Go.run_bind; cbn [Go.lift]).
  case_decide as Ht; (eexists; split; [done|]).
  - rewrite Ht. split; [naive_solver|]. intros [?|(_&[?|[_ ?]])]; [lia|lia|done].
  - rewrite bool_decide_eq_true. naive_solver lia.
Qed.

(** C17: The queue order is higher priority, then earlier time, then name; it is
    irreflexive and transitive, and total up to the namespaced name. *)
Theorem Less_strict_total_order s :
  stable (world s) →
  let lt a b := Less a b s = (Ret true, s) in
  (∀ a b, attempted a → attempted b → lt a b ↔ before (world s) a b) ∧
  (∀ a, attempted a → ¬ lt a a) ∧
  (∀ a b c, attempted a → attempted b → attempted c → lt a b → lt b c → lt a c) ∧
  (∀ a b, attempted a → attempted b →
     lt a b ∨ lt b a ∨ GetNamespacedName (queued_Pod a) = GetNamespacedName (queued_Pod b)).
Proof.
  intros Hst lt.
  assert (∀ a b, attempted a → attempted b → lt a b ↔ before (world s) a b) as Hlt.
  { intros a b Ha Hb. unfold lt. destruct (Less_run a b s Hst Ha Hb) as (r&->&Hr).
    rewrite <- Hr. naive_solver. }
  split_and!; [done|..].
  - intros a Ha. rewrite Hlt by done. unfold before. rewrite string_lt_irrefl. lia.
  - intros a b c Ha Hb Hc. rewrite !Hlt by done. unfold before.
    intros H1 H2. destruct H1 as [?|[? [?|[? L1]]]], H2 as [?|[? [?|[? L2]]]]; try lia.
    right. split; [lia|]. right. split; [lia|]. by eapply string_lt_trans.
  - intros a b Ha Hb. rewrite !Hlt by done. unfold before.
    destruct (string_lt_total (GetNamespacedName (queued_Pod a))
                              (GetNamespacedName (queued_Pod b))) as [->|[->| ->]]; [lia|auto|lia].
Qed.

(** ** Where a pod can land *)

Lemma assigned_agree `{!CycleStateLaws CS} l m c k :
  k ∈ pod_Name <$> l.*1 →
  ∃ n, assign_pods l m !! k = Some n ∧
    cs_Read k (write_nodes l c) = Some (SD_Flux n).
Proof.
  intros Hk. revert m c. induction l as [|[p n] l IH]; intros m c; csimpl in *; [set_solver|].
  rewrite assign_pods_cons, write_nodes_cons.
  destruct (decide (k ∈ pod_Name <$> l.*1)); [by apply IH|].
  apply elem_of_cons in Hk as [->|?]; [|done].
  exists n. rewrite assign_pods_other, write_nodes_other by done.
  by rewrite lookup_insert_eq, cs_Read_Write_eq.
Qed.

(** A pod that got its node in this cycle has it in the cycle state too. *)
Lemma core_PreFilter_agrees `{!CycleStateLaws CS} pod s s' n :
  podToNode (mgr s) !! pod_Name pod ≠ Some n →
  Core.PreFilter pod s = (Ret None, s') →
  podToNode (mgr s') !! pod_Name pod = Some n →
  cs_Read (pod_Name pod) (cycle s') = Some (SD_Flux n).
Proof.
  intros Hnone E Hn. pose proof (PreFilter_exits pod s) as HX. rewrite E in HX.
  inversion HX as [w g HG E1| |w now Hc E1| | |pg pods rep nodes w0 w1 w2 w s1 EG EL Hmin Hrep EA E1];
    subst; try (simpl in Hn; congruence).
  destruct (AskFlux_run rep pg (full_name pod) (set_world w s))
    as (s2&Hsh&[(e&s3&E2&_)|(resp&w4&w5&_&E2)]); rewrite E2 in EA; simplify_eq.
  set (nodes := pb.NodeID <$> pb.Nodelist resp) in *.
  set (s1 := set_world w5 _) in E1.
  rewrite admit_nodes_run in E1. case_decide; [|done].
  destruct (scheduleTimeout (mgr s1)); [|done].
  destruct (time_Now _) as [now w6]. injection E1 as <-. simpl in *.
  destruct (decide (pod_Name pod ∈ pod_Name <$> (zip pods nodes).*1)) as [Hin|Hout].
  - destruct (assigned_agree _ (podToNode (mgr (after_size_check (full_name pod) rep pods nodes s1)))
      (cycle (after_size_check (full_name pod) rep pods nodes s1)) _ Hin) as (n'&Ha&Hc).
    rewrite Ha in Hn. simplify_eq. exact Hc.
  - exfalso. rewrite assign_pods_other in Hn by done.
    pose proof (sh_nodes _ _ _ (after_size_check_shrinks (full_name pod) rep pods nodes s1)).
    pose proof (sh_nodes _ _ _ Hsh).
    eapply lookup_weaken in Hn; [|done]. simpl in Hn.
    eapply lookup_weaken in Hn; [|done]. simpl in Hn. congruence.
Qed.

(** What the plugin needs of a manager to pin pods to nodes: the node of a pod
    can be looked up, and one that PreFilter has just given is in the cycle
    state as well. *)
Class PinningManager (MG : Manager Sys) := {
  pinned : Pod → Sys → option string;
  get_pinned pod s : mgr_GetPodNode pod s = (Ret (default "" (pinned pod s)), s);
  pinned_now pod s s' n :
    pinned pod s ≠ Some n → mgr_PreFilter pod s = (Ret None, s') → pinned pod s' = Some n →
    cs_Read (pod_Name pod) (cycle s') = Some (SD_Flux n);
}.

(** The plugin on top of any such manager. *)
Lemma PreFilter_pins `{PM : PinningManager} pod s names st s' :
  Plugin.PreFilter (MG:=MG) pod s = (Ret (Some names, st), s') →
  st = NewStatus fw_Success [""] ∧ names = {[ default "" (pinned pod s') ]} ∧
  (pinned pod s = None → ∀ n, pinned pod s' = Some n →
   ∀ nodeName, Filter pod nodeName s' =
     (Ret (if decide (nodeName ∈ names) then NewStatus fw_Success []
           else NewStatus fw_Unschedulable ["pod is not permitted"]), s')).
Proof.
  unfold Plugin.PreFilter. rewrite Go.run_bind, get_pinned.
  case_decide as Hquick.
  { intros [= <- <- <-]. split_and!; [done|done|]. intros Hn. by rewrite Hn in Hquick. }
  intros (err&s1&Hcore&E)%Go.run_bind_inv.
  destruct err as [err|]; [done|]. rewrite Go.run_bind, get_pinned in E.
  injection E as <- <- <-. split_and!; [done|done|].
  intros Hnone n Hn nodeName. unfold Filter. rewrite Go.run_bind. cbn [Go.gets].
  rewrite (pinned_now pod s s1 n), Hn by (done || by rewrite Hnone). simpl.
  destruct (decide (n = nodeName)) as [<-|Hne].
  - rewrite decide_False, decide_True; [done|set_solver|by intros []].
  - rewrite decide_True, decide_False; [done|set_solver|done].
Qed.

(** The manager of package core is one. *)
#[export] Instance core_pins `{!CycleStateLaws CS} : PinningManager PodGroupManager_Manager := {|
  pinned pod s := podToNode (mgr s) !! pod_Name pod;
  get_pinned pod s := eq_refl;
  pinned_now pod s s' n := core_PreFilter_agrees pod s s' n;
|}.

(** C15: When the plugin's PreFilter succeeds, the only candidate node is the pod's
    recorded one, and for a pod that got its node in this cycle Filter accepts exactly
    that node. *)
Theorem PreFilter_pins_pod `{!CycleStateLaws CS} pod s names st s' :
  Plugin.PreFilter pod s = (Ret (Some names, st), s') →
  st = NewStatus fw_Success [""] ∧
  names = {[ default "" (podToNode (mgr s') !! pod_Name pod) ]} ∧
  (podToNode (mgr s) !! pod_Name pod = None →
   ∀ n, podToNode (mgr s') !! pod_Name pod = Some n →
   ∀ nodeName, Filter pod nodeName s' =
     (Ret (if decide (nodeName ∈ names) then NewStatus fw_Success []
           else NewStatus fw_Unschedulable ["pod is not permitted"]), s')).
Proof. apply (PreFilter_pins (PM:=core_pins)). Qed.

(** ** Waiting pods *)

Lemma iterate_run (P : Pod → Prop) `{∀ p, Decision (P p)} (act : Pod → GoM Sys ())
    (f : Pod → W → W) s pods w :
  (∀ p s, act p s = (Ret (), set_world (f p (world s)) s)) →
  WaitingPods (world s) = (pods, w) →
  IterateOverWaitingPods (λ p, if decide (P p) then act p else mret ()) s
  = (Ret (), set_world (foldl (λ w p, f p w) w (filter P pods)) s).
Proof.
  intros Hact E. unfold IterateOverWaitingPods. go_ext E. clear E.
  assert (∀ i w, Go.range_loop (λ _ p, if decide (P p) then act p else mret ()) i pods
                   (set_world w s)
                 = (Ret (), set_world (foldl (λ w p, f p w) w (filter P pods)) s)) as H0;
    [|apply H0].
  clear w. induction pods as [|p pods IH]; intros i w; simpl; [done|].
  rewrite Go.run_bind, filter_cons. case_decide.
  - rewrite Hact. cbn beta iota. rewrite set_world_twice. simpl. apply IH.
  - apply IH.
Qed.

Lemma Allow_run p s : Allow p s = (Ret (), set_world (waiting_Allow Name p (world s)) s).
Proof. done. Qed.

Lemma Reject_run msg p s :
  Reject msg p s = (Ret (), set_world (waiting_Reject Name msg p (world s)) s).
Proof. done. Qed.

(** Two pods of the same gang. *)
Definition same_gang pod p : Prop :=
  pod_Namespace p = pod_Namespace pod ∧
  flabel.GetPodGroupLabel p = flabel.GetPodGroupLabel pod.
#[export] Instance same_gang_dec pod p : Decision (same_gang pod p).
Proof. unfold same_gang. apply _. Defined.

Lemma full_names_same_gang pod p :
  flabel.GetPodGroupLabel pod ≠ "" →
  ¬ has_char "/" (pod_Namespace pod) → ¬ has_char "/" (pod_Namespace p) →
  flabel.GetPodGroupFullName p = flabel.GetPodGroupFullName pod ↔ same_gang pod p.
Proof.
  intros Hl Hs1 Hs2. unfold flabel.GetPodGroupFullName, same_gang.
  rewrite (decide_False (P:=String.length (flabel.GetPodGroupLabel pod) = 0))
    by (by rewrite length_zero_empty).
  case_decide as E.
  - apply length_zero_empty in E. rewrite E. split; [|intros []; congruence].
    intros Hx. exfalso. apply (f_equal String.length) in Hx.
    rewrite !string_app_length in Hx. simpl in Hx. lia.
  - split; [|intros [-> ->]; done]. by apply namespaced_inj.
Qed.

(** The namespaces of pods have no slash in them. *)
Definition plain_namespace (p : Pod) : Prop := ¬ has_char "/" (pod_Namespace p).

Lemma full_name_GetPodGroupFullName `{!UpstreamLaws U} pod :
  util_GetPodGroupLabel pod ≠ "" → flabel.GetPodGroupFullName pod = full_name pod.
Proof.
  intros Hl. rewrite util_GetPodGroupLabel_spec in Hl.
  unfold flabel.GetPodGroupFullName, full_name. rewrite util_GetPodGroupLabel_spec.
  by rewrite decide_False by (by rewrite length_zero_empty).
Qed.

Lemma filter_same_gang `{!UpstreamLaws U} pod pods :
  util_GetPodGroupLabel pod ≠ "" → plain_namespace pod → Forall plain_namespace pods →
  filter (λ p, flabel.GetPodGroupFullName p = flabel.GetPodGroupFullName pod) pods
  = filter (same_gang pod) pods.
Proof.
  intros Hl Hs. rewrite util_GetPodGroupLabel_spec in Hl.
  induction 1 as [|p pods Hp Hps IH]; [done|].
  rewrite !filter_cons, IH. pose proof (full_names_same_gang pod p Hl Hs Hp).
  repeat case_decide; naive_solver.
Qed.

(** When the manager lets a pod of a group pass, the plugin's Permit allows exactly
    the waiting pods of the same group and namespace, in order, and succeeds without a
    wait. *)
Theorem Permit_releases_gang `{!UpstreamLaws U} plugin pod nodeName d s s1 pods w :
  pl_scheduleTimeout plugin = Some d →
  util_GetPodGroupLabel pod ≠ "" →
  Core.Permit pod s = (Ret Success, s1) →
  WaitingPods (world s1) = (pods, w) →
  plain_namespace pod → Forall plain_namespace pods →
  Permit plugin pod nodeName s =
    (Ret (NewStatus fw_Success [], 0%Z),
     set_world (foldl (λ w p, waiting_Allow Name p w) w (filter (same_gang pod) pods)) s1).
Proof.
  intros Hd Hl EP EW Hs Hps. unfold Permit. rewrite Hd.
  rewrite Go.run_bind. cbn [Go.lift Go.deref]. cbn beta iota.
  rewrite (Go.run_bind_ret _ _ _ _ _ EP). cbn beta iota zeta.
  rewrite Go.run_bind.
  erewrite (iterate_run _ Allow (waiting_Allow Name)) by done.
  by rewrite filter_same_gang.
Qed.

(** ** Rejecting a gang *)

Definition reject_all (msg : string) (pods : list Pod) (w : W) : W :=
  foldl (λ w p, waiting_Reject Name msg p w) w pods.

Lemma reject_gang_run `{!UpstreamLaws U, !ClientLaws CL} msg pod pg s w0 w1 pods w :
  client_Get (pod_Namespace pod) (util_GetPodGroupLabel pod) w0 = (OK pg, w1) →
  WaitingPods (world s) = (pods, w) →
  IterateOverWaitingPods (λ p,
    if decide (pod_Namespace p = pod_Namespace pod ∧ flabel.GetPodGroupLabel p = pg_Name pg)
    then Reject msg p else mret ()) s
  = (Ret (), set_world (reject_all msg (filter (same_gang pod) pods) w) s).
Proof.
  intros EG EW. erewrite (iterate_run _ (Reject msg) (waiting_Reject Name msg)) by done.
  destruct (client_Get_key _ _ _ _ _ EG) as [Hn _]. unfold reject_all.
  do 3 f_equal. apply list_filter_iff. intros p. unfold same_gang.
  by rewrite Hn, util_GetPodGroupLabel_spec.
Qed.

(** Unreserve rejects exactly the waiting pods of the same group and forgets that
    the group was permitted, and keeps the job and node tables and every other group's
    permission. *)
Theorem Unreserve_rejects_gang `{!UpstreamLaws U, !ClientLaws CL, !GoCacheLaws GC}
    pod nodeName s pg w1 pods w2 :
  util_GetPodGroupLabel pod ≠ "" →
  client_Get (pod_Namespace pod) (util_GetPodGroupLabel pod) (world s) = (OK pg, w1) →
  WaitingPods w1 = (pods, w2) →
  ∃ s', Unreserve pod nodeName s = (Ret (), s') ∧
    world s' = reject_all "rejection in Unreserve" (filter (same_gang pod) pods) w2 ∧
    groupToJobId (mgr s') = groupToJobId (mgr s) ∧ podToNode (mgr s') = podToNode (mgr s) ∧
    (∀ t, cache_Get (full_name pod) t (permittedpodGroup (mgr s')) = false) ∧
    (∀ g t, g ≠ full_name pod →
       cache_Get g t (permittedpodGroup (mgr s')) = cache_Get g t (permittedpodGroup (mgr s))).
Proof.
  intros Hl EG EW. unfold Unreserve; open_manager.
  erewrite Go.run_bind_ret by (rewrite GetPodGroup_run, decide_False, EG by done; done).
  cbn beta iota. rewrite Go.run_bind.
  erewrite reject_gang_run by done. eexists. split; [reflexivity|].
  split_and!; [done..| |].
  - intros t. apply Get_Delete_eq.
  - intros g t Hg. by apply Get_Delete_ne.
Qed.

(** C19: PostFilter leaves a group alone that has enough assigned pods; otherwise it
    rejects exactly the waiting pods of the same group, forgets that the group was
    permitted, and with the settings New chooses backs nothing off. *)
Theorem PostFilter_outcomes `{!UpstreamLaws U, !ClientLaws CL}
    pod s pg w1 nodeInfos w2 pods w3 :
  util_GetPodGroupLabel pod ≠ "" →
  client_Get (pod_Namespace pod) (util_GetPodGroupLabel pod) (world s) = (OK pg, w1) →
  NodeInfos_List w1 = (OK nodeInfos, w2) →
  WaitingPods w2 = (pods, w3) →
  let w4 := reject_all "optimistic rejection in PostFilter" (filter (same_gang pod) pods) w3 in
  let '(r, s') := PostFilter New.1 pod s in
  if decide (spec_MinMember (pg_Spec pg) ≤ assigned_count pg nodeInfos)%Z
  then r = Ret (NewStatus fw_Unschedulable []) ∧ s' = set_world w2 s
  else
    (∃ msg, r = Ret (NewStatus fw_Unschedulable [msg])) ∧
    s' = set_permitted (cache_Delete (full_name pod))
           (set_world (lister_List (pod_Namespace pod)
              (v1alpha1.PodGroupLabel, flabel.GetPodGroupLabel pod) w4).2 s).
Proof.
  intros Hl EG EN EW w4. unfold PostFilter; open_manager.
  erewrite Go.run_bind_ret by (rewrite GetPodGroup_run, decide_False, EG by done; done).
  cbn beta iota.
  destruct (client_Get_key _ _ _ _ _ EG) as [_ Hns].
  erewrite Go.run_bind_ret by
    (rewrite <- Hns; apply CalculateAssignedPods_run; exact EN).
  rewrite set_world_twice. case_decide; [done|].
  erewrite Go.run_bind_ret by (eapply reject_gang_run; [exact EG|exact EW]).
  rewrite set_world_twice. cbn beta. fold w4.
  rewrite Go.run_bind. cbn [pl_podGroupBackoff New fst].
  destruct (lister_List _ _ w4) as [[l|e] w5] eqn:EL.
  - go_ext EL. case_decide; (split; [by eexists|done]).
  - go_ext EL. split; [by eexists|done].
Qed.
End facts.
