(* ===== verification/Locks.v ===== *)
(** * The methods that use the mutex, action by action

    PreFilter, UpdatePod and DeletePod with every call of Lock and Unlock of
    the manager's mutex, every access to its two tables and every call to the
    outside world as an action of its own. The definitions of [Core] and
    [Plugin] take each method in one step; run alone, the threads here do
    exactly what those definitions do. *)

From stdpp Require Import prelude gmap strings list fin_maps.
From S2P Require Import Prelude GoRuntime Kube Wire Env PodSpec Threads Core Plugin.

Section locks.
Context {Q : QuantityLib} {U : Upstream} {MO : MapOrder} {GC : GoCacheLib}.
Context {CS : CycleStateLib} {W : Type} {CL : Cluster W} {FS : FluxService W}.

Local Abbreviation Sys := (Sys (W:=W)).

(** A call to the outside world. *)
Definition call {A} (f : W → A * W) : prog Sys A :=
  act Private (λ s, let '(a, w) := f (world s) in (a, set_world w s)).

(** ** The manager's methods *)

Definition GetPodGroup_prog (pod : Pod) : prog Sys (string * option PodGroup) :=
  let groupName := util_GetPodGroupLabel pod in
  if decide (String.length groupName = 0) then mret ("", None)
  else
    r ← call (client_Get (pod_Namespace pod) groupName);
    let full := pod_Namespace pod +:+ "/" +:+ groupName in
    match r with
    | Err _ => mret (full, None)
    | OK pg => mret (full, Some pg)
    end.

Definition cleanup_prog (pod : Pod) (groupName : string) : prog Sys () :=
  _ ← writes Jobs (set_groupToJobId (delete groupName));
  r ← call (lister_List (pod_Namespace pod) (v1alpha1.PodGroupLabel, groupName));
  match r with
  | Err _ => mret ()
  | OK pods => ranges (λ _ p, writes Nodes (set_podToNode (delete (pod_Name p)))) 0 pods
  end.

(** The caller holds the mutex. *)
Definition cancelFluxJob_prog (groupName : string) (pod : Pod) : prog Sys (option error) :=
  job ← reads Jobs (λ s, groupToJobId (mgr s) !! groupName);
  match job with
  | None => mret None
  | Some jobid =>
      derr ← call grpc_Dial;
      match derr with
      | Some err => mret (Some err)
      | None =>
          r ← call (flux_Cancel (pb.mkCancelRequest (GoInt.wrap 64 jobid)));
          match r with
          | Err err => mret (Some err)
          | OK response =>
              if decide (pb.Error response = 0%Z)
              then _ ← cleanup_prog pod groupName; mret None
              else mret None
          end
      end
  end.

Definition AskFlux_prog (pod : Pod) (podGroup : PodGroup) (groupName : string)
    : prog Sys (list string * option error) :=
  isAllocated ← locked (reads Jobs (λ s, bool_decide (is_Some (groupToJobId (mgr s) !! groupName))));
  _ ← (if isAllocated : bool
       then locked (_ ← cancelFluxJob_prog groupName pod; mret ())
       else mret ());
  let jobspec := PreparePodJobSpec pod groupName in
  derr ← call grpc_Dial;
  match derr with
  | Some err => mret ([], Some err)
  | None =>
      let request :=
        pb.mkMatchRequest (Some jobspec) "allocate" (spec_MinMember (pg_Spec podGroup)) in
      r ← call (flux_Match request);
      match r with
      | Err err => mret ([], Some err)
      | OK response =>
          let nodes := pb.NodeID <$> pb.Nodelist response in
          let jobid := GoInt.uint64 (pb.JobID response) in
          _ ← locked (writes Jobs (set_groupToJobId (<[groupName := jobid]>)));
          mret (nodes, None)
      end
  end.

Definition assign_node_prog (pods : list Pod) (i : nat) (node : string) : prog Sys () :=
  pod ← lift (Go.index pods i);
  _ ← writes Private (set_cycle (cs_Write (pod_Name pod) (SD_Flux node)));
  locked (writes Nodes (set_podToNode (<[pod_Name pod := node]>))).

Definition admit_nodes_prog (groupName : string) (repPod : Pod) (pods : list Pod)
    (nodes : list string) : prog Sys (option error) :=
  _ ← (if decide (length nodes ≠ length pods)
       then locked (_ ← cancelFluxJob_prog groupName repPod; mret ())
       else mret ());
  _ ← ranges (assign_node_prog pods) 0 nodes;
  timeout ← reads Private (λ s, scheduleTimeout (mgr s));
  timeout ← lift (Go.deref timeout);
  now ← call time_Now;
  _ ← writes Private (set_permitted (cache_Add groupName timeout now));
  mret None.

Definition core_PreFilter_prog (pod : Pod) : prog Sys (option error) :=
  '(groupName, podGroup) ← GetPodGroup_prog pod;
  match podGroup with
  | None => mret None
  | Some pg =>
      now ← call time_Now;
      exists_ ← reads Private (λ s, cache_Get groupName now (backedOffpodGroup (mgr s)));
      if exists_ : bool then
        mret (Some ("podGroup " +:+ groupName +:+ " failed recently"))
      else
        r ← call (lister_List (pod_Namespace pod)
                   (v1alpha1.PodGroupLabel, util_GetPodGroupLabel pod));
        match r with
        | Err err => mret (Some ("podLister list pods failed: " +:+ err))
        | OK pods =>
            if decide (Z.of_nat (length pods) < spec_MinMember (pg_Spec pg))%Z then
              mret (Some ("pre-filter pod " +:+ pod_Name pod +:+
                          " cannot find enough sibling pods, current pods number: " +:+
                          Fmt.d (Z.of_nat (length pods)) +:+ ", minMember of group: " +:+
                          Fmt.d (spec_MinMember (pg_Spec pg))))
            else
              now ← call time_Now;
              exists_ ← reads Private (λ s, cache_Get groupName now (permittedpodGroup (mgr s)));
              if exists_ : bool then mret None
              else
                repPod ← lift (Go.index pods 0);
                '(nodes, err) ← AskFlux_prog repPod pg groupName;
                match err with
                | Some err => mret (Some err)
                | None => admit_nodes_prog groupName repPod pods nodes
                end
        end
  end.

Definition GetPodNode_prog (pod : Pod) : prog Sys string :=
  reads Nodes (λ s, default "" (podToNode (mgr s) !! pod_Name pod)).

(** ** The plugin's PreFilter *)

Definition PreFilter_prog (pod : Pod) : prog Sys (option (gset string) * FwStatus) :=
  node ← GetPodNode_prog pod;
  if decide (node ≠ "") then
    mret (Some {[ node ]}, NewStatus fw_Success [""])
  else
    err ← core_PreFilter_prog pod;
    match err with
    | Some err => mret (None, NewStatus fw_UnschedulableAndUnresolvable [err])
    | None =>
        node ← GetPodNode_prog pod;
        mret (Some {[ node ]}, NewStatus fw_Success [""])
    end.

(** ** The event handlers *)

Definition event_group_prog (pod : Pod) : prog Sys string :=
  '(groupName, podGroup) ← GetPodGroup_prog pod;
  match podGroup with
  | None => mret (pg_Name (fgroup.CreateFakeGroup pod))
  | Some _ => mret groupName
  end.

(** From the call of Lock on; the deferred Unlock runs at the end. *)
Definition cancel_if_known_prog (groupName : string) (pod : Pod) : prog Sys () :=
  locked (
    exists_ ← reads Jobs (λ s, bool_decide (is_Some (groupToJobId (mgr s) !! groupName)));
    if exists_ : bool then _ ← cancelFluxJob_prog groupName pod; mret () else mret ()).

Definition UpdatePod_prog (oldObj newObj : InformerObj) : prog Sys () :=
  oldPod ← lift (as_pod oldObj);
  newPod ← lift (as_pod newObj);
  groupName ← event_group_prog oldPod;
  match pod_Phase newPod with
  | PodPending => mret ()
  | PodRunning => mret ()
  | PodSucceeded => cancel_if_known_prog groupName oldPod
  | PodFailed => cancel_if_known_prog groupName oldPod
  | PodUnknown => mret ()
  | PodPhaseOther _ => mret ()
  end.

Definition DeletePod_prog (podObj : InformerObj) : prog Sys () :=
  pod ← lift (as_pod podObj);
  groupName ← event_group_prog pod;
  match pod_Phase pod with
  | PodSucceeded => mret ()
  | PodPending => cancel_if_known_prog groupName pod
  | PodRunning => cancel_if_known_prog groupName pod
  | _ => mret ()
  end.

(** ** Run alone, they are the methods of [Core] and [Plugin] *)

Lemma runs_call {A} held (f : W → A * W) : runs_as held (call f) (ext f).
Proof. apply runs_act. intros s. unfold ext. by destruct (f (world s)). Qed.

Local Hint Resolve runs_call : go.

Ltac runs_step :=
  match goal with
  | |- runs_as _ (mbind _ _) (mbind _ _) => refine (runs_bind _ _ _ _ _ _ _); [|intros ?]
  | |- runs_as _ (match ?x with _ => _ end) _ => destruct x
  | |- runs_as _ (mret _) (mret _) => apply runs_ret
  | |- runs_as _ (reads _ _) _ => refine (runs_reads _ _ _)
  | |- runs_as _ (writes _ _) _ => refine (runs_writes _ _ _)
  | |- runs_as _ (lift _) _ => refine (runs_lift _ _)
  | |- runs_as _ (locked _) _ => refine (runs_locked _ _ _)
  | |- runs_as _ (ranges _ _ _) (Go.range_loop _ _ _) => refine (runs_ranges _ _ _ _ _ _); intros ? ?
  | |- runs_as _ (let _ := _ in _) _ => cbv zeta
  | |- runs_as _ _ _ => solve [auto with go]
  end.
Ltac runs_go := repeat runs_step.

Lemma delete_loop (pods : list Pod) : ∀ i (s : Sys),
  Go.range_loop (λ _ p, Go.modify (set_podToNode (delete (pod_Name p)))) i pods s =
  Go.modify (set_podToNode (λ m, foldl (λ m p, delete (pod_Name p) m) m pods)) s.
Proof.
  induction pods as [|p pods IH]; intros i s; simpl; [by destruct s as [[] ? ?]|].
  rewrite Go.run_bind. cbn [Go.modify]. by rewrite IH.
Qed.

Lemma cleanup_runs pod g : runs_as true (cleanup_prog pod g) (cleanup pod g).
Proof.
  unfold cleanup_prog, cleanup. runs_go.
  eapply runs_equiv; [apply delete_loop|]. runs_go.
Qed.
Local Hint Resolve cleanup_runs : go.

Lemma cancelFluxJob_runs g pod :
  runs_as true (cancelFluxJob_prog g pod) (cancelFluxJob g pod).
Proof. unfold cancelFluxJob_prog, cancelFluxJob. runs_go. Qed.
Local Hint Resolve cancelFluxJob_runs : go.

Lemma GetPodGroup_runs held pod : runs_as held (GetPodGroup_prog pod) (GetPodGroup pod).
Proof. unfold GetPodGroup_prog, GetPodGroup. cbv zeta. runs_go. Qed.
Local Hint Resolve GetPodGroup_runs : go.

Lemma AskFlux_runs pod pg g : runs_as false (AskFlux_prog pod pg g) (AskFlux pod pg g).
Proof. unfold AskFlux_prog, AskFlux. cbv zeta. runs_go. Qed.
Local Hint Resolve AskFlux_runs : go.

Lemma admit_nodes_runs g rep pods nodes :
  runs_as false (admit_nodes_prog g rep pods nodes) (admit_nodes g rep pods nodes).
Proof. unfold admit_nodes_prog, admit_nodes, assign_node_prog, assign_node. runs_go. Qed.
Local Hint Resolve admit_nodes_runs : go.

Lemma core_PreFilter_runs pod : runs_as false (core_PreFilter_prog pod) (Core.PreFilter pod).
Proof. unfold core_PreFilter_prog, Core.PreFilter. cbv zeta. runs_go. Qed.
Local Hint Resolve core_PreFilter_runs : go.

Lemma event_group_runs pod : runs_as false (event_group_prog pod) (event_group pod).
Proof. unfold event_group_prog, event_group. runs_go. Qed.
Local Hint Resolve event_group_runs : go.

Lemma cancel_if_known_runs g pod :
  runs_as false (cancel_if_known_prog g pod) (cancel_if_known g pod).
Proof. unfold cancel_if_known_prog, cancel_if_known. runs_go. Qed.
Local Hint Resolve cancel_if_known_runs : go.

(** C9: A goroutine that runs PreFilter, UpdatePod or DeletePod action by action, with
    every Lock and Unlock, and is not disturbed, never blocks on its own lock, and ends
    with the result and in the state of the method taken as one step, with the mutex
    free unless it panics. *)
Theorem methods_run_alone (pod : Pod) (old new obj : InformerObj) :
  runs_as false (PreFilter_prog pod) (Plugin.PreFilter pod) ∧
  runs_as false (UpdatePod_prog old new) (UpdatePod old new) ∧
  runs_as false (DeletePod_prog obj) (DeletePod obj).
Proof.
  split; [|split].
  - unfold PreFilter_prog, Plugin.PreFilter, GetPodNode_prog, GetPodNode. runs_go.
  - unfold UpdatePod_prog, UpdatePod. runs_go.
  - unfold DeletePod_prog, DeletePod. runs_go.
Qed.
End locks.
