(* ===== verification/CycleTypes.v ===== *)
(** * The types of the entries of the cycle state

    The framework's cycle state maps keys to data of any type. The plugin
    stores the node of a pod under the pod's name and reads it back in Filter
    with a type assertion whose failure it does not survive. Here: through a
    whole scheduling cycle the entry of a pod keeps its type. *)

From stdpp Require Import prelude gmap strings list fin_maps.
From S2P Require Import Prelude GoRuntime Kube Wire Env PodSpec Core CoreFacts Plugin.

Section types.
Context {Q : QuantityLib} {U : Upstream} {MO : MapOrder} {GC : GoCacheLib}.
Context {CS : CycleStateLib} {W : Type} {CL : Cluster W} {FS : FluxService W}.

Local Abbreviation Sys := (Sys (W:=W)).
Implicit Types (s : Sys) (pod p : Pod).

(** The keys under which data that is no node is kept: neither is the name
    of a pod, which holds only lower case letters, digits, '-' and '.'. *)
Definition reserved (k : string) : Prop := k = permitStateKey ∨ k = PodsToActivateKey.
#[export] Instance reserved_dec k : Decision (reserved k).
Proof. unfold reserved. apply _. Defined.

(** The key [k] is free or holds a node. *)
Definition holds_node (c : CycleState) (k : string) : Prop :=
  cs_Read k c = None ∨ ∃ n, cs_Read k c = Some (SD_Flux n).

Definition well_typed (c : CycleState) : Prop := ∀ k, ¬ reserved k → holds_node c k.

(** What happens in the course of one cycle: its own entry points, and
    whatever else runs meanwhile and has no access to this cycle's state. *)
Inductive cycle_step : Sys → Sys → Prop :=
| cycle_PreFilter pod s : cycle_step s (Plugin.PreFilter pod s).2
| cycle_Filter pod nodeName s : cycle_step s (Filter pod nodeName s).2
| cycle_PostFilter plugin pod s : cycle_step s (PostFilter plugin pod s).2
| cycle_Permit plugin pod nodeName s : cycle_step s (Plugin.Permit plugin pod nodeName s).2
| cycle_Reserve pod nodeName s : cycle_step s (Reserve pod nodeName s).2
| cycle_Unreserve pod nodeName s : cycle_step s (Unreserve pod nodeName s).2
| cycle_elsewhere m w s : cycle_step s (mkSys m (cycle s) w).

Definition keeps_types s s' : Prop := well_typed (cycle s) → well_typed (cycle s').

#[export] Instance keeps_types_preorder : PreOrder keeps_types.
Proof. split; [by intros s Hs|]. intros s1 s2 s3 H1 H2 H. by apply H2, H1. Qed.

Lemma keeps_types_same s s' : cycle s' = cycle s → keeps_types s s'.
Proof. unfold keeps_types. by intros ->. Qed.

Lemma types_ext {A} (f : W → A * W) : Go.within keeps_types (ext f).
Proof. apply within_ext. intros s w. by apply keeps_types_same. Qed.

Context {CSL : CycleStateLaws CS}.

(** Writing a node anywhere, or anything under a reserved key. *)
Lemma well_typed_node k n c : well_typed c → well_typed (cs_Write k (SD_Flux n) c).
Proof.
  intros Hc k' Hk'. unfold holds_node. destruct (decide (k = k')) as [->|Hne].
  - rewrite cs_Read_Write_eq. eauto.
  - rewrite cs_Read_Write_ne by done. by apply Hc.
Qed.

Lemma well_typed_reserved k d c : reserved k → well_typed c → well_typed (cs_Write k d c).
Proof.
  intros Hk Hc k' Hk'. unfold holds_node. rewrite cs_Read_Write_ne by (by intros ->).
  by apply Hc.
Qed.

Lemma types_write_node k n : Go.within keeps_types (Go.modify (set_cycle (W:=W) (cs_Write k (SD_Flux n)))).
Proof. intros s Hs. by apply well_typed_node. Qed.

Lemma types_write_reserved k d :
  reserved k → Go.within keeps_types (Go.modify (set_cycle (W:=W) (cs_Write k d))).
Proof. intros Hk s Hs. by apply well_typed_reserved. Qed.

Local Hint Resolve types_ext types_write_node : go.
Local Hint Extern 2 (Go.within _ (Go.modify (set_cycle _))) =>
  apply types_write_reserved; unfold reserved; tauto : go.

Ltac types_go :=
  repeat first
    [ solve [eauto with go]
    | within_step
    | by apply keeps_types_same ].

Lemma types_GetPodGroup pod : Go.within keeps_types (GetPodGroup pod).
Proof. unfold GetPodGroup. types_go. Qed.

Lemma types_cancelFluxJob g pod : Go.within keeps_types (cancelFluxJob g pod).
Proof. unfold cancelFluxJob, cleanup. types_go. Qed.
Local Hint Resolve types_GetPodGroup types_cancelFluxJob : go.

Lemma types_AskFlux pod pg g : Go.within keeps_types (AskFlux pod pg g).
Proof. unfold AskFlux. types_go. Qed.

Lemma types_admit_nodes g rep pods nodes : Go.within keeps_types (admit_nodes g rep pods nodes).
Proof. unfold admit_nodes, assign_node. types_go. Qed.
Local Hint Resolve types_AskFlux types_admit_nodes : go.

Lemma types_PreFilter pod : Go.within keeps_types (Plugin.PreFilter pod).
Proof. unfold Plugin.PreFilter; open_manager; unfold Core.PreFilter, GetPodNode. types_go. Qed.

Lemma types_PostFilter plugin pod : Go.within keeps_types (PostFilter plugin pod).
Proof.
  unfold PostFilter; open_manager; unfold CalculateAssignedPods, IterateOverWaitingPods, BackoffPodGroup,
    DeletePermittedPodGroup, Reject. types_go.
Qed.

Lemma types_Permit plugin pod nodeName : Go.within keeps_types (Plugin.Permit plugin pod nodeName).
Proof.
  unfold Plugin.Permit; open_manager; unfold Core.Permit, CalculateAssignedPods, ActivateSiblings,
    IterateOverWaitingPods, Allow. types_go.
Qed.

Lemma types_Unreserve pod nodeName : Go.within keeps_types (Unreserve pod nodeName).
Proof. unfold Unreserve; open_manager; unfold IterateOverWaitingPods, DeletePermittedPodGroup, Reject. types_go. Qed.

Lemma cycle_step_types s s' : cycle_step s s' → keeps_types s s'.
Proof.
  destruct 1.
  - apply types_PreFilter.
  - assert (Go.within keeps_types (Filter pod nodeName)) as H by (unfold Filter; types_go).
    apply H.
  - apply types_PostFilter.
  - apply types_Permit.
  - by apply keeps_types_same.
  - apply types_Unreserve.
  - by apply keeps_types_same.
Qed.

Lemma cycle_steps_types s s' : rtc cycle_step s s' → keeps_types s s'.
Proof. induction 1 as [|s1 s2 s3 H _ IH]; [done|]. etrans; [by apply cycle_step_types|done]. Qed.

(** What Filter makes of an entry. *)
Lemma Filter_entry pod nodeName s :
  (Filter pod nodeName s).1 =
  match cs_Read (pod_Name pod) (cycle s) with
  | None => Ret (NewStatus fw_Success [])
  | Some (SD_Flux n) =>
      Ret (if decide (n = nodeName) then NewStatus fw_Success []
           else NewStatus fw_Unschedulable ["pod is not permitted"])
  | Some _ => Panic "runtime error: invalid memory address or nil pointer dereference"
  end.
Proof.
  unfold Filter. rewrite Go.run_bind. cbn [Go.gets].
  destruct (cs_Read _ _) as [[]|]; try done. repeat case_decide; done.
Qed.

(** C16: From a cycle state whose entries under pod names are nodes, in particular from
    a fresh one, no sequence of the plugin's calls in that cycle makes Filter's type
    assertion fail: for every pod with a proper name it returns, refusing exactly the
    nodes other than the one stored for the pod. *)
Theorem Filter_well_typed s s' pod nodeName :
  well_typed (cycle s) → rtc cycle_step s s' → ¬ reserved (pod_Name pod) →
  (Filter pod nodeName s').1 =
    Ret (match cs_Read (pod_Name pod) (cycle s') with
         | Some (SD_Flux n) => if decide (n = nodeName) then NewStatus fw_Success []
                               else NewStatus fw_Unschedulable ["pod is not permitted"]
         | _ => NewStatus fw_Success []
         end).
Proof.
  intros Hs Hst Hpod. rewrite Filter_entry.
  destruct (cycle_steps_types _ _ Hst Hs _ Hpod) as [->|[n ->]]; done.
Qed.
End types.
