(* ===== verification/Gang.v ===== *)
(** * The scheduling of a gang

    One call to Fluxion places all pods of a group: what the first pod's
    PreFilter settles for its siblings, and what happens to a pod that has to
    wait for them at Permit. *)

From Stdlib Require Import Ascii.
From stdpp Require Import prelude gmap strings list fin_maps.
From S2P Require Import Prelude GoRuntime Kube Wire Env PodSpec Core CoreFacts CoreMethods Plugin PluginFacts.

Section gang.
Context {Q : QuantityLib} {U : Upstream} {MO : MapOrder} {GC : GoCacheLib}.
Context {CS : CycleStateLib} {W : Type} {CL : Cluster W} {FS : FluxService W}.

Local Abbreviation Sys := (Sys (W:=W)).
Implicit Types (s t : Sys) (pod p : Pod) (pods : list Pod) (pg : PodGroup).

(** ** The first pod of a gang *)

(** The answer of Fluxion that a PreFilter of [pod] started in [s] acted on:
    the group read, the pods listed, the request made of the first of them. *)
Definition fluxion_answer pod s pg pods (resp : pb.MatchResponse) : Prop :=
  (∃ w, client_Get (pod_Namespace pod) (util_GetPodGroupLabel pod) (world s) = (OK pg, w)) ∧
  (∃ w w', lister_List (pod_Namespace pod)
     (v1alpha1.PodGroupLabel, util_GetPodGroupLabel pod) w = (OK pods, w')) ∧
  ∃ rep w w', pods !! 0 = Some rep ∧
    flux_Match (pb.mkMatchRequest (Some (PreparePodJobSpec rep (full_name pod))) "allocate"
                  (spec_MinMember (pg_Spec pg))) w = (OK resp, w').

(** A PreFilter that recorded a node for its pod went all the way. *)
Lemma core_PreFilter_admits pod s s' n :
  podToNode (mgr s) !! pod_Name pod = None →
  Core.PreFilter pod s = (Ret None, s') →
  podToNode (mgr s') !! pod_Name pod = Some n →
  ∃ pg pods rep resp s1,
    fluxion_answer pod s pg pods resp ∧
    (spec_MinMember (pg_Spec pg) ≤ Z.of_nat (length pods))%Z ∧
    groupToJobId (mgr s1) !! full_name pod = Some (GoInt.uint64 (pb.JobID resp)) ∧
    admit_nodes (full_name pod) rep pods (pb.NodeID <$> pb.Nodelist resp) s1 = (Ret None, s').
Proof.
  intros Hnone E Hn. pose proof (PreFilter_exits pod s) as HX. rewrite E in HX.
  inversion HX as [w g HG E1| |w now Hc E1| | |pg pods rep nodes w0 w1 w2 w s1 EG EL Hmin Hrep EA E1];
    subst; try (simpl in Hn; congruence).
  destruct (AskFlux_run rep pg (full_name pod) (set_world w s))
    as (s2&Hsh&[(e&s3&E2&_)|(resp&w4&w5&EM&E2)]); rewrite E2 in EA; simplify_eq.
  exists pg, pods, rep, resp. eexists. split; [|split; [exact Hmin|split; [|reflexivity]]].
  - split_and!; [by eexists|by eexists _, _|]. by exists rep, w4, w5.
  - simpl. by rewrite lookup_insert_eq.
Qed.

(** Once a pod's node is recorded PreFilter changes nothing and asks no one. *)
Lemma PreFilter_recorded pod s n :
  podToNode (mgr s) !! pod_Name pod = Some n → n ≠ "" →
  Plugin.PreFilter pod s = (Ret (Some {[ n ]}, NewStatus fw_Success [""]), s).
Proof.
  intros Hn Hne. unfold Plugin.PreFilter; open_manager. rewrite Go.run_bind. cbn [GetPodNode Go.gets].
  rewrite Hn. simpl. by rewrite decide_True.
Qed.

(** C10: When PreFilter records a node for its pod, it has acted on one answer of
    Fluxion to one request for MinMember slots, with no more nodes than the group has
    listed pods. If it has as many nodes as pods, its job is recorded for the group, and
    each of the pods, when their names differ, has the node at its position. If it has
    fewer, only the first pods have. A later pod with the name of one that has a node,
    in whatever namespace, passes PreFilter with that node, unless the node's name is
    empty, with nothing changed and nobody asked. *)
Theorem gang_placed_at_once pod s names st s' n0 :
  podToNode (mgr s) !! pod_Name pod = None →
  Plugin.PreFilter pod s = (Ret (Some names, st), s') →
  podToNode (mgr s') !! pod_Name pod = Some n0 →
  ∃ pg pods resp,
    let nodes := pb.NodeID <$> pb.Nodelist resp in
    fluxion_answer pod s pg pods resp ∧
    (spec_MinMember (pg_Spec pg) ≤ Z.of_nat (length pods))%Z ∧
    length nodes ≤ length pods ∧
    (** a node for every pod: the gang is placed *)
    (length nodes = length pods →
       groupToJobId (mgr s') !! full_name pod = Some (GoInt.uint64 (pb.JobID resp)) ∧
       (NoDup (pod_Name <$> pods) →
        ∀ i p, pods !! i = Some p →
          ∃ n, nodes !! i = Some n ∧ podToNode (mgr s') !! pod_Name p = Some n)) ∧
    (** however many there are *)
    (NoDup (pod_Name <$> pods) →
     ∀ i p n, pods !! i = Some p → nodes !! i = Some n →
       podToNode (mgr s') !! pod_Name p = Some n ∧
       (** and any pod of that name, of whatever namespace, is pinned to it *)
       ∀ q t, pod_Name q = pod_Name p → podToNode (mgr t) !! pod_Name p = Some n → n ≠ "" →
         Plugin.PreFilter q t = (Ret (Some {[ n ]}, NewStatus fw_Success [""]), t)).
Proof.
  intros Hnone E Hn. unfold Plugin.PreFilter in E; open_manager in E. rewrite Go.run_bind in E.
  cbn [GetPodNode Go.gets] in E. rewrite Hnone in E. simpl in E.
  apply Go.run_bind_inv in E as (err&s2&Hcore&E).
  destruct err as [err|]; [done|]. rewrite Go.run_bind in E. cbn [GetPodNode Go.gets] in E.
  injection E as _ _ <-.
  destruct (core_PreFilter_admits _ _ _ _ Hnone Hcore Hn)
    as (pg&pods&rep&resp&s1&Hans&Hmin&Hjob&E).
  exists pg, pods, resp. intros nodes. fold nodes in E. rewrite admit_nodes_run in E.
  case_decide as Hle; [|done].
  destruct (scheduleTimeout (mgr s1)) as [d|]; [|done].
  destruct (time_Now _) as [now w]. injection E as <-. simpl.
  assert (NoDup (pod_Name <$> pods) → ∀ i p n, pods !! i = Some p → nodes !! i = Some n →
    assign_pods (zip pods nodes) (podToNode (mgr (after_size_check (full_name pod) rep pods nodes s1)))
      !! pod_Name p = Some n) as Hat.
  { intros Hnd i p n Hp Hi.
    apply assign_pods_lookup; [by apply zip_fst_NoDup|by eapply lookup_zip]. }
  split; [exact Hans|]. split_and!; [done|done| |].
  - intros Hlen. unfold after_size_check at 1. rewrite decide_False by lia. split; [done|].
    intros Hnd i p Hp. destruct (lookup_lt_is_Some_2 nodes i) as [n Hi].
    { rewrite Hlen. by eapply lookup_lt_Some. }
    exists n. split; [done|by eapply Hat].
  - intros Hnd i p n Hp Hi. split; [by eapply Hat|].
    intros q t Hq Ht. apply PreFilter_recorded. by rewrite Hq.
Qed.

(** ** Waiting for the rest of the gang *)

Lemma cut_uid_filter uid pods :
  NoDup (pod_UID <$> pods) → cut_uid uid pods = filter (λ p, pod_UID p ≠ uid) pods.
Proof.
  induction pods as [|p pods IH]; csimpl; [done|]. intros [Hp Hnd]%NoDup_cons.
  rewrite filter_cons. destruct (decide (pod_UID p = uid)) as [<-|Hne].
  - rewrite decide_False by auto. symmetry. apply filter_all. intros q Hq Heq.
    apply Hp. rewrite <- Heq. by apply list_elem_of_fmap_2.
  - rewrite decide_True by done. by rewrite IH.
Qed.

(** The map of pods to activate with some pods added. *)
Definition activate pods (m : gmap string Pod) : gmap string Pod :=
  foldl (λ m p, <[GetNamespacedName p := p]> m) m pods.

Lemma activate_lookup pods m k p :
  NoDup (GetNamespacedName <$> pods) →
  activate pods m !! k = Some p ↔
    (p ∈ pods ∧ GetNamespacedName p = k) ∨
    (m !! k = Some p ∧ k ∉ GetNamespacedName <$> pods).
Proof.
  unfold activate. revert m. induction pods as [|q pods IH]; intros m; csimpl.
  - intros _. set_solver.
  - intros [Hq Hnd]%NoDup_cons. rewrite IH by done.
    rewrite lookup_insert_Some, !elem_of_cons.
    split; [naive_solver|].
    intros [[[->|?] <-]|[? Hk]]; [right|by left|right].
    + split; [by left|done].
    + split; [right|]; naive_solver.
Qed.

(** How long a pod waits: what the group asks for, else the plugin's timeout. *)
Definition wait_time pg (d : Z) : Z :=
  match spec_ScheduleTimeoutSeconds (pg_Spec pg) with
  | Some secs =>
      let t := GoInt.wrap 64 (secs * Time.Second) in if decide (t = 0%Z) then d else t
  | None => d
  end.

Lemma wait_time_run pg d :
  d ≠ 0%Z →
  (let wait := fgroup.GetWaitTimeDuration (Some pg) (Some d) in
   if decide (wait ≠ 0%Z) then wait else d) = wait_time pg d.
Proof.
  intros Hd. unfold fgroup.GetWaitTimeDuration, wait_time. simpl.
  destruct (spec_ScheduleTimeoutSeconds _) as [secs|].
  - destruct (decide (GoInt.wrap 64 (secs * Time.Second) = 0%Z)) as [->|Hne]; [done|].
    by rewrite decide_True.
  - rewrite (decide_True (P:=d ≠ 0%Z)) by done. by rewrite decide_True.
Qed.

(** When the manager tells a pod to wait, the plugin's Permit waits for the timeout
    of the group, else of the plugin; it leaves the manager alone, and exactly when
    siblings are to be activated it adds every listed pod of the group but the pod
    itself to the pods to activate. *)
Theorem Permit_waits `{!CycleStateLaws CS} plugin pod nodeName d s s1 pg w1 pods w2 m :
  pl_scheduleTimeout plugin = Some d → d ≠ 0%Z →
  util_GetPodGroupLabel pod ≠ "" →
  Core.Permit pod s = (Ret Wait, s1) →
  client_Get (pod_Namespace pod) (util_GetPodGroupLabel pod) (world s1) = (OK pg, w1) →
  lister_List (pod_Namespace pod)
    (v1alpha1.PodGroupLabel, util_GetPodGroupLabel pod) w1 = (OK pods, w2) →
  cs_Read PodsToActivateKey (cycle s1) = Some (SD_PodsToActivate m) →
  NoDup (pod_UID <$> pods) → NoDup (GetNamespacedName <$> pods) →
  ∃ s', Plugin.Permit plugin pod nodeName s
          = (Ret (NewStatus fw_Wait [], wait_time pg d), s') ∧
    mgr s' = mgr s1 ∧
    match cs_Read permitStateKey (cycle s1) with
    | Some (SD_Permit true) =>
        let siblings := filter (λ p, pod_UID p ≠ pod_UID pod) pods in
        ∃ m', cs_Read PodsToActivateKey (cycle s') = Some (SD_PodsToActivate m') ∧
          ∀ k p, m' !! k = Some p ↔
            (p ∈ siblings ∧ GetNamespacedName p = k) ∨
            (m !! k = Some p ∧ k ∉ GetNamespacedName <$> siblings)
    | _ => cycle s' = cycle s1
    end.
Proof.
  intros Hd Hd0 Hl EP EG EL Hm Huid Hname. unfold Plugin.Permit; open_manager. rewrite Hd.
  rewrite Go.run_bind. cbn [Go.lift Go.deref]. cbn beta iota.
  rewrite (Go.run_bind_ret _ _ _ _ _ EP). cbn beta iota zeta.
  erewrite Go.run_bind_ret by (rewrite GetPodGroup_run, decide_False, EG by done; done).
  cbn beta iota. pose proof (wait_time_run pg d Hd0) as Hw. cbn zeta in Hw. rewrite Hw. clear Hw.
  rewrite Go.run_bind. unfold ActivateSiblings.
  rewrite (decide_False (P:=util_GetPodGroupLabel pod = "")) by done.
  rewrite Go.run_bind. cbn [Go.gets]. cbn [cycle set_world].
  destruct (cs_Read permitStateKey (cycle s1)) as [[|[]| |]|]; try by eexists.
  go_ext EL. rewrite cut_uid_filter by done.
  set (siblings := filter _ pods). case_decide as Hlen.
  - rewrite Go.run_bind. cbn [Go.gets]. cbn [cycle set_world]. rewrite Hm.
    eexists. split; [reflexivity|]. split; [done|].
    exists (activate siblings m). split; [simpl; by rewrite cs_Read_Write_eq|].
    intros k p. apply activate_lookup. unfold siblings.
    eapply sublist_NoDup; [exact Hname|]. apply fmap_sublist, sublist_filter.
  - eexists. split; [reflexivity|]. split; [done|]. exists m. split; [done|].
    destruct siblings; [set_solver|]. simpl in Hlen. lia.
Qed.
End gang.
