(* ===== verification/Release.v ===== *)
(** * A gang at the Permit gate

    The pods of a gang reach Permit one after the other, each in a scheduling
    cycle of its own. The framework, which is not part of the repository,
    assumes a pod that has to wait on its node and keeps it in the list of
    waiting pods; in between anything else may happen to other pods. However
    the cycles are spread, all pods but the last wait, and the last one
    releases exactly those before it, in whatever order the framework lists
    them. *)

From Stdlib Require Import Ascii.
From stdpp Require Import prelude gmap strings list fin_maps.
From S2P Require Import Prelude GoRuntime Kube Wire Env PodSpec Core CoreFacts CoreMethods Plugin PluginFacts Gang.

(** What the plugin can see of the cluster at Permit: the pods on the nodes of
    the snapshot, the waiting pods, and the PodGroups. *)
Record Seen {Q : QuantityLib} := mkSeen {
  seen_pods : list Pod;
  seen_waiting : list Pod;
  seen_group : string * string → option PodGroup;
}.

(** Looking at the cluster does not change what is seen. *)
Class SeenLaws {Q : QuantityLib} {W : Type} (CL : Cluster W) := {
  seen : W → Seen;
  seen_NodeInfos w : ∃ infos w', NodeInfos_List w = (OK infos, w') ∧
    concat infos = seen_pods (seen w) ∧ seen w' = seen w;
  (** the framework keeps the waiting pods in a map and ranges over it in any order *)
  seen_WaitingPods w : ∃ ps w', WaitingPods w = (ps, w') ∧ ps ≡ₚ seen_waiting (seen w) ∧
    seen w' = seen w;
  seen_Get ns n w pg : seen_group (seen w) (ns, n) = Some pg →
    ∃ w', client_Get ns n w = (OK pg, w') ∧ seen w' = seen w;
  seen_List ns sel w : seen (lister_List ns sel w).2 = seen w;
}.

(** A pod on a node. *)
Definition assume {Q : QuantityLib} (n : string) (p : Pod) : Pod :=
  mkPod (pod_Name p) (pod_Namespace p) (pod_UID p) (pod_Labels p) (pod_OwnerReferences p)
    (pod_DeletionTimestamp p) n (pod_Containers p) (pod_Phase p).

Section release.
Context {Q : QuantityLib} {U : Upstream} {MO : MapOrder} {GC : GoCacheLib}.
Context {CS : CycleStateLib} {W : Type} {CL : Cluster W} {FS : FluxService W}.
Context {UL : UpstreamLaws U} {CsL : CycleStateLaws CS} {ClL : ClientLaws CL} {SL : SeenLaws CL}.

Local Abbreviation Sys := (Sys (W:=W)).
Implicit Types (s : Sys) (p q : Pod) (ps : list Pod) (pg : PodGroup).

(** ** The cycles of a gang *)

(** A pod of the group [pg]. *)
Definition in_gang pg p : Prop :=
  pod_Namespace p = pg_Namespace pg ∧ flabel.GetPodGroupLabel p = pg_Name pg.
#[export] Instance in_gang_dec pg p : Decision (in_gang pg p).
Proof. unfold in_gang. apply _. Defined.

(** The pods of the group on nodes, and those that wait. *)
Definition placed pg s : list Pod :=
  filter (λ p, in_gang pg p ∧ pod_NodeName p ≠ "") (seen_pods (seen (world s))).
Definition waiting pg s : list Pod := filter (in_gang pg) (seen_waiting (seen (world s))).

Definition group_seen pg s : Prop :=
  seen_group (seen (world s)) (pg_Namespace pg, pg_Name pg) = Some pg.

(** The scheduling cycles of the pods [ps] of the gang up to Permit, each of
    which has told its pod to wait. Between two cycles everything may change
    but the group and what is seen of its own pods. *)
Inductive cycles (plugin : Fluence) pg : list Pod → Sys → Prop :=
| cycles_none s :
    group_seen pg s → placed pg s = [] → waiting pg s = [] → cycles plugin pg [] s
| cycles_wait ps p n d s s1 s' :
    cycles plugin pg ps s → in_gang pg p → n ≠ "" →
    Plugin.Permit plugin p n s = (Ret (NewStatus fw_Wait [], d), s1) →
    group_seen pg s' →
    placed pg s' ≡ₚ assume n p :: placed pg s1 →
    waiting pg s' ≡ₚ waiting pg s1 ++ [p] →
    cycles plugin pg (ps ++ [p]) s'.

(** ** One Permit *)

Lemma in_gang_assigned pg p :
  is_assigned (pg_Name pg) (pg_Namespace pg) p ↔ in_gang pg p ∧ pod_NodeName p ≠ "".
Proof. unfold is_assigned, in_gang. rewrite util_GetPodGroupLabel_spec. naive_solver. Qed.

Lemma assigned_placed pg infos s :
  concat infos = seen_pods (seen (world s)) →
  assigned_count pg infos = Z.of_nat (length (placed pg s)).
Proof.
  intros E. unfold assigned_count, placed. rewrite E. do 2 f_equal.
  apply list_filter_iff. intros p. apply in_gang_assigned.
Qed.

(** Activating the siblings returns, whatever is in the cycle state. *)
Lemma ActivateSiblings_returns p s :
  ∃ s', ActivateSiblings p s = (Ret (), s') ∧ mgr s' = mgr s ∧ seen (world s') = seen (world s).
Proof.
  unfold ActivateSiblings. case_decide; [by exists s|]. rewrite Go.run_bind. cbn [Go.gets].
  destruct (cs_Read permitStateKey (cycle s)) as [[|[]| |]|]; try by exists s.
  destruct (lister_List (pod_Namespace p) (v1alpha1.PodGroupLabel, util_GetPodGroupLabel p)
              (world s)) as [r w] eqn:EL.
  assert (seen w = seen (world s)) as Hw by (by rewrite <- (seen_List (pod_Namespace p)
    (v1alpha1.PodGroupLabel, util_GetPodGroupLabel p) (world s)), EL).
  go_ext EL. destruct r as [pods|e]; [|by eexists].
  case_decide; [|by eexists]. rewrite Go.run_bind. cbn [Go.gets].
  destruct (cs_Read PodsToActivateKey _) as [[]|]; by eexists.
Qed.

(** The manager's answer counts the pods of the group on nodes. *)
Lemma core_Permit_seen pg p s :
  in_gang pg p → pg_Name pg ≠ "" → group_seen pg s →
  (Z.of_nat (length (placed pg s)) < 2 ^ 31 - 1)%Z →
  ∃ s1, seen (world s1) = seen (world s) ∧ mgr s1 = mgr s ∧
    Core.Permit p s = (Ret (if decide (spec_MinMember (pg_Spec pg)
                                       ≤ Z.of_nat (length (placed pg s)) + 1)%Z
                            then Success else Wait), s1).
Proof.
  intros [Hns Hl] Hne Hg Hlt.
  destruct (seen_Get (pg_Namespace pg) (pg_Name pg) (world s) pg Hg) as (w1&EG&S1).
  destruct (seen_NodeInfos w1) as (infos&w2&EN&Hc&S2). rewrite S1 in Hc, S2.
  pose proof (assigned_placed pg infos s Hc) as Ha.
  assert (util_GetPodGroupLabel p ≠ "") as Hl' by (by rewrite util_GetPodGroupLabel_spec, Hl).
  rewrite (Permit_correct p s pg w1 infos w2); [|done|..|by rewrite Ha].
  2:{ by rewrite util_GetPodGroupLabel_spec, Hl, Hns. }
  2:{ done. }
  cbv zeta. rewrite Ha. case_decide; [|case_decide]; eexists; (split; [|split; [|reflexivity]]); done.
Qed.

(** ** The whole gang *)

Lemma filter_in_gang pg p ps :
  in_gang pg p → filter (same_gang p) ps = filter (in_gang pg) ps.
Proof.
  intros [Hns Hl]. apply list_filter_iff. intros q. unfold same_gang, in_gang. by rewrite Hns, Hl.
Qed.

(** A Permit that waits leaves what is seen alone. *)
Lemma Permit_waits_seen plugin pg p n s d s1 :
  in_gang pg p → pg_Name pg ≠ "" → group_seen pg s →
  (Z.of_nat (length (placed pg s)) < 2 ^ 31 - 1)%Z →
  Plugin.Permit plugin p n s = (Ret (NewStatus fw_Wait [], d), s1) →
  seen (world s1) = seen (world s) ∧
  (Z.of_nat (length (placed pg s)) + 1 < spec_MinMember (pg_Spec pg))%Z.
Proof.
  intros Hin Hne Hg Hlt E. unfold Plugin.Permit in E; open_manager in E.
  destruct (pl_scheduleTimeout plugin) as [d0|]; [|done].
  rewrite Go.run_bind in E. cbn [Go.lift Go.deref] in E. cbn beta iota in E.
  destruct (core_Permit_seen pg p s Hin Hne Hg Hlt) as (s2&Hs2&_&EP).
  rewrite (Go.run_bind_ret _ _ _ _ _ EP) in E. case_decide as Hmin; cbn beta iota zeta in E.
  { apply Go.run_bind_inv in E as (?&?&_&E). done. }
  split; [|lia]. rewrite Go.run_bind, GetPodGroup_run in E.
  assert (util_GetPodGroupLabel p = pg_Name pg) as Hl
    by (rewrite util_GetPodGroupLabel_spec; apply Hin).
  rewrite Hl, decide_False in E by done.
  destruct (seen_Get (pg_Namespace pg) (pg_Name pg) (world s2) pg) as (w3&EG&S3).
  { by rewrite Hs2. }
  rewrite (proj1 Hin), EG in E. cbn beta iota zeta in E. rewrite Go.run_bind in E.
  destruct (ActivateSiblings_returns p (set_world w3 s2)) as (s4&EA&_&S4). rewrite EA in E.
  injection E as _ <-. rewrite S4. simpl. by rewrite S3, Hs2.
Qed.

(** After the cycles of some pods these are the ones on nodes and the ones
    that wait, and they are fewer than the size of the group. *)
Lemma cycles_seen plugin pg ps s :
  pg_Name pg ≠ "" → (spec_MinMember (pg_Spec pg) < 2 ^ 31)%Z →
  cycles plugin pg ps s →
  group_seen pg s ∧ length (placed pg s) = length ps ∧ waiting pg s ≡ₚ ps ∧
  (ps ≠ [] → (Z.of_nat (length ps) < spec_MinMember (pg_Spec pg))%Z).
Proof.
  intros Hne Hmm. induction 1 as [s Hg Hp Hw|ps p n d s s1 s' Hc IH Hin Hn E Hg' Hp' Hw'].
  { by rewrite Hp, Hw. }
  destruct IH as (Hg&Hp&Hw&Hlt).
  assert (Z.of_nat (length (placed pg s)) < 2 ^ 31 - 1)%Z as Hb.
  { rewrite Hp. destruct ps as [|q ps]; [done|]. specialize (Hlt ltac:(done)). lia. }
  destruct (Permit_waits_seen _ _ _ _ _ _ _ Hin Hne Hg Hb E) as [Hs1 Hm].
  assert (placed pg s1 = placed pg s) as Hp1 by (unfold placed; by rewrite Hs1).
  assert (waiting pg s1 = waiting pg s) as Hw1 by (unfold waiting; by rewrite Hs1).
  split_and!; [done| | |].
  - rewrite Hp', Hp1. simpl. rewrite Hp, length_app. simpl. lia.
  - by rewrite Hw', Hw1, Hw.
  - intros _. rewrite length_app. simpl. rewrite Hp in Hm. lia.
Qed.

(** C13: The pods of a gang pass the Permit gate together: in cycles between which
    anything else may happen each pod waits while fewer than MinMember have come, and
    the one that completes the gang passes and allows exactly those that wait, each
    once, in the order in which the framework lists them. *)
Theorem gang_released_together plugin pg d ps p n s :
  pl_scheduleTimeout plugin = Some d → d ≠ 0%Z →
  pg_Name pg ≠ "" → (spec_MinMember (pg_Spec pg) < 2 ^ 31)%Z →
  ¬ has_char "/" (pg_Namespace pg) → Forall plain_namespace (seen_waiting (seen (world s))) →
  cycles plugin pg ps s → in_gang pg p →
  ∃ s1 qs, seen (world s1) = seen (world s) ∧ mgr s1 = mgr s ∧ qs ≡ₚ ps ∧
    Plugin.Permit plugin p n s =
      if decide (Z.of_nat (length ps) + 1 < spec_MinMember (pg_Spec pg))%Z
      then (Ret (NewStatus fw_Wait [], wait_time pg d), s1)
      else (Ret (NewStatus fw_Success [], 0%Z),
            set_world (foldl (λ w q, waiting_Allow Name q w) (world s1) qs) s1).
Proof.
  intros Hd Hd0 Hne Hmm Hns Hplain Hc Hin.
  destruct (cycles_seen plugin pg ps s Hne Hmm Hc) as (Hg&Hp&Hw&Hlt).
  destruct (core_Permit_seen pg p s Hin Hne Hg) as (s1&S1&M1&EP).
  { rewrite Hp. destruct ps as [|q ps]; [done|]. specialize (Hlt ltac:(done)). lia. }
  assert (util_GetPodGroupLabel p = pg_Name pg) as Hl
    by (rewrite util_GetPodGroupLabel_spec; apply Hin).
  rewrite Hp in EP. destruct (decide (Z.of_nat (length ps) + 1 < _)%Z) as [Hm|Hm].
  - rewrite decide_False in EP by lia. unfold Plugin.Permit; open_manager. rewrite Hd.
    destruct (seen_Get (pg_Namespace pg) (pg_Name pg) (world s1) pg) as (w3&EG&S3);
      [by rewrite S1|].
    destruct (ActivateSiblings_returns p (set_world w3 s1)) as (s4&EA&M4&S4).
    exists s4, ps. split; [by rewrite S4; simpl; rewrite S3|]. split; [by rewrite M4|].
    split; [done|].
    rewrite Go.run_bind. cbn [Go.lift Go.deref]. cbn beta iota.
    rewrite (Go.run_bind_ret _ _ _ _ _ EP). cbn beta iota zeta.
    rewrite Go.run_bind, GetPodGroup_run, Hl, decide_False, (proj1 Hin), EG by done.
    cbn beta iota. rewrite Go.run_bind, EA.
    pose proof (wait_time_run pg d Hd0) as Hwt. cbn zeta in Hwt. by rewrite Hwt.
  - rewrite decide_True in EP by lia.
    destruct (seen_WaitingPods (world s1)) as (ws&w2&EW&HP&S2). rewrite S1 in HP.
    exists (set_world w2 s1), (filter (in_gang pg) ws).
    split; [simpl; by rewrite S2|]. split; [done|].
    split; [by rewrite HP; fold (waiting pg s)|].
    rewrite (Permit_releases_gang plugin p n d s s1 ws w2 Hd); [|by rewrite Hl|done|done|..].
    + by rewrite (filter_in_gang pg p).
    + unfold plain_namespace. by rewrite (proj1 Hin).
    + by rewrite HP.
Qed.
End release.
