(* ===== verification/System.v ===== *)
(** * The scheduler as a whole: the life of a Fluxion job

    The plugin's entry points as a step relation, interleaved in any order
    with scheduling cycles and with changes of the outside world, and the
    invariants that tie the manager's job table to the jobs Fluxion holds. *)

From Stdlib Require Import Ascii.
From stdpp Require Import prelude gmap strings list fin_maps.
From S2P Require Import Prelude GoRuntime Kube Wire Env PodSpec Core CoreFacts CoreMethods Plugin PluginFacts.

(** ** What the Fluxion service promises *)

(** A request the service can answer without dividing by zero. *)
Definition wf_request (req : pb.MatchRequest) : Prop :=
  match pb.Ps req with
  | Some ps => pb.Cpu ps ≠ 0%Z
  | None => False
  end.

(** [live w] is the set of the job ids Fluxion holds resources for. A call
    that reports an error has changed nothing; calls to the cluster do not
    reach Fluxion. *)
Class FluxServiceLaws {Q : QuantityLib} {W : Type} (CL : Cluster W) (FS : FluxService W) := {
  live : W → gset Z;
  live_fits w j : j ∈ live w → GoInt.fits 64 j;
  dial_live w : live (grpc_Dial w).2 = live w;
  match_ok_live req w resp w' :
    wf_request req → flux_Match req w = (OK resp, w') →
    (pb.JobID resp ∉ live w) ∧ live w' = {[pb.JobID resp]} ∪ live w;
  match_err_live req w e w' :
    wf_request req → flux_Match req w = (Err e, w') → live w' = live w;
  cancel_ok_live req w resp w' :
    GoInt.fits 64 (pb.cancel_JobID req) →
    flux_Cancel req w = (OK resp, w') → pb.Error resp = 0%Z →
    live w' = live w ∖ {[pb.cancel_JobID req]};
  cancel_refused_live req w resp w' :
    GoInt.fits 64 (pb.cancel_JobID req) →
    flux_Cancel req w = (OK resp, w') → pb.Error resp ≠ 0%Z → live w' = live w;
  cancel_err_live req w e w' :
    GoInt.fits 64 (pb.cancel_JobID req) →
    flux_Cancel req w = (Err e, w') → live w' = live w;
  client_live ns n w : live (client_Get ns n w).2 = live w;
  lister_live ns sel w : live (lister_List ns sel w).2 = live w;
  nodeinfos_live w : live (NodeInfos_List w).2 = live w;
  waiting_live w : live (WaitingPods w).2 = live w;
  allow_live n p w : live (waiting_Allow n p w) = live w;
  reject_live n m p w : live (waiting_Reject n m p w) = live w;
  now_live w : live (time_Now w).2 = live w;
}.

(** The service can always be reached and confirms every cancellation. *)
Class FluxReliable {W : Type} (FS : FluxService W) : Prop := {
  dial_ok w : ∃ w', grpc_Dial w = (None, w');
  cancel_ok req w : ∃ resp w', flux_Cancel req w = (OK resp, w') ∧ pb.Error resp = 0%Z;
}.

Section system.
Context {Q : QuantityLib} {U : Upstream} {MO : MapOrder} {GC : GoCacheLib}.
Context {CS : CycleStateLib} {W : Type} {CL : Cluster W} {FS : FluxService W}.
Context {FL : FluxServiceLaws CL FS}.

Local Abbreviation Sys := (Sys (W:=W)).
Implicit Types (s : Sys) (pod p : Pod) (pods : list Pod) (pg : PodGroup).

(** ** Steps *)

Inductive step : Sys → Sys → Prop :=
| step_Less a b s : step s (Less a b s).2
| step_PreFilter pod s : step s (Plugin.PreFilter pod s).2
| step_Filter pod nodeName s : step s (Filter pod nodeName s).2
| step_PostFilter plugin pod s : step s (PostFilter plugin pod s).2
| step_Permit plugin pod nodeName s : step s (Plugin.Permit plugin pod nodeName s).2
| step_Reserve pod nodeName s : step s (Reserve pod nodeName s).2
| step_Unreserve pod nodeName s : step s (Unreserve pod nodeName s).2
| step_UpdatePod old new s : step s (UpdatePod old new s).2
| step_DeletePod obj s : step s (DeletePod obj s).2
| step_new_cycle c s : step s (set_cycle (λ _, c) s)
| step_outside w s : live w = live (world s) → step s (set_world w s).

(** ** Invariants *)

(** What the job table says about Fluxion. *)
Record jobs_ok s : Prop := {
  jobs_live g (j : Z) :
    groupToJobId (mgr s) !! g = Some j → ∃ id, id ∈ live (world s) ∧ j = GoInt.uint64 id;
  jobs_inj g1 g2 j :
    groupToJobId (mgr s) !! g1 = Some j → groupToJobId (mgr s) !! g2 = Some j → g1 = g2;
  jobs_slash g j : groupToJobId (mgr s) !! g = Some j → has_char "/" g;
}.

(** Every job Fluxion holds is an old one or recorded for a group. *)
Definition accounted (L0 : gset Z) s : Prop :=
  ∀ id, id ∈ live (world s) →
    id ∈ L0 ∨ ∃ g, groupToJobId (mgr s) !! g = Some (GoInt.uint64 id).

(** The old jobs are still there, and none of them is recorded. *)
Record spared (L0 : gset Z) s : Prop := {
  spared_live : L0 ⊆ live (world s);
  spared_unrecorded g j id :
    groupToJobId (mgr s) !! g = Some j → id ∈ L0 → j ≠ GoInt.uint64 id;
}.

Definition sys_inv (L0 : gset Z) s : Prop :=
  jobs_ok s ∧ (FluxReliable FS → accounted L0 s) ∧ spared L0 s.

(** Preservation, as a relation between the states before and after. *)
Definition keeps (L0 : gset Z) s s' : Prop :=
  sys_inv L0 s →
  sys_inv L0 s' ∧ (ListerLaws CL → dom (podToNode (mgr s)) ⊆ dom (podToNode (mgr s'))).

#[export] Instance keeps_preorder L0 : PreOrder (keeps L0).
Proof.
  split; [by intros s ?; split|]. intros s1 s2 s3 H12 H23 H1.
  destruct (H12 H1) as [H2 D12]. destruct (H23 H2) as [H3 D23].
  split; [done|]. intros HL. by etrans; [apply D12|apply D23].
Qed.

Lemma uint64_live_inj w i j :
  i ∈ live w → j ∈ live w → GoInt.uint64 i = GoInt.uint64 j → i = j.
Proof.
  intros Hi Hj E. apply live_fits in Hi, Hj.
  rewrite <- (GoInt.int64_uint64 i), <- (GoInt.int64_uint64 j) by done. by rewrite E.
Qed.

(** The invariant looks at the job table and at the live jobs only. *)
Lemma sys_inv_same L0 s s' :
  groupToJobId (mgr s') = groupToJobId (mgr s) → live (world s') = live (world s) →
  sys_inv L0 s → sys_inv L0 s'.
Proof.
  intros Ej El ([H1 H2 H3]&HA&[S1 S2]).
  split; [split|split; [|split]]; rewrite ?Ej, ?El; try done.
  intros HR. unfold accounted. rewrite Ej, El. by apply HA.
Qed.

Lemma keeps_same L0 s s' :
  groupToJobId (mgr s') = groupToJobId (mgr s) → live (world s') = live (world s) →
  dom (podToNode (mgr s)) ⊆ dom (podToNode (mgr s')) → keeps L0 s s'.
Proof. intros Ej El Hd H. split; [by eapply sys_inv_same|done]. Qed.

Lemma within_quiet {A} L0 (f : W → A * W) :
  (∀ w, live (f w).2 = live w) → Go.within (keeps L0) (ext f).
Proof.
  intros Hf s. apply keeps_same; unfold ext;
    specialize (Hf (world s)); destruct (f (world s)); done.
Qed.

Local Hint Resolve client_live lister_live nodeinfos_live waiting_live now_live dial_live : go.
Local Hint Extern 3 (Go.within _ (ext _)) => apply within_quiet; intros ?; eauto with go : go.

(** Leaves of a walk through the code. *)
Ltac sys_go :=
  repeat first
    [ progress within_go
    | solve [eauto with go]
    | apply keeps_same; simpl; [done|done|done] ].

(** ** Cancelling *)

Lemma drop_confirmed L0 g j s w :
  groupToJobId (mgr s) !! g = Some j →
  live w = live (world s) ∖ {[GoInt.int64 j]} →
  keeps L0 s (set_groupToJobId (delete g) (set_world w s)).
Proof.
  intros Hj Hw ([H1 H2 H3]&HA&[S1 S2]). split; [|done].
  destruct (H1 g j Hj) as (id&Hid&->).
  rewrite GoInt.int64_uint64 in Hw by (by eapply live_fits).
  split; [split|split; [|split]]; simpl.
  - intros g' j' [Hne Hj']%lookup_delete_Some.
    destruct (H1 g' j' Hj') as (id'&Hid'&->). exists id'. split; [|done].
    rewrite Hw. apply elem_of_difference. split; [done|].
    intros ->%elem_of_singleton. by apply Hne, (H2 g g' (GoInt.uint64 id)).
  - intros g1 g2 j' [_ ?]%lookup_delete_Some [_ ?]%lookup_delete_Some. by eapply H2.
  - intros g' j' [_ ?]%lookup_delete_Some. by eapply H3.
  - intros HR id' Hid'. simpl in *. rewrite Hw in Hid'.
    apply elem_of_difference in Hid' as [Hid' Hne].
    destruct (HA HR id' Hid') as [?|[g' Hg']]; [by left|right].
    exists g'. rewrite lookup_delete_ne; [done|]. intros <-.
    rewrite Hj in Hg'. injection Hg' as E. apply Hne, elem_of_singleton.
    symmetry. by eapply uint64_live_inj.
  - rewrite Hw. intros id' Hid'. apply elem_of_difference. split; [by apply S1|].
    intros ->%elem_of_singleton. by eapply S2.
  - intros g' j' id' [_ ?]%lookup_delete_Some. by eapply S2.
Qed.

(** Cancelling keeps the invariant, and drops no node: the clean-up lists
    its pods by a name with a slash in it. *)
Lemma cancelFluxJob_keeps L0 g pod : Go.within (keeps L0) (cancelFluxJob g pod).
Proof.
  intros s Hs.
  assert (sys_inv L0 (cancelFluxJob g pod s).2) as Hinv.
  { revert Hs. unfold cancelFluxJob. rewrite Go.run_bind. cbn [Go.gets].
    destruct (groupToJobId (mgr s) !! g) as [j|] eqn:Ej; [|done]. intros Hs.
    destruct (grpc_Dial (world s)) as [derr w1] eqn:ED. go_ext ED.
    assert (live w1 = live (world s)) as Hw1 by (by rewrite <- (dial_live (world s)), ED).
    destruct derr; [by apply (sys_inv_same L0 s)|].
    assert (GoInt.fits 64 (pb.cancel_JobID (pb.mkCancelRequest (GoInt.wrap 64 j)))) as Hfit
      by (by apply GoInt.wrap_fits).
    destruct (flux_Cancel (pb.mkCancelRequest (GoInt.wrap 64 j)) w1)
      as [[resp|e] w2] eqn:EC; go_ext EC.
    2:{ eapply sys_inv_same, Hs; [done|]. simpl. by erewrite cancel_err_live by done. }
    case_decide as Herr.
    2:{ eapply sys_inv_same, Hs; [done|]. simpl. by erewrite cancel_refused_live by done. }
    assert (sys_inv L0 (set_groupToJobId (delete g) (set_world w2 s))) as H2.
    { eapply drop_confirmed; [done| |done].
      erewrite cancel_ok_live by done. by rewrite Hw1. }
    rewrite Go.run_bind. unfold cleanup. rewrite Go.run_bind. cbn [Go.modify].
    destruct (lister_List (pod_Namespace pod) (v1alpha1.PodGroupLabel, g) w2)
      as [[pods|e] w3] eqn:EL; go_ext EL;
      (eapply sys_inv_same, H2; [done|]; simpl;
       by rewrite <- (lister_live (pod_Namespace pod) (v1alpha1.PodGroupLabel, g) w2), EL). }
  split; [done|]. intros HL.
  destruct (groupToJobId (mgr s) !! g) as [j|] eqn:Ej.
  - rewrite cancelFluxJob_keeps_nodes; [done|]. by eapply (jobs_slash s (proj1 Hs)).
  - unfold cancelFluxJob. rewrite Go.run_bind. cbn [Go.gets]. by rewrite Ej.
Qed.

Lemma cancelFluxJob_forgets `{HR : !FluxReliable FS} g pod s :
  groupToJobId (mgr (cancelFluxJob g pod s).2) !! g = None.
Proof.
  destruct (groupToJobId (mgr s) !! g) as [j|] eqn:Ej.
  - destruct (dial_ok (world s)) as [w1 ED].
    destruct (cancel_ok (pb.mkCancelRequest (GoInt.wrap 64 j)) w1) as (resp&w2&EC&He).
    erewrite cancelFluxJob_confirmed by done. apply lookup_delete_eq.
  - unfold cancelFluxJob. rewrite Go.run_bind. cbn [Go.gets]. by rewrite Ej.
Qed.

(** A cancellation of a recorded job frees it. *)
Lemma cancelFluxJob_frees `{HR : !FluxReliable FS} g pod s j :
  groupToJobId (mgr s) !! g = Some j →
  live (world (cancelFluxJob g pod s).2) = live (world s) ∖ {[GoInt.int64 j]}.
Proof.
  intros Ej. unfold cancelFluxJob. rewrite Go.run_bind. cbn [Go.gets]. rewrite Ej.
  destruct (dial_ok (world s)) as [w1 ED]. go_ext ED.
  assert (live w1 = live (world s)) as <- by (by rewrite <- (dial_live (world s)), ED).
  destruct (cancel_ok (pb.mkCancelRequest (GoInt.wrap 64 j)) w1) as (resp&w2&EC&He). go_ext EC.
  rewrite decide_True by done. rewrite Go.run_bind. unfold cleanup. rewrite Go.run_bind.
  cbn [Go.modify]. change (GoInt.int64 j) with (GoInt.wrap 64 j).
  assert (live w2 = live w1 ∖ {[GoInt.wrap 64 j]}) as <-.
  { assert (GoInt.fits 64 (pb.cancel_JobID (pb.mkCancelRequest (GoInt.wrap 64 j)))) as Hfit
      by (by apply GoInt.wrap_fits).
    by erewrite (cancel_ok_live _ _ _ _ Hfit EC He). }
  destruct (lister_List (pod_Namespace pod) (v1alpha1.PodGroupLabel, g) w2)
    as [[pods|e] w3] eqn:EL; go_ext EL; simpl;
    by rewrite <- (lister_live (pod_Namespace pod) (v1alpha1.PodGroupLabel, g) w2), EL.
Qed.

(** ** Asking for a job *)

Lemma record_job L0 g req resp s w' :
  wf_request req → flux_Match req (world s) = (OK resp, w') →
  has_char "/" g → (FluxReliable FS → groupToJobId (mgr s) !! g = None) →
  keeps L0 s (set_world w' (set_groupToJobId (<[g := GoInt.uint64 (pb.JobID resp)]>) s)).
Proof.
  intros Hwf EM Hg Hnone ([H1 H2 H3]&HA&[S1 S2]). split; [|done].
  destruct (match_ok_live _ _ _ _ Hwf EM) as [Hfresh Hw'].
  assert (∀ g', groupToJobId (mgr s) !! g' ≠ Some (GoInt.uint64 (pb.JobID resp))) as Hnew.
  { intros g' Hg'. destruct (H1 g' _ Hg') as (id&Hid&E).
    assert (pb.JobID resp = id) as <-; [|done].
    apply (uint64_live_inj w'); [set_solver..|done]. }
  split; [split|split; [|split]]; simpl.
  - intros g' j. rewrite Hw'. destruct (decide (g = g')) as [<-|Hne].
    + rewrite lookup_insert_eq. intros [= <-]. exists (pb.JobID resp). set_solver.
    + rewrite lookup_insert_ne by done. intros (id&Hid&->)%H1. exists id. set_solver.
  - intros g1 g2 j. rewrite !lookup_insert_Some.
    intros [[<- <-]|[_ E1]] [[<- E]|[_ E2]]; [done|..].
    + by apply Hnew in E2.
    + rewrite <- E in E1. by apply Hnew in E1.
    + by eapply H2.
  - intros g' j. destruct (decide (g = g')) as [<-|Hne]; [done|].
    rewrite lookup_insert_ne by done. by apply H3.
  - intros HR id. simpl. rewrite Hw'. intros [->%elem_of_singleton|Hid]%elem_of_union.
    + right. exists g. by rewrite lookup_insert_eq.
    + destruct (HA HR id Hid) as [?|[g' Hg']]; [by left|right]. exists g'.
      rewrite lookup_insert_ne; [done|]. intros <-. by rewrite Hnone in Hg'.
  - rewrite Hw'. set_solver.
  - intros g' j id [[<- <-]|[_ ?]]%lookup_insert_Some Hid; [|by eapply S2].
    intros E. apply Hfresh. apply S1 in Hid.
    assert (pb.JobID resp = id) as ->; [|done]. apply (uint64_live_inj w'); [set_solver..|done].
Qed.

Lemma AskFlux_keeps L0 pod pg g :
  has_char "/" g → Go.within (keeps L0) (AskFlux pod pg g).
Proof.
  intros Hg s. unfold AskFlux. rewrite Go.run_bind. cbn [Go.gets].
  rewrite Go.run_bind. 
  set (c := if bool_decide (is_Some (groupToJobId (mgr s) !! g))
            then _ ← cancelFluxJob g pod; mret () else mret (M:=GoM Sys) ()).
  assert (∃ s1, c s = (Ret (), s1) ∧ keeps L0 s s1 ∧
    (FluxReliable FS → groupToJobId (mgr s1) !! g = None)) as (s1&->&Hk1&Hnone).
  { unfold c. case_bool_decide as Hb.
    - destruct (cancelFluxJob_returns g pod s) as (e&s1&Ec). exists s1.
      rewrite Go.run_bind, Ec. split; [done|].
      pose proof (cancelFluxJob_keeps L0 g pod s) as Hk. rewrite Ec in Hk.
      split; [done|]. intros HR. pose proof (cancelFluxJob_forgets g pod s) as Hf.
      by rewrite Ec in Hf.
    - exists s. split_and!; [done..|]. intros _. by apply eq_None_not_Some. }
  destruct (grpc_Dial (world s1)) as [derr w1] eqn:ED. go_ext ED.
  assert (keeps L0 s (set_world w1 s1)) as Hk2.
  { etrans; [exact Hk1|]. apply keeps_same; [done| |done].
    simpl. by rewrite <- (dial_live (world s1)), ED. }
  destruct derr; [done|].
  set (req := pb.mkMatchRequest (Some (PreparePodJobSpec pod g)) "allocate"
                (spec_MinMember (pg_Spec pg))).
  assert (wf_request req) as Hwf by apply PreparePodJobSpec_Cpu_nonzero.
  destruct (flux_Match req w1) as [[resp|e] w2] eqn:EM; go_ext EM.
  - etrans; [exact Hk2|]. by apply (record_job L0 g req resp (set_world w1 s1) w2).
  - etrans; [exact Hk2|]. apply keeps_same; [done| |done]. simpl. by eapply match_err_live.
Qed.

(** ** Every entry point keeps the invariant *)

Local Hint Resolve cancelFluxJob_keeps : go.

Lemma GetPodGroup_keeps L0 pod : Go.within (keeps L0) (GetPodGroup pod).
Proof. unfold GetPodGroup. sys_go. Qed.

Lemma CalculateAssignedPods_keeps L0 n ns :
  Go.within (keeps L0) (CalculateAssignedPods n ns).
Proof. unfold CalculateAssignedPods. sys_go. Qed.

Lemma BackoffPodGroup_keeps L0 g d : Go.within (keeps L0) (BackoffPodGroup g d).
Proof. unfold BackoffPodGroup. sys_go. Qed.

Lemma ActivateSiblings_keeps L0 pod : Go.within (keeps L0) (ActivateSiblings pod).
Proof. unfold ActivateSiblings. sys_go. Qed.

Local Hint Resolve GetPodGroup_keeps CalculateAssignedPods_keeps BackoffPodGroup_keeps
  ActivateSiblings_keeps : go.

Lemma assign_node_keeps L0 pods i node : Go.within (keeps L0) (assign_node pods i node).
Proof.
  unfold assign_node. within_go; [by apply keeps_same|].
  apply keeps_same; [done..|]. simpl. set_solver.
Qed.
Local Hint Resolve assign_node_keeps : go.

Lemma admit_nodes_keeps L0 g rep pods nodes :
  Go.within (keeps L0) (admit_nodes g rep pods nodes).
Proof. unfold admit_nodes. sys_go. Qed.
Local Hint Resolve admit_nodes_keeps : go.

Lemma GetPodGroup_returns pod n o :
  (∃ s s' : Sys, GetPodGroup pod s = (Ret (n, Some o), s')) → n = full_name pod.
Proof.
  intros (s&s'&E). rewrite GetPodGroup_run in E. case_decide; [done|].
  by destruct (client_Get _ _ _) as [[|] ?]; simplify_eq.
Qed.

Lemma core_PreFilter_keeps L0 pod : Go.within (keeps L0) (Core.PreFilter pod).
Proof.
  unfold Core.PreFilter. refine (Go.within_bind_returns _ _ _ _ _); [auto with go|].
  intros [n [pg|]] Hr; [|sys_go]. apply GetPodGroup_returns in Hr as ->.
  pose proof (λ p pg, AskFlux_keeps L0 p pg (full_name pod) (full_name_slash pod)). sys_go.
Qed.
Local Hint Resolve core_PreFilter_keeps : go.

Lemma cancel_if_known_keeps L0 g pod : Go.within (keeps L0) (cancel_if_known g pod).
Proof. unfold cancel_if_known. sys_go. Qed.
Local Hint Resolve cancel_if_known_keeps : go.

Lemma event_group_keeps L0 pod : Go.within (keeps L0) (event_group pod).
Proof. unfold event_group. sys_go. Qed.
Local Hint Resolve event_group_keeps : go.

Lemma core_Permit_keeps L0 pod : Go.within (keeps L0) (Core.Permit pod).
Proof. unfold Core.Permit. sys_go. Qed.
Local Hint Resolve core_Permit_keeps : go.

Lemma Allow_keeps L0 p : Go.within (keeps L0) (Allow p).
Proof. intros s. apply keeps_same; [done|apply allow_live|done]. Qed.
Lemma Reject_keeps L0 m p : Go.within (keeps L0) (Reject m p).
Proof. intros s. apply keeps_same; [done|apply reject_live|done]. Qed.
Local Hint Resolve Allow_keeps Reject_keeps : go.

Lemma step_keeps L0 s s' : step s s' → keeps L0 s s'.
Proof.
  assert (∀ {A} (m : GoM Sys A) s, Go.within (keeps L0) m → keeps L0 s (m s).2) as Hw by auto.
  destruct 1; try apply Hw.
  - unfold Less; open_manager. sys_go.
  - unfold Plugin.PreFilter; open_manager; unfold GetPodNode. sys_go.
  - unfold Filter. sys_go.
  - unfold PostFilter; open_manager; unfold IterateOverWaitingPods, DeletePermittedPodGroup. sys_go.
  - unfold Plugin.Permit; open_manager; unfold IterateOverWaitingPods. sys_go.
  - unfold Reserve. sys_go.
  - unfold Unreserve; open_manager; unfold IterateOverWaitingPods, DeletePermittedPodGroup. sys_go.
  - unfold UpdatePod. sys_go.
  - unfold DeletePod. sys_go.
  - by apply keeps_same.
  - by apply keeps_same.
Qed.

Lemma steps_keep L0 s s' : rtc step s s' → keeps L0 s s'.
Proof.
  induction 1 as [|s1 s2 s3 H12 _ IH]; [done|]. etrans; [by apply step_keeps|done].
Qed.

(** A scheduler that has just started. *)
Definition started s : Prop := mgr s = New.2.

Lemma started_inv s : started s → sys_inv (live (world s)) s.
Proof.
  intros Hs. split; [split|split; [|split; [done|]]]; rewrite ?Hs; simpl;
    try (intros *; by rewrite lookup_empty).
  intros _ id Hid. by left.
Qed.

(** C1: In every state the scheduler can reach from its start, through any interleaving
    of its entry points, new cycles and outside changes, each job id recorded for a
    group is a job Fluxion holds, and no two groups record the same job. *)
Theorem recorded_jobs_are_live s0 s :
  started s0 → rtc step s0 s →
  (∀ g j, groupToJobId (mgr s) !! g = Some j → GoInt.int64 j ∈ live (world s)) ∧
  (∀ g1 g2 j, groupToJobId (mgr s) !! g1 = Some j → groupToJobId (mgr s) !! g2 = Some j →
     g1 = g2).
Proof.
  intros H0 Hst. destruct (steps_keep _ _ _ Hst (started_inv _ H0)) as [([H1 H2 _]&_&_) _].
  split; [|done]. intros g j (id&Hid&->)%H1.
  by rewrite GoInt.int64_uint64 by (by eapply live_fits).
Qed.

(** C2: When Fluxion can be reached and confirms every cancellation, every job it holds
    beyond those it held at the start is recorded for exactly one group: no allocation
    is leaked. *)
Theorem no_job_is_lost `{HR : !FluxReliable FS} s0 s id :
  started s0 → rtc step s0 s → id ∈ live (world s) → id ∉ live (world s0) →
  ∃ g, groupToJobId (mgr s) !! g = Some (GoInt.uint64 id) ∧
    ∀ g', groupToJobId (mgr s) !! g' = Some (GoInt.uint64 id) → g' = g.
Proof.
  intros H0 Hst Hid Hnew.
  destruct (steps_keep _ _ _ Hst (started_inv _ H0)) as [([_ H2 _]&HA&_) _].
  destruct (HA HR id Hid) as [?|[g Hg]]; [done|]. exists g. split; [done|].
  intros g' Hg'. by eapply H2.
Qed.

Lemma old_jobs_survive s0 s id :
  started s0 → rtc step s0 s → id ∈ live (world s0) →
  id ∈ live (world s) ∧ ∀ g, groupToJobId (mgr s) !! g ≠ Some (GoInt.uint64 id).
Proof.
  intros H0 Hst Hid.
  destruct (steps_keep _ _ _ Hst (started_inv _ H0)) as [(_&_&[S1 S2]) _].
  split; [by apply S1|]. intros g Hg. by eapply S2.
Qed.

(** C3: The scheduler never cancels a job it was not given: a job that Fluxion held when
    the scheduler started is live for ever and is never recorded; and so, after a
    restart, are the jobs that were recorded before it, which no event can release any
    more. *)
Theorem foreign_jobs_survive s0 s :
  started s0 → rtc step s0 s →
  (∀ id, id ∈ live (world s0) →
     id ∈ live (world s) ∧ ∀ g, groupToJobId (mgr s) !! g ≠ Some (GoInt.uint64 id)) ∧
  (∀ s1 s2 g j, groupToJobId (mgr s) !! g = Some j →
     started s1 → world s1 = world s → rtc step s1 s2 →
     GoInt.int64 j ∈ live (world s2) ∧ ∀ g, groupToJobId (mgr s2) !! g ≠ Some j).
Proof.
  intros H0 Hst. split; [intros id; by apply old_jobs_survive|].
  intros s1 s2 g j Hj H1 Hw Hst'.
  destruct (steps_keep _ _ _ Hst (started_inv _ H0)) as [([HL _ _]&_&_) _].
  destruct (HL g j Hj) as (id&Hid&->). rewrite GoInt.int64_uint64 by (by eapply live_fits).
  apply (old_jobs_survive s1 s2); [done..|]. by rewrite Hw.
Qed.

(** C20: In every state the scheduler can reach, a pod name with a recorded node keeps
    one for ever, whatever jobs are cancelled, and a later pod of that name passes
    PreFilter with the recorded node without asking Fluxion. *)
Theorem assignments_outlive_jobs `{!ListerLaws CL} s0 s s' pod :
  started s0 → rtc step s0 s → rtc step s s' →
  is_Some (podToNode (mgr s) !! pod_Name pod) →
  ∃ n, podToNode (mgr s') !! pod_Name pod = Some n ∧
    (n ≠ "" →
     Plugin.PreFilter pod s' = (Ret (Some {[ n ]}, NewStatus fw_Success [""]), s')).
Proof.
  intros H0 Hst0 Hst Hs.
  destruct (steps_keep _ _ _ Hst0 (started_inv _ H0)) as [Hinv _].
  destruct (steps_keep _ _ _ Hst Hinv) as [_ Hdom].
  apply elem_of_dom, Hdom, elem_of_dom in Hs as [n Hn]; [|done].
  exists n. split; [done|]. intros Hne.
  unfold Plugin.PreFilter; open_manager; unfold GetPodNode. rewrite Go.run_bind. cbn [Go.gets].
  rewrite Hn. simpl. by rewrite decide_True.
Qed.
End system.
