(* ===== verification/Interleaving.v ===== *)
(** * The job table under concurrency

    The scheduling goroutine runs PreFilter while informers call the event
    handlers, all of them action by action in any interleaving. The protocol
    below ties the manager's mutex to the job table: what is between a
    confirmed cancellation and the removal of its entry, and between an
    allocation and its record, is ghost state. By the soundness of the logic
    of [Pool]: the invariants of [System] hold whenever the mutex is free and
    the scheduling goroutine is between two calls, neither table has a data
    race, and nobody blocks or runs for ever. *)

From Stdlib Require Import Ascii.
From stdpp Require Import prelude gmap strings list fin_maps.
From S2P Require Import Prelude GoRuntime Kube Wire Env PodSpec Threads Pool Core CoreFacts CoreMethods Plugin PluginFacts Locks System.

(** [confirmed]: the group whose cancellation Fluxion has confirmed and whose
    entry is still there. [pending]: the job Fluxion has allocated and that
    is not recorded yet. *)
Record gst := mkGst {
  confirmed : option string;
  pending : option Z;
}.

Section interleaving.
Context {Q : QuantityLib} {U : Upstream} {MO : MapOrder} {GC : GoCacheLib}.
Context {CS : CycleStateLib} {W : Type} {CL : Cluster W} {FS : FluxService W}.
Context {FL : FluxServiceLaws CL FS}.

Local Abbreviation Sys := (Sys (W:=W)).
Implicit Types (s : Sys) (x y : gst * Sys) (g : string) (pod : Pod).

Local Abbreviation jobs s := (groupToJobId (mgr s)).
Local Abbreviation nodes s := (podToNode (mgr s)).

(** What a call of the scheduling goroutine returns: the pod and the answer
    of PreFilter; nothing else returns anything. *)
Definition answer : Type := option (Pod * (option (gset string) * FwStatus)).

(** The candidate nodes of an answer are the pod's node in the table. *)
Definition pinned (r : answer) s : Prop :=
  match r with
  | Some (pod, (Some names, _)) => names = {[ default "" (nodes s !! pod_Name pod) ]}
  | _ => True
  end.

(** ** The protocol *)

Record jobs_inv (L0 : gset Z) (x : gst * Sys) : Prop := {
  i_live g j : jobs x.2 !! g = Some j →
    confirmed x.1 = Some g ∨ ∃ id, id ∈ live (world x.2) ∧ j = GoInt.uint64 id;
  i_inj g1 g2 j : jobs x.2 !! g1 = Some j → jobs x.2 !! g2 = Some j → g1 = g2;
  i_slash g j : jobs x.2 !! g = Some j → has_char "/" g;
  i_pending id : pending x.1 = Some id →
    id ∈ live (world x.2) ∧
    ∀ g, jobs x.2 !! g = Some (GoInt.uint64 id) → confirmed x.1 = Some g;
  i_lost : FluxReliable FS → ∀ id, id ∈ live (world x.2) →
    id ∈ L0 ∨ pending x.1 = Some id ∨
    ∃ g, jobs x.2 !! g = Some (GoInt.uint64 id) ∧ confirmed x.1 ≠ Some g;
}.

(** Whoever holds the mutex relies on the others not to touch the job table;
    the scheduling goroutine relies on them not to add to it, and not to touch
    the node table. *)
Definition others_keep (c h : bool) (x y : gst * Sys) : Prop :=
  (h = true → confirmed y.1 = confirmed x.1 ∧ jobs y.2 = jobs x.2) ∧
  (c = true → pending y.1 = pending x.1 ∧ (∀ g, jobs x.2 !! g = None → jobs y.2 !! g = None) ∧
     (ListerLaws CL → nodes y.2 = nodes x.2)).

#[export] Instance manager_protocol (L0 : gset Z) : Protocol Sys answer := {|
  ghost := gst;
  inv := jobs_inv L0;
  rely := others_keep;
  guar c h := others_keep (negb c) (negb h);
  free x := confirmed x.1 = None;
  idle r x := pending x.1 = None ∧ (ListerLaws CL → pinned r x.2);
  may c h acc :=
    match acc with
    | Private => True
    | Jobs => h = true
    | Nodes => ListerLaws CL → c = true
    | Client => False
    end;
|}.

(** The scheduling goroutine runs PreFilter; other goroutines the event
    handlers; everything else the plugin and the cluster do leaves the two
    tables and Fluxion's jobs alone. *)
Definition manager_goroutines : Goroutines Sys answer := {|
  entry p := ∃ pod, p = (r ← PreFilter_prog pod; mret (Some (pod, r)));
  handler p :=
    (∃ old new, p = (_ ← UpdatePod_prog old new; mret None)) ∨
    (∃ obj, p = (_ ← DeletePod_prog obj; mret None));
  env s s' :=
    groupToJobId (mgr s') = groupToJobId (mgr s) ∧ podToNode (mgr s') = podToNode (mgr s) ∧
    live (world s') = live (world s);
|}.

(** The invariant looks at the job table and at the live jobs only. *)
Lemma jobs_inv_same L0 gh s s' :
  jobs s' = jobs s → live (world s') = live (world s) →
  jobs_inv L0 (gh, s) → jobs_inv L0 (gh, s').
Proof. intros Ej El [H1 H2 H3 H4 H5]. split; simpl in *; rewrite ?Ej, ?El; done. Qed.

#[export] Instance manager_protocol_laws L0 :
  ProtocolLaws (manager_protocol L0) manager_goroutines.
Proof.
  split; simpl.
  - by split.
  - intros c h x y z [H1 H2] [H3 H4]. split.
    + intros Hh. destruct (H1 Hh), (H3 Hh). split; congruence.
    + intros Hc. destruct (H2 Hc) as (?&?&Hn1), (H4 Hc) as (?&?&Hn2).
      split; [congruence|]. split; [auto|]. intros HL. by rewrite Hn2, Hn1.
  - intros c h c' h' x y Hc Hh [H1 H2]. split; intros ->.
    + apply H1. by destruct h; [destruct Hh|].
    + apply H2. by destruct c; [destruct Hc|].
  - intros c x y [H _] Hf. by destruct (H eq_refl) as [-> _].
  - intros h r x y [_ H] [Hi Hr]. destruct (H eq_refl) as (->&_&Hn).
    split; [done|]. intros HL. unfold pinned in *. rewrite (Hn HL). by apply Hr.
  - intros gh s s' (Ej&En&El) Hi. split; [by eapply jobs_inv_same|].
    split; [|done]. intros c h. split; simpl; rewrite Ej, ?En; done.
Qed.

Section programs.
Context (L0 : gset Z).
Local Existing Instance manager_protocol | 0.
Local Abbreviation triple := (Pool.triple (P:=manager_protocol L0)).
Local Abbreviation stable := (Pool.stable (P:=manager_protocol L0)).

(** In good order, nothing pending if this is the scheduling goroutine. *)
Definition orderly (c : bool) (x : gst * Sys) : Prop :=
  confirmed x.1 = None ∧ (c = true → pending x.1 = None).

(** What the others keep is rewritten into the condition. *)
Ltac use_flag H :=
  lazymatch type of H with
  | true = true → _ => specialize (H eq_refl) as [? ?]
  | false = true → _ => clear H
  | ?b = true → _ => destruct b; use_flag H
  end.
Ltac stable_go :=
  let Hh := fresh in let Hc := fresh in
  intros [? ?] [? ?] _ _ [Hh Hc]; unfold orderly in *; simpl in *;
  use_flag Hh; use_flag Hc;
  repeat match goal with
  | E : confirmed ?a = _ |- context [confirmed ?a] => rewrite E
  | E : pending ?a = _ |- context [pending ?a] => rewrite E
  | E : jobs ?a = _ |- context [jobs ?a] => rewrite E
  end;
  intuition (auto; congruence).

(** ** Actions that leave the job table and the live jobs alone *)

Lemma triple_quiet {A} c h acc (f : Sys → A * Sys) (pre : gst * Sys → Prop) :
  stable c h pre → may (Protocol:=manager_protocol L0) c h acc →
  (∀ s, jobs (f s).2 = jobs s ∧ live (world (f s).2) = live (world s)) →
  (c = false → ListerLaws CL → ∀ s, nodes (f s).2 = nodes s) →
  (∀ gh s s', jobs s' = jobs s → pre (gh, s) → pre (gh, s')) →
  triple c h pre (act acc f) h (λ a x, pre x ∧ ∃ s, a = (f s).1).
Proof.
  intros Hst Hmay Hq Hnodes Hpre. apply triple_act; [done| |done|].
  - intros a x y Hx Hy Hr [Hp ?]. split; [|done]. by apply (Hst x y).
  - intros gh s Hi Hp. destruct (Hq s) as [Ej El]. exists gh.
    split; [by eapply jobs_inv_same|]. split; [|split; [by eapply Hpre|by exists s]].
    split; simpl; rewrite Ej; [done|]. intros Hc%negb_true_iff. split; [done|].
    split; [done|]. intros HL. by apply Hnodes.
Qed.

(** ** The job table and Fluxion's jobs *)

(** Removing the entry of a group whose cancellation is confirmed. *)
Lemma forget_job gh s g :
  jobs_inv L0 (gh, s) → confirmed gh = Some g →
  jobs_inv L0 (mkGst None (pending gh), set_groupToJobId (delete g) s).
Proof.
  intros [H1 H2 H3 H4 H5] Hc. simpl in *. split; simpl.
  - intros g' j [Hne Hj]%lookup_delete_Some. right.
    destruct (H1 g' j Hj) as [?|?]; [congruence|done].
  - intros g1 g2 j [_ ?]%lookup_delete_Some [_ ?]%lookup_delete_Some. by eapply H2.
  - intros g' j [_ ?]%lookup_delete_Some. by eapply H3.
  - intros id [Hid Hg]%H4. split; [done|].
    intros g' [Hne Hj]%lookup_delete_Some. apply Hg in Hj. congruence.
  - intros HR id Hid. destruct (H5 HR id Hid) as [?|[?|(g'&Hj&Hne)]]; [by auto..|].
    right. right. exists g'. split; [|done].
    rewrite lookup_delete_ne; [done|]. congruence.
Qed.

(** Fluxion confirms the cancellation of a recorded job. *)
Lemma confirm_cancel gh s g j w :
  jobs_inv L0 (gh, s) → confirmed gh = None → jobs s !! g = Some j →
  live w = live (world s) ∖ {[GoInt.int64 j]} →
  jobs_inv L0 (mkGst (Some g) (pending gh), set_world w s).
Proof.
  intros [H1 H2 H3 H4 H5] Hc Hj Hw. simpl in *.
  destruct (H1 g j Hj) as [?|(id&Hid&->)]; [congruence|].
  rewrite GoInt.int64_uint64 in Hw by (by eapply live_fits).
  split; simpl; [|done|done|..].
  - intros g' j' Hj'. destruct (decide (g' = g)) as [->|Hne]; [by left|right].
    destruct (H1 g' j' Hj') as [?|(id'&Hid'&->)]; [congruence|]. exists id'. split; [|done].
    rewrite Hw. apply elem_of_difference. split; [done|].
    intros ->%elem_of_singleton. by apply Hne, (H2 g' g (GoInt.uint64 id)).
  - intros id' [Hid' Hg]%H4. split.
    + rewrite Hw. apply elem_of_difference. split; [done|].
      intros ->%elem_of_singleton. apply Hg in Hj. congruence.
    + intros g' Hj'. apply Hg in Hj'. congruence.
  - intros HR id' Hid'. rewrite Hw in Hid'. apply elem_of_difference in Hid' as [Hid' Hne].
    destruct (H5 HR id' Hid') as [?|[?|(g'&Hj'&_)]]; [by auto..|].
    right. right. exists g'. split; [done|]. intros [= <-]. apply Hne, elem_of_singleton.
    rewrite Hj in Hj'. injection Hj' as E. symmetry. by eapply uint64_live_inj.
Qed.

Lemma cancel_step gh s g j r w :
  jobs_inv L0 (gh, s) → confirmed gh = None → jobs s !! g = Some j →
  flux_Cancel (pb.mkCancelRequest (GoInt.wrap 64 j)) (world s) = (r, w) →
  (∃ resp, r = OK resp ∧ pb.Error resp = 0%Z ∧
     jobs_inv L0 (mkGst (Some g) (pending gh), set_world w s)) ∨
  (¬ FluxReliable FS ∧ (∀ resp, r = OK resp → pb.Error resp ≠ 0%Z) ∧
     jobs_inv L0 (gh, set_world w s)).
Proof.
  intros Hi Hc Hj EC.
  assert (GoInt.fits 64 (pb.cancel_JobID (pb.mkCancelRequest (GoInt.wrap 64 j)))) as Hfit
    by (by apply GoInt.wrap_fits).
  assert (FluxReliable FS → ∃ resp, r = OK resp ∧ pb.Error resp = 0%Z) as HRel.
  { intros HR. destruct (cancel_ok (pb.mkCancelRequest (GoInt.wrap 64 j)) (world s)) as (resp&w'&E&?).
    rewrite EC in E. injection E as -> _. by exists resp. }
  destruct r as [resp|e]; [destruct (decide (pb.Error resp = 0%Z)) as [He|He]|].
  - left. exists resp. split; [done|]. split; [done|]. eapply confirm_cancel; [done..|].
    by erewrite cancel_ok_live by done.
  - right. split; [intros (?&[= <-]&?)%HRel; done|]. split; [by intros ? [= <-]|].
    eapply jobs_inv_same, Hi; [done|]. by eapply cancel_refused_live.
  - right. split; [by intros (?&?&?)%HRel|]. split; [done|].
    eapply jobs_inv_same, Hi; [done|]. by eapply cancel_err_live.
Qed.

(** Fluxion allocates a job. *)
Lemma allocate gh s req resp w :
  jobs_inv L0 (gh, s) → pending gh = None →
  wf_request req → flux_Match req (world s) = (OK resp, w) →
  jobs_inv L0 (mkGst (confirmed gh) (Some (pb.JobID resp)), set_world w s).
Proof.
  intros [H1 H2 H3 H4 H5] Hp Hwf EM. simpl in *.
  destruct (match_ok_live _ _ _ _ Hwf EM) as [Hfresh Hw].
  split; simpl; [|done|done|..].
  - intros g j [?|(id&?&->)]%H1; [by left|right]. exists id. set_solver.
  - intros id [= <-]. split; [set_solver|]. intros g Hj.
    destruct (H1 g _ Hj) as [?|(id&Hid&E)]; [done|].
    assert (pb.JobID resp = id) as Hid'; [|congruence].
    apply (uint64_live_inj w); [set_solver..|done].
  - intros HR id. rewrite Hw. intros [->%elem_of_singleton|Hid]%elem_of_union; [by auto|].
    destruct (H5 HR id Hid) as [?|[?|?]]; [by auto|congruence|by auto].
Qed.

(** The pending job is recorded. *)
Lemma record_pending gh s g id :
  jobs_inv L0 (gh, s) → confirmed gh = None → pending gh = Some id →
  has_char "/" g → (FluxReliable FS → jobs s !! g = None) →
  jobs_inv L0 (mkGst None None, set_groupToJobId (<[g := GoInt.uint64 id]>) s).
Proof.
  intros [H1 H2 H3 H4 H5] Hc Hp Hg Hnone. simpl in *.
  destruct (H4 id Hp) as [Hid Hnew]. rewrite Hc in Hnew.
  split; simpl.
  - intros g' j [[<- <-]|[_ Hj]]%lookup_insert_Some; [by right; exists id|].
    destruct (H1 g' j Hj) as [?|?]; [congruence|by right].
  - intros g1 g2 j. rewrite !lookup_insert_Some.
    intros [[<- <-]|[_ E1]] [[<- E]|[_ E2]]; [done|..].
    + by apply Hnew in E2.
    + rewrite <- E in E1. by apply Hnew in E1.
    + by eapply H2.
  - intros g' j [[<- _]|[_ Hj]]%lookup_insert_Some; [done|by eapply H3].
  - done.
  - intros HR id' Hid'. destruct (H5 HR id' Hid') as [?|[E|(g'&Hj&_)]]; [by auto|..].
    + right. right. exists g. rewrite Hp in E. injection E as <-.
      split; [apply lookup_insert_eq|done].
    + right. right. exists g'. split; [|done]. rewrite lookup_insert_ne; [done|].
      intros <-. by rewrite Hnone in Hj.
Qed.

(** The condition may speak of the ghost state and of the job table. *)
Lemma triple_call {A} c h (f : W → A * W) (pre : gst * Sys → Prop) :
  stable c h pre →
  (∀ w, live (f w).2 = live w) →
  (∀ gh s s', jobs s' = jobs s → pre (gh, s) → pre (gh, s')) →
  triple c h pre (call f) h (λ a x, pre x ∧ ∃ w, a = (f w).1).
Proof.
  intros Hst Hf Hpre. eapply triple_conseq.
  - apply (triple_quiet c h Private _ pre); [done|done|..|done].
    + intros s. specialize (Hf (world s)). by destruct (f (world s)).
    + intros _ _ s. by destruct (f (world s)).
  - done.
  - intros a x _ [Hp [s ->]]. split; [done|]. exists (world s). by destruct (f (world s)).
Qed.

(** ** Cancelling, with the mutex held *)

Lemma cleanup_triple c pod g :
  has_char "/" g →
  triple c true (λ x, confirmed x.1 = Some g ∧ (c = true → pending x.1 = None))
    (cleanup_prog pod g) true (λ _ x, orderly c x ∧ jobs x.2 !! g = None).
Proof.
  intros Hg. unfold cleanup_prog.
  apply (triple_bind (P:=manager_protocol L0) _ _ true _ _ _ _
    (λ _ x, orderly c x ∧ jobs x.2 !! g = None)).
  { apply (triple_act (P:=manager_protocol L0)).
    - stable_go.
    - intros _. stable_go.
    - done.
    - intros gh s Hi [Hc Hp]. exists (mkGst None (pending gh)).
      split; [by apply forget_job|]. split; [split; simpl|].
      + done.
      + intros _. split; [done|]. split; [|done].
        intros g' Hg'. by apply lookup_delete_None; right.
      + split; [by split|]. simpl. apply lookup_delete_eq. }
  intros _. eapply triple_bind.
  { apply triple_call; [stable_go|by intros; apply lister_live|].
    intros gh s s' E [? ?]. simpl in *. by rewrite E. }
  intros [pods|e]; [|apply triple_ret; [stable_go|naive_solver]].
  intros x Hi [Hp [w EL]]. revert x Hi Hp.
  change (triple c true (λ x, orderly c x ∧ jobs x.2 !! g = None)
    (ranges (λ _ p, writes Nodes (set_podToNode (delete (pod_Name p)))) 0 pods) true
    (λ _ x, orderly c x ∧ jobs x.2 !! g = None)).
  apply triple_ranges; [stable_go|]. intros _ p Hp.
  eapply triple_conseq with (pre := λ x, orderly c x ∧ jobs x.2 !! g = None); [|done|].
  { assert (ListerLaws CL → False) as Hno.
    { intros HL. destruct (lister_List _ _ w) as [r w'] eqn:E.
      simpl in EL. subst r. apply listed_no_slash in E; [|done]. subst. by apply elem_of_nil in Hp. }
    apply triple_quiet; [stable_go| |done| |].
    - by intros HL%Hno.
    - by intros _ HL%Hno.
    - intros gh s s' E [? ?]. simpl in *. by rewrite E. }
  naive_solver.
Qed.

(** What the caller knows after a cancellation: in order, and the entry is
    gone if Fluxion is reliable. *)
Lemma cancelFluxJob_triple c pod g :
  triple c true (orderly c) (cancelFluxJob_prog g pod) true
    (λ _ x, orderly c x ∧ (FluxReliable FS → jobs x.2 !! g = None)).
Proof.
  unfold cancelFluxJob_prog.
  apply (triple_bind (P:=manager_protocol L0) _ _ true _ _ _ _
    (λ job x, orderly c x ∧ jobs x.2 !! g = job)).
  { apply (triple_act (P:=manager_protocol L0)); [stable_go|intros job; stable_go|done|].
    intros gh s Hi Ho. exists gh. split; [done|]. split; [by split|by split]. }
  intros [j|]; [|apply triple_ret; [stable_go|naive_solver]].
  apply (triple_bind (P:=manager_protocol L0) _ _ true _ _ _ _
    (λ derr x, (orderly c x ∧ jobs x.2 !! g = Some j) ∧ ∃ w, derr = (grpc_Dial w).1)).
  { apply triple_call; [stable_go|apply dial_live|].
    intros gh s s' E [? ?]. simpl in *. by rewrite E. }
  intros [err|].
  { apply triple_ret; [stable_go|]. intros x _ [[? _] [w Hw]]. split; [done|].
    intros HR. destruct (dial_ok w) as [w' E]. by rewrite E in Hw. }
  apply (triple_bind (P:=manager_protocol L0) _ _ true _ _ _ _
    (λ r x, match r with
            | OK resp => if decide (pb.Error resp = 0%Z)
                         then has_char "/" g ∧ confirmed x.1 = Some g ∧ (c = true → pending x.1 = None)
                         else orderly c x ∧ ¬ FluxReliable FS
            | Err _ => orderly c x ∧ ¬ FluxReliable FS
            end)).
  { apply (triple_act (P:=manager_protocol L0)).
    - stable_go.
    - intros [resp|e]; [case_decide|]; stable_go.
    - done.
    - intros gh s Hi [[[Hc Hp] Hj] _]. simpl in Hc, Hp, Hj.
      destruct (flux_Cancel (pb.mkCancelRequest (GoInt.wrap 64 j)) (world s)) as [r w] eqn:EC.
      simpl. pose proof (i_slash _ _ Hi _ _ Hj) as Hg.
      destruct (cancel_step _ _ _ _ _ _ Hi Hc Hj EC) as [(resp&->&He&Hi')|(HR&Hne&Hi')].
      + exists (mkGst (Some g) (pending gh)). rewrite decide_True by done.
        split; [done|]. split; [split; [done|by split]|done].
      + exists gh. split; [done|]. split; [by split|].
        destruct r as [resp|e]; [rewrite decide_False by auto|]; done. }
  intros [resp|e]; [case_decide|].
  - intros x Hi [Hg Hp].
    refine (triple_bind _ _ true _ _ _ _ _ _ (cleanup_triple c pod g Hg) _ x Hi Hp).
    intros _. apply triple_ret; [stable_go|]. intros y _ [? ?]. by split.
  - apply triple_ret; [stable_go|]. intros x _ [? ?]. by split.
  - apply triple_ret; [stable_go|]. intros x _ [? ?]. by split.
Qed.

(** *** The methods *)

(** A call whose result does not matter. *)
Lemma triple_call' {A} c h (f : W → A * W) (pre : gst * Sys → Prop) :
  stable c h pre → (∀ w, live (f w).2 = live w) →
  (∀ gh s s', jobs s' = jobs s → pre (gh, s) → pre (gh, s')) →
  triple c h pre (call f) h (λ _, pre).
Proof.
  intros ???. eapply triple_conseq; [by apply triple_call|done|]. by intros a x _ [? _].
Qed.

(** An action on nothing but caches and the cycle state. *)
Lemma triple_private {A} c h (f : Sys → A * Sys) (pre : gst * Sys → Prop) :
  stable c h pre →
  (∀ s, jobs (f s).2 = jobs s ∧ nodes (f s).2 = nodes s ∧ live (world (f s).2) = live (world s)) →
  (∀ gh s s', jobs s' = jobs s → pre (gh, s) → pre (gh, s')) →
  triple c h pre (act Private f) h (λ _, pre).
Proof.
  intros Hst Hq Hp. eapply triple_conseq; [apply triple_quiet; [done|done|..|exact Hp]|done|].
  - intros s. by destruct (Hq s) as (?&_&?).
  - intros _ _ s. by destruct (Hq s) as (_&?&_).
  - by intros a x _ [? _].
Qed.

(** Between two calls, the scheduling goroutine has no job to record. *)
Definition nothing_pending (c : bool) (x : gst * Sys) : Prop := c = true → pending x.1 = None.

Lemma nothing_pending_stable c h : stable c h (nothing_pending c).
Proof. unfold nothing_pending. stable_go. Qed.
Local Hint Resolve nothing_pending_stable client_live lister_live nodeinfos_live
  waiting_live now_live dial_live : go.

Lemma locked_cancel_triple c g pod :
  triple c false (nothing_pending c) (locked (_ ← cancelFluxJob_prog g pod; mret ())) false
    (λ _ x, nothing_pending c x ∧ (c = true → FluxReliable FS → jobs x.2 !! g = None)).
Proof.
  unfold nothing_pending. apply triple_locked; [stable_go|intros _; stable_go|intros _; stable_go|].
  eapply triple_conseq with (pre := orderly c)
    (post := λ _ x, orderly c x ∧ (FluxReliable FS → jobs x.2 !! g = None)).
  - eapply triple_bind; [apply (cancelFluxJob_triple c)|]. intros e.
    by apply triple_ret; [stable_go|].
  - by intros x _ [? ?].
  - intros _ x _ [[? ?] ?]. split; [|done]. by split; [|auto].
Qed.

Lemma AskFlux_triple pod pg g :
  has_char "/" g →
  triple true false (nothing_pending true) (AskFlux_prog pod pg g) false
    (λ _, nothing_pending true).
Proof.
  intros Hg. unfold AskFlux_prog. cbv zeta. unfold nothing_pending.
  apply (triple_bind (P:=manager_protocol L0) _ _ false _ _ _ _
    (λ b x, nothing_pending true x ∧ (b = false → jobs x.2 !! g = None))).
  { unfold nothing_pending. apply triple_locked; [stable_go|intros []; stable_go|intros []; stable_go|].
    apply (triple_act (P:=manager_protocol L0)); [stable_go|intros []; stable_go|done|].
    intros gh s Hi [Hp Hf]. exists gh. split; [done|]. split; [by split|]. split; [|done].
    split; [done|]. intros Hb%bool_decide_eq_false. by apply eq_None_not_Some. }
  intros b. unfold nothing_pending.
  apply (triple_bind (P:=manager_protocol L0) _ _ false _ _ _ _
    (λ _ x, nothing_pending true x ∧ (FluxReliable FS → jobs x.2 !! g = None))).
  { destruct b.
    - eapply triple_conseq; [apply (locked_cancel_triple true)|by intros x _ [? _]|].
      intros _ x _ [? H]. split; [done|]. by apply H.
    - unfold nothing_pending. apply triple_ret; [stable_go|]. intros x _ [? H]. split; [done|].
      intros _. by apply H. }
  intros _. unfold nothing_pending. eapply triple_bind.
  { apply triple_call'; [stable_go|apply dial_live|].
    intros gh s s' E [? ?]. simpl in *. by rewrite E. }
  intros [err|]; [apply triple_ret; [stable_go|by intros x _ [? _]]|].
  set (req := pb.mkMatchRequest _ _ _).
  assert (wf_request req) as Hwf by apply PreparePodJobSpec_Cpu_nonzero.
  apply (triple_bind (P:=manager_protocol L0) _ _ false _ _ _ _
    (λ r x, match r with
            | OK resp => pending x.1 = Some (pb.JobID resp) ∧ (FluxReliable FS → jobs x.2 !! g = None)
            | Err _ => pending x.1 = None
            end)).
  { apply (triple_act (P:=manager_protocol L0)); [stable_go|intros []; stable_go|done|].
    intros gh s Hi [Hp Hn]. simpl in *. specialize (Hp eq_refl).
    destruct (flux_Match req (world s)) as [[resp|e] w] eqn:EM; simpl.
    - exists (mkGst (confirmed gh) (Some (pb.JobID resp))).
      split; [by apply (allocate gh s req resp w)|]. split; [by split|done].
    - exists gh. split; [|split; [by split|auto]].
      eapply jobs_inv_same, Hi; [done|]. by eapply match_err_live. }
  intros [resp|e]; [|apply triple_ret; [stable_go|done]].
  apply (triple_bind (P:=manager_protocol L0) _ _ false _ _ _ _ (λ _, nothing_pending true)).
  - unfold nothing_pending. apply triple_locked; [stable_go|intros _; stable_go|intros _; stable_go|].
    apply (triple_act (P:=manager_protocol L0)); [stable_go|intros _; stable_go|done|].
    intros gh s Hi [[Hp Hn] Hf]. exists (mkGst None None). simpl in *.
    split; [by eapply record_pending|]. split; [|done]. by split.
  - intros _. apply triple_ret; [apply nothing_pending_stable|done].
Qed.

(** Code that starts and ends between allocation and record. *)
Definition calm {A} c (p : prog Sys A) : Prop :=
  triple c false (nothing_pending c) p false (λ _, nothing_pending c).

Lemma calm_bind {A B} c (p : prog Sys A) (f : A → prog Sys B) :
  calm c p → (∀ a, calm c (f a)) → calm c (p ≫= f).
Proof. intros Hp Hf. by eapply triple_bind. Qed.

Lemma calm_ret {A} c (a : A) : calm c (mret a).
Proof. by apply triple_ret; [apply nothing_pending_stable|]. Qed.

Lemma calm_lift {A} c (o : outcome A) : calm c (lift o).
Proof. by apply triple_lift; [apply nothing_pending_stable|]. Qed.

Lemma calm_call {A} c (f : W → A * W) : (∀ w, live (f w).2 = live w) → calm c (call f).
Proof. intros Hf. by apply triple_call'; [apply nothing_pending_stable|..]. Qed.

Lemma calm_private {A} c (f : Sys → A * Sys) :
  (∀ s, jobs (f s).2 = jobs s ∧ nodes (f s).2 = nodes s ∧ live (world (f s).2) = live (world s)) →
  calm c (act Private f).
Proof. intros Hf. by apply triple_private; [apply nothing_pending_stable|..]. Qed.

Lemma calm_ranges {A} c (body : nat → A → prog Sys ()) l i :
  (∀ i a, calm c (body i a)) → calm c (ranges body i l).
Proof. intros Hb. apply triple_ranges; [apply nothing_pending_stable|]. intros j a _. apply Hb. Qed.

(** Only the scheduling goroutine reads and writes the node table. *)
Lemma calm_GetPodNode pod : calm true (GetPodNode_prog pod).
Proof.
  eapply triple_conseq with (pre := nothing_pending true); [|done|].
  - by apply triple_quiet with (pre := nothing_pending true); [apply nothing_pending_stable|..].
  - by intros n x _ [? _].
Qed.

Lemma calm_assign_node pods i node : calm true (assign_node_prog pods i node).
Proof.
  apply calm_bind; [apply calm_lift|]. intros p. apply calm_bind; [by apply calm_private|]. intros _.
  apply triple_locked; [apply nothing_pending_stable|intros _; apply nothing_pending_stable|..].
  { intros _. unfold nothing_pending. stable_go. }
  eapply triple_conseq with (pre := λ x, nothing_pending true x ∧ confirmed x.1 = None); [|done|].
  - by apply triple_quiet with (pre := λ x, nothing_pending true x ∧ confirmed x.1 = None);
      [unfold nothing_pending; stable_go|..].
  - by intros _ x _ [? _].
Qed.

Lemma calm_locked_cancel c g pod : calm c (locked (_ ← cancelFluxJob_prog g pod; mret ())).
Proof. eapply triple_conseq; [apply locked_cancel_triple|done|]. by intros _ x _ [? _]. Qed.

Lemma calm_cancel_if_known c g pod : calm c (cancel_if_known_prog g pod).
Proof.
  unfold calm, cancel_if_known_prog.
  apply triple_locked; [apply nothing_pending_stable|intros _; apply nothing_pending_stable|..].
  { intros _. unfold nothing_pending. stable_go. }
  apply triple_bind with (h' := true) (mid := λ _, orderly c).
  - apply (triple_act (P:=manager_protocol L0)).
    + unfold nothing_pending. stable_go.
    + intros _. stable_go.
    + done.
    + intros gh s Hi [Hp Hf]. exists gh. split; [done|]. split; [by split|by split].
  - intros [|]; [|apply triple_ret; [stable_go|by intros x _ [? ?]]].
    eapply triple_bind; [apply (cancelFluxJob_triple c)|]. intros e.
    apply triple_ret; [stable_go|]. by intros x _ [[? ?] _].
Qed.

Local Hint Resolve calm_GetPodNode calm_assign_node calm_locked_cancel calm_cancel_if_known : go.

Ltac calm_step :=
  lazymatch goal with
  | |- calm _ (mbind _ _) => apply calm_bind; [|intros ?]
  | |- calm _ (match ?x with _ => _ end) => destruct x
  | |- calm _ (let _ := _ in _) => cbv zeta
  | |- calm _ (mret _) => apply calm_ret
  | |- calm _ (lift _) => apply calm_lift
  | |- calm _ (call _) => apply calm_call; solve [eauto with go]
  | |- calm _ (reads Private _) => by apply calm_private
  | |- calm _ (writes Private _) => by apply calm_private
  | |- calm _ (ranges _ _ _) => apply calm_ranges; intros ? ?
  | |- calm _ _ => solve [auto with go]
  end.
Ltac calm_go := repeat calm_step.

Lemma calm_GetPodGroup c pod : calm c (GetPodGroup_prog pod).
Proof. unfold GetPodGroup_prog. calm_go. Qed.
Local Hint Resolve calm_GetPodGroup : go.

Lemma calm_admit_nodes g rep pods nodes : calm true (admit_nodes_prog g rep pods nodes).
Proof. unfold admit_nodes_prog. calm_go. Qed.
Local Hint Resolve calm_admit_nodes : go.

Lemma calm_event_group c pod : calm c (event_group_prog pod).
Proof. unfold event_group_prog. calm_go. Qed.
Local Hint Resolve calm_event_group : go.

Lemma calm_UpdatePod old new : calm false (UpdatePod_prog old new).
Proof. unfold UpdatePod_prog. calm_go. Qed.

Lemma calm_DeletePod obj : calm false (DeletePod_prog obj).
Proof. unfold DeletePod_prog. calm_go. Qed.

(** The group PreFilter asks for has a slash in its name. *)
Lemma GetPodGroup_triple c pod :
  triple c false (nothing_pending c) (GetPodGroup_prog pod) false
    (λ r x, nothing_pending c x ∧ (r.2 ≠ None → r.1 = full_name pod)).
Proof.
  unfold GetPodGroup_prog. cbv zeta. case_decide.
  - by apply triple_ret; [apply nothing_pending_stable|].
  - eapply triple_bind; [apply calm_call, client_live|]. intros [pg|e].
    + by apply triple_ret; [apply nothing_pending_stable|].
    + by apply triple_ret; [apply nothing_pending_stable|].
Qed.

Lemma calm_core_PreFilter pod : calm true (core_PreFilter_prog pod).
Proof.
  unfold core_PreFilter_prog. eapply triple_bind; [apply GetPodGroup_triple|].
  intros [n [pg|]].
  2:{ apply triple_ret; [unfold nothing_pending; stable_go|by intros x _ [? _]]. }
  intros x Hi [Hp Hn]. simpl in Hn. specialize (Hn ltac:(done)) as ->.
  lazymatch goal with |- safe _ _ ?p _ _ => refine ((_ : calm true p) x Hi Hp) end.
  assert (∀ p pg, calm true (AskFlux_prog p pg (full_name pod))) as Hask
    by (intros; apply AskFlux_triple, full_name_slash).
  calm_go.
Qed.
Local Hint Resolve calm_core_PreFilter : go.

(** What the scheduling goroutine reads in the node table stays there. *)
Definition reads_node (pod : Pod) (n : string) (x : gst * Sys) : Prop :=
  nothing_pending true x ∧ (ListerLaws CL → n = default "" (nodes x.2 !! pod_Name pod)).

Lemma reads_node_stable pod n : stable true false (reads_node pod n).
Proof.
  intros x y Hx Hy Hr [Hp Hn]. split; [by apply (nothing_pending_stable true false x y)|].
  intros HL. destruct Hr as [_ Hc]. destruct (Hc eq_refl) as (_&_&Hnodes).
  rewrite (Hnodes HL). by apply Hn.
Qed.

Lemma GetPodNode_triple pod :
  triple true false (nothing_pending true) (GetPodNode_prog pod) false (reads_node pod).
Proof.
  apply (triple_act (P:=manager_protocol L0));
    [apply nothing_pending_stable|apply reads_node_stable|done|].
  intros gh s Hi Hp. exists gh. split; [done|]. split; [by split|]. by split.
Qed.

(** PreFilter answers with the recorded node. *)
Lemma PreFilter_triple pod :
  triple true false (nothing_pending true) (PreFilter_prog pod) false
    (λ r x, nothing_pending true x ∧ (ListerLaws CL → pinned (Some (pod, r)) x.2)).
Proof.
  assert (∀ n st, triple true false (reads_node pod n) (mret (Some {[ n ]}, st)) false
    (λ r x, nothing_pending true x ∧ (ListerLaws CL → pinned (Some (pod, r)) x.2))) as Hret.
  { intros n st. apply triple_ret; [apply reads_node_stable|]. intros x _ [Hp Hn].
    split; [done|]. intros HL. simpl. by rewrite (Hn HL). }
  unfold PreFilter_prog. eapply triple_bind; [apply GetPodNode_triple|]. intros n.
  case_decide; [apply Hret|].
  eapply triple_conseq; [|intros x _ [Hp _]; exact Hp|by intros r x _ Hr; exact Hr].
  eapply triple_bind; [apply calm_core_PreFilter|]. intros [err|].
  - by apply triple_ret; [apply nothing_pending_stable|].
  - eapply triple_bind; [apply GetPodNode_triple|]. intros m. apply Hret.
Qed.

Lemma manager_goroutines_ok : goroutines_ok (P:=manager_protocol L0) manager_goroutines.
Proof.
  split.
  - intros p Hp.
    assert (calm false p) as Hc.
    { destruct Hp as [(old&new&->)|[obj ->]]; (apply calm_bind; [|intros _; apply calm_ret]).
      - apply calm_UpdatePod.
      - apply calm_DeletePod. }
    by eapply triple_conseq; [exact Hc|by intros|].
  - intros p [pod ->]. eapply triple_conseq with (pre := nothing_pending true);
      [|by intros x _ [r [Hp _]] _|by intros r x _ Hr _; exact Hr].
    eapply triple_bind; [apply PreFilter_triple|]. intros r. apply triple_ret.
    + intros x y Hx Hy Hr [Hp Hn]. split; [by apply (nothing_pending_stable true false x y)|].
      intros HL. destruct Hr as [_ Hc]. destruct (Hc eq_refl) as (_&_&Hnodes).
      unfold pinned in *. rewrite (Hnodes HL). by apply Hn.
    + intros x _ [Hp Hn]. split; [by apply Hp|done].
Qed.
End programs.

(** ** The other methods *)

Definition quiet s s' : Prop := env manager_goroutines s s'.

#[export] Instance quiet_preorder : PreOrder quiet.
Proof.
  split; [by intros s; split|]. intros s1 s2 s3 (E1&E2&E3) (E4&E5&E6).
  split; [congruence|]. split; congruence.
Qed.

Lemma quiet_ext {A} (f : W → A * W) :
  (∀ w, live (f w).2 = live w) → Go.within quiet (ext f).
Proof.
  intros Hf s. specialize (Hf (world s)). unfold ext.
  destruct (f (world s)) as [a w]. by split.
Qed.

Local Hint Resolve client_live lister_live nodeinfos_live waiting_live now_live dial_live : go.
Local Hint Extern 3 (Go.within _ (ext _)) => apply quiet_ext; intros ?; eauto with go : go.

Ltac quiet_go := repeat first [progress within_go | solve [eauto with go] | by split].

Lemma quiet_GetPodGroup pod : Go.within quiet (GetPodGroup pod).
Proof. unfold GetPodGroup. quiet_go. Qed.
Lemma quiet_CalculateAssignedPods n ns : Go.within quiet (CalculateAssignedPods n ns).
Proof. unfold CalculateAssignedPods. quiet_go. Qed.
Lemma quiet_BackoffPodGroup g d : Go.within quiet (BackoffPodGroup g d).
Proof. unfold BackoffPodGroup. quiet_go. Qed.
Lemma quiet_ActivateSiblings pod : Go.within quiet (ActivateSiblings pod).
Proof. unfold ActivateSiblings. quiet_go. Qed.
Lemma quiet_Allow p : Go.within quiet (Allow p).
Proof. intros s. split; [done|]. split; [done|apply allow_live]. Qed.
Lemma quiet_Reject m p : Go.within quiet (Reject m p).
Proof. intros s. split; [done|]. split; [done|apply reject_live]. Qed.
Local Hint Resolve quiet_GetPodGroup quiet_CalculateAssignedPods quiet_BackoffPodGroup
  quiet_ActivateSiblings quiet_Allow quiet_Reject : go.

(** The methods that take no lock are among the changes [manager_goroutines]
    admits at any time: from first to last step they touch neither table and
    none of Fluxion's jobs. *)
Lemma lock_free_methods_quiet a b plugin pod nodeName :
  Go.within quiet (Less a b) ∧ Go.within quiet (Filter pod nodeName) ∧
  Go.within quiet (PostFilter plugin pod) ∧ Go.within quiet (Plugin.Permit plugin pod nodeName) ∧
  Go.within quiet (Reserve pod nodeName) ∧ Go.within quiet (Unreserve pod nodeName).
Proof.
  repeat apply conj.
  - unfold Less; open_manager. quiet_go.
  - unfold Filter. quiet_go.
  - unfold PostFilter; open_manager; unfold IterateOverWaitingPods, DeletePermittedPodGroup. quiet_go.
  - unfold Plugin.Permit; open_manager; unfold Core.Permit, IterateOverWaitingPods. quiet_go.
  - unfold Reserve. quiet_go.
  - unfold Unreserve; open_manager; unfold IterateOverWaitingPods, DeletePermittedPodGroup. quiet_go.
Qed.

(** ** Every interleaving *)

(** The pools that arise from a scheduler that has just started. *)
Definition arises s0 (ps : pool Sys answer) : Prop :=
  started s0 ∧ reachable (wl:=manager_goroutines) None s0 ps.

Lemma arises_ok s0 ps :
  arises s0 ps → ∃ gh, pool_ok (P:=manager_protocol (live (world s0))) ps gh.
Proof.
  intros [H0 Hr].
  refine (reachable_ok (P:=manager_protocol (live (world s0))) (wl:=manager_goroutines) None s0 ps (mkGst None None)
    (manager_goroutines_ok (live (world s0))) _ _ _ Hr); [|done|done].
  split; simpl; rewrite ?H0; simpl; try (intros *; by rewrite lookup_empty); [done|].
  intros _ id Hid. by left.
Qed.

(** C4: Whatever the scheduling goroutine and the event handlers do action by action and
    in whatever order, no two groups ever record the same job, and whenever the mutex is
    free every recorded job is one that Fluxion holds. *)
Theorem unlocked_jobs_are_live s0 ps :
  arises s0 ps →
  (∀ g1 g2 j, jobs (shared ps) !! g1 = Some j → jobs (shared ps) !! g2 = Some j → g1 = g2) ∧
  (owner ps = None → ∀ g j, jobs (shared ps) !! g = Some j →
     GoInt.int64 j ∈ live (world (shared ps))).
Proof.
  intros [gh Hok]%arises_ok. destruct (ok_inv _ _ Hok) as [H1 H2 _ _ _].
  split; [exact H2|]. intros Ho g j Hj. pose proof (ok_free _ _ Hok Ho) as Hf. simpl in *.
  destruct (H1 g j Hj) as [?|(id&Hid&->)]; [congruence|].
  by rewrite GoInt.int64_uint64 by (by eapply live_fits).
Qed.

(** C5: If Fluxion is reliable then, in every interleaving, whenever the mutex is free
    and the scheduling goroutine is between two calls, each job Fluxion holds beyond
    those it held at the start is recorded for exactly one group, although allocating a
    job and recording it are two actions and the handlers run in between. *)
Theorem unlocked_no_job_is_lost `{HR : !FluxReliable FS} s0 ps id :
  arises s0 ps → owner ps = None → sched_idle ps = true →
  id ∈ live (world (shared ps)) → id ∉ live (world s0) →
  ∃ g, jobs (shared ps) !! g = Some (GoInt.uint64 id) ∧
    ∀ g', jobs (shared ps) !! g' = Some (GoInt.uint64 id) → g' = g.
Proof.
  intros [gh Hok]%arises_ok Ho Hs Hid Hnew.
  destruct (sched_idle_ok (wl:=manager_goroutines) _ _ Hok Hs) as (r&Hp&_).
  destruct (ok_inv _ _ Hok) as [_ H2 _ _ H5]. simpl in *.
  destruct (H5 HR id Hid) as [?|[?|(g&Hg&_)]]; [done|congruence|].
  exists g. split; [done|]. intros g' Hg'. by eapply H2.
Qed.

(** C6: No interleaving has a data race: two goroutines are never both about to touch
    the job table, because each holds the mutex there, and never both the node table,
    because only the scheduling goroutine touches it, with the mutex or without. *)
Theorem tables_race_free `{!ListerLaws CL} s0 ps :
  arises s0 ps → ¬ race Jobs ps ∧ ¬ race Nodes ps.
Proof.
  intros [gh Hok]%arises_ok. split.
  - refine (no_race (wl:=manager_goroutines) _ _ _ _ Hok). intros c h c' h' ? ?. by right.
  - refine (no_race (wl:=manager_goroutines) _ _ _ _ Hok). intros c h c' h' Hc Hc'. left. auto.
Qed.

(** C7: In every interleaving, from the moment PreFilter has succeeded for a pod until
    the scheduling goroutine takes up its next call, and whatever the event handlers do
    in between, the only candidate node is the one the node table has for the pod. *)
Theorem answers_stay_pinned `{HL : !ListerLaws CL} s0 ps i pod names st :
  arises s0 ps →
  threads ps !! i ≫= returned = Some (Some (pod, (Some names, st))) →
  names = {[ default "" (nodes (shared ps) !! pod_Name pod) ]}.
Proof.
  intros [gh Hok]%arises_ok Hi.
  destruct (returned_ok (wl:=manager_goroutines) _ _ _ _ Hok Hi) as [_ Hp]. by apply Hp.
Qed.

(** C8: The goroutines always end: from every pool that can arise there is no infinite
    run of their actions, and a pool in which none of them can move is one in which all
    of them have ended and the mutex is free; so no method deadlocks on the mutex. *)
Theorem goroutines_end s0 ps :
  arises s0 ps →
  Acc (λ ps2 ps1, run ps1 ps2) ps ∧
  ∀ ps', rtc run ps ps' → (∀ ps'', ¬ run ps' ps'') →
    owner ps' = None ∧ ∀ i t, threads ps' !! i = Some t → ended (code t) = true.
Proof.
  intros [H0 Hr]. split; [apply run_terminates|]. intros ps' Hrun Hstuck.
  assert (arises s0 ps') as [gh Hok]%arises_ok.
  { split; [done|]. unfold reachable in *. etrans; [exact Hr|].
    eapply rtc_subrel, Hrun. intros. by apply pstep_run. }
  destruct (all_end (wl:=manager_goroutines) _ _ Hok) as (qs&Hq&Ho&Hall).
  destruct Hq as [ps'|? ? ? Hstep _]; [done|]. by apply Hstuck in Hstep.
Qed.
End interleaving.
