(* ===== verification/Jgf.v ===== *)
(** * Package jgf: building a Flux JSON graph

    The graph with its vertices and edges, the counters that hand out ids, and
    the operations that add vertices and edges. An operation is a computation
    over the graph; none of them can panic on a graph [NewFluxJGF] made (its
    two maps are not nil). *)

From stdpp Require Import prelude gmap strings list fin_maps pretty.
From S2P Require Import Prelude GoRuntime PathFacts Wire.

Local Open Scope Z_scope.

(** ** Data *)

Record nodeMetadata := mkMetadata {
  meta_Type : string;
  meta_Basename : string;
  meta_Name : string;
  meta_Id : Z;
  meta_Uniq_id : Z;
  meta_Rank : Z;
  meta_Exclusive : bool;
  meta_Unit : string;
  meta_Size : Z;
  meta_Paths : gmap string string;
  meta_Properties : gmap string string;
}.

Record Node := mkNode {
  node_Id : string;
  node_Label : string;
  node_Metadata : nodeMetadata;
}.

Record edge := mkEdge {
  edge_Source : string;
  edge_Relation : string;
  edge_Target : string;
  edge_Directed : bool;
  (** the only field of [edgeMetadata] *)
  edge_Subsystem : string;
}.

#[export] Instance nodeMetadata_eq_dec : EqDecision nodeMetadata.
Proof. solve_decision. Defined.
#[export] Instance Node_eq_dec : EqDecision Node.
Proof. solve_decision. Defined.
#[export] Instance edge_eq_dec : EqDecision edge.
Proof. solve_decision. Defined.

Record graph := mkGraph {
  Nodes : list Node;
  Edges : list edge;
  graph_Directed : bool;
}.

Record ResourceCounter := mkCounter {
  counts : gmap string Z;
  Elements : Z;
  RootName : string;
}.

Record FluxJGF := mkFluxJGF {
  Graph : graph;
  NodeMap : gmap string Node;
  Resources : ResourceCounter;
}.

Record ResourceCount := mkResourceCount {
  rc_Name : string;
  rc_Type : string;
  rc_ElementId : Z;
  rc_Index : Z;
}.

Definition set_Resources (r : ResourceCounter) (g : FluxJGF) : FluxJGF :=
  mkFluxJGF (Graph g) (NodeMap g) r.

Definition set_Index (i : Z) (r : ResourceCount) : ResourceCount :=
  mkResourceCount (rc_Name r) (rc_Type r) (rc_ElementId r) i.

(** ** Constants *)

Definition defaultExclusive : bool := false.
Definition defaultRank : Z := -1.
Definition defaultSize : Z := 1.
Definition defaultUnit : string := "".
Definition ContainsRelation : string := "contains".
Definition InRelation : string := "in".
Definition ClusterType : string := "cluster".
Definition NodeType : string := "node".
Definition CoreType : string := "core".
Definition SubnetType : string := "subnet".
Definition MemoryType : string := "memory".
Definition NvidiaGPU : string := "nvidiagpu".
Definition GPUType : string := "gpu".
Definition containmentKey : string := "containment".

(** ** Counters *)

Definition NameWithIndex (r : ResourceCount) : string := rc_Name r +:+ Fmt.d (rc_Index r).
Definition StringElementId (r : ResourceCount) : string := Fmt.d (rc_ElementId r).
Definition StringResourceIndex (r : ResourceCount) : string := Fmt.d (rc_Index r).

Definition NextIndex (r : ResourceCounter) : Z * ResourceCounter :=
  let nextIndex := Elements r in
  (nextIndex, mkCounter (counts r) (GoInt.wrap 64 (nextIndex + 1)) (RootName r)).

Definition NextResourceIndex (resourceType : string) (r : ResourceCounter)
    : Z * ResourceCounter :=
  let nextIndex := default 0 (counts r !! resourceType) in
  (nextIndex, mkCounter (<[resourceType := GoInt.wrap 64 (nextIndex + 1)]> (counts r))
                (Elements r) (RootName r)).

Definition getCounter (resourceName resourceType : string) (r : ResourceCounter)
    : ResourceCount * ResourceCounter :=
  let '(index, r) := NextResourceIndex resourceName r in
  let '(elementId, r) := NextIndex r in
  (mkResourceCount resourceName resourceType elementId index, r).

(** ** Operations on the graph *)

Definition NewFluxJGF : FluxJGF :=
  mkFluxJGF (mkGraph [] [] false) ∅ (mkCounter {[ "cluster" := 1 ]} 0 "").

Definition getNodePath (root subpath : string) : string :=
  let path := if decide (subpath = "") then "/" +:+ root
              else "/" +:+ root +:+ "/" +:+ subpath in
  Path.Clean path.

Definition getContainmentPath (g : FluxJGF) (subpath : string) : gmap string string :=
  {[ containmentKey := getNodePath (RootName (Resources g)) subpath ]}.

(** [g.Resources.getCounter(name, type)] *)
Definition next_resource (name type : string) : GoM FluxJGF ResourceCount := λ g,
  let '(rc, r) := getCounter name type (Resources g) in
  (Ret rc, set_Resources r g).

(** The relation the caller names is not stored in the edge. *)
Definition MakeEdge (source target contains : string) : GoM FluxJGF () :=
  Go.modify (λ g,
    let newedge := mkEdge source "" target false containmentKey in
    mkFluxJGF (mkGraph (Nodes (Graph g)) (Edges (Graph g) ++ [newedge])
                 (graph_Directed (Graph g)))
      (NodeMap g) (Resources g)).

Definition MakeBidirectionalEdge (parent child : string) : GoM FluxJGF () :=
  _ ← MakeEdge parent child ContainsRelation;
  MakeEdge child parent InRelation.

Definition makeNewNode (resource : ResourceCount) (subpath unit : string) (size : Z)
    : GoM FluxJGF Node :=
  paths ← Go.gets (λ g, getContainmentPath g subpath);
  let newNode := mkNode (StringElementId resource) ""
    (mkMetadata (rc_Type resource) (rc_Name resource) (NameWithIndex resource)
       (rc_Index resource) (rc_ElementId resource) defaultRank defaultExclusive unit size
       paths ∅) in
  _ ← Go.modify (λ g,
        mkFluxJGF (mkGraph (Nodes (Graph g) ++ [newNode]) (Edges (Graph g))
                     (graph_Directed (Graph g)))
          (<[node_Id newNode := newNode]> (NodeMap g)) (Resources g));
  mret newNode.

Definition MakeSubnet (name : string) (index : Z) : GoM FluxJGF Node :=
  resource ← next_resource name SubnetType;
  let resource := set_Index index resource in
  let subpath := NameWithIndex resource in
  makeNewNode resource subpath defaultUnit defaultSize.

Definition MakeNode (name subpath : string) (index : Z) : GoM FluxJGF Node :=
  resource ← next_resource name NodeType;
  let resource := set_Index index resource in
  let subpath := subpath +:+ "/" +:+ NameWithIndex resource in
  makeNewNode resource subpath defaultUnit defaultSize.

Definition MakeCore (name subpath : string) (index : Z) : GoM FluxJGF Node :=
  resource ← next_resource name CoreType;
  let resource := set_Index index resource in
  let subpath := subpath +:+ "/" +:+ NameWithIndex resource in
  makeNewNode resource subpath defaultUnit defaultSize.

Definition MakeMemory (name subpath : string) (size index : Z) : GoM FluxJGF Node :=
  let unit := "MB" in
  resource ← next_resource name MemoryType;
  let resource := set_Index index resource in
  let subpath := subpath +:+ "/" +:+ NameWithIndex resource in
  makeNewNode resource subpath unit size.

Definition MakeGPU (name subpath : string) (size index : Z) : GoM FluxJGF Node :=
  resource ← next_resource name GPUType;
  let resource := set_Index index resource in
  let subpath := subpath +:+ "/" +:+ NameWithIndex resource in
  makeNewNode resource subpath defaultUnit size.

Definition zeroNode : Node := mkNode "" "" (mkMetadata "" "" "" 0 0 0 false "" 0 ∅ ∅).

Definition InitCluster (name : string) : GoM FluxJGF (Node * option error) :=
  elements ← Go.gets (λ g, Elements (Resources g));
  if decide (elements > 0) then
    mret (zeroNode, Some "init can only be called for a new cluster")
  else
    _ ← Go.modify (λ g, set_Resources
          (mkCounter (counts (Resources g)) (Elements (Resources g)) (name +:+ "0")) g);
    resource ← next_resource name ClusterType;
    n ← makeNewNode resource "" defaultUnit defaultSize;
    mret (n, None).
