(* ===== verification/JgfFacts.v ===== *)
(** * Facts about the graph builder

    Well-formedness of every graph the operations can build, and the path of
    each new vertex. *)

From stdpp Require Import prelude gmap strings list fin_maps pretty.
From S2P Require Import Prelude GoRuntime PathFacts Wire Jgf.

Local Open Scope Z_scope.

(** ** The common shape of the vertex operations *)

(** All the operations that add a vertex are instances of this one. *)
Definition make (name type subpath unit : string) (size index : Z) : GoM FluxJGF Node :=
  resource ← next_resource name type;
  makeNewNode (set_Index index resource) subpath unit size.

Definition indexed (name : string) (i : Z) : string := name +:+ Fmt.d i.

Lemma MakeSubnet_make name i :
  MakeSubnet name i = make name SubnetType (indexed name i) defaultUnit defaultSize i.
Proof. done. Qed.
Lemma MakeNode_make name sub i :
  MakeNode name sub i =
  make name NodeType (sub +:+ "/" +:+ indexed name i) defaultUnit defaultSize i.
Proof. done. Qed.
Lemma MakeCore_make name sub i :
  MakeCore name sub i =
  make name CoreType (sub +:+ "/" +:+ indexed name i) defaultUnit defaultSize i.
Proof. done. Qed.
Lemma MakeMemory_make name sub size i :
  MakeMemory name sub size i =
  make name MemoryType (sub +:+ "/" +:+ indexed name i) "MB" size i.
Proof. done. Qed.
Lemma MakeGPU_make name sub size i :
  MakeGPU name sub size i =
  make name GPUType (sub +:+ "/" +:+ indexed name i) defaultUnit size i.
Proof. done. Qed.

(** The vertex [make] adds to a graph. *)
Definition new_vertex (g : FluxJGF) (name type subpath unit : string) (size index : Z) : Node :=
  mkNode (Fmt.d (Elements (Resources g))) ""
    (mkMetadata type name (indexed name index) index (Elements (Resources g))
       defaultRank defaultExclusive unit size (getContainmentPath g subpath) ∅).

Definition add_vertex (name : string) (n : Node) (g : FluxJGF) : FluxJGF :=
  mkFluxJGF (mkGraph (Nodes (Graph g) ++ [n]) (Edges (Graph g)) (graph_Directed (Graph g)))
    (<[node_Id n := n]> (NodeMap g))
    (mkCounter (<[name := GoInt.wrap 64 (default 0 (counts (Resources g) !! name) + 1)]>
                  (counts (Resources g)))
       (GoInt.wrap 64 (Elements (Resources g) + 1)) (RootName (Resources g))).

Lemma make_run name type subpath unit size index g :
  let n := new_vertex g name type subpath unit size index in
  make name type subpath unit size index g = (Ret n, add_vertex name n g).
Proof. done. Qed.

Definition new_edge (source target : string) : edge :=
  mkEdge source "" target false containmentKey.

Definition add_edges (parent child : string) (g : FluxJGF) : FluxJGF :=
  mkFluxJGF (mkGraph (Nodes (Graph g))
      (Edges (Graph g) ++ [new_edge parent child; new_edge child parent])
      (graph_Directed (Graph g)))
    (NodeMap g) (Resources g).

Lemma MakeBidirectionalEdge_run parent child g :
  MakeBidirectionalEdge parent child g = (Ret (), add_edges parent child g).
Proof.
  unfold MakeBidirectionalEdge, MakeEdge, add_edges. go_unfold.
  by rewrite <- app_assoc.
Qed.

(** ** Well-formed graphs *)

Record wf_graph (g : FluxJGF) : Prop := {
  wf_elements : Elements (Resources g) = GoInt.wrap 64 (Z.of_nat (length (Nodes (Graph g))));
  wf_ids (i : nat) n :
    Nodes (Graph g) !! i = Some n →
    meta_Uniq_id (node_Metadata n) = GoInt.wrap 64 (Z.of_nat i) ∧
    node_Id n = Fmt.d (meta_Uniq_id (node_Metadata n)) ∧
    meta_Name (node_Metadata n) =
      indexed (meta_Basename (node_Metadata n)) (meta_Id (node_Metadata n));
  wf_map_sound k n : NodeMap g !! k = Some n → n ∈ Nodes (Graph g) ∧ node_Id n = k;
  wf_map_complete n : n ∈ Nodes (Graph g) → is_Some (NodeMap g !! node_Id n);
}.

Lemma wf_NewFluxJGF : wf_graph NewFluxJGF.
Proof.
  split; simpl; [done|..]; intros *.
  - by rewrite lookup_nil.
  - by rewrite lookup_empty.
  - by intros ?%elem_of_nil.
Qed.

Lemma wf_add_vertex g name type subpath unit size index :
  wf_graph g →
  wf_graph (add_vertex name (new_vertex g name type subpath unit size index) g).
Proof.
  intros [He Hi Hms Hmc]. set (n := new_vertex _ _ _ _ _ _ _). split; simpl.
  - rewrite length_app, He. simpl. rewrite GoInt.wrap_add_l by done. f_equal. lia.
  - intros i n' [Hn'|[Hle Hn']]%lookup_app_Some; [by apply Hi|].
    apply list_lookup_singleton_Some in Hn' as [Hz <-]. unfold n, new_vertex. simpl.
    split_and!; [|done|done]. rewrite He. f_equal. lia.
  - intros k n' [[<- <-]|[Hne Hn']]%lookup_insert_Some; [split; [set_solver|done]|].
    destruct (Hms k n' Hn'). split; [set_solver|done].
  - intros n' [Hn'| ->%list_elem_of_singleton]%elem_of_app.
    + apply Hmc in Hn'. apply lookup_insert_is_Some'. by right.
    + apply lookup_insert_is_Some'. by left.
Qed.

(** Edges are no business of the vertices, whatever they connect. *)
Lemma wf_edges_any g es :
  wf_graph g →
  wf_graph (mkFluxJGF (mkGraph (Nodes (Graph g)) es (graph_Directed (Graph g)))
              (NodeMap g) (Resources g)).
Proof. intros [He Hi Hms Hmc]. by split. Qed.

Lemma wf_set_root g r :
  wf_graph g →
  wf_graph (set_Resources (mkCounter (counts (Resources g)) (Elements (Resources g)) r) g).
Proof. intros [He Hi Hms Hmc]. by split. Qed.

(** ** Everything the operations can build *)

(** A call of an exported operation, with any arguments. *)
Inductive graph_call :=
| C_InitCluster (name : string)
| C_MakeSubnet (name : string) (i : Z)
| C_MakeNode (name sub : string) (i : Z)
| C_MakeCore (name sub : string) (i : Z)
| C_MakeMemory (name sub : string) (size i : Z)
| C_MakeGPU (name sub : string) (size i : Z)
| C_MakeEdge (source target contains : string)
| C_MakeBidirectionalEdge (parent child : string).

Definition effect (c : graph_call) (g : FluxJGF) : FluxJGF :=
  match c with
  | C_InitCluster name => (InitCluster name g).2
  | C_MakeSubnet name i => (MakeSubnet name i g).2
  | C_MakeNode name sub i => (MakeNode name sub i g).2
  | C_MakeCore name sub i => (MakeCore name sub i g).2
  | C_MakeMemory name sub size i => (MakeMemory name sub size i g).2
  | C_MakeGPU name sub size i => (MakeGPU name sub size i g).2
  | C_MakeEdge source target contains => (MakeEdge source target contains g).2
  | C_MakeBidirectionalEdge parent child => (MakeBidirectionalEdge parent child g).2
  end.

Definition build (cs : list graph_call) (g : FluxJGF) : FluxJGF := foldl (λ g c, effect c g) g cs.

(** The edges a call asks for. *)
Definition asked (c : graph_call) : list edge :=
  match c with
  | C_MakeEdge source target _ => [new_edge source target]
  | C_MakeBidirectionalEdge parent child => [new_edge parent child; new_edge child parent]
  | _ => []
  end.

Definition builds (g g' : FluxJGF) : Prop := ∃ c, g' = effect c g.

Lemma InitCluster_run name g :
  InitCluster name g =
  if decide (Elements (Resources g) > 0)
  then (Ret (zeroNode, Some "init can only be called for a new cluster"), g)
  else
    let g1 := set_Resources
      (mkCounter (counts (Resources g)) (Elements (Resources g)) (indexed name 0)) g in
    let n := new_vertex g1 name ClusterType "" defaultUnit defaultSize
               (default 0 (counts (Resources g) !! name)) in
    (Ret (n, None), add_vertex name n g1).
Proof. unfold InitCluster. rewrite Go.run_bind. simpl. by case_decide. Qed.

Lemma effect_wf c g : wf_graph g → wf_graph (effect c g).
Proof.
  intros Hwf. destruct c as [name|name i|name sub i|name sub i|name sub size i|name sub size i
                            |a b rel|a b]; unfold effect.
  - rewrite InitCluster_run. case_decide; [done|]. simpl.
    by apply wf_add_vertex, wf_set_root.
  - rewrite MakeSubnet_make, make_run. by apply wf_add_vertex.
  - rewrite MakeNode_make, make_run. by apply wf_add_vertex.
  - rewrite MakeCore_make, make_run. by apply wf_add_vertex.
  - rewrite MakeMemory_make, make_run. by apply wf_add_vertex.
  - rewrite MakeGPU_make, make_run. by apply wf_add_vertex.
  - by apply wf_edges_any.
  - rewrite MakeBidirectionalEdge_run. by apply wf_edges_any.
Qed.

Lemma effect_edges c g : Edges (Graph (effect c g)) = Edges (Graph g) ++ asked c.
Proof.
  destruct c as [name|name i|name sub i|name sub i|name sub size i|name sub size i
                |a b rel|a b]; unfold effect, asked; rewrite ?app_nil_r.
  - rewrite InitCluster_run. by case_decide.
  - by rewrite MakeSubnet_make, make_run.
  - by rewrite MakeNode_make, make_run.
  - by rewrite MakeCore_make, make_run.
  - by rewrite MakeMemory_make, make_run.
  - by rewrite MakeGPU_make, make_run.
  - done.
  - by rewrite MakeBidirectionalEdge_run.
Qed.

Lemma builds_wf g g' : builds g g' → wf_graph g → wf_graph g'.
Proof. intros [c ->]. apply effect_wf. Qed.

Lemma build_wf cs g : wf_graph g → wf_graph (build cs g).
Proof.
  unfold build. revert g. induction cs as [|c cs IH]; intros g Hwf; [done|].
  by apply IH, effect_wf.
Qed.

Lemma build_edges cs g : Edges (Graph (build cs g)) = Edges (Graph g) ++ (cs ≫= asked).
Proof.
  unfold build. revert g. induction cs as [|c cs IH]; intros g; csimpl; [by rewrite app_nil_r|].
  by rewrite IH, effect_edges, app_assoc.
Qed.

(** A graph with fewer than [2^63] vertices: the id counter has not wrapped. *)
Definition fits_int64 (g : FluxJGF) : Prop := Z.of_nat (length (Nodes (Graph g))) ≤ 2 ^ 63.

Lemma wf_id_inj g n1 n2 :
  wf_graph g → fits_int64 g →
  n1 ∈ Nodes (Graph g) → n2 ∈ Nodes (Graph g) → node_Id n1 = node_Id n2 → n1 = n2.
Proof.
  intros Hwf Hfit [i1 H1]%list_elem_of_lookup [i2 H2]%list_elem_of_lookup E.
  unfold fits_int64 in Hfit.
  pose proof (lookup_lt_Some _ _ _ H1). pose proof (lookup_lt_Some _ _ _ H2).
  destruct (wf_ids g Hwf _ _ H1) as (U1&D1&_), (wf_ids g Hwf _ _ H2) as (U2&D2&_).
  rewrite D1, D2 in E. apply d_inj in E. rewrite U1, U2 in E.
  rewrite !GoInt.wrap_id in E by (unfold GoInt.fits; simpl; lia).
  assert (i1 = i2) as -> by lia. congruence.
Qed.

(** C30: After any calls of the builder's operations with any arguments, the graph has
    the position of a vertex as its id, ids without repetition, a node map that agrees
    with the vertex list, and names that are the base name and the index, as long as
    there are at most 2^63 vertices; its edges are, in order, those the calls asked for,
    two opposite ones for a bidirectional edge, and none has the relation the caller
    named. *)
Theorem built_graph_wf cs :
  let g := build cs NewFluxJGF in
  fits_int64 g →
  (∀ (i : nat) n, Nodes (Graph g) !! i = Some n →
     node_Id n = Fmt.d (Z.of_nat i) ∧ NodeMap g !! node_Id n = Some n ∧
     meta_Name (node_Metadata n) =
       indexed (meta_Basename (node_Metadata n)) (meta_Id (node_Metadata n))) ∧
  NoDup (node_Id <$> Nodes (Graph g)) ∧
  (∀ k n, NodeMap g !! k = Some n → n ∈ Nodes (Graph g) ∧ node_Id n = k) ∧
  (** [new_edge] has no relation, whatever the caller named *)
  Edges (Graph g) = cs ≫= asked.
Proof.
  intros g Hfit. pose proof (build_wf cs _ wf_NewFluxJGF) as Hwf. fold g in Hwf. split_and!.
  - intros i n Hn. destruct (wf_ids g Hwf i n Hn) as (HU&HD&HN).
    pose proof (lookup_lt_Some _ _ _ Hn). unfold fits_int64 in Hfit.
    rewrite HU in HD. rewrite GoInt.wrap_id in HD by (unfold GoInt.fits; simpl; lia).
    split_and!; [done| |done].
    apply list_elem_of_lookup_2 in Hn.
    destruct (wf_map_complete g Hwf n Hn) as [n' Hn'].
    destruct (wf_map_sound g Hwf _ _ Hn') as [Hin E]. rewrite Hn'. f_equal.
    by eapply wf_id_inj.
  - apply NoDup_fmap_2_strong.
    + intros n1 n2 ? ? ?. by eapply wf_id_inj.
    + apply NoDup_alt. intros i j n Hi Hj.
      destruct (wf_ids g Hwf _ _ Hi) as (U1&_), (wf_ids g Hwf _ _ Hj) as (U2&_).
      pose proof (lookup_lt_Some _ _ _ Hi). pose proof (lookup_lt_Some _ _ _ Hj).
      unfold fits_int64 in Hfit. rewrite U1 in U2.
      rewrite !GoInt.wrap_id in U2 by (unfold GoInt.fits; simpl; lia). lia.
  - apply (wf_map_sound g Hwf).
  - apply (build_edges cs NewFluxJGF).
Qed.
