(* ===== verification/ClusterGraph.v ===== *)
(** * Package utils: the graph of a cluster

    [CreateInClusterJGF] lists the nodes of the Kubernetes cluster and writes
    the graph Fluxion starts from; [computeTotalRequests] and
    [RegisterExisting] add up what running pods request. *)

From stdpp Require Import prelude gmap strings list fin_maps pretty.
From S2P Require Import Prelude GoRuntime PathFacts Kube Wire Env PodSpec Jgf.

Local Open Scope Z_scope.

(** The fields of [corev1.Node] the builder reads. *)
Record KNode {Q : QuantityLib} := mkKNode {
  kn_Name : string;
  kn_Labels : gmap string string;
  kn_Unschedulable : bool;
  kn_Allocatable : gmap string Quantity;
}.

(** The in-cluster clientset, the field selector parser and the file system. *)
Class KubeClient {Q : QuantityLib} (W : Type) := {
  rest_InClusterConfig : W → option error * W;
  kubernetes_NewForConfig : W → option error * W;
  Nodes_List : W → go_result (list KNode) * W;
  fields_ParseSelector : string → go_result string;
  Pods_List : string → W → go_result (list Pod) * W;
  json_MarshalIndent : FluxJGF → go_result string;
  os_Create : string → W → option error * W;
  f_Write : string → string → W → option error * W;
}.

(** [resourcehelper.PodRequestsAndLimits], of which the requests are used. *)
Class ResourceHelper {Q : QuantityLib} := {
  PodRequests : Pod → gmap string Quantity;
}.

Definition controlPlaneLabel : string := "node-role.kubernetes.io/control-plane".
Definition defaultClusterName : string := "k8scluster".

Section cluster.
Context {Q : QuantityLib} {MO : MapOrder} {RH : ResourceHelper}.
Context {W : Type} {KC : KubeClient W}.

(** ** Sums of requests *)

Definition add_request (total : gmap string Quantity) (r : string * Quantity)
    : gmap string Quantity :=
  match total !! r.1 with
  | None => <[r.1 := r.2]> total
  | Some v => <[r.1 := Quantity_Add v r.2]> total
  end.

Definition computeTotalRequests (podList : list Pod) : gmap string Quantity :=
  foldl (λ total pod, foldl add_request total (range_order (PodRequests pod))) ∅ podList.

(** The summary of a node's pods, in the package's own [PodSpec]. *)
Definition zeroPodSpec : pb.PodSpec := pb.mkPodSpec "" "" 0 0 0 0 [].

Definition add_existing (ps : pb.PodSpec) (c : Container) : pb.PodSpec :=
  let specRequests := container_Requests c in
  let gpuSpec := default Quantity_zero (container_Limits c !! "nvidia.com/gpu") in
  pb.mkPodSpec (pb.Id ps) (pb.Container ps)
    (GoInt.wrap 32 (pb.Cpu ps + GoInt.wrap 32 (Quantity_Value (RL_Cpu specRequests))))
    (GoInt.wrap 64 (pb.Memory ps + Quantity_Value (RL_Memory specRequests)))
    (GoInt.wrap 64 (pb.Gpu ps + Quantity_Value gpuSpec))
    (GoInt.wrap 64 (pb.Storage ps + Quantity_Value (RL_StorageEphemeral specRequests)))
    (pb.Labels ps).

Definition RegisterExisting (w : W) : (gmap string pb.PodSpec * option error) * W :=
  match Pods_List "" w with
  | (Err err, w) => ((∅, Some err), w)
  | (OK pods, w) =>
      let nodes := foldl (λ nodes pod,
        let ps := default zeroPodSpec (nodes !! pod_NodeName pod) in
        <[pod_NodeName pod := foldl add_existing ps (pod_Containers pod)]> nodes) ∅ pods in
      ((nodes, None), w)
  end.

(** ** The builder's state *)

Record Builder := mkBuilder {
  fluxgraph : FluxJGF;
  subnetLookup : gmap string Node;
  subnetCounter : Z;
  totalAllocCpu : Z;
  bworld : W;
}.

Definition set_fluxgraph (g : FluxJGF) (b : Builder) : Builder :=
  mkBuilder g (subnetLookup b) (subnetCounter b) (totalAllocCpu b) (bworld b).
Definition set_subnetCounter (n : Z) (b : Builder) : Builder :=
  mkBuilder (fluxgraph b) (subnetLookup b) n (totalAllocCpu b) (bworld b).
Definition set_totalAllocCpu (n : Z) (b : Builder) : Builder :=
  mkBuilder (fluxgraph b) (subnetLookup b) (subnetCounter b) n (bworld b).
Definition set_bworld (w : W) (b : Builder) : Builder :=
  mkBuilder (fluxgraph b) (subnetLookup b) (subnetCounter b) (totalAllocCpu b) w.

(** An operation of the graph. *)
Definition on_graph {A} (m : GoM FluxJGF A) : GoM Builder A := λ b,
  let '(o, g) := m (fluxgraph b) in (o, set_fluxgraph g b).

(** A call to the outside. *)
Definition bext {A} (f : W → A * W) : GoM Builder A := λ b,
  let '(a, w) := f (bworld b) in (Ret a, set_bworld w b).

(** ** One node of the cluster *)

Definition skipped (skipLabel : string) (node : KNode) : Prop :=
  is_Some (kn_Labels node !! controlPlaneLabel) ∨
  (skipLabel ≠ "" ∧ is_Some (kn_Labels node !! skipLabel)) ∨
  kn_Unschedulable node = true.
#[export] Instance skipped_dec l node : Decision (skipped l node).
Proof. unfold skipped. apply _. Defined.

Definition pod_selector (node : KNode) : string :=
  "spec.nodeName=" +:+ kn_Name node +:+ ",status.phase!=" +:+ PodPhase_string PodSucceeded +:+
  ",status.phase!=" +:+ PodPhase_string PodFailed.

(** The subnet vertex of a node: looked up by its zone, or a new one. *)
Definition find_subnet (clusterNode : Node) (subnetName : string) : GoM Builder Node :=
  found ← Go.gets (λ b, subnetLookup b !! subnetName);
  match found with
  | Some subnetNode => mret subnetNode
  | None =>
      counter ← Go.gets subnetCounter;
      subnetNode ← on_graph (MakeSubnet subnetName counter);
      _ ← Go.modify (set_subnetCounter (GoInt.wrap 64 (counter + 1)));
      _ ← on_graph (MakeBidirectionalEdge (node_Id clusterNode) (node_Id subnetNode));
      mret subnetNode
  end.

Definition availCpu (node : KNode) (pods : list Pod) : Z :=
  let cpuReqs := default Quantity_zero (computeTotalRequests pods !! "cpu") in
  let totalCpu := Quantity_MilliValue (RL_Cpu (kn_Allocatable node)) in
  GoInt.wrap 64 (Z.quot (GoInt.wrap 64 (totalCpu - Quantity_MilliValue cpuReqs)) 1000).

Definition availMem (node : KNode) (pods : list Pod) : Z :=
  let memReqs := default Quantity_zero (computeTotalRequests pods !! "memory") in
  let totalMem := Quantity_Value (RL_Memory (kn_Allocatable node)) in
  GoInt.wrap 64 (totalMem - Quantity_Value memReqs).

(** [n] children of a compute vertex, made by [mk subpath index]. *)
Definition add_children (subnetNode computeNode : Node) (n : Z)
    (mk : string → Z → GoM FluxJGF Node) : GoM Builder () :=
  Go.for_upto n (λ index,
    let subpath := meta_Name (node_Metadata subnetNode) +:+ "/" +:+
                   meta_Name (node_Metadata computeNode) in
    child ← on_graph (mk subpath index);
    on_graph (MakeBidirectionalEdge (node_Id computeNode) (node_Id child))).

(** The body of the loop over the nodes, for a node that is not skipped. *)
Definition add_node (clusterNode : Node) (nodeCount : Z) (node : KNode)
    : GoM Builder (option error) :=
  match fields_ParseSelector (pod_selector node) with
  | Err err => mret (Some err)
  | OK selector =>
      r ← bext (Pods_List selector);
      match r with
      | Err err => mret (Some err)
      | OK pods =>
          let subnetName := default "" (kn_Labels node !! "topology.kubernetes.io/zone") in
          subnetNode ← find_subnet clusterNode subnetName;
          let availCpu := availCpu node pods in
          let availMem := availMem node pods in
          _ ← Go.modify (λ b, set_totalAllocCpu (GoInt.wrap 64 (totalAllocCpu b + availCpu)) b);
          computeNode ← on_graph (MakeNode (kn_Name node)
                                    (meta_Name (node_Metadata subnetNode)) nodeCount);
          _ ← on_graph (MakeBidirectionalEdge (node_Id subnetNode) (node_Id computeNode));
          _ ← match kn_Allocatable node !! "nvidia.com/gpu" with
              | Some gpuAllocatable =>
                  add_children subnetNode computeNode (Quantity_Value gpuAllocatable)
                    (λ subpath index, MakeGPU NvidiaGPU subpath 1 index)
              | None => mret ()
              end;
          _ ← add_children subnetNode computeNode availCpu
                (λ subpath index, MakeCore CoreType subpath index);
          let fractionMem := Z.shiftr availMem 30 in
          _ ← add_children subnetNode computeNode fractionMem
                (λ subpath index, MakeMemory MemoryType subpath (Z.shiftl 1 10) index);
          mret None
      end
  end.

Fixpoint add_nodes (clusterNode : Node) (skipLabel : string) (nodeCount : Z)
    (nodes : list KNode) : GoM Builder (option error) :=
  match nodes with
  | [] => mret None
  | node :: nodes =>
      if decide (skipped skipLabel node)
      then add_nodes clusterNode skipLabel (nodeCount + 1) nodes
      else
        err ← add_node clusterNode nodeCount node;
        match err with
        | Some err => mret (Some err)
        | None => add_nodes clusterNode skipLabel (nodeCount + 1) nodes
        end
  end.

(** [WriteJGF]; [log.Fatalf] ends the process. *)
Definition WriteJGF (path : string) : GoM Builder (option error) :=
  g ← Go.gets fluxgraph;
  match json_MarshalIndent g with
  | Err err => Go.panic "[JGF] json.Marshal failed"
  | OK encodedJGF =>
      err ← bext (os_Create path);
      match err with
      | Some _ => Go.panic "[JGF] Couldn't create JGF file!!"
      | None =>
          err ← bext (f_Write path encodedJGF);
          match err with
          | Some _ => Go.panic "[JGF] Couldn't write JGF file!!"
          | None => mret None
          end
      end
  end.

Definition CreateInClusterJGF (filename skipLabel : string) : GoM Builder (option error) :=
  err ← bext rest_InClusterConfig;
  match err with
  | Some err => mret (Some err)
  | None =>
      err ← bext kubernetes_NewForConfig;
      match err with
      | Some err => mret (Some err)
      | None =>
          r ← bext Nodes_List;
          match r with
          | Err err => mret (Some err)
          | OK nodes =>
              '(clusterNode, err) ← on_graph (InitCluster defaultClusterName);
              match err with
              | Some err => mret (Some err)
              | None =>
                  err ← add_nodes clusterNode skipLabel 0 nodes;
                  match err with
                  | Some err => mret (Some err)
                  | None => WriteJGF filename
                  end
              end
          end
      end
  end.

(** The function starts from a new graph and empty locals. *)
Definition new_builder (w : W) : Builder := mkBuilder NewFluxJGF ∅ 0 0 w.
End cluster.
