(* ===== verification/ClusterFacts.v ===== *)
(** * Facts about the cluster graph

    What [CreateInClusterJGF] writes, vertex by vertex and edge by edge, as a
    function of the node list and of the pods listed for each node; and what
    the sums of requests are. *)

From stdpp Require Import prelude gmap strings list fin_maps pretty.
From S2P Require Import Prelude GoRuntime PathFacts Kube Wire Env PodSpec Jgf JgfFacts ClusterGraph.

Local Open Scope Z_scope.

(** ** Views of vertices *)

(** Type, base name, name, size and containment path of a vertex. *)
Record View := mkView {
  v_type : string;
  v_base : string;
  v_name : string;
  v_size : Z;
  v_path : option string;
}.

Definition view (n : Node) : View :=
  let m := node_Metadata n in
  mkView (meta_Type m) (meta_Basename m) (meta_Name m) (meta_Size m)
    (meta_Paths m !! containmentKey).

(** The id of the [k]-th vertex. *)
Definition vid (k : nat) : string := Fmt.d (GoInt.wrap 64 (Z.of_nat k)).

Definition link (p c : string) : list edge := [new_edge p c; new_edge c p].

Lemma view_new_vertex g name type subpath unit size index :
  view (new_vertex g name type subpath unit size index)
  = mkView type name (indexed name index) size
      (Some (getNodePath (RootName (Resources g)) subpath)).
Proof. done. Qed.

Lemma proper_path root comps :
  comps ≠ [] → Forall proper (root :: comps) →
  getNodePath root (Strings.Join comps "/") = path_of (root :: comps).
Proof.
  intros Hc HF. unfold getNodePath. rewrite decide_False.
  - destruct comps as [|x comps]; [done|].
    change ("/" +:+ root +:+ "/" +:+ Strings.Join (x :: comps) "/")
      with (path_of (root :: x :: comps)).
    by apply Clean_path_of.
  - destruct comps as [|x [|y comps]]; [done|..]; apply Forall_cons in HF as [_ HF];
      apply Forall_cons in HF as [(Hx&_) _]; [done|].
    rewrite Join_cons2. intros E. apply (f_equal String.length) in E.
    rewrite !string_app_length in E. simpl in E. lia.
Qed.

(** ** Growth of a graph *)

(** [g'] is [g] with the vertices [vs] and the edges [es] appended, built by
    the graph operations. *)
Record grows (g g' : FluxJGF) (vs : list View)
    (es : list edge) : Prop := {
  gr_views : view <$> Nodes (Graph g') = (view <$> Nodes (Graph g)) ++ vs;
  gr_prefix : Nodes (Graph g) `prefix_of` Nodes (Graph g');
  gr_edges : Edges (Graph g') = Edges (Graph g) ++ es;
  gr_root : RootName (Resources g') = RootName (Resources g);
  gr_builds : rtc builds g g';
}.

Lemma grows_refl g : grows g g [] [].
Proof. split; rewrite ?app_nil_r; done. Qed.

Lemma grows_trans g1 g2 g3 vs1 vs2 es1 es2 :
  grows g1 g2 vs1 es1 → grows g2 g3 vs2 es2 → grows g1 g3 (vs1 ++ vs2) (es1 ++ es2).
Proof.
  intros [V1 P1 E1 R1 B1] [V2 P2 E2 R2 B2]. split.
  - by rewrite V2, V1, app_assoc.
  - by etrans.
  - by rewrite E2, E1, app_assoc.
  - congruence.
  - by etrans.
Qed.

Lemma rtc_builds_wf g g' : rtc builds g g' → wf_graph g → wf_graph g'.
Proof. induction 1; [done|]. intros. eauto using builds_wf. Qed.

Lemma grows_wf g g' vs es : grows g g' vs es → wf_graph g → wf_graph g'.
Proof. intros H. apply rtc_builds_wf, H. Qed.

Lemma grows_length g g' vs es :
  grows g g' vs es → length (Nodes (Graph g')) = (length (Nodes (Graph g)) + length vs)%nat.
Proof.
  intros [V _ _ _ _].
  apply (f_equal length) in V. by rewrite length_app, !length_fmap in V.
Qed.

Lemma grows_elem g g' vs es n :
  grows g g' vs es → n ∈ Nodes (Graph g) → n ∈ Nodes (Graph g').
Proof. intros [_ [l ->] _ _ _] Hn. apply elem_of_app. by left. Qed.

Lemma new_vertex_id g name type subpath unit size index :
  wf_graph g →
  node_Id (new_vertex g name type subpath unit size index) = vid (length (Nodes (Graph g))).
Proof. intros Hwf. simpl. unfold vid. f_equal. apply (wf_elements g Hwf). Qed.

(** A vertex operation and the edges to its parent. *)
Inductive is_make : (GoM FluxJGF Node) → string → string → string → string → Z → Z → Prop :=
| is_subnet name i :
    is_make (MakeSubnet name i) name SubnetType (indexed name i) defaultUnit defaultSize i
| is_node name sub i :
    is_make (MakeNode name sub i) name NodeType (sub +:+ "/" +:+ indexed name i)
      defaultUnit defaultSize i
| is_core name sub i :
    is_make (MakeCore name sub i) name CoreType (sub +:+ "/" +:+ indexed name i)
      defaultUnit defaultSize i
| is_memory name sub size i :
    is_make (MakeMemory name sub size i) name MemoryType (sub +:+ "/" +:+ indexed name i)
      "MB" size i
| is_gpu name sub size i :
    is_make (MakeGPU name sub size i) name GPUType (sub +:+ "/" +:+ indexed name i)
      defaultUnit size i.

Lemma is_make_grows m name type subpath unit size index g :
  is_make m name type subpath unit size index → wf_graph g →
  let n := new_vertex g name type subpath unit size index in
  ∃ g', m g = (Ret n, g') ∧ n ∈ Nodes (Graph g') ∧
    grows g g' [mkView type name (indexed name index) size
                  (Some (getNodePath (RootName (Resources g)) subpath))] [].
Proof.
  intros Hm Hwf n.
  assert (m g = (Ret n, add_vertex name n g) ∧ builds g (add_vertex name n g)) as [-> Hb].
  { destruct Hm as [name i|name sub i|name sub i|name sub size i|name sub size i];
      (split; [reflexivity|]).
    - by exists (C_MakeSubnet name i).
    - by exists (C_MakeNode name sub i).
    - by exists (C_MakeCore name sub i).
    - by exists (C_MakeMemory name sub size i).
    - by exists (C_MakeGPU name sub size i). }
  eexists. split; [done|]. split; [simpl; set_solver|].
  split; simpl.
  - by rewrite fmap_app.
  - by apply prefix_app_r.
  - by rewrite app_nil_r.
  - done.
  - by apply rtc_once.
Qed.

Lemma link_grows g p c :
  wf_graph g → p ∈ Nodes (Graph g) → c ∈ Nodes (Graph g) →
  ∃ g', MakeBidirectionalEdge (node_Id p) (node_Id c) g = (Ret (), g') ∧
    Nodes (Graph g') = Nodes (Graph g) ∧ grows g g' [] (link (node_Id p) (node_Id c)).
Proof.
  intros Hwf Hp Hc. rewrite MakeBidirectionalEdge_run. eexists. split; [done|].
  split; [done|]. split; simpl.
  - by rewrite app_nil_r.
  - done.
  - done.
  - done.
  - apply rtc_once.
    exists (C_MakeBidirectionalEdge (node_Id p) (node_Id c)). unfold effect.
    by rewrite MakeBidirectionalEdge_run.
Qed.

Section builder.
Context {Q : QuantityLib} {MO : MapOrder} {RH : ResourceHelper}.
Context {W : Type} {KC : KubeClient W}.

Local Abbreviation Builder := (Builder (W:=W)).
Local Abbreviation wfb b := (wf_graph (fluxgraph b)).
Local Abbreviation size b := (length (Nodes (Graph (fluxgraph b)))).
Implicit Types (b : Builder).

Lemma run_on_graph {A} (m : GoM FluxJGF A) b a g :
  m (fluxgraph b) = (Ret a, g) → on_graph m b = (Ret a, set_fluxgraph g b).
Proof. intros E. unfold on_graph. by rewrite E. Qed.

Lemma run_bext {A} (f : W → A * W) b a w :
  f (bworld b) = (a, w) → bext f b = (Ret a, set_bworld w b).
Proof. intros E. unfold bext. by rewrite E. Qed.

(** ** Adding a vertex under a parent *)

Lemma child_step m name type sub unit sz i p b :
  is_make m name type sub unit sz i → wfb b → p ∈ Nodes (Graph (fluxgraph b)) →
  ∃ n g', n ∈ Nodes (Graph g') ∧ node_Id n = vid (size b) ∧
    meta_Name (node_Metadata n) = indexed name i ∧
    grows (fluxgraph b) g'
      [mkView type name (indexed name i) sz
         (Some (getNodePath (RootName (Resources (fluxgraph b))) sub))]
      (link (node_Id p) (vid (size b))) ∧
    ∀ {B} (k : Node → GoM Builder B),
      (child ← on_graph m;
       _ ← on_graph (MakeBidirectionalEdge (node_Id p) (node_Id child)); k child) b
      = k n (set_fluxgraph g' b).
Proof.
  intros Hm Hwf Hp.
  destruct (is_make_grows _ _ _ _ _ _ _ _ Hm Hwf) as (g1&E1&Hn&Hg1).
  set (n := new_vertex _ _ _ _ _ _ _) in *.
  pose proof (grows_wf _ _ _ _ Hg1 Hwf) as Hwf1.
  destruct (link_grows g1 p n Hwf1 (grows_elem _ _ _ _ _ Hg1 Hp) Hn) as (g2&E2&Hsame&Hg2).
  exists n, g2. rewrite Hsame. split_and!; [done|by apply new_vertex_id|done|..].
  - rewrite <- (new_vertex_id _ name type sub unit sz i Hwf).
    pose proof (grows_trans _ _ _ _ _ _ _ Hg1 Hg2) as H. by rewrite app_nil_r in H.
  - intros B k. rewrite (Go.run_bind_ret _ _ _ _ _ (run_on_graph _ _ _ _ E1)).
    by rewrite (Go.run_bind_ret _ _ _ _ _ (run_on_graph _ (set_fluxgraph g1 b) _ _ E2)).
Qed.

Definition child_views (root sub name type : string) (sz : Z) (i m : nat)
    : list View :=
  (λ i : nat, let x := indexed name (Z.of_nat i) in
     mkView type name x sz (Some (getNodePath root (sub +:+ "/" +:+ x)))) <$> seq i m.

Definition child_links (p : string) (k m : nat) : list edge :=
  seq k m ≫= λ k, link p (vid k).

Lemma children_loop mk name type unit sz sub p m : ∀ i b,
  (∀ i, is_make (mk i) name type (sub +:+ "/" +:+ indexed name i) unit sz i) →
  wfb b → p ∈ Nodes (Graph (fluxgraph b)) →
  ∃ g', Go.range_loop (λ i _, child ← on_graph (mk (Z.of_nat i));
           on_graph (MakeBidirectionalEdge (node_Id p) (node_Id child))) i
           (replicate m ()) b = (Ret (), set_fluxgraph g' b) ∧
    grows (fluxgraph b) g'
      (child_views (RootName (Resources (fluxgraph b))) sub name type sz i m)
      (child_links (node_Id p) (size b) m).
Proof.
  induction m as [|m IH]; intros i b Hm Hwf Hp; simpl.
  { exists (fluxgraph b). split; [by destruct b|apply grows_refl]. }
  destruct (child_step _ _ _ _ _ _ _ p b (Hm (Z.of_nat i)) Hwf Hp) as (n&g1&Hn&_&_&Hg1&E1).
  destruct (IH (i + 1)%nat (set_fluxgraph g1 b) Hm (grows_wf _ _ _ _ Hg1 Hwf)
              (grows_elem _ _ _ _ _ Hg1 Hp)) as (g2&E2&Hg2).
  exists g2. split.
  - rewrite Go.run_bind.
    replace ((child ← on_graph (mk (Z.of_nat i));
              on_graph (MakeBidirectionalEdge (node_Id p) (node_Id child))) b)
      with (Ret (A:=()) (), set_fluxgraph g1 b); [exact E2|].
    symmetry. etrans; [|exact (E1 _ (λ _, mret ()))]. rewrite !Go.run_bind.
    destruct (on_graph (mk (Z.of_nat i)) b) as [[?|?] ?]; [|done].
    rewrite Go.run_bind. by destruct (on_graph _ _) as [[[]|?] ?].
  - pose proof (grows_trans _ _ _ _ _ _ _ Hg1 Hg2) as H. simpl in H.
    rewrite (gr_root _ _ _ _ Hg1), (grows_length _ _ _ _ Hg1) in H. simpl in H.
    by rewrite !Nat.add_1_r in H.
Qed.

Lemma add_children_grows sn cn n mk name type unit sz b :
  (∀ sub i, is_make (mk sub i) name type (sub +:+ "/" +:+ indexed name i) unit sz i) →
  wfb b → cn ∈ Nodes (Graph (fluxgraph b)) →
  ∃ g', add_children sn cn n mk b = (Ret (), set_fluxgraph g' b) ∧
    grows (fluxgraph b) g'
      (child_views (RootName (Resources (fluxgraph b)))
         (meta_Name (node_Metadata sn) +:+ "/" +:+ meta_Name (node_Metadata cn))
         name type sz 0 (Z.to_nat n))
      (child_links (node_Id cn) (size b) (Z.to_nat n)).
Proof.
  intros Hm Hwf Hcn. unfold add_children, Go.for_upto.
  set (sub := meta_Name (node_Metadata sn) +:+ "/" +:+ meta_Name (node_Metadata cn)).
  destruct (children_loop (mk sub) name type unit sz sub cn (Z.to_nat n) 0 b
              (Hm sub) Hwf Hcn) as (g'&E&Hg).
  by exists g'.
Qed.

(** ** One node's part of the graph *)

(** The allocatable gpus of a node, in use or not. *)
Definition gpu_count (node : KNode) : Z :=
  match kn_Allocatable node !! "nvidia.com/gpu" with
  | Some q => Quantity_Value q
  | None => 0
  end.

Definition zone (node : KNode) : string :=
  default "" (kn_Labels node !! "topology.kubernetes.io/zone").

(** A node that is not skipped: its position in the list, itself, and the
    pods listed for it. *)
Local Abbreviation entry := (Z * KNode * list Pod)%type.

Definition gpus (e : entry) : nat := Z.to_nat (gpu_count e.1.2).
Definition cores (e : entry) : nat := Z.to_nat (availCpu e.1.2 e.2).
Definition memories (e : entry) : nat := Z.to_nat (Z.shiftr (availMem e.1.2 e.2) 30).

Definition block_views (root : string) (s : Z) (e : entry)
    : list View :=
  let sn := indexed (zone e.1.2) s in
  let cn := indexed (kn_Name e.1.2) e.1.1 in
  let sub := sn +:+ "/" +:+ cn in
  mkView SubnetType (zone e.1.2) sn 1 (Some (getNodePath root sn)) ::
  mkView NodeType (kn_Name e.1.2) cn 1 (Some (getNodePath root sub)) ::
  child_views root sub NvidiaGPU GPUType 1 0 (gpus e) ++
  child_views root sub CoreType CoreType 1 0 (cores e) ++
  child_views root sub MemoryType MemoryType 1024 0 (memories e).

Definition block_links (k m : nat) : list edge :=
  link (vid 0) (vid k) ++ link (vid k) (vid (k + 1)) ++ child_links (vid (k + 1)) (k + 2) m.

Definition block_size (e : entry) : nat := (2 + (gpus e + cores e + memories e))%nat.

Lemma child_links_app p k m1 m2 :
  child_links p k m1 ++ child_links p (k + m1) m2 = child_links p k (m1 + m2).
Proof. unfold child_links. by rewrite seq_app, bind_app. Qed.

Lemma length_child_views root sub name type sz i m :
  length (child_views root sub name type sz i m) = m.
Proof. unfold child_views. by rewrite length_fmap, length_seq. Qed.

Lemma length_block_views root s e : length (block_views root s e) = block_size e.
Proof. simpl. rewrite !length_app, !length_child_views. unfold block_size. lia. Qed.

Lemma find_subnet_run cl name b :
  subnetLookup b = ∅ →
  find_subnet cl name b =
  (n ← on_graph (MakeSubnet name (subnetCounter b));
   _ ← Go.modify (set_subnetCounter (GoInt.wrap 64 (subnetCounter b + 1)));
   _ ← on_graph (MakeBidirectionalEdge (node_Id cl) (node_Id n)); mret n) b.
Proof.
  intros Hb. unfold find_subnet. rewrite Go.run_bind. cbn [Go.gets].
  by rewrite Hb, lookup_empty.
Qed.

Lemma find_subnet_grows cl name b :
  subnetLookup b = ∅ → wfb b → cl ∈ Nodes (Graph (fluxgraph b)) →
  ∃ n g', n ∈ Nodes (Graph g') ∧ node_Id n = vid (size b) ∧
    meta_Name (node_Metadata n) = indexed name (subnetCounter b) ∧
    grows (fluxgraph b) g'
      [mkView SubnetType name (indexed name (subnetCounter b)) 1
         (Some (getNodePath (RootName (Resources (fluxgraph b)))
                  (indexed name (subnetCounter b))))]
      (link (node_Id cl) (vid (size b))) ∧
    find_subnet cl name b =
      (Ret n, set_subnetCounter (GoInt.wrap 64 (subnetCounter b + 1)) (set_fluxgraph g' b)).
Proof.
  intros Hl Hwf Hcl. rewrite find_subnet_run by done.
  destruct (child_step _ _ _ _ _ _ _ cl b (is_subnet name (subnetCounter b)) Hwf Hcl)
    as (n&g'&Hn&Hid&Hname&Hg&E). exists n, g'. split_and!; [done..|].
  specialize (E Node mret).
  destruct (is_make_grows _ _ _ _ _ _ _ _ (is_subnet name (subnetCounter b)) Hwf)
    as (g1&E1&_&_).
  rewrite (Go.run_bind_ret _ _ _ _ _ (run_on_graph _ _ _ _ E1)) in E.
  rewrite (Go.run_bind_ret _ _ _ _ _ (run_on_graph _ _ _ _ E1)).
  rewrite Go.run_bind. cbn [Go.modify].
  set (c := new_vertex _ _ _ _ _ _ _) in *.
  erewrite Go.run_bind_ret in E by
    (apply run_on_graph; apply (MakeBidirectionalEdge_run (node_Id cl) (node_Id c))).
  erewrite Go.run_bind_ret by
    (apply run_on_graph; apply (MakeBidirectionalEdge_run (node_Id cl) (node_Id c))).
  unfold mret, GoM_ret in *. simpl in *. by injection E as <- <-.
Qed.

(** The GPU loop, when the node has the resource. *)
Lemma gpus_grows node sn cn b :
  wfb b → cn ∈ Nodes (Graph (fluxgraph b)) →
  ∃ g', match kn_Allocatable node !! "nvidia.com/gpu" with
        | Some q => add_children sn cn (Quantity_Value q)
                      (λ subpath index, MakeGPU NvidiaGPU subpath 1 index)
        | None => mret ()
        end b = (Ret (), set_fluxgraph g' b) ∧
    grows (fluxgraph b) g'
      (child_views (RootName (Resources (fluxgraph b)))
         (meta_Name (node_Metadata sn) +:+ "/" +:+ meta_Name (node_Metadata cn))
         NvidiaGPU GPUType 1 0 (Z.to_nat (gpu_count node)))
      (child_links (node_Id cn) (size b) (Z.to_nat (gpu_count node))).
Proof.
  intros Hwf Hcn. unfold gpu_count. destruct (kn_Allocatable node !! _) as [q|].
  - eapply add_children_grows; [|done..]. intros sub i. exact (is_gpu NvidiaGPU sub 1 i).
  - exists (fluxgraph b). split; [by destruct b|apply grows_refl].
Qed.

(** The GPUs, the cores and the memory of one compute vertex. *)
Lemma leaves_grows j node pods sn cn b :
  wfb b → cn ∈ Nodes (Graph (fluxgraph b)) →
  let e := (j, node, pods) in
  let sub := meta_Name (node_Metadata sn) +:+ "/" +:+ meta_Name (node_Metadata cn) in
  let root := RootName (Resources (fluxgraph b)) in
  ∃ g',
    (_ ← match kn_Allocatable node !! "nvidia.com/gpu" with
         | Some q => add_children sn cn (Quantity_Value q)
                       (λ subpath index, MakeGPU NvidiaGPU subpath 1 index)
         | None => mret ()
         end;
     _ ← add_children sn cn (availCpu node pods)
           (λ subpath index, MakeCore CoreType subpath index);
     _ ← add_children sn cn (Z.shiftr (availMem node pods) 30)
           (λ subpath index, MakeMemory MemoryType subpath (Z.shiftl 1 10) index);
     mret None) b = (Ret (A:=option error) None, set_fluxgraph g' b) ∧
    grows (fluxgraph b) g'
      (child_views root sub NvidiaGPU GPUType 1 0 (gpus e) ++
       child_views root sub CoreType CoreType 1 0 (cores e) ++
       child_views root sub MemoryType MemoryType 1024 0 (memories e))
      (child_links (node_Id cn) (size b) (gpus e + cores e + memories e)).
Proof.
  intros Hwf Hcn e sub root.
  destruct (gpus_grows node sn cn b Hwf Hcn) as (g3&E3&Hg3).
  pose proof (grows_wf _ _ _ _ Hg3 Hwf) as Hwf3.
  pose proof (grows_elem _ _ _ _ _ Hg3 Hcn) as Hcn3.
  destruct (add_children_grows sn cn (availCpu node pods)
    (λ subpath index, MakeCore CoreType subpath index) CoreType CoreType defaultUnit
    defaultSize (set_fluxgraph g3 b) (is_core CoreType) Hwf3 Hcn3) as (g4&E4&Hg4).
  pose proof (grows_wf _ _ _ _ Hg4 Hwf3) as Hwf4.
  pose proof (grows_elem _ _ _ _ _ Hg4 Hcn3) as Hcn4.
  destruct (add_children_grows sn cn (Z.shiftr (availMem node pods) 30)
    (λ subpath index, MakeMemory MemoryType subpath (Z.shiftl 1 10) index) MemoryType
    MemoryType "MB" 1024 (set_fluxgraph g4 b)
    (λ sub i, is_memory MemoryType sub 1024 i) Hwf4 Hcn4) as (g5&E5&Hg5).
  exists g5. split.
  - rewrite (Go.run_bind_ret _ _ _ _ _ E3), (Go.run_bind_ret _ _ _ _ _ E4).
    by rewrite (Go.run_bind_ret _ _ _ _ _ E5).
  - pose proof (grows_trans _ _ _ _ _ _ _ Hg3 (grows_trans _ _ _ _ _ _ _ Hg4 Hg5)) as Hg.
    simpl in *. rewrite (gr_root _ _ _ _ Hg4), (gr_root _ _ _ _ Hg3) in Hg.
    rewrite (grows_length _ _ _ _ Hg4), (grows_length _ _ _ _ Hg3) in Hg. simpl in Hg.
    rewrite !length_child_views in Hg.
    rewrite !child_links_app in Hg.
    by rewrite Nat.add_assoc in Hg.
Qed.

Lemma add_node_grows cl j node sel pods w b :
  subnetLookup b = ∅ → wfb b → cl ∈ Nodes (Graph (fluxgraph b)) → node_Id cl = vid 0 →
  fields_ParseSelector (pod_selector node) = OK sel →
  Pods_List sel (bworld b) = (OK pods, w) →
  let e := (j, node, pods) in
  ∃ g' t, add_node cl j node b =
      (Ret None, mkBuilder g' ∅ (GoInt.wrap 64 (subnetCounter b + 1)) t w) ∧
    grows (fluxgraph b) g'
      (block_views (RootName (Resources (fluxgraph b))) (subnetCounter b) e)
      (block_links (size b) (gpus e + cores e + memories e)).
Proof.
  intros Hl Hwf Hcl Hid0 Esel Epods e. unfold add_node. rewrite Esel.
  erewrite Go.run_bind_ret by (apply run_bext; exact Epods). cbn beta iota zeta.
  fold (zone node).
  destruct (find_subnet_grows cl (zone node) (set_bworld w b) Hl Hwf Hcl)
    as (sn&g1&Hsn&Hsid&Hsname&Hg1&E1).
  rewrite (Go.run_bind_ret _ _ _ _ _ E1), Go.run_bind. cbn [Go.modify].
  set (b1 := set_totalAllocCpu _ _).
  pose proof (grows_wf _ _ _ _ Hg1 Hwf) as Hwf1.
  destruct (child_step _ _ _ _ _ _ _ sn b1
              (is_node (kn_Name node) (meta_Name (node_Metadata sn)) j) Hwf1 Hsn)
    as (cn&g2&Hcn&Hcid&Hcname&Hg2&E2). rewrite E2. clear E1 E2.
  destruct (leaves_grows j node pods sn cn (set_fluxgraph g2 b1) (grows_wf _ _ _ _ Hg2 Hwf1) Hcn)
    as (g3&E3&Hg3). rewrite E3.
  exists g3. eexists. split; [unfold set_fluxgraph, b1; simpl; by rewrite Hl|].
  pose proof (grows_trans _ _ _ _ _ _ _ Hg1 (grows_trans _ _ _ _ _ _ _ Hg2 Hg3)) as Hg.
  clear E3 Esel Epods. subst b1.
  cbn [fluxgraph set_fluxgraph set_totalAllocCpu set_bworld set_subnetCounter subnetCounter
       app] in *.
  rewrite (gr_root _ _ _ _ Hg2), (gr_root _ _ _ _ Hg1) in Hg.
  rewrite (grows_length _ _ _ _ Hg2), (grows_length _ _ _ _ Hg1) in Hg.
  rewrite Hid0, Hsid, Hcid, Hsname, Hcname, (grows_length _ _ _ _ Hg1) in Hg.
  cbn [length] in Hg. by rewrite <- Nat.add_assoc in Hg.
Qed.

(** ** The whole loop *)

(** The pods of every node that is not skipped, listed in order. *)
Fixpoint survey (skipLabel : string) (j : Z) (nodes : list KNode) (w : W)
    : go_result (list entry) * W :=
  match nodes with
  | [] => (OK [], w)
  | node :: nodes =>
      if decide (skipped skipLabel node) then survey skipLabel (j + 1) nodes w
      else match fields_ParseSelector (pod_selector node) with
           | Err e => (Err e, w)
           | OK sel =>
               match Pods_List sel w with
               | (Err e, w) => (Err e, w)
               | (OK pods, w) =>
                   match survey skipLabel (j + 1) nodes w with
                   | (Err e, w) => (Err e, w)
                   | (OK l, w) => (OK ((j, node, pods) :: l), w)
                   end
               end
           end
  end.

Fixpoint layout_views (root : string) (s : Z) (l : list entry)
    : list View :=
  match l with
  | [] => []
  | e :: l => block_views root s e ++ layout_views root (GoInt.wrap 64 (s + 1)) l
  end.

Fixpoint layout_links (k : nat) (l : list entry) : list edge :=
  match l with
  | [] => []
  | e :: l => block_links k (gpus e + cores e + memories e) ++ layout_links (k + block_size e) l
  end.

Lemma add_nodes_grows cl skipLabel nodes : ∀ j b,
  subnetLookup b = ∅ → wfb b → cl ∈ Nodes (Graph (fluxgraph b)) → node_Id cl = vid 0 →
  match survey skipLabel j nodes (bworld b) with
  | (OK l, w) =>
      ∃ g' c t, add_nodes cl skipLabel j nodes b = (Ret None, mkBuilder g' ∅ c t w) ∧
        grows (fluxgraph b) g'
          (layout_views (RootName (Resources (fluxgraph b))) (subnetCounter b) l)
          (layout_links (size b) l)
  | (Err e, w) =>
      ∃ b', add_nodes cl skipLabel j nodes b = (Ret (Some e), b') ∧ bworld b' = w
  end.
Proof.
  induction nodes as [|node nodes IH]; intros j b Hl Hwf Hcl Hid.
  { cbn [survey add_nodes]. exists (fluxgraph b), (subnetCounter b), (totalAllocCpu b).
    split; [by destruct b; simpl in *; subst|apply grows_refl]. }
  cbn [survey add_nodes]. case_decide; [by apply IH|].
  destruct (fields_ParseSelector (pod_selector node)) as [sel|e] eqn:Esel.
  2:{ exists b. split; [|done]. unfold add_node. by rewrite Esel. }
  destruct (Pods_List sel (bworld b)) as [[pods|e] w] eqn:Epods.
  2:{ exists (set_bworld w b). split; [|done]. unfold add_node. rewrite Esel.
      rewrite Go.run_bind.
      by erewrite Go.run_bind_ret by (apply run_bext; exact Epods). }
  destruct (add_node_grows cl j node sel pods w b Hl Hwf Hcl Hid Esel Epods)
    as (g1&t&E1&Hg1).
  set (b1 := mkBuilder g1 ∅ (GoInt.wrap 64 (subnetCounter b + 1)) t w) in *.
  specialize (IH (j + 1) b1 eq_refl (grows_wf _ _ _ _ Hg1 Hwf)
                (grows_elem _ _ _ _ _ Hg1 Hcl) Hid).
  change (bworld b1) with w in IH.
  destruct (survey skipLabel (j + 1) nodes w) as [[l|e] w'].
  - destruct IH as (g2&c&t2&E2&Hg2). exists g2, c, t2. split.
    + rewrite (Go.run_bind_ret _ _ _ _ _ E1). exact E2.
    + pose proof (grows_trans _ _ _ _ _ _ _ Hg1 Hg2) as Hg.
      change (fluxgraph b1) with g1 in Hg. change (subnetCounter b1) with
        (GoInt.wrap 64 (subnetCounter b + 1)) in Hg.
      by rewrite (gr_root _ _ _ _ Hg1), (grows_length _ _ _ _ Hg1),
        length_block_views in Hg.
  - destruct IH as (b2&E2&Hw). exists b2. split; [|done].
    rewrite (Go.run_bind_ret _ _ _ _ _ E1). exact E2.
Qed.

(** The root vertex of the cluster's graph. *)
Definition root_view : View :=
  mkView ClusterType defaultClusterName "k8scluster0" 1 (Some "/k8scluster0").

Lemma InitCluster_new :
  ∃ n g, InitCluster defaultClusterName NewFluxJGF = (Ret (n, None), g) ∧
    n ∈ Nodes (Graph g) ∧ node_Id n = vid 0 ∧ RootName (Resources g) = "k8scluster0" ∧
    rtc builds NewFluxJGF g ∧ view <$> Nodes (Graph g) = [root_view] ∧ Edges (Graph g) = [].
Proof.
  pose proof (ex_intro _ (C_InitCluster defaultClusterName) eq_refl
    : builds NewFluxJGF (InitCluster defaultClusterName NewFluxJGF).2) as Hb.
  rewrite InitCluster_run in Hb |- *. rewrite decide_False in Hb |- * by (simpl; lia).
  do 2 eexists. split; [reflexivity|].
  split_and!; [simpl; by left| | |by apply rtc_once| |]; by vm_compute.
Qed.

Lemma cluster_layout filename skipLabel w w1 w2 w3 w4 nodes l :
  rest_InClusterConfig w = (None, w1) →
  kubernetes_NewForConfig w1 = (None, w2) →
  Nodes_List w2 = (OK nodes, w3) →
  survey skipLabel 0 nodes w3 = (OK l, w4) →
  ∃ b, CreateInClusterJGF filename skipLabel (new_builder w) = WriteJGF filename b ∧
    bworld b = w4 ∧
    rtc builds NewFluxJGF (fluxgraph b) ∧ wf_graph (fluxgraph b) ∧
    view <$> Nodes (Graph (fluxgraph b)) = root_view :: layout_views "k8scluster0" 0 l ∧
    Edges (Graph (fluxgraph b)) = layout_links 1 l.
Proof.
  intros E1 E2 E3 ES. unfold CreateInClusterJGF.
  erewrite Go.run_bind_ret by (apply run_bext; exact E1). cbn beta iota.
  erewrite Go.run_bind_ret by (apply run_bext; exact E2). cbn beta iota.
  erewrite Go.run_bind_ret by (apply run_bext; exact E3). cbn beta iota.
  destruct InitCluster_new as (n&g&EI&Hn&Hid&Hroot&Hb&Hv&He).
  erewrite Go.run_bind_ret by (apply run_on_graph; exact EI). cbn beta iota.
  set (b0 := set_fluxgraph g _).
  pose proof (rtc_builds_wf _ _ Hb wf_NewFluxJGF) as Hwf.
  pose proof (add_nodes_grows n skipLabel nodes 0 b0 eq_refl Hwf Hn Hid) as Hadd.
  change (bworld b0) with w3 in Hadd. rewrite ES in Hadd.
  destruct Hadd as (g'&c&t&Ea&Hg). rewrite (Go.run_bind_ret _ _ _ _ _ Ea).
  change (fluxgraph b0) with g in Hg. change (subnetCounter b0) with 0 in Hg.
  eexists. split_and!; [reflexivity|done|..].
  - etrans; [exact Hb|apply Hg].
  - by eapply grows_wf.
  - cbn [fluxgraph]. by rewrite (gr_views _ _ _ _ Hg), Hv, Hroot.
  - cbn [fluxgraph]. rewrite (gr_edges _ _ _ _ Hg), He.
    apply (f_equal length) in Hv. rewrite length_fmap in Hv. by rewrite Hv.
Qed.

(** C25: The graph written for a cluster is, vertex by vertex with type, name, size and
    path and edge by edge, the one the layout function computes from the nodes that are
    not skipped and the pods listed for each. *)
Theorem CreateInClusterJGF_layout filename skipLabel w w1 w2 w3 w4 nodes l :
  rest_InClusterConfig w = (None, w1) →
  kubernetes_NewForConfig w1 = (None, w2) →
  Nodes_List w2 = (OK nodes, w3) →
  survey skipLabel 0 nodes w3 = (OK l, w4) →
  ∃ b, CreateInClusterJGF filename skipLabel (new_builder w) = WriteJGF filename b ∧
    bworld b = w4 ∧
    rtc builds NewFluxJGF (fluxgraph b) ∧
    view <$> Nodes (Graph (fluxgraph b)) = root_view :: layout_views "k8scluster0" 0 l ∧
    Edges (Graph (fluxgraph b)) = layout_links 1 l.
Proof.
  intros E1 E2 E3 ES.
  destruct (cluster_layout filename skipLabel w w1 w2 w3 w4 nodes l E1 E2 E3 ES)
    as (b&?&?&?&_&?&?). by exists b.
Qed.
End builder.
