(* ===== verification/ClusterTree.v ===== *)
(** * The containment tree of the cluster graph

    Every vertex of the graph but the root hangs under one parent of the right
    type, is linked to it both ways, and has its parent's path extended by its
    own name; and each node contributes a vertex for each of its gpus, and for
    each cpu and each gigabyte of memory that its pods have not requested. *)

From Stdlib Require Import Ascii.
From stdpp Require Import prelude gmap strings list fin_maps pretty.
From S2P Require Import Prelude GoRuntime PathFacts Kube Wire Env PodSpec Jgf JgfFacts ClusterGraph ClusterFacts.

Local Open Scope Z_scope.

Definition root_name : string := "k8scluster0".

(** Which type of vertex contains which. *)
Inductive contains_type : string → string → Prop :=
| cluster_subnet : contains_type ClusterType SubnetType
| subnet_node : contains_type SubnetType NodeType
| node_gpu : contains_type NodeType GPUType
| node_core : contains_type NodeType CoreType
| node_memory : contains_type NodeType MemoryType.

(** [v] hangs under [p]: its type may, and its path extends that of [p]. *)
Definition hangs_under (p v : View) : Prop :=
  contains_type (v_type p) (v_type v) ∧
  ∃ path, v_path p = Some path ∧ v_path v = Some (path +:+ "/" +:+ v_name v).

Lemma proper_root : proper root_name.
Proof. refine (bool_decide_unpack _ _). by vm_compute. Qed.

(** The components of a path are proper, one by one. *)
Ltac proper_list :=
  repeat (apply Forall_cons_2;
    [first [exact proper_root | done | by apply proper_indexed]|]); apply Forall_nil_2.

Lemma root_subnet_path sn :
  proper sn → getNodePath root_name sn = "/k8scluster0" +:+ "/" +:+ sn.
Proof.
  intros Hsn. pose proof proper_root.
  change sn with (Strings.Join [sn] "/") at 1. rewrite proper_path; [|done|].
  - done.
  - proper_list.
Qed.

Lemma subpath_extends root comps x :
  comps ≠ [] → Forall proper (root :: comps) → proper x →
  getNodePath root (Strings.Join comps "/" +:+ "/" +:+ x)
  = getNodePath root (Strings.Join comps "/") +:+ "/" +:+ x.
Proof.
  intros Hc HF Hx. rewrite <- Join_snoc by done.
  rewrite !proper_path; [|done..| |].
  - by rewrite app_comm_cons, path_of_snoc.
  - by destruct comps.
  - rewrite app_comm_cons. apply Forall_app. split; [done|proper_list].
Qed.

Section tree.
Context {Q : QuantityLib} {MO : MapOrder} {RH : ResourceHelper}.
Context {W : Type} {KC : KubeClient W}.

Local Abbreviation entry := (Z * KNode * list Pod)%type.

(** A node whose zone and name hold no slash. *)
Definition plain_node (node : KNode) : Prop :=
  ¬ has_char "/" (zone node) ∧ ¬ has_char "/" (kn_Name node).

Definition plain_entry (e : entry) : Prop := 0 ≤ e.1.1 ∧ plain_node e.1.2.

Definition leaves (s : Z) (e : entry) : list View :=
  let sub := indexed (zone e.1.2) s +:+ "/" +:+ indexed (kn_Name e.1.2) e.1.1 in
  child_views root_name sub NvidiaGPU GPUType 1 0 (gpus e) ++
  child_views root_name sub CoreType CoreType 1 0 (cores e) ++
  child_views root_name sub MemoryType MemoryType 1024 0 (memories e).

Definition subnet_view (s : Z) (e : entry) : View :=
  let sn := indexed (zone e.1.2) s in
  mkView SubnetType (zone e.1.2) sn 1 (Some (getNodePath root_name sn)).

Definition node_view (s : Z) (e : entry) : View :=
  let sn := indexed (zone e.1.2) s in
  let cn := indexed (kn_Name e.1.2) e.1.1 in
  mkView NodeType (kn_Name e.1.2) cn 1 (Some (getNodePath root_name (sn +:+ "/" +:+ cn))).

Lemma block_views_cons s e :
  block_views root_name s e = subnet_view s e :: node_view s e :: leaves s e.
Proof. done. Qed.

Lemma subnet_hangs s e :
  plain_entry e → 0 ≤ s → hangs_under root_view (subnet_view s e).
Proof.
  intros (_&Hz&_) Hs. split; [constructor|]. exists "/k8scluster0". split; [done|].
  simpl. rewrite root_subnet_path; [done|]. by apply proper_indexed.
Qed.

Lemma node_hangs s e :
  plain_entry e → 0 ≤ s → hangs_under (subnet_view s e) (node_view s e).
Proof.
  intros (Hj&Hz&Hn) Hs. split; [constructor|]. eexists. split; [done|]. simpl.
  pose proof (subpath_extends root_name [indexed (zone e.1.2) s]
                (indexed (kn_Name e.1.2) e.1.1)) as H.
  simpl in H. rewrite H; [done|done| |by apply proper_indexed].
  proper_list.
Qed.

Lemma child_views_hang s e name type sz m v :
  plain_entry e → 0 ≤ s → ¬ has_char "/" name → contains_type NodeType type →
  v ∈ child_views root_name
        (indexed (zone e.1.2) s +:+ "/" +:+ indexed (kn_Name e.1.2) e.1.1) name type sz 0 m →
  hangs_under (node_view s e) v.
Proof.
  intros (Hj&Hz&Hn) Hs Hname Ht (i&->&_)%list_elem_of_fmap. split; [done|].
  eexists. split; [done|]. cbn [v_name v_path node_view].
  pose proof (subpath_extends root_name
    [indexed (zone e.1.2) s; indexed (kn_Name e.1.2) e.1.1] (indexed name (Z.of_nat i))) as H.
  cbn [Strings.Join] in H. rewrite H; [done|done| |apply proper_indexed; [done|lia]].
  proper_list.
Qed.

Lemma leaves_hang s e v :
  plain_entry e → 0 ≤ s → v ∈ leaves s e → hangs_under (node_view s e) v.
Proof.
  intros He Hs [H|[H|H]%elem_of_app]%elem_of_app;
    (eapply child_views_hang; [done|done| | |exact H]; [refine (bool_decide_unpack _ _); by vm_compute|constructor]).
Qed.

(** ** Every vertex has its parent *)

Ltac sub_app :=
  first [ assumption | reflexivity
        | apply list_subseteq_app_l; solve [sub_app]
        | apply list_subseteq_app_r; solve [sub_app] ].

Lemma child_link_in p k m i : (i < m)%nat → link p (vid (k + i)) ⊆ child_links p k m.
Proof.
  intros Hi ed Hed. unfold child_links. apply list_elem_of_bind.
  exists (k + i)%nat. split; [done|]. apply elem_of_seq. lia.
Qed.

Lemma block_tree s e k i v :
  plain_entry e → 0 ≤ s → block_views root_name s e !! i = Some v →
  ∃ pi pv, (pi = 0%nat ∧ pv = root_view ∨
            ∃ i', pi = (k + i')%nat ∧ (i' < i)%nat ∧ block_views root_name s e !! i' = Some pv) ∧
    hangs_under pv v ∧
    link (vid pi) (vid (k + i)) ⊆ block_links k (gpus e + cores e + memories e).
Proof.
  intros He Hs Hv.
  assert (i < block_size e)%nat as Hlt.
  { rewrite <- (length_block_views root_name s e). by eapply lookup_lt_Some. }
  rewrite block_views_cons in Hv |- *. unfold block_links.
  destruct i as [|[|i]]; simpl in Hv.
  - injection Hv as <-. exists 0%nat, root_view. split; [by left|].
    split; [by apply subnet_hangs|]. rewrite Nat.add_0_r. sub_app.
  - injection Hv as <-. exists (k + 0)%nat, (subnet_view s e). split.
    + right. exists 0%nat. split_and!; [done|lia|done].
    + split; [by apply node_hangs|]. rewrite Nat.add_0_r. sub_app.
  - exists (k + 1)%nat, (node_view s e). split.
    + right. exists 1%nat. split_and!; [done|lia|done].
    + split; [eapply leaves_hang, list_elem_of_lookup_2, Hv; done|].
      replace (k + S (S i))%nat with (k + 2 + i)%nat by lia.
      pose proof (child_link_in (vid (k + 1)) (k + 2) (gpus e + cores e + memories e) i) as Hin.
      unfold block_size in Hlt. specialize (Hin ltac:(lia)). sub_app.
Qed.

Lemma layout_tree l : ∀ s (pre : list View) i v,
  pre !! 0%nat = Some root_view → Forall plain_entry l →
  0 ≤ s → s + Z.of_nat (length l) < 2 ^ 63 →
  layout_views root_name s l !! i = Some v →
  ∃ pi pv, (pi < length pre + i)%nat ∧
    (pre ++ layout_views root_name s l) !! pi = Some pv ∧ hangs_under pv v ∧
    link (vid pi) (vid (length pre + i)) ⊆ layout_links (length pre) l.
Proof.
  induction l as [|e l IH]; intros s pre i v Hpre HF Hs Hb Hv; [done|].
  apply Forall_cons in HF as [He HF]. cbn [length] in Hb.
  cbn [layout_views layout_links] in Hv |- *.
  rewrite GoInt.wrap_id in Hv |- * by (unfold GoInt.fits; simpl; lia).
  set (blk := block_views root_name s e) in *.
  assert (length blk = block_size e) as Hlen by apply length_block_views.
  pose proof (lookup_lt_Some _ _ _ Hpre) as Hpos.
  apply lookup_app_Some in Hv as [Hv|[Hle Hv]].
  - destruct (block_tree s e (length pre) i v He Hs Hv)
      as (pi&pv&[[-> ->]|(i'&->&Hi'&Hpv)]&Hh&Hlink).
    + exists 0%nat, root_view. split_and!; [lia| |done|sub_app].
      by rewrite lookup_app_l by lia.
    + exists (length pre + i')%nat, pv. split_and!; [lia| |done|sub_app].
      rewrite lookup_app_r by lia. replace (length pre + i' - length pre)%nat with i' by lia.
      by apply lookup_app_l_Some.
  - destruct (IH (s + 1) (pre ++ blk) (i - length blk)%nat v) as (pi&pv&Hpi&Hpv&Hh&Hlink);
      [by apply lookup_app_l_Some|done|lia|lia|done|].
    rewrite length_app, Hlen in *.
    replace (length pre + block_size e + (i - block_size e))%nat
      with (length pre + i)%nat in * by lia.
    exists pi, pv. split_and!; [done| |done|sub_app].
    by rewrite <- app_assoc in Hpv.
Qed.

Lemma survey_entries skipLabel nodes : ∀ j w l w',
  0 ≤ j → Forall plain_node nodes → survey skipLabel j nodes w = (OK l, w') →
  Forall plain_entry l ∧ (length l ≤ length nodes)%nat.
Proof.
  induction nodes as [|node nodes IH]; intros j w l w' Hj HF E; simpl in *.
  { injection E as <- _. by split. }
  apply Forall_cons in HF as [Hn HF].
  case_decide; [destruct (IH (j + 1) w l w' ltac:(lia) HF E); split; [done|lia]|].
  destruct (fields_ParseSelector _) as [sel|]; [|done].
  destruct (Pods_List sel w) as [[pods|] w1]; [|done].
  destruct (survey skipLabel (j + 1) nodes w1) as [[l'|] w2] eqn:E'; [|done].
  injection E as <- _. destruct (IH (j + 1) w1 l' w2 ltac:(lia) HF E'). split; [|simpl; lia].
  by constructor.
Qed.

(** The graph [b] was asked to write, whose layout is known, is a tree. *)
Lemma layout_is_tree (g : FluxJGF) l :
  wf_graph g →
  view <$> Nodes (Graph g) = root_view :: layout_views root_name 0 l →
  Edges (Graph g) = layout_links 1 l →
  Forall plain_entry l → Z.of_nat (length l) < 2 ^ 63 →
  ∀ (i : nat) n, Nodes (Graph g) !! S i = Some n →
    ∃ pi p, (pi ≤ i)%nat ∧ Nodes (Graph g) !! pi = Some p ∧ hangs_under (view p) (view n) ∧
      new_edge (node_Id p) (node_Id n) ∈ Edges (Graph g) ∧
      new_edge (node_Id n) (node_Id p) ∈ Edges (Graph g).
Proof.
  intros Hwf Hv Hed HF Hlen i n Hn.
  assert (∀ (k : nat) m, Nodes (Graph g) !! k = Some m → node_Id m = vid k) as Hid.
  { intros k m Hm. destruct (wf_ids g Hwf k m Hm) as (HU&HD&_). by rewrite HD, HU. }
  assert ((view <$> Nodes (Graph g)) !! S i = Some (view n)) as Hvn
    by (by rewrite list_lookup_fmap, Hn).
  rewrite Hv in Hvn. simpl in Hvn.
  destruct (layout_tree l 0 [root_view] i (view n) eq_refl HF ltac:(lia) ltac:(lia) Hvn)
    as (pi&pv&Hpi&Hpv&Hh&Hlink).
  simpl in Hpi. change ([root_view] ++ ?x) with (root_view :: x) in Hpv.
  rewrite <- Hv, list_lookup_fmap in Hpv.
  apply fmap_Some in Hpv as (p&Hp&->).
  exists pi, p. rewrite (Hid _ _ Hp), (Hid _ _ Hn), Hed. split_and!; [lia|done|done|..];
    apply Hlink; simpl; set_solver.
Qed.

(** Writing the file does not touch the graph. *)
Lemma WriteJGF_graph filename (b' : ClusterGraph.Builder (W:=W)) r b :
  WriteJGF filename b' = (Ret r, b) → fluxgraph b = fluxgraph b'.
Proof.
  unfold WriteJGF. rewrite Go.run_bind. cbn [Go.gets].
  destruct (json_MarshalIndent _); [|done].
  unfold bext. rewrite Go.run_bind. destruct (os_Create _ _) as [[e|] w1]; [done|].
  rewrite Go.run_bind. destruct (f_Write _ _ _) as [[e|] w2] eqn:E; simpl; [done|].
  by intros [= _ <-].
Qed.

(** C26: In the written graph every vertex but the root has an earlier vertex as its
    parent: of the type that contains its own, linked to it both ways, and with a path
    that it extends by its own name. *)
Theorem CreateInClusterJGF_tree filename skipLabel w w1 w2 w3 w4 nodes l b :
  rest_InClusterConfig w = (None, w1) →
  kubernetes_NewForConfig w1 = (None, w2) →
  Nodes_List w2 = (OK nodes, w3) →
  survey skipLabel 0 nodes w3 = (OK l, w4) →
  Forall plain_node nodes → Z.of_nat (length nodes) < 2 ^ 63 →
  CreateInClusterJGF filename skipLabel (new_builder w) = (Ret None, b) →
  ∀ (i : nat) n, Nodes (Graph (fluxgraph b)) !! S i = Some n →
    ∃ pi p, (pi ≤ i)%nat ∧ Nodes (Graph (fluxgraph b)) !! pi = Some p ∧
      hangs_under (view p) (view n) ∧
      new_edge (node_Id p) (node_Id n) ∈ Edges (Graph (fluxgraph b)) ∧
      new_edge (node_Id n) (node_Id p) ∈ Edges (Graph (fluxgraph b)).
Proof.
  intros E1 E2 E3 ES HF Hlen Hrun.
  assert (∃ b', CreateInClusterJGF filename skipLabel (new_builder w) = WriteJGF filename b' ∧
    wf_graph (fluxgraph b') ∧
    view <$> Nodes (Graph (fluxgraph b')) = root_view :: layout_views root_name 0 l ∧
    Edges (Graph (fluxgraph b')) = layout_links 1 l) as (b'&E&Hwf&Hv&Hed).
  { destruct (cluster_layout filename skipLabel w w1 w2 w3 w4 nodes l E1 E2 E3 ES)
      as (b'&?&_&_&?&?&?). by exists b'. }
  rewrite E in Hrun. rewrite (WriteJGF_graph _ _ _ _ Hrun).
  destruct (survey_entries skipLabel nodes 0 w3 l w4) as [HFl Hll]; [lia|done|done|].
  apply layout_is_tree with l; [done..|lia].
Qed.

(** ** How much the graph offers *)

Definition count_type (type : string) (vs : list View) : nat :=
  length (filter (λ v, v_type v = type) vs).

Lemma count_type_app type vs1 vs2 :
  count_type type (vs1 ++ vs2) = (count_type type vs1 + count_type type vs2)%nat.
Proof. unfold count_type. by rewrite filter_app, length_app. Qed.

Lemma count_child_views type root sub name t sz i m :
  count_type type (child_views root sub name t sz i m) = if decide (t = type) then m else 0%nat.
Proof.
  unfold count_type, child_views. revert i.
  induction m as [|m IH]; intros i; csimpl; [by case_decide|].
  rewrite filter_cons. specialize (IH (S i)). simpl.
  case_decide; simpl; [by rewrite IH|exact IH].
Qed.

Definition contribution (type : string) (e : entry) : nat :=
  if decide (type = SubnetType) then 1 else if decide (type = NodeType) then 1
  else if decide (type = GPUType) then gpus e else if decide (type = CoreType) then cores e
  else if decide (type = MemoryType) then memories e else 0%nat.

Lemma count_block type s e :
  type ∈ [SubnetType; NodeType; GPUType; CoreType; MemoryType] →
  count_type type (block_views root_name s e) = contribution type e.
Proof.
  intros Ht. rewrite block_views_cons. unfold leaves, contribution.
  change (subnet_view s e :: node_view s e :: ?l) with ([subnet_view s e] ++ [node_view s e] ++ l).
  rewrite !count_type_app, !count_child_views. unfold count_type, subnet_view, node_view.
  repeat (apply elem_of_cons in Ht as [->|Ht]; [simpl; lia|]). by apply elem_of_nil in Ht.
Qed.

Lemma count_layout type l : ∀ s,
  type ∈ [SubnetType; NodeType; GPUType; CoreType; MemoryType] →
  count_type type (layout_views root_name s l) = sum_list (contribution type <$> l).
Proof.
  induction l as [|e l IH]; intros s Ht; [done|].
  cbn [layout_views]. rewrite count_type_app, count_block, IH by done. done.
Qed.

Lemma count_view type ns :
  count_type type (view <$> ns) = length (filter (λ n, meta_Type (node_Metadata n) = type) ns).
Proof.
  unfold count_type. induction ns as [|n ns IH]; csimpl; [done|].
  rewrite !filter_cons. simpl. case_decide; simpl; by rewrite IH.
Qed.

(** ** Sums of requests *)

Definition sum_request (acc q : option Quantity) : option Quantity :=
  match acc, q with
  | None, q => q
  | acc, None => acc
  | Some v, Some q => Some (Quantity_Add v q)
  end.

Lemma add_requests_lookup (rs : list (string * Quantity)) k : ∀ total,
  NoDup rs.*1 →
  foldl add_request total rs !! k = sum_request (total !! k) (list_to_map (M:=gmap _ _) rs !! k).
Proof.
  induction rs as [|[k' q] rs IH]; intros total Hnd; csimpl in *.
  { rewrite lookup_empty. by destruct (total !! k). }
  apply NoDup_cons in Hnd as [Hnin Hnd]. rewrite IH by done. unfold add_request. simpl.
  destruct (decide (k' = k)) as [->|Hne].
  - rewrite lookup_insert_eq, (not_elem_of_list_to_map_1 (M:=gmap _) rs k) by done.
    destruct (total !! k); by rewrite lookup_insert_eq.
  - rewrite (lookup_insert_ne (list_to_map rs)) by done.
    destruct (total !! k'); by rewrite lookup_insert_ne.
Qed.

(** The total of a resource over a list of pods is the sum of the pods' requests
    for it, in the order of the pods and whatever the order Go ranges over the maps, and
    absent when no pod requests it. *)
Theorem computeTotalRequests_sum `{!MapOrderLaws MO} podList k :
  computeTotalRequests podList !! k
  = foldl (λ acc pod, sum_request acc (PodRequests pod !! k)) None podList.
Proof.
  unfold computeTotalRequests.
  rewrite <- (lookup_empty (M:=gmap string) (A:=Quantity) k).
  generalize (∅ : gmap string Quantity). induction podList as [|pod l IH]; intros m; [done|].
  cbn [foldl]. rewrite IH. f_equal.
  pose proof (range_order_perm (PodRequests pod)) as HP.
  assert (NoDup (range_order (PodRequests pod)).*1) as Hnd.
  { rewrite HP. apply NoDup_fst_map_to_list. }
  rewrite add_requests_lookup by done. f_equal.
  rewrite (list_to_map_proper _ _ Hnd HP). by rewrite list_to_map_to_list.
Qed.

(** ** What is free on the nodes *)

(** What some pods request of a resource, summed pod by pod. *)
Definition requested (k : string) (pods : list Pod) : Quantity :=
  default Quantity_zero (foldl (λ acc pod, sum_request acc (PodRequests pod !! k)) None pods).

Definition allocatable (k : string) (node : KNode) : Quantity :=
  default Quantity_zero (kn_Allocatable node !! k).

(** Thousandths of a cpu and bytes that are allocatable and not requested. *)
Definition free_millicpu (e : entry) : Z :=
  Quantity_MilliValue (allocatable "cpu" e.1.2) - Quantity_MilliValue (requested "cpu" e.2).
Definition free_bytes (e : entry) : Z :=
  Quantity_Value (allocatable "memory" e.1.2) - Quantity_Value (requested "memory" e.2).

Context {QL : QuantityLaws Q} {ML : MapOrderLaws MO}.

(** A quotient is no larger than what is divided. *)
Lemma quot_fits x : GoInt.fits 64 x → GoInt.fits 64 (Z.quot x 1000).
Proof.
  unfold GoInt.fits. intros Hx. destruct (decide (0 ≤ x)).
  - rewrite Z.quot_div_nonneg by lia.
    pose proof (Z.div_mod x 1000). pose proof (Z.mod_pos_bound x 1000). lia.
  - rewrite <- (Z.opp_involutive x), Z.quot_opp_l, Z.quot_div_nonneg by lia.
    pose proof (Z.div_mod (- x) 1000). pose proof (Z.mod_pos_bound (- x) 1000). lia.
Qed.

Lemma cores_free e :
  GoInt.fits 64 (free_millicpu e) → cores e = Z.to_nat (Z.quot (free_millicpu e) 1000).
Proof.
  intros Hf. unfold cores, availCpu. rewrite RL_Cpu_spec, computeTotalRequests_sum.
  fold (requested "cpu" e.2) (allocatable "cpu" e.1.2) (free_millicpu e).
  rewrite (GoInt.wrap_id 64 (free_millicpu e)) by done. rewrite GoInt.wrap_id; [done|done|].
  by apply quot_fits.
Qed.

Lemma memories_free e :
  GoInt.fits 64 (free_bytes e) → memories e = Z.to_nat (free_bytes e / 2 ^ 30).
Proof.
  intros Hf. unfold memories, availMem. rewrite RL_Memory_spec, computeTotalRequests_sum.
  fold (requested "memory" e.2) (allocatable "memory" e.1.2) (free_bytes e).
  rewrite GoInt.wrap_id by done. by rewrite Z.shiftr_div_pow2.
Qed.

End tree.
