(* ===== verification/JobSpec.v ===== *)
(** * Package jobspec: from a request to a Fluxion job specification

    The resource tree [CreateJobSpecYaml] hands to the YAML encoder, and what
    that tree asks for in total. *)

From stdpp Require Import prelude strings list.
From S2P Require Import Prelude GoRuntime Wire.

Local Open Scope Z_scope.

(** ** Data *)

Inductive Resource := mkResource {
  res_Type : string;
  res_Count : Z;
  res_Label : string;
  res_With : list Resource;
}.

Record Task := mkTask {
  task_Command : list string;
  task_Slot : string;
  task_PerSlot : Z;
}.

Record JobSpec := mkJobSpec {
  job_Version : Z;
  job_Resources : list Resource;
  job_Duration : Z;
  job_Tasks : list Task;
}.

(** [yaml.Marshal] of gopkg.in/yaml.v2. *)
Class YamlLib := {
  yaml_Marshal : JobSpec → go_result string;
}.

Definition createSocketResources (spec : pb.PodSpec) : list Resource :=
  [mkResource "core" (pb.Cpu spec) "" []] ++
  (if decide (pb.Memory spec > 0)
   then [mkResource "memory" (Z.shiftr (pb.Memory spec) 20) "" []] else []) ++
  (if decide (pb.Gpu spec > 0) then [mkResource "gpu" (pb.Gpu spec) "" []] else []).

Definition createResources (spec : pb.PodSpec) (socketResources : list Resource) (count : Z)
    : list Resource :=
  let slotResource := [mkResource "slot" count "default" socketResources] in
  if decide ("zone" ∈ pb.Labels spec)
  then [mkResource "subnet" 1 "" [mkResource "node" 1 "" slotResource]]
  else slotResource.

(** The value handed to the encoder. *)
Definition jobspec_of (spec : pb.PodSpec) (count : Z) : JobSpec :=
  mkJobSpec 9999 (createResources spec (createSocketResources spec) count) 3600
    [mkTask [pb.Container spec] "default" 1].

(** A nil request panics; [log.Fatalf] ends the process. *)
Definition CreateJobSpecYaml `{YamlLib} (spec : option pb.PodSpec) (count : Z)
    : outcome (go_result string) :=
  spec ← Go.deref spec;
  match yaml_Marshal (jobspec_of spec count) with
  | Err err => Panic "[JobSpec] yaml.Marshal failed"
  | OK yamlbytes => mret (OK yamlbytes)
  end.

(** ** What a resource tree asks for *)

(** The number of resources of a type below one resource: counts multiply
    along a branch and add up over siblings. *)
Fixpoint demand1 (type : string) (r : Resource) : Z :=
  match r with
  | mkResource t c _ subs =>
      c * ((if decide (t = type) then 1 else 0) + zsum (demand1 type <$> subs))
  end.

Definition demand (type : string) (rs : list Resource) : Z := zsum (demand1 type <$> rs).

Lemma demand_cons type r rs : demand type (r :: rs) = demand1 type r + demand type rs.
Proof. done. Qed.

Lemma demand_app type rs1 rs2 : demand type (rs1 ++ rs2) = demand type rs1 + demand type rs2.
Proof. unfold demand. by rewrite fmap_app, zsum_app. Qed.

Lemma demand1_eq type t c l subs :
  demand1 type (mkResource t c l subs)
  = c * ((if decide (t = type) then 1 else 0) + demand type subs).
Proof. done. Qed.

Lemma socket_demand spec :
  demand "core" (createSocketResources spec) = pb.Cpu spec ∧
  demand "memory" (createSocketResources spec) = Z.max 0 (pb.Memory spec) / 2 ^ 20 ∧
  demand "gpu" (createSocketResources spec) = Z.max 0 (pb.Gpu spec) ∧
  demand "slot" (createSocketResources spec) = 0.
Proof.
  unfold createSocketResources. rewrite !demand_app.
  assert (0 < pb.Memory spec → Z.shiftr (pb.Memory spec) 20 = Z.max 0 (pb.Memory spec) / 2 ^ 20)
    by (intros; rewrite Z.shiftr_div_pow2, Z.max_r by lia; done).
  assert (¬ 0 < pb.Memory spec → Z.max 0 (pb.Memory spec) / 2 ^ 20 = 0)
    by (intros; by rewrite Z.max_l by lia).
  repeat case_decide; unfold demand; simpl; repeat case_decide; try done; lia.
Qed.

(** The resource tree of a job specification asks in total for count slots, count
    times the cpus, the whole mebibytes and the gpus of one slot, and for a subnet
    exactly when a label says zone. *)
Theorem jobspec_demand spec count :
  let rs := job_Resources (jobspec_of spec count) in
  demand "slot" rs = count ∧
  demand "core" rs = count * pb.Cpu spec ∧
  demand "memory" rs = count * (Z.max 0 (pb.Memory spec) / 2 ^ 20) ∧
  demand "gpu" rs = count * Z.max 0 (pb.Gpu spec) ∧
  demand "subnet" rs = (if decide ("zone" ∈ pb.Labels spec) then 1 else 0).
Proof.
  intros rs. destruct (socket_demand spec) as (Hc&Hm&Hg&Hs).
  assert (demand "subnet" (createSocketResources spec) = 0) as Hn.
  { unfold createSocketResources. rewrite !demand_app.
    repeat case_decide; unfold demand; simpl; repeat case_decide; done || lia. }
  unfold rs, jobspec_of, createResources. simpl.
  case_decide; rewrite ?demand_cons, ?demand1_eq, ?demand_cons, ?demand1_eq;
    rewrite ?demand_cons, ?demand1_eq, ?Hc, ?Hm, ?Hg, ?Hs, ?Hn;
    unfold demand; simpl; repeat case_decide; try done; split_and!; lia.
Qed.
