(* ===== verification/Fluxion.v ===== *)
(** * The Fluxion server: packages utils (allocations) and fluxion

    [ParseAllocResult] reads the allocation document Fluxion returns; [Match]
    and [Cancel] are the two handlers of the gRPC service, over the client of
    the Fluxion library; [InitFluxion] loads the cluster graph. *)

From Stdlib Require Import Ascii.
From stdpp Require Import prelude gmap strings list fin_maps.
From S2P Require Import Prelude GoRuntime Kube Wire Env Jgf ClusterGraph JobSpec.

Local Open Scope Z_scope.

(** ** Decoded JSON *)

Inductive json :=
| JNull
| JBool (b : bool)
| JNumber (n : Z)
| JString (s : string)
| JArray (l : list json)
| JObject (l : list (string * json)).

(** [json.Unmarshal] into a [map[string]interface{}]: the fields of the
    object, each name once. *)
Class JsonLib := {
  json_Unmarshal : string → go_result (list (string * json));
}.

(** [m[k]]: nil (here [JNull]) for a missing key. *)
Fixpoint json_field (k : string) (m : list (string * json)) : json :=
  match m with
  | [] => JNull
  | (k', v) :: m => if decide (k = k') then v else json_field k m
  end.

(** Type assertions on interface values. *)
Definition as_object (v : json) : outcome (list (string * json)) :=
  match v with JObject m => Ret m | _ => Panic "interface conversion" end.
Definition as_array (v : json) : outcome (list json) :=
  match v with JArray l => Ret l | _ => Panic "interface conversion" end.
Definition as_string (v : json) : outcome string :=
  match v with JString s => Ret s | _ => Panic "interface conversion" end.

Record allocation := mkAllocation {
  alloc_Type : string;
  alloc_Basename : string;
  alloc_CoreCount : Z;
}.

(** One vertex of the document: the list so far and the cores since the last
    node. *)
Definition parse_item (acc : list allocation * Z) (item : json)
    : outcome (list allocation * Z) :=
  let '(result, corecount) := acc in
  str1 ← as_object item;
  metadata ← as_object (json_field "metadata" str1);
  type ← as_string (json_field "type" metadata);
  let corecount := if decide (type = CoreType) then GoInt.wrap 64 (corecount + 1) else corecount in
  if decide (type = NodeType) then
    basename ← as_string (json_field "basename" metadata);
    mret (result ++ [mkAllocation type basename corecount], 0)
  else mret (result, corecount).

Fixpoint parse_items (acc : list allocation * Z) (items : list json)
    : outcome (list allocation * Z) :=
  match items with
  | [] => mret acc
  | item :: items => acc ← parse_item acc item; parse_items acc items
  end.

Definition ParseAllocResult `{JsonLib} (allocated podName : string) : outcome (list allocation) :=
  match json_Unmarshal allocated with
  | Err err => Panic err
  | OK dat =>
      str1 ← as_object (json_field "graph" dat);
      str2 ← as_array (json_field "nodes" str1);
      acc ← parse_items ([], 0) str2;
      mret acc.1
  end.

(** ** The Fluxion library's client *)

Record MatchAllocation := mkMatchAllocation {
  ma_reserved : bool;
  ma_allocated : string;
  ma_jobid : Z;
  ma_fluxerr : option error;
}.

(** [fluxcli.ReapiClient], of which the times and overheads it reports are
    printed only. *)
Class ReapiClient (W : Type) := {
  cli_MatchAllocate : bool → string → W → MatchAllocation * W;
  cli_Cancel : Z → bool → W → option error * W;
  cli_GetErrMsg : W → string * W;
  cli_Info : Z → W → () * W;
  cli_InitContext : string → string → W → W;
  os_ReadFile : string → W → go_result string * W;
}.

Section fluxion.
Context {W : Type} {RC : ReapiClient W} {YL : YamlLib} {JL : JsonLib}.

Definition call {A} (f : W → A * W) : GoM W A := λ w, let '(a, w) := f w in (Ret a, w).

(** The error result carries no job. *)
Definition Cancel (req : pb.CancelRequest) : GoM W (go_result pb.CancelResponse) :=
  err ← call (cli_Cancel (GoInt.wrap 64 (pb.cancel_JobID req)) true);
  match err with
  | Some err => mret (Err err)
  | None =>
      let dr := pb.mkCancelResponse (pb.cancel_JobID req) 0 in
      _ ← call cli_GetErrMsg;
      _ ← call (cli_Info (GoInt.wrap 64 (pb.cancel_JobID req)));
      mret (OK dr)
  end.

(** [nodetasks] to the messages of the response. *)
Fixpoint node_allocs (cpu : Z) (nodetasks : list allocation) : outcome (list pb.NodeAlloc) :=
  match nodetasks with
  | [] => mret []
  | result :: nodetasks =>
      tasks ← Go.quot 32 (GoInt.wrap 32 (alloc_CoreCount result)) cpu;
      rest ← node_allocs cpu nodetasks;
      mret (pb.mkNodeAlloc (alloc_Basename result) tasks :: rest)
  end.

(** An error comes with an empty response. *)
Definition Match (req : pb.MatchRequest) : GoM W (go_result pb.MatchResponse) :=
  r ← Go.lift (CreateJobSpecYaml (pb.Ps req) (pb.Count req));
  match r with
  | Err err => mret (Err err)
  | OK spec =>
      ma ← call (cli_MatchAllocate false spec);
      _ ← call cli_GetErrMsg;
      match ma_fluxerr ma with
      | Some _ => mret (Err "[Fluence] Error in ReapiCliMatchAllocate")
      | None =>
          if decide (ma_allocated ma = "") then mret (Err "Allocation was not possible")
          else
            ps ← Go.lift (Go.deref (pb.Ps req));
            nodetasks ← Go.lift (ParseAllocResult (ma_allocated ma) (pb.Container ps));
            nodetaskslist ← Go.lift (node_allocs (pb.Cpu ps) nodetasks);
            mret (OK (pb.mkMatchResponse (pb.Id ps) nodetaskslist
                        (GoInt.wrap 64 (ma_jobid ma))))
      end
  end.

Context {Q : QuantityLib} {MO : MapOrder} {RH : ResourceHelper} {KC : KubeClient W}.

Definition KubernetesJsonGraphFormat : string := "/home/data/jgf/kubecluster.json".

(** A quotation mark. *)
Definition quote : string := String "034"%char "".

Definition policy_json (policy : string) : string :=
  if decide (policy = "") then "{}"
  else "{" +:+ quote +:+ "matcher_policy" +:+ quote +:+ ": " +:+ quote +:+ policy +:+
       quote +:+ "}".

(** An error leaves the client without a graph, and is only logged. *)
Definition InitFluxion (policy label : string) : GoM W () := λ w,
  match CreateInClusterJGF KubernetesJsonGraphFormat label (new_builder w) with
  | (Panic e, b) => (Panic e, bworld b)
  | (Ret (Some err), b) => (Ret (), bworld b)
  | (Ret None, b) =>
      match os_ReadFile KubernetesJsonGraphFormat (bworld b) with
      | (Err _, w) => (Ret (), w)
      | (OK jgf, w) => (Ret (), cli_InitContext jgf (policy_json policy) w)
      end
  end.
End fluxion.
