(* ===== verification/FluxionFacts.v ===== *)
(** * Facts about the Fluxion server

    What the handlers return for a well-formed allocation, and that the
    server, over a library client that keeps its own promises, gives the
    scheduler the service its invariants rest on. *)

From Stdlib Require Import Ascii.
From stdpp Require Import prelude gmap strings list fin_maps.
From S2P Require Import Prelude GoRuntime Kube Wire Env Core System Jgf ClusterGraph JobSpec Fluxion.

Local Open Scope Z_scope.

(** ** Allocation documents *)

(** A vertex of the document, as its type and base name. *)
Definition vertex (item : json) (v : string * string) : Prop :=
  ∃ fields metadata,
    item = JObject fields ∧ json_field "metadata" fields = JObject metadata ∧
    json_field "type" metadata = JString v.1 ∧ json_field "basename" metadata = JString v.2.

(** A document whose [graph.nodes] are the vertices [vs]. *)
Definition alloc_document (dat : list (string * json)) (vs : list (string * string)) : Prop :=
  ∃ g items, json_field "graph" dat = JObject g ∧ json_field "nodes" g = JArray items ∧
    Forall2 vertex items vs.

(** A document has one list of vertices. *)
Lemma alloc_document_inj dat vs vs' :
  alloc_document dat vs → alloc_document dat vs' → vs = vs'.
Proof.
  intros (g&items&Eg&Ei&H1) (g'&items'&Eg'&Ei'&H2). simplify_eq.
  assert (items' = items) as -> by congruence. clear Eg' Ei Ei'.
  revert vs' H2. induction H1 as [|item [t b] items vs Hv _ IH]; intros vs' H2.
  { by apply Forall2_nil_inv_l in H2. }
  apply Forall2_cons_inv_l in H2 as ([t' b']&vs''&Hv'&H2&->). f_equal; [|by apply IH].
  destruct Hv as (f&m&->&Em&Et&Eb), Hv' as (f'&m'&[= <-]&Em'&Et'&Eb').
  simpl in *. congruence.
Qed.

(** How a list of vertices is read, over the decoded pairs. *)
Fixpoint read_vertices (acc : list allocation * Z) (vs : list (string * string))
    : list allocation * Z :=
  match vs with
  | [] => acc
  | (t, b) :: vs =>
      let n := if decide (t = CoreType) then GoInt.wrap 64 (acc.2 + 1) else acc.2 in
      read_vertices (if decide (t = NodeType) then (acc.1 ++ [mkAllocation t b n], 0)
                     else (acc.1, n)) vs
  end.

Lemma parse_items_read items vs : ∀ acc,
  Forall2 vertex items vs → parse_items acc items = Ret (read_vertices acc vs).
Proof.
  intros acc HF. revert acc.
  induction HF as [|item [t b] items vs (fields&md&->&Hmd&Ht&Hb) HF IH]; intros [r n]; [done|].
  cbn [parse_items parse_item read_vertices fst snd] in *.
  unfold mbind, outcome_bind in *. cbn [as_object]. rewrite Hmd. cbn [as_object].
  rewrite Ht. cbn [as_string]. case_decide as Hnode.
  - rewrite Hb. cbn [as_string]. unfold mret, outcome_ret. apply IH.
  - unfold mret, outcome_ret. apply IH.
Qed.

Lemma ParseAllocResult_read `{JsonLib} allocated podName dat vs :
  json_Unmarshal allocated = OK dat → alloc_document dat vs →
  ParseAllocResult allocated podName = Ret (read_vertices ([], 0) vs).1.
Proof.
  intros E (g&items&Hg&Hn&HF). unfold ParseAllocResult. rewrite E, Hg.
  unfold mbind, outcome_bind. cbn [as_object]. rewrite Hn. cbn [as_array].
  by rewrite (parse_items_read _ _ _ HF).
Qed.

Definition count_cores (vs : list (string * string)) : Z :=
  Z.of_nat (length (filter (λ v, v.1 = CoreType) vs)).

(** Vertices none of which is a compute node. *)
Definition no_node (vs : list (string * string)) : Prop := Forall (λ v, v.1 ≠ NodeType) vs.

Lemma read_no_node vs : ∀ r n,
  no_node vs →
  read_vertices (r, GoInt.wrap 64 n) vs = (r, GoInt.wrap 64 (n + count_cores vs)).
Proof.
  induction vs as [|[t b] vs IH]; intros r n Hno.
  { unfold count_cores. simpl. by rewrite Z.add_0_r. }
  apply Forall_cons in Hno as [Ht Hno]. cbn [read_vertices fst snd] in *.
  rewrite (decide_False (P:=t = NodeType)) by done.
  unfold count_cores. rewrite filter_cons. simpl. case_decide as Hc.
  - rewrite GoInt.wrap_add_l by done. rewrite IH by done.
    unfold count_cores. simpl. do 2 f_equal. lia.
  - by rewrite IH.
Qed.

Lemma read_app acc vs1 vs2 :
  read_vertices acc (vs1 ++ vs2) = read_vertices (read_vertices acc vs1) vs2.
Proof. revert acc. induction vs1 as [|[t b] vs1 IH]; intros acc; [done|]. apply IH. Qed.

(** A document as the compute nodes with the vertices before each. *)
Definition groups_of (groups : list (list (string * string) * string))
    (tail : list (string * string)) : list (string * string) :=
  concat ((λ g, g.1 ++ [(NodeType, g.2)]) <$> groups) ++ tail.

Lemma read_groups groups tail :
  Forall (λ g, no_node g.1) groups → no_node tail → ∀ r,
  (read_vertices (r, 0) (groups_of groups tail)).1
  = r ++ ((λ g, mkAllocation NodeType g.2 (GoInt.wrap 64 (count_cores g.1))) <$> groups).
Proof.
  intros HF Ht. unfold groups_of. induction HF as [|[pre b] groups Hpre HF IH]; intros r; csimpl in *.
  - change 0 with (GoInt.wrap 64 0). rewrite read_no_node by done. by rewrite app_nil_r.
  - rewrite <- !app_assoc, read_app. change 0 with (GoInt.wrap 64 0) at 1.
    rewrite read_no_node by done. simpl. unfold count_cores. simpl. rewrite IH.
    by rewrite <- app_assoc.
Qed.

Section server.
Context {W : Type} {RC : ReapiClient W} {YL : YamlLib} {JL : JsonLib}.

Lemma run_call {A} (f : W → A * W) w a w' : f w = (a, w') → call f w = (Ret a, w').
Proof. intros E. unfold call. by rewrite E. Qed.

Lemma node_allocs_run cpu nodetasks :
  cpu ≠ 0 →
  node_allocs cpu nodetasks
  = Ret ((λ r, pb.mkNodeAlloc (alloc_Basename r)
            (GoInt.wrap 32 (Z.quot (GoInt.wrap 32 (alloc_CoreCount r)) cpu))) <$> nodetasks).
Proof.
  intros Hc. induction nodetasks as [|r l IH]; [done|].
  cbn [node_allocs]. unfold Go.quot. rewrite decide_False by done.
  unfold mbind, outcome_bind, mret, outcome_ret in *. by rewrite IH.
Qed.

(** The handler on a well-formed request and a well-formed allocation. *)
Lemma Match_run req ps spec w ma w1 dat vs :
  pb.Ps req = Some ps → pb.Cpu ps ≠ 0 →
  yaml_Marshal (jobspec_of ps (pb.Count req)) = OK spec →
  cli_MatchAllocate false spec w = (ma, w1) →
  ma_fluxerr ma = None → ma_allocated ma ≠ "" →
  json_Unmarshal (ma_allocated ma) = OK dat → alloc_document dat vs →
  Match req w =
    (Ret (OK (pb.mkMatchResponse (pb.Id ps)
       ((λ r, pb.mkNodeAlloc (alloc_Basename r)
           (GoInt.wrap 32 (Z.quot (GoInt.wrap 32 (alloc_CoreCount r)) (pb.Cpu ps)))) <$>
        (read_vertices ([], 0) vs).1)
       (GoInt.wrap 64 (ma_jobid ma)))), (cli_GetErrMsg w1).2).
Proof.
  intros Hps Hcpu Ey Em Herr Hal Ej Hdoc. unfold Match, CreateJobSpecYaml. rewrite Hps.
  unfold Go.lift. rewrite Go.run_bind. cbn [Go.deref]. unfold mbind at 1, outcome_bind.
  rewrite Ey. unfold mret at 1, outcome_ret.
  rewrite (Go.run_bind_ret _ _ _ _ _ (run_call _ _ _ _ Em)).
  destruct (cli_GetErrMsg w1) as [msg w2] eqn:Eg.
  rewrite (Go.run_bind_ret _ _ _ _ _ (run_call _ _ _ _ Eg)).
  rewrite Herr. rewrite decide_False by done.
  rewrite Go.run_bind. cbn beta iota.
  rewrite Go.run_bind, (ParseAllocResult_read _ _ _ _ Ej Hdoc). cbn beta iota.
  by rewrite Go.run_bind, node_allocs_run by done.
Qed.

Lemma Match_none req ps spec w ma w1 :
  pb.Ps req = Some ps → yaml_Marshal (jobspec_of ps (pb.Count req)) = OK spec →
  cli_MatchAllocate false spec w = (ma, w1) →
  ma_fluxerr ma ≠ None ∨ ma_allocated ma = "" →
  ∃ e, Match req w = (Ret (Err e), (cli_GetErrMsg w1).2).
Proof.
  intros Hps Ey Em Hno. unfold Match, CreateJobSpecYaml. rewrite Hps.
  unfold Go.lift. rewrite Go.run_bind. cbn [Go.deref]. unfold mbind at 1, outcome_bind.
  rewrite Ey. unfold mret at 1, outcome_ret.
  rewrite (Go.run_bind_ret _ _ _ _ _ (run_call _ _ _ _ Em)).
  destruct (cli_GetErrMsg w1) as [msg w2] eqn:Eg.
  rewrite (Go.run_bind_ret _ _ _ _ _ (run_call _ _ _ _ Eg)).
  destruct (ma_fluxerr ma); [by eexists|].
  rewrite decide_True by naive_solver. by eexists.
Qed.

(** C24: For a well-formed request and allocation, Match answers with one entry per
    compute node of the document, in order, whose task count is the number of cores
    listed since the node before it divided by the cpus asked for, and with the
    library's job id. *)
Theorem Match_correct req ps spec w ma w1 dat groups tail :
  pb.Ps req = Some ps → 0 < pb.Cpu ps →
  yaml_Marshal (jobspec_of ps (pb.Count req)) = OK spec →
  cli_MatchAllocate false spec w = (ma, w1) →
  ma_fluxerr ma = None → ma_allocated ma ≠ "" →
  json_Unmarshal (ma_allocated ma) = OK dat →
  alloc_document dat (groups_of groups tail) →
  Forall (λ g, no_node g.1 ∧ count_cores g.1 < 2 ^ 31) groups → no_node tail →
  Match req w =
    (Ret (OK (pb.mkMatchResponse (pb.Id ps)
       ((λ g, pb.mkNodeAlloc g.2 (count_cores g.1 / pb.Cpu ps)) <$> groups)
       (GoInt.wrap 64 (ma_jobid ma)))), (cli_GetErrMsg w1).2).
Proof.
  intros Hps Hcpu Ey Em Herr Hal Ej Hdoc HF Htail.
  rewrite (Match_run req ps spec w ma w1 dat _) by (done || lia).
  rewrite read_groups; [|by eapply Forall_impl; [exact HF|]; intros ? [? ?]|done].
  rewrite app_nil_l, <- list_fmap_compose. do 4 f_equal.
  apply list_fmap_ext. intros i g Hg. simpl. f_equal.
  eapply Forall_lookup_1 in HF as [_ Hb]; [|exact Hg].
  assert (0 ≤ count_cores g.1) by (unfold count_cores; lia).
  rewrite (GoInt.wrap_id 64), (GoInt.wrap_id 32 (count_cores g.1))
    by (unfold GoInt.fits; lia).
  rewrite Z.quot_div_nonneg by lia.
  assert (0 ≤ count_cores g.1 / pb.Cpu ps) by (apply Z.div_pos; lia).
  assert (count_cores g.1 / pb.Cpu ps ≤ count_cores g.1) by (apply Z.div_le_upper_bound; nia).
  apply GoInt.wrap_id; unfold GoInt.fits; lia.
Qed.
End server.

(** ** The server as the scheduler's Fluxion service *)

(** The connection: dialling, delivering a request to the server, and
    delivering the answer to the client. *)
Class Transport (W : Type) := {
  rpc_dial : W → option error * W;
  rpc_deliver : W → option error * W;
  rpc_answer : W → option error * W;
}.

(** Every answer arrives: the connection does not break while the server
    handles a request. *)
Class AnswersArrive {W : Type} (TR : Transport W) : Prop :=
  answer_arrives w : (rpc_answer w).1 = None.

(** A handler called over the connection. A panic ends the server's process;
    the caller sees an error. *)
Definition serve `{Transport W} {A} (m : GoM W (go_result A)) (w : W) : go_result A * W :=
  match rpc_deliver w with
  | (Some e, w) => (Err e, w)
  | (None, w) =>
      let '(o, w) := m w in
      match rpc_answer w with
      | (Some e, w) => (Err e, w)
      | (None, w) => (match o with Ret r => r | Panic e => Err e end, w)
      end
  end.

Definition fluxion_service `{Transport W, ReapiClient W, YamlLib, JsonLib} : FluxService W := {|
  grpc_Dial := rpc_dial;
  flux_Match req := serve (Match req);
  flux_Cancel req := serve (Cancel req);
|}.

(** What the Fluxion library and its surroundings promise: [reapi_live] is
    the set of jobs with resources. A match either allocates a new job and
    describes it by a document, or leaves everything alone. *)
Class ReapiLaws {Q : QuantityLib} {W : Type} (CL : Cluster W) (RC : ReapiClient W)
    (TR : Transport W) (YL : YamlLib) (JL : JsonLib) := {
  reapi_live : W → gset Z;
  reapi_fits w j : j ∈ reapi_live w → GoInt.fits 64 j;
  reapi_match_ok spec w ma w' :
    cli_MatchAllocate false spec w = (ma, w') → ma_fluxerr ma = None → ma_allocated ma ≠ "" →
    (GoInt.wrap 64 (ma_jobid ma) ∉ reapi_live w) ∧
    reapi_live w' = {[GoInt.wrap 64 (ma_jobid ma)]} ∪ reapi_live w ∧
    ∃ dat vs, json_Unmarshal (ma_allocated ma) = OK dat ∧ alloc_document dat vs;
  reapi_match_none spec w ma w' :
    cli_MatchAllocate false spec w = (ma, w') → ma_fluxerr ma ≠ None ∨ ma_allocated ma = "" →
    reapi_live w' = reapi_live w;
  reapi_cancel_ok j b w w' :
    cli_Cancel j b w = (None, w') → reapi_live w' = reapi_live w ∖ {[j]};
  reapi_cancel_err j b w e w' :
    cli_Cancel j b w = (Some e, w') → reapi_live w' = reapi_live w;
  reapi_msg w : reapi_live (cli_GetErrMsg w).2 = reapi_live w;
  reapi_info j w : reapi_live (cli_Info j w).2 = reapi_live w;
  reapi_dial w : reapi_live (rpc_dial w).2 = reapi_live w;
  reapi_deliver w : reapi_live (rpc_deliver w).2 = reapi_live w;
  reapi_answer w : reapi_live (rpc_answer w).2 = reapi_live w;
  (** plain structs always marshal *)
  reapi_yaml js : ∃ s, yaml_Marshal js = OK s;
  reapi_client ns n w : reapi_live (client_Get ns n w).2 = reapi_live w;
  reapi_lister ns sel w : reapi_live (lister_List ns sel w).2 = reapi_live w;
  reapi_nodeinfos w : reapi_live (NodeInfos_List w).2 = reapi_live w;
  reapi_waiting w : reapi_live (WaitingPods w).2 = reapi_live w;
  reapi_allow n p w : reapi_live (waiting_Allow n p w) = reapi_live w;
  reapi_reject n m p w : reapi_live (waiting_Reject n m p w) = reapi_live w;
  reapi_now w : reapi_live (time_Now w).2 = reapi_live w;
}.

Section refinement.
Context {Q : QuantityLib} {W : Type} {CL : Cluster W} {RC : ReapiClient W}.
Context {TR : Transport W} {YL : YamlLib} {JL : JsonLib} {RL : ReapiLaws CL RC TR YL JL}.

(** The outcomes of a match on a request without a zero to divide by. *)
Lemma Match_live req w :
  wf_request req →
  match Match req w with
  | (Ret (OK resp), w') =>
      (pb.JobID resp ∉ reapi_live w) ∧ reapi_live w' = {[pb.JobID resp]} ∪ reapi_live w
  | (Ret (Err _), w') => reapi_live w' = reapi_live w
  | (Panic _, _) => False
  end.
Proof.
  unfold wf_request. destruct (pb.Ps req) as [ps|] eqn:Hps; [|done]. intros Hcpu.
  destruct (reapi_yaml (jobspec_of ps (pb.Count req))) as [spec Ey].
  destruct (cli_MatchAllocate false spec w) as [ma w1] eqn:Em.
  pose proof (reapi_msg w1) as Hg.
  destruct (decide (ma_fluxerr ma = None ∧ ma_allocated ma ≠ "")) as [[Herr Hal]|Hno].
  - destruct (reapi_match_ok _ _ _ _ Em Herr Hal) as (Hnew&Hlive&dat&vs&Ej&Hdoc).
    rewrite (Match_run req ps spec w ma w1 dat vs) by done. simpl. by rewrite Hg, Hlive.
  - assert (ma_fluxerr ma ≠ None ∨ ma_allocated ma = "") as Hnone.
    { destruct (ma_fluxerr ma); [by left|right]. apply dec_stable. naive_solver. }
    destruct (Match_none req ps spec w ma w1 Hps Ey Em Hnone) as [e ->].
    by rewrite Hg, (reapi_match_none _ _ _ _ Em Hnone).
Qed.

Lemma Cancel_live req w :
  GoInt.fits 64 (pb.cancel_JobID req) →
  match Cancel req w with
  | (Ret (OK resp), w') =>
      resp = pb.mkCancelResponse (pb.cancel_JobID req) 0 ∧
      reapi_live w' = reapi_live w ∖ {[pb.cancel_JobID req]}
  | (Ret (Err _), w') => reapi_live w' = reapi_live w
  | (Panic _, _) => False
  end.
Proof.
  intros Hfit. unfold Cancel. rewrite GoInt.wrap_id by done.
  destruct (cli_Cancel (pb.cancel_JobID req) true w) as [[e|] w1] eqn:Ec;
    rewrite (Go.run_bind_ret _ _ _ _ _ (run_call _ _ _ _ Ec)).
  - simpl. by rewrite (reapi_cancel_err _ _ _ _ _ Ec).
  - pose proof (reapi_msg w1) as Hg. destruct (cli_GetErrMsg w1) as [m w2] eqn:Eg.
    rewrite (Go.run_bind_ret _ _ _ _ _ (run_call _ _ _ _ Eg)).
    pose proof (reapi_info (pb.cancel_JobID req) w2) as Hi.
    destruct (cli_Info (pb.cancel_JobID req) w2) as [u w3] eqn:Ei.
    rewrite (Go.run_bind_ret _ _ _ _ _ (run_call _ _ _ _ Ei)).
    split; [done|]. simpl in *. by rewrite Hi, Hg, (reapi_cancel_ok _ _ _ _ Ec).
Qed.

Section service.
Context {AA : AnswersArrive TR}.

Lemma serve_Match_live req w :
  wf_request req →
  match serve (Match req) w with
  | (OK resp, w') =>
      (pb.JobID resp ∉ reapi_live w) ∧ reapi_live w' = {[pb.JobID resp]} ∪ reapi_live w
  | (Err _, w') => reapi_live w' = reapi_live w
  end.
Proof.
  intros Hwf. unfold serve. pose proof (reapi_deliver w) as Hd.
  destruct (rpc_deliver w) as [[e|] w0]; simpl in Hd; [done|]. rewrite <- Hd.
  pose proof (Match_live req w0 Hwf) as H. destruct (Match req w0) as [o w1].
  pose proof (answer_arrives w1) as Ha. pose proof (reapi_answer w1) as Hl.
  destruct (rpc_answer w1) as [? w2]. simpl in Ha, Hl. subst. rewrite Hl. by destruct o as [[|]|].
Qed.

Lemma serve_Cancel_live req w :
  GoInt.fits 64 (pb.cancel_JobID req) →
  match serve (Cancel req) w with
  | (OK resp, w') => pb.Error resp = 0 ∧ reapi_live w' = reapi_live w ∖ {[pb.cancel_JobID req]}
  | (Err _, w') => reapi_live w' = reapi_live w
  end.
Proof.
  intros Hfit. unfold serve. pose proof (reapi_deliver w) as Hd.
  destruct (rpc_deliver w) as [[e|] w0]; simpl in Hd; [done|]. rewrite <- Hd.
  pose proof (Cancel_live req w0 Hfit) as H. destruct (Cancel req w0) as [o w1].
  pose proof (answer_arrives w1) as Ha. pose proof (reapi_answer w1) as Hl.
  destruct (rpc_answer w1) as [? w2]. simpl in Ha, Hl. subst. rewrite Hl.
  destruct o as [[resp|e]|e]; [|done..]. by destruct H as [-> ?].
Qed.

(** The library's jobs are the service's. *)
Definition fluxion_laws : FluxServiceLaws CL fluxion_service.
Proof.
  refine (Build_FluxServiceLaws Q W CL fluxion_service reapi_live reapi_fits
    reapi_dial _ _ _ _ _ reapi_client reapi_lister reapi_nodeinfos reapi_waiting
    reapi_allow reapi_reject reapi_now); cbn [flux_Match flux_Cancel fluxion_service].
  - intros req w resp w' Hwf E. pose proof (serve_Match_live req w Hwf) as H. by rewrite E in H.
  - intros req w e w' Hwf E. pose proof (serve_Match_live req w Hwf) as H. by rewrite E in H.
  - intros req w resp w' Hfit E _. pose proof (serve_Cancel_live req w Hfit) as H.
    rewrite E in H. apply H.
  - intros req w resp w' Hfit E He. pose proof (serve_Cancel_live req w Hfit) as H.
    rewrite E in H. by destruct H.
  - intros req w e w' Hfit E. pose proof (serve_Cancel_live req w Hfit) as H. by rewrite E in H.
Defined.

(** C22: As long as no answer is lost on its way back, the server's Match and Cancel
    over the Fluxion library implement the service the scheduler's invariants assume,
    with the library's jobs as the live jobs. *)
Theorem fluxion_refines_service :
  ∃ L : FluxServiceLaws CL fluxion_service, ∀ w, live (FluxServiceLaws:=L) w = reapi_live w.
Proof. by exists fluxion_laws. Qed.
End service.

(** When the answer to a match is lost the caller sees an error, although the
    library has allocated a new job, which nobody knows of. *)
Theorem lost_answer_leaks_job req w w0 resp w1 e w2 :
  wf_request req → rpc_deliver w = (None, w0) → Match req w0 = (Ret (OK resp), w1) →
  rpc_answer w1 = (Some e, w2) →
  serve (Match req) w = (Err e, w2) ∧ (pb.JobID resp ∉ reapi_live w) ∧
  reapi_live w2 = {[pb.JobID resp]} ∪ reapi_live w.
Proof.
  intros Hwf Hd Em Ha. unfold serve. rewrite Hd, Em, Ha. split; [done|].
  pose proof (reapi_deliver w) as Hl. rewrite Hd in Hl. simpl in Hl. rewrite <- Hl.
  pose proof (Match_live req w0 Hwf) as H. rewrite Em in H. destruct H as [Hn H].
  pose proof (reapi_answer w1) as Hl'. rewrite Ha in Hl'. simpl in Hl'. by rewrite Hl'.
Qed.
End refinement.
