(* ===== verification/Apart.v ===== *)
(** * Goroutines that keep apart

    Threads without a lock that share a state, each with a rely and a guarantee
    of its own: the guarantee of one thread is something every other thread can
    rely on. The postcondition of a thread may speak of the states the pool
    went through, so that it can say when something was read. *)

From stdpp Require Import prelude list relations.
From S2P Require Import Prelude GoRuntime Threads Pool.

(** ** Runs with a history *)

Section apart.
Context {W R : Type}.
Implicit Types (p : prog W R) (ps : pool W R) (w : W) (hist : list W).

(** A thread of the pool moves, or the state changes from elsewhere. *)
Inductive wstep (env : relation W) ps : pool W R → Prop :=
| wstep_run ps' : run ps ps' → wstep env ps ps'
| wstep_env w : env (shared ps) w → wstep env ps (mkPool (threads ps) (owner ps) w).

(** [passes env ps hist ps']: a run from [ps] to [ps'] through the states
    [hist], in order, the first and the last included. *)
Inductive passes (env : relation W) : pool W R → list W → pool W R → Prop :=
| passes_end ps : passes env ps [shared ps] ps
| passes_step ps ps1 hist ps2 :
    wstep env ps ps1 → passes env ps1 hist ps2 → passes env ps (shared ps :: hist) ps2.

Lemma passes_first env ps hist ps' : passes env ps hist ps' → shared ps ∈ hist.
Proof. destruct 1; by left. Qed.

Lemma passes_last env ps hist ps' : passes env ps hist ps' → shared ps' ∈ hist.
Proof. induction 1; [by left|by right]. Qed.

(** A given schedule is such a run, through states that can be computed. *)
Fixpoint states (l : list nat) ps : list W :=
  shared ps ::
  match l with
  | [] => []
  | i :: l => match step_thread i ps with Some ps' => states l ps' | None => [] end
  end.

Lemma run_schedule_passes env l ps ps' :
  run_schedule l ps = Some ps' → passes env ps (states l ps) ps'.
Proof.
  revert ps. induction l as [|i l IH]; intros ps; [intros [= ->]; constructor|].
  intros (ps1&H1&H2)%bind_Some. simpl. rewrite H1.
  eapply passes_step; [|by apply IH]. by constructor; eapply step_thread_run.
Qed.

Lemma passes_trans env ps1 h1 ps2 h2 ps3 :
  passes env ps1 h1 ps2 → passes env ps2 h2 ps3 → ∃ h, passes env ps1 h ps3.
Proof.
  induction 1 as [|ps ps' hist ps2 Hs _ IH]; intros H; [by eexists|].
  destruct (IH H) as [h ?]. eexists. by econstructor.
Qed.

(** ** What one thread does whatever the others do *)

(** [seen] are the states the pool goes through. *)
Fixpoint conforms {A} (seen : W → Prop) (rely guar : relation W) (Q : outcome A → W → Prop)
    (p : prog W A) w : Prop :=
  ∀ v, seen v → rely w v →
  match p with
  | Done o => Q o v
  | Act _ f k => guar v (f v).2 ∧ (seen (f v).2 → conforms seen rely guar Q (k (f v).1) (f v).2)
  | _ => False
  end.

Section rules.
Context (seen : W → Prop) (rely guar : relation W) `{!PreOrder rely}.

Lemma conforms_stable {A} (Q : outcome A → W → Prop) (p : prog W A) w v :
  rely w v → conforms seen rely guar Q p w → conforms seen rely guar Q p v.
Proof. intros Hr. destruct p; intros H u Hu Hvu; (refine (H u Hu _); by etrans). Qed.

Lemma conforms_close {A} (Q : outcome A → W → Prop) (p : prog W A) w :
  (∀ v, seen v → rely w v → conforms seen rely guar Q p v) → conforms seen rely guar Q p w.
Proof. destruct p; intros H v Hv Hr; exact (H v Hv Hr v Hv (reflexivity v)). Qed.

Lemma conforms_ret {A} (Q : outcome A → W → Prop) a w :
  (∀ v, seen v → rely w v → Q (Ret a) v) → conforms seen rely guar Q (mret a) w.
Proof. intros H v Hv Hr. by apply H. Qed.

Lemma conforms_act {A} (Q : outcome A → W → Prop) acc (f : W → A * W) w :
  (∀ v, seen v → rely w v → guar v (f v).2 ∧
     (seen (f v).2 → ∀ u, seen u → rely (f v).2 u → Q (Ret (f v).1) u)) →
  conforms seen rely guar Q (act acc f) w.
Proof. intros H v Hv Hr. destruct (H v Hv Hr) as [Hg HQ]. split; [done|]. exact HQ. Qed.

Lemma conforms_mono {A} (Q Q' : outcome A → W → Prop) (p : prog W A) w :
  (∀ o v, Q o v → Q' o v) → conforms seen rely guar Q p w → conforms seen rely guar Q' p w.
Proof.
  intros HQ. revert w. induction p as [o|C acc m k IH|k IH|k IH]; intros w Hp v Hv Hr.
  - by apply HQ, Hp.
  - destruct (Hp v Hv Hr) as [Hg Hk]. split; [done|]. intros Hs. by apply IH, Hk.
  - exact (Hp v Hv Hr).
  - exact (Hp v Hv Hr).
Qed.

Lemma conforms_bind {A B} (Q : outcome B → W → Prop) (p : prog W A) (f : A → prog W B) w :
  conforms seen rely guar (λ o v, match o with
                                 | Ret a => conforms seen rely guar Q (f a) v
                                 | Panic e => Q (Panic e) v
                                 end) p w →
  conforms seen rely guar Q (p ≫= f) w.
Proof.
  unfold mbind, prog_mbind. revert w.
  induction p as [[a|e]|C acc m k IH|k IH|k IH]; intros w Hp; simpl prog_bind.
  - by apply conforms_close.
  - exact Hp.
  - intros v Hv Hr. destruct (Hp v Hv Hr) as [Hg Hk]. split; [done|]. intros Hs. by apply IH, Hk.
  - intros v Hv Hr. exact (Hp v Hv Hr).
  - intros v Hv Hr. exact (Hp v Hv Hr).
Qed.
End rules.

(** ** Together *)

Context (env : relation W) (rely guar : nat → relation W) `{Hrely : ∀ i, PreOrder (rely i)}.
Context (apart : ∀ i j w v, i ≠ j → guar i w v → rely j w v).
Context (env_apart : ∀ j w v, env w v → rely j w v).
Context (Q : nat → outcome R → W → Prop).

Definition all_conform (seen : W → Prop) ps : Prop :=
  ∀ i t, threads ps !! i = Some t → conforms seen (rely i) (guar i) (Q i) (code t) (shared ps).

Lemma wstep_conform (seen : W → Prop) ps ps' :
  seen (shared ps) → seen (shared ps') → wstep env ps ps' →
  all_conform seen ps → all_conform seen ps'.
Proof.
  intros Hw Hw' Hs Hall. destruct Hs as [ps' [i t p' o' w' Ht Hs]|w' He]; intros j u Hu; simpl in *.
  2:{ by apply (conforms_stable _ _ _ _ _ _ _ (env_apart j _ _ He)), Hall. }
  pose proof (Hall i t Ht) as Hi.
  destruct (code t) as [o|B acc f k|k|k] eqn:Ec; simpl in Hs; [done|..];
    specialize (Hi _ Hw (reflexivity _)); [|done..].
  destruct Hi as [Hg Hk]. destruct (f (shared ps)) as [b w1] eqn:Ef. injection Hs as <- <- <-.
  destruct (decide (j = i)) as [->|Hne].
  - rewrite list_lookup_insert_eq in Hu by (by eapply lookup_lt_Some). injection Hu as <-.
    by apply Hk.
  - rewrite list_lookup_insert_ne in Hu by done.
    refine (conforms_stable _ _ _ _ _ _ _ _ (Hall j u Hu)). by apply (apart i j).
Qed.

(** On a run, threads that conform keep their promises and fulfil their
    postconditions. *)
Theorem apart_sound ps hist ps' :
  passes env ps hist ps' → all_conform (.∈ hist) ps → all_conform (.∈ hist) ps'.
Proof.
  intros Hp. set (seen := (.∈ hist)). assert (∀ w, w ∈ hist → seen w) as Hsub by done.
  clearbody seen. induction Hp as [ps|ps ps1 hist ps2 Hs Hp IH]; intros Hall; [done|].
  apply IH; [intros w Hw; apply Hsub; by right|].
  eapply wstep_conform; [apply Hsub; by left|apply Hsub; right; by eapply passes_first|done..].
Qed.

(** A thread that has ended. *)
Lemma apart_ended ps hist ps' i t o :
  passes env ps hist ps' → all_conform (.∈ hist) ps →
  threads ps' !! i = Some t → code t = Done o → Q i o (shared ps').
Proof.
  intros Hp Hall Ht Ec. pose proof (apart_sound _ _ _ Hp Hall i t Ht) as H. rewrite Ec in H.
  apply H; [by eapply passes_last|done].
Qed.

(** What every step keeps. *)
Lemma passes_keep (keep : relation W) `{!PreOrder keep} (seen : W → Prop) ps hist ps' :
  passes env ps hist ps' → (∀ w, w ∈ hist → seen w) →
  (∀ i w v, guar i w v → keep w v) → (∀ w v, env w v → keep w v) →
  all_conform seen ps → keep (shared ps) (shared ps').
Proof.
  intros Hp Hsub Hg He. induction Hp as [ps|ps ps1 hist ps2 Hs Hp IH]; intros Hall; [done|].
  assert (seen (shared ps)) as Hw by (apply Hsub; by left).
  transitivity (shared ps1).
  - destruct Hs as [ps1 [i t p' o' w' Ht Hs]|w' Hw']; simpl; [|by apply He].
    pose proof (Hall i t Ht) as Hi.
    destruct (code t) as [o|B acc f k|k|k]; simpl in Hs; [done|..];
      specialize (Hi _ Hw (reflexivity _)); [|done..].
    destruct Hi as [Hgi _]. destruct (f (shared ps)). injection Hs as _ _ <-. by eapply Hg.
  - apply IH; [intros w Hin; apply Hsub; by right|].
    eapply wstep_conform; [done|apply Hsub; right; by eapply passes_first|done..].
Qed.
End apart.
