(* ===== verification/Serving.v ===== *)
(** * The Fluxion server under concurrent requests

    The gRPC server runs every request in a goroutine of its own, and the
    handlers of package fluxion share the one client of the library without a
    lock. The handlers action by action: alone they are the handlers of
    [Fluxion], and together they race for the client. What the library does
    when calls of one client overlap is not documented, so nothing is claimed
    about the answers then. *)

From stdpp Require Import prelude gmap strings list fin_maps relations.
From S2P Require Import Prelude GoRuntime Kube Wire Env Threads Pool Jgf ClusterGraph JobSpec Fluxion.

Local Open Scope Z_scope.

(** What a client of the server asks, and what it is told. *)
Inductive request :=
| R_Match (req : pb.MatchRequest)
| R_Cancel (req : pb.CancelRequest).

Inductive answer :=
| A_Match (r : go_result pb.MatchResponse)
| A_Cancel (r : go_result pb.CancelResponse).

Section serving.
Context {W : Type} {RC : ReapiClient W} {YL : YamlLib} {JL : JsonLib}.

(** ** The handlers action by action *)

(** A call of the client. *)
Definition pcall {A} (f : W → A * W) : prog W A := act Client f.

(** The log line at the start of a handler. *)
Definition klog : prog W () := writes Private id.

Definition Cancel_prog (req : pb.CancelRequest) : prog W (go_result pb.CancelResponse) :=
  _ ← klog;
  err ← pcall (cli_Cancel (GoInt.wrap 64 (pb.cancel_JobID req)) true);
  match err with
  | Some err => mret (Err err)
  | None =>
      let dr := pb.mkCancelResponse (pb.cancel_JobID req) 0 in
      _ ← pcall cli_GetErrMsg;
      _ ← pcall (cli_Info (GoInt.wrap 64 (pb.cancel_JobID req)));
      mret (OK dr)
  end.

Definition Match_prog (req : pb.MatchRequest) : prog W (go_result pb.MatchResponse) :=
  _ ← klog;
  r ← lift (CreateJobSpecYaml (pb.Ps req) (pb.Count req));
  match r with
  | Err err => mret (Err err)
  | OK spec =>
      ma ← pcall (cli_MatchAllocate false spec);
      _ ← pcall cli_GetErrMsg;
      match ma_fluxerr ma with
      | Some _ => mret (Err "[Fluence] Error in ReapiCliMatchAllocate")
      | None =>
          if decide (ma_allocated ma = "") then mret (Err "Allocation was not possible")
          else
            ps ← lift (Go.deref (pb.Ps req));
            nodetasks ← lift (ParseAllocResult (ma_allocated ma) (pb.Container ps));
            nodetaskslist ← lift (node_allocs (pb.Cpu ps) nodetasks);
            mret (OK (pb.mkMatchResponse (pb.Id ps) nodetaskslist
                        (GoInt.wrap 64 (ma_jobid ma))))
      end
  end.

(** The goroutine of a request, and the handler it runs. *)
Definition handler_prog (r : request) : prog W answer :=
  match r with
  | R_Match req => r ← Match_prog req; mret (A_Match r)
  | R_Cancel req => r ← Cancel_prog req; mret (A_Cancel r)
  end.

Definition handle (r : request) : GoM W answer :=
  match r with
  | R_Match req => r ← Match req; mret (A_Match r)
  | R_Cancel req => r ← Cancel req; mret (A_Cancel r)
  end.

(** ** Alone they are the handlers *)

Lemma runs_klog {A} (p : prog W A) (m : GoM W A) held :
  runs_as held p m → runs_as held (_ ← klog; p) m.
Proof. intros H s. apply (H s). Qed.

Lemma runs_pcall {A} held (f : W → A * W) : runs_as held (pcall f) (call f).
Proof. by apply runs_act. Qed.

Local Hint Resolve runs_ret runs_lift runs_pcall runs_klog : go.

Lemma Match_runs held req : runs_as held (Match_prog req) (Match req).
Proof.
  unfold Match_prog, Match. apply runs_klog, runs_bind; [auto with go|].
  intros [spec|e]; [|auto with go].
  apply runs_bind; [auto with go|]. intros ma. apply runs_bind; [auto with go|]. intros _.
  destruct (ma_fluxerr ma); [auto with go|]. case_decide; [auto with go|].
  repeat (apply runs_bind; [auto with go|intros ?]). auto with go.
Qed.

Lemma Cancel_runs held req : runs_as held (Cancel_prog req) (Cancel req).
Proof.
  unfold Cancel_prog, Cancel. apply runs_klog, runs_bind; [auto with go|].
  intros [e|]; [auto with go|].
  repeat (apply runs_bind; [auto with go|intros ?]). auto with go.
Qed.

(** A goroutine that runs a handler undisturbed does what the handler does. *)
Theorem handlers_run_alone held r : runs_as held (handler_prog r) (handle r).
Proof.
  destruct r as [req|req].
  - apply (runs_bind held (Match_prog req) (Match req)); [apply Match_runs|auto with go].
  - apply (runs_bind held (Cancel_prog req) (Cancel req)); [apply Cancel_runs|auto with go].
Qed.

(** ** Together they race *)

(** The server when requests have come in and none has been looked at. *)
Definition serving (reqs : list request) (w : W) : pool W answer :=
  start (handler_prog <$> reqs) w.

(** A request with which the handler gets as far as the library: a match that
    a job specification can be made of, or any cancellation. *)
Definition asks_library (r : request) : Prop :=
  match r with
  | R_Match req => ∃ spec, CreateJobSpecYaml (pb.Ps req) (pb.Count req) = Ret (OK spec)
  | R_Cancel _ => True
  end.

Lemma asks_touches r :
  asks_library r → ∃ k, handler_prog r = Act Private (λ w, ((), id w)) k ∧
    touches (k ()) = Some Client.
Proof.
  destruct r as [req|req]; simpl; [intros [spec E]|intros _];
    (eexists; split; [reflexivity|]); simpl; [by rewrite E|done].
Qed.

Lemma serving_step ts w i r :
  ts !! i = Some (mkThread false (handler_prog r)) → asks_library r →
  ∃ p, touches p = Some Client ∧
    step_thread i (mkPool ts None w) = Some (mkPool (<[i := mkThread false p]> ts) None w).
Proof.
  intros Ht Ha. destruct (asks_touches r Ha) as (k&E&Hk). exists (k ()). split; [done|].
  unfold step_thread. simpl. rewrite Ht. simpl. by rewrite E.
Qed.

(** C23: Nothing keeps the handlers of two requests apart: whichever two requests have
    come in that get as far as the Fluxion library, their goroutines can both be about
    to call its one client, with no lock held. *)
Theorem handlers_race reqs w i j r1 r2 :
  i ≠ j → reqs !! i = Some r1 → reqs !! j = Some r2 → asks_library r1 → asks_library r2 →
  ∃ ps, run_schedule [i; j] (serving reqs w) = Some ps ∧ race Client ps ∧ owner ps = None.
Proof.
  intros Hne Hi Hj H1 H2.
  assert (∀ k r, reqs !! k = Some r →
    (mkThread false <$> (handler_prog <$> reqs)) !! k = Some (mkThread false (handler_prog r))) as Hat.
  { intros k r E. by rewrite !list_lookup_fmap, E. }
  destruct (serving_step _ w i r1 (Hat i r1 Hi) H1) as (p&Hp&E1).
  destruct (serving_step (<[i := mkThread false p]> (mkThread false <$> (handler_prog <$> reqs)))
              w j r2) as (q&Hq&E2); [by rewrite list_lookup_insert_ne, (Hat j r2)|done|].
  eexists. split; [|split].
  - cbn [run_schedule]. unfold serving, start. rewrite E1. simpl. rewrite E2. done.
  - exists i, j, (mkThread false p), (mkThread false q). split; [done|].
    pose proof (lookup_lt_Some _ _ _ (Hat i r1 Hi)). pose proof (lookup_lt_Some _ _ _ (Hat j r2 Hj)).
    cbn [threads]. split; [|split; [|done]].
    + rewrite list_lookup_insert_ne by done. by apply list_lookup_insert_eq.
    + apply list_lookup_insert_eq. by rewrite length_insert.
  - done.
Qed.
End serving.
