(* ===== verification/Startup.v ===== *)
(** * The server program: cmd/main.go and the external service

    The main function of the server with the port it listens on, and the life
    of the cluster's graph from start-up on: written, loaded into the Fluxion library, and served to the
    clients of the external service. *)

From Stdlib Require Import Ascii.
From stdpp Require Import prelude gmap strings list fin_maps.
From S2P Require Import Prelude GoRuntime Kube Wire Env Jgf ClusterGraph JobSpec Fluxion.

(** ** The port *)

Definition defaultPort : string := ":4242".

(** The lines of [main] after the flags are parsed. *)
Definition listen_port (port : string) : string :=
  if negb (Strings.HasPrefix ":" port) then ":" +:+ port else port.

(** ** The external service (service/service.go) *)

Record GroupResponse := mkGroupResponse { group_Name : string; group_Size : Z }.
Record ResourceResponse := mkResourceResponse { resource_Graph : string }.

Section service.
Context {W : Type} {RC : ReapiClient W}.

Definition GetGroup (group : string) : GoM W (GroupResponse * option error) :=
  mret (mkGroupResponse "" 0, None).

Definition ListGroups (group : string) : GoM W (GroupResponse * option error) :=
  mret (mkGroupResponse "" 0, None).

Definition GetResources : GoM W (ResourceResponse * option error) :=
  r ← call (os_ReadFile KubernetesJsonGraphFormat);
  match r with
  | Err err => mret (mkResourceResponse "", Some err)
  | OK jgf => mret (mkResourceResponse jgf, None)
  end.
End service.

(** ** What the file system and the library keep *)

(** [file w path] is the contents of a file, [loaded w] the graph and the
    options the library's context was last made from. *)
Class FileLaws {Q : QuantityLib} {W : Type} (KC : KubeClient W) (RC : ReapiClient W) := {
  file : W → string → option string;
  loaded : W → option (string * string);
  write_file p c w0 w1 w2 :
    os_Create p w0 = (None, w1) → f_Write p c w1 = (None, w2) → file w2 p = Some c;
  read_file p c w :
    file w p = Some c → ∃ w', os_ReadFile p w = (OK c, w') ∧ file w' = file w;
  init_context g o w :
    loaded (cli_InitContext g o w) = Some (g, o) ∧ file (cli_InitContext g o w) = file w;
}.

(** ** Facts *)

Lemma prefix_colon (p : string) :
  String.prefix p ":" = true ↔ p = "" ∨ p = ":".
Proof.
  destruct p as [|c p]; simpl; [naive_solver|].
  destruct (ascii_dec c ":") as [->|Hc].
  - destruct p; split; [naive_solver|done|done|intros [H|H]; discriminate H].
  - split; [done|]. intros [H|H]; [discriminate H|]. congruence.
Qed.

Lemma listen_port_id (port : string) : port = "" ∨ port = ":" → listen_port port = port.
Proof. intros Hp. unfold listen_port, Strings.HasPrefix. by rewrite (proj2 (prefix_colon port) Hp). Qed.

(** Every other port gets a colon, whether it has one already or not. *)
Lemma listen_port_colon (port : string) :
  port ≠ "" → port ≠ ":" → listen_port port = ":" +:+ port.
Proof.
  intros H1 H2. unfold listen_port, Strings.HasPrefix.
  destruct (String.prefix port ":") eqn:E; [|done].
  apply prefix_colon in E as [?|?]; done.
Qed.

(** ** main *)

Record Flags := mkFlags {
  flag_policy : string;
  flag_label : string;
  flag_port : string;
  flag_external_service : bool;
}.

Definition enableExternalService : bool := false.

(** The flags of a program started without arguments. *)
Definition default_flags : Flags := mkFlags "" "" defaultPort enableExternalService.

(** The services registered with the gRPC server. *)
Inductive Service := FluxcliService | ExternalPluginService.

(** Package net and the gRPC server. [net_Listen network addr] returns the
    address the listener is bound to; [server_Serve] takes the registered
    services and that address and returns when the server stops. *)
Class NetLib (W : Type) := {
  net_Listen : string → string → W → go_result string * W;
  server_Serve : list Service → string → W → option error * W;
}.

(** net.SplitHostPort: a host with a colon in it needs brackets. *)
Class NetLaws {W : Type} (N : NetLib W) : Prop := {
  too_many_colons port w : ∃ e w', net_Listen "tcp" ("::" +:+ port) w = (Err e, w');
}.

Section main.
Context {Q : QuantityLib} {MO : MapOrder} {RH : ResourceHelper}.
Context {W : Type} {KC : KubeClient W} {RC : ReapiClient W} {N : NetLib W}.

(** A listener that could not be made is a nil interface; the error is only
    printed. *)
Definition main (flags : Flags) : GoM W () :=
  let port := listen_port (flag_port flags) in
  _ ← InitFluxion (flag_policy flags) (flag_label flags);
  r ← call (net_Listen "tcp" port);
  let lis := match r with OK lis => Some lis | Err _ => None end in
  let server := FluxcliService ::
    (if flag_external_service flags then [ExternalPluginService] else []) in
  addr ← Go.lift (Go.deref lis);
  _ ← call (server_Serve server addr);
  mret ().

(** C29: Once the graph is loaded, the server program listens on its port with a colon
    put before it and serves Fluxion, and the external service exactly if asked to; when
    it cannot listen it goes on and crashes on the missing listener. Started with the
    default port it always crashes, because that port gets a second colon. *)
Theorem main_outcomes `{!NetLaws N} flags w w1 :
  InitFluxion (flag_policy flags) (flag_label flags) w = (Ret (), w1) →
  (∀ lis w2, net_Listen "tcp" (listen_port (flag_port flags)) w1 = (OK lis, w2) →
     main flags w =
       (Ret (), (server_Serve (FluxcliService ::
          (if flag_external_service flags then [ExternalPluginService] else [])) lis w2).2)) ∧
  (∀ e w2, net_Listen "tcp" (listen_port (flag_port flags)) w1 = (Err e, w2) →
     ∃ msg, main flags w = (Panic msg, w2)) ∧
  (flag_port flags = defaultPort → ∃ msg w2, main flags w = (Panic msg, w2)).
Proof.
  intros Ei.
  assert (∀ e w2, net_Listen "tcp" (listen_port (flag_port flags)) w1 = (Err e, w2) →
     ∃ msg, main flags w = (Panic msg, w2)) as Hfail.
  { intros e w2 El. unfold main. rewrite (Go.run_bind_ret _ _ _ _ _ Ei), Go.run_bind.
    unfold call at 1. rewrite El. by eexists. }
  split; [|split; [done|]].
  - intros lis w2 El. unfold main. rewrite (Go.run_bind_ret _ _ _ _ _ Ei), Go.run_bind.
    unfold call at 1. rewrite El. rewrite Go.run_bind. cbn [Go.lift Go.deref].
    rewrite Go.run_bind. unfold call. by destruct (server_Serve _ lis w2).
  - intros Hp. destruct (too_many_colons "4242" w1) as (e&w2&El).
    rewrite Hp, listen_port_colon in Hfail by done.
    destruct (Hfail e w2 El) as [msg E]. by exists msg, w2.
Qed.
End main.

Section startup.
Context {Q : QuantityLib} {MO : MapOrder} {RH : ResourceHelper}.
Context {W : Type} {KC : KubeClient W} {RC : ReapiClient W} {FL : FileLaws KC RC}.

(** A graph that was written is on the disk, in the encoder's text. *)
Lemma WriteJGF_file filename (b b' : Builder (W:=W)) :
  WriteJGF filename b = (Ret None, b') →
  ∃ doc, json_MarshalIndent (fluxgraph b') = OK doc ∧ file (bworld b') filename = Some doc.
Proof.
  unfold WriteJGF. rewrite Go.run_bind. cbn [Go.gets].
  destruct (json_MarshalIndent (fluxgraph b)) as [doc|] eqn:Ej; [|done].
  unfold bext. rewrite Go.run_bind. destruct (os_Create _ _) as [[e|] w1] eqn:Ec; [done|].
  rewrite Go.run_bind. destruct (f_Write _ _ _) as [[e|] w2] eqn:Ew; simpl; [done|].
  intros [= <-]. exists doc. split; [exact Ej|]. by eapply write_file.
Qed.

(** A builder that ended well ended by writing its graph. *)
Lemma CreateInClusterJGF_writes filename label (b b' : Builder (W:=W)) :
  CreateInClusterJGF filename label b = (Ret None, b') →
  ∃ b0, WriteJGF filename b0 = (Ret None, b').
Proof.
  unfold CreateInClusterJGF.
  intros (e1&b1&_&E)%Go.run_bind_inv. destruct e1; [done|].
  apply Go.run_bind_inv in E as (e2&b2&_&E). destruct e2; [done|].
  apply Go.run_bind_inv in E as (r&b3&_&E). destruct r as [nodes|]; [|done].
  apply Go.run_bind_inv in E as ([c e3]&b4&_&E). destruct e3; [done|].
  apply Go.run_bind_inv in E as (e4&b5&_&E). destruct e4; [done|]. by exists b5.
Qed.

(** C28: At start-up the text of the cluster's graph is written, read back and loaded
    into the library with the options of the policy, and is what the external service
    then serves; when the graph cannot be made the error is dropped and nothing is
    loaded. *)
Theorem InitFluxion_loads_graph policy label w b err :
  CreateInClusterJGF KubernetesJsonGraphFormat label (new_builder w) = (Ret err, b) →
  match err with
  | None =>
      ∃ doc w', json_MarshalIndent (fluxgraph b) = OK doc ∧
        InitFluxion policy label w = (Ret (), w') ∧
        loaded w' = Some (doc, policy_json policy) ∧
        ∃ w2, GetResources w' = (Ret (mkResourceResponse doc, None), w2)
  | Some _ =>
      (** the error is dropped: the server starts without a graph *)
      InitFluxion policy label w = (Ret (), bworld b)
  end.
Proof.
  intros E. unfold InitFluxion. rewrite E. destruct err as [err|]; [done|].
  destruct (CreateInClusterJGF_writes _ _ _ _ E) as (b0&Ew).
  destruct (WriteJGF_file _ _ _ Ew) as (doc&Ej&Ef).
  destruct (read_file _ _ _ Ef) as (w1&Er&Hf1). rewrite Er.
  destruct (init_context doc (policy_json policy) w1) as [Hl Hf2].
  exists doc. eexists. split_and!; [done|done|done|].
  destruct (read_file KubernetesJsonGraphFormat doc
              (cli_InitContext doc (policy_json policy) w1)) as (w2&Er2&_);
    [by rewrite Hf2, Hf1|].
  exists w2. unfold GetResources. rewrite Go.run_bind. unfold call. by rewrite Er2.
Qed.
End startup.
