(* ===== verification/Placement.v ===== *)
(** * Where Fluxion can place a pod

    From the nodes of the cluster to the names the server answers with: the
    compute vertices of the graph carry the names of the eligible nodes, and a
    match only names those. *)

From stdpp Require Import prelude gmap strings list fin_maps.
From S2P Require Import Prelude GoRuntime PathFacts Kube Wire Env PodSpec Jgf JgfFacts ClusterGraph ClusterFacts ClusterTree JobSpec Fluxion FluxionFacts.

Local Open Scope Z_scope.

Section names.
Context {Q : QuantityLib} {MO : MapOrder} {RH : ResourceHelper}.
Context {W : Type} {KC : KubeClient W}.

Local Abbreviation entry := (Z * KNode * list Pod)%type.
Implicit Types (e : entry) (l : list entry) (node : KNode).

(** The base names of the compute vertices of a list of views. *)
Definition node_bases (vs : list View) : list string :=
  v_base <$> filter (λ v, v_type v = NodeType) vs.

Lemma node_bases_app vs1 vs2 : node_bases (vs1 ++ vs2) = node_bases vs1 ++ node_bases vs2.
Proof. unfold node_bases. by rewrite filter_app, fmap_app. Qed.

Lemma node_bases_children root sub name type sz m : ∀ i,
  type ≠ NodeType → node_bases (child_views root sub name type sz i m) = [].
Proof.
  unfold node_bases, child_views. induction m as [|m IH]; intros i Ht; csimpl; [done|].
  rewrite filter_cons. simpl. rewrite decide_False by done. by apply IH.
Qed.

Lemma node_bases_layout l : ∀ s,
  node_bases (layout_views root_name s l) = (λ e, kn_Name e.1.2) <$> l.
Proof.
  induction l as [|e l IH]; intros s; [done|]. cbn [layout_views].
  rewrite node_bases_app, IH, block_views_cons.
  change (subnet_view s e :: node_view s e :: ?x) with ([subnet_view s e; node_view s e] ++ x).
  unfold leaves. rewrite !node_bases_app, !node_bases_children by done. done.
Qed.

(** The surveyed nodes are the ones that are not skipped, in order. *)
Lemma survey_nodes skipLabel nodes : ∀ j w l w',
  survey skipLabel j nodes w = (OK l, w') →
  (λ e, e.1.2) <$> l = filter (λ node, ¬ skipped skipLabel node) nodes.
Proof.
  induction nodes as [|node nodes IH]; intros j w l w' E; simpl in E.
  { by injection E as <- _. }
  rewrite filter_cons. case_decide as Hs.
  - rewrite decide_False by (intros H; exact (H Hs)). by eapply IH.
  - rewrite decide_True by exact Hs.
    destruct (fields_ParseSelector _) as [sel|]; [|done].
    destruct (Pods_List sel w) as [[pods|] w1]; [|done].
    destruct (survey skipLabel (j + 1) nodes w1) as [[l'|] w2] eqn:E'; [|done].
    injection E as <- _. csimpl. f_equal. by eapply IH.
Qed.

(** The base names of a graph's compute vertices. *)
Definition compute_names (g : FluxJGF) : list string :=
  (λ n, meta_Basename (node_Metadata n)) <$>
    filter (λ n, meta_Type (node_Metadata n) = NodeType) (Nodes (Graph g)).

Lemma compute_names_views g : compute_names g = node_bases (view <$> Nodes (Graph g)).
Proof.
  unfold compute_names, node_bases. induction (Nodes (Graph g)) as [|n ns IH]; csimpl; [done|].
  rewrite !filter_cons. simpl. case_decide; csimpl; [by f_equal|done].
Qed.

(** The compute vertices of the written graph are named after the eligible
    nodes, in order. *)
Lemma cluster_compute_names filename skipLabel w w1 w2 w3 w4 nodes l b :
  rest_InClusterConfig w = (None, w1) →
  kubernetes_NewForConfig w1 = (None, w2) →
  Nodes_List w2 = (OK nodes, w3) →
  survey skipLabel 0 nodes w3 = (OK l, w4) →
  CreateInClusterJGF filename skipLabel (new_builder w) = (Ret None, b) →
  compute_names (fluxgraph b) = kn_Name <$> filter (λ node, ¬ skipped skipLabel node) nodes.
Proof.
  intros E1 E2 E3 ES Hrun.
  destruct (cluster_layout filename skipLabel w w1 w2 w3 w4 nodes l E1 E2 E3 ES)
    as (b'&E&_&_&_&Hv&_).
  rewrite E in Hrun. apply WriteJGF_graph in Hrun.
  rewrite Hrun, compute_names_views, Hv.
  change (root_view :: ?x) with ([root_view] ++ x).
  rewrite node_bases_app, node_bases_layout. simpl.
  by rewrite <- (survey_nodes _ _ _ _ _ _ ES), <- list_fmap_compose.
Qed.

(** A node of the cluster that pods may be placed on. *)
Definition eligible (nodes : list KNode) (skipLabel n : string) : Prop :=
  ∃ node, node ∈ nodes ∧ kn_Name node = n ∧ kn_Unschedulable node = false ∧
    kn_Labels node !! controlPlaneLabel = None ∧
    (skipLabel ≠ "" → kn_Labels node !! skipLabel = None).

Lemma compute_names_eligible filename skipLabel w w1 w2 w3 w4 nodes l b n :
  rest_InClusterConfig w = (None, w1) →
  kubernetes_NewForConfig w1 = (None, w2) →
  Nodes_List w2 = (OK nodes, w3) →
  survey skipLabel 0 nodes w3 = (OK l, w4) →
  CreateInClusterJGF filename skipLabel (new_builder w) = (Ret None, b) →
  n ∈ compute_names (fluxgraph b) → eligible nodes skipLabel n.
Proof.
  intros E1 E2 E3 ES Hrun Hn.
  rewrite (cluster_compute_names filename skipLabel w w1 w2 w3 w4 nodes l b) in Hn by done.
  apply list_elem_of_fmap in Hn as (node&->&[Hns Hin]%list_elem_of_filter). unfold skipped in Hns.
  exists node. split_and!; [done|done|..].
  - destruct (kn_Unschedulable node); naive_solver.
  - apply eq_None_not_Some. naive_solver.
  - intros Hl. apply eq_None_not_Some. naive_solver.
Qed.
End names.

(** The base names of the nodes read from a document are among its vertices. *)
Lemma read_vertices_names vs : ∀ acc a,
  a ∈ (read_vertices acc vs).1 → a ∈ acc.1 ∨ (NodeType, alloc_Basename a) ∈ vs.
Proof.
  induction vs as [|[t b] vs IH]; intros [r n] a Ha; [by left|].
  cbn [read_vertices fst snd] in Ha. apply IH in Ha as [Ha|Ha]; [|right; by right].
  case_decide as Ht; simpl in Ha; [|by left].
  apply elem_of_app in Ha as [Ha| ->%list_elem_of_singleton]; [by left|].
  right. rewrite Ht. by left.
Qed.

Section placement.
Context {Q : QuantityLib} {MO : MapOrder} {RH : ResourceHelper}.
Context {W : Type} {KC : KubeClient W}.
Context {V : Type} {RC : ReapiClient V} {YL : YamlLib} {JL : JsonLib}.

(** When the graph was made from the nodes of the cluster and the library allocates
    a part of it, every node Match names is a node of the cluster that can be scheduled,
    is no control-plane node and does not carry the label to skip. *)
Theorem Match_names_eligible_nodes filename skipLabel w w1 w2 w3 w4 nodes l b
    req ps spec v ma v1 dat vs :
  (** the graph was made from the nodes of the cluster *)
  rest_InClusterConfig w = (None, w1) →
  kubernetes_NewForConfig w1 = (None, w2) →
  Nodes_List w2 = (OK nodes, w3) →
  survey skipLabel 0 nodes w3 = (OK l, w4) →
  CreateInClusterJGF filename skipLabel (new_builder w) = (Ret None, b) →
  (** and the library allocates a part of it *)
  pb.Ps req = Some ps → pb.Cpu ps ≠ 0 →
  yaml_Marshal (jobspec_of ps (pb.Count req)) = OK spec →
  cli_MatchAllocate false spec v = (ma, v1) →
  ma_fluxerr ma = None → ma_allocated ma ≠ "" →
  json_Unmarshal (ma_allocated ma) = OK dat → alloc_document dat vs →
  (∀ base, (NodeType, base) ∈ vs → base ∈ compute_names (fluxgraph b)) →
  ∃ resp v', Match req v = (Ret (OK resp), v') ∧
    ∀ a, a ∈ pb.Nodelist resp →
      ∃ node, node ∈ nodes ∧ kn_Name node = pb.NodeID a ∧
        kn_Unschedulable node = false ∧
        kn_Labels node !! controlPlaneLabel = None ∧
        (skipLabel ≠ "" → kn_Labels node !! skipLabel = None).
Proof.
  intros E1 E2 E3 ES Hrun Hps Hcpu Ey Em Herr Hal Ej Hdoc Hsub.
  do 2 eexists. split; [by eapply Match_run|]. intros a Ha. simpl in Ha.
  apply list_elem_of_fmap in Ha as (r&->&Hr).
  apply read_vertices_names in Hr as [Hr|Hr]; [by apply elem_of_nil in Hr|].
  apply Hsub in Hr. by eapply compute_names_eligible.
Qed.
End placement.
