(* ===== verification/Landing.v ===== *)
(** * Where pods land: scheduler, server and cluster graph together

    The scheduler talks to the server of this repository, the server to a
    library that was given the graph of the cluster. Whatever the scheduler
    goes through, it records only nodes that the library has named, and so
    offers its pods only nodes of the cluster that can be scheduled. *)

From Stdlib Require Import Ascii.
From stdpp Require Import prelude gmap strings list fin_maps relations.
From S2P Require Import Prelude GoRuntime Kube Wire Env PodSpec Core CoreFacts CoreMethods Plugin PluginFacts System Jgf ClusterGraph ClusterFacts ClusterTree JobSpec Fluxion FluxionFacts Placement.

(** ** Nodes that are recorded *)

Section landing.
Context {Q : QuantityLib} {U : Upstream} {MO : MapOrder} {GC : GoCacheLib}.
Context {CS : CycleStateLib} {W : Type} {CL : Cluster W} {FS : FluxService W}.
Context {FL : FluxServiceLaws CL FS}.

Local Abbreviation Sys := (Sys (W:=W)).
Implicit Types (s : Sys) (pod : Pod).

(** The nodes the service answers with are all of one kind. *)
Context (good : string → Prop).
Definition answers_good : Prop := ∀ req w resp w' a,
  wf_request req → flux_Match req w = (OK resp, w') → a ∈ pb.Nodelist resp → good (pb.NodeID a).
Context (Hgood : answers_good).

(** All recorded nodes are. *)
Definition good_nodes s : Prop := ∀ p n, podToNode (mgr s) !! p = Some n → good n.
Definition keeps_good s s' : Prop := good_nodes s → good_nodes s'.

#[export] Instance keeps_good_preorder : PreOrder keeps_good.
Proof. split; unfold keeps_good; [by intros s|]. intros s1 s2 s3 H12 H23 H1. auto. Qed.

Lemma keeps_good_same s s' : podToNode (mgr s') = podToNode (mgr s) → keeps_good s s'.
Proof. intros E H p n. rewrite E. apply H. Qed.

Lemma good_shrinks P s s' : shrinks P s s' → keeps_good s s'.
Proof. intros Hs H p n Hn. eapply H, lookup_weaken; [exact Hn|apply (sh_nodes _ _ _ Hs)]. Qed.

Lemma good_ext {A} (f : W → A * W) : Go.within keeps_good (ext f).
Proof. intros s. apply keeps_good_same. unfold ext. by destruct (f (world s)). Qed.

Lemma good_cancel g pod : Go.within keeps_good (cancelFluxJob g pod).
Proof. intros s. eapply good_shrinks, cancelFluxJob_shrinks. Qed.

Local Hint Resolve good_ext good_cancel : go.
Ltac good_step :=
  first [ solve [eauto with go] | within_step | by apply keeps_good_same ].
Ltac good_go := repeat good_step.

Lemma good_GetPodGroup pod : Go.within keeps_good (GetPodGroup pod).
Proof. unfold GetPodGroup. good_go. Qed.
Local Hint Resolve good_GetPodGroup : go.

Lemma good_AskFlux pod pg g : Go.within keeps_good (AskFlux pod pg g).
Proof.
  intros s. destruct (AskFlux_run pod pg g s) as (s1&Hsh&[(e&s'&->&Em&_)|(resp&w1&w2&_&->)]).
  - etrans; [by eapply good_shrinks|]. apply keeps_good_same. simpl. by rewrite Em.
  - etrans; [by eapply good_shrinks|]. by apply keeps_good_same.
Qed.
Local Hint Resolve good_AskFlux : go.

(** The nodes AskFlux returns come from an answer. *)
Lemma AskFlux_nodes pod pg g s nodes e s' :
  AskFlux pod pg g s = (Ret (nodes, e), s') → Forall good nodes.
Proof.
  intros E. destruct (AskFlux_run pod pg g s) as (s1&_&[(e'&s2&E'&_)|(resp&w1&w2&EM&E')]);
    rewrite E' in E; injection E as <- _ _; [constructor|].
  apply Forall_fmap, Forall_forall. intros a Ha. eapply Hgood; [|exact EM|exact Ha].
  apply PreparePodJobSpec_Cpu_nonzero.
Qed.

Lemma good_assign_node pods i node : good node → Go.within keeps_good (assign_node pods i node).
Proof.
  intros Hn. unfold assign_node. good_go. intros H p n. simpl.
  intros [[_ <-]|[_ Hp]]%lookup_insert_Some; [done|by eapply H].
Qed.

Lemma good_admit_nodes g rep pods nodes :
  Forall good nodes → Go.within keeps_good (admit_nodes g rep pods nodes).
Proof.
  intros Hn. unfold admit_nodes.
  apply (Go.within_bind _ _ _); [good_go|]. intros _.
  apply (Go.within_bind _ _ _); [|intros _; good_go].
  apply Go.within_range_loop_in; [apply _|]. intros i x Hx. apply good_assign_node.
  rewrite Forall_forall in Hn. by apply Hn.
Qed.

Lemma good_core_PreFilter pod : Go.within keeps_good (Core.PreFilter pod).
Proof.
  unfold Core.PreFilter.
  repeat first
    [ match goal with |- Go.within _ (mbind _ (AskFlux _ _ _)) =>
        refine (Go.within_bind_returns _ _ _ _ _); [apply good_AskFlux|];
        intros [nodes err] (t&t'&E); apply AskFlux_nodes in E
      end
    | by apply good_admit_nodes
    | good_step ].
Qed.
Local Hint Resolve good_core_PreFilter : go.

(** ** Every step *)

Lemma step_good s s' : step s s' → keeps_good s s'.
Proof.
  assert (∀ {A} (m : GoM Sys A) s, Go.within keeps_good m → keeps_good s (m s).2) as Hw by auto.
  destruct 1; try apply Hw.
  - unfold Less; open_manager. good_go.
  - unfold Plugin.PreFilter; open_manager; unfold GetPodNode. good_go.
  - unfold Filter. good_go.
  - unfold PostFilter; open_manager; unfold CalculateAssignedPods, IterateOverWaitingPods,
      BackoffPodGroup, DeletePermittedPodGroup, Reject. good_go.
  - unfold Plugin.Permit; open_manager; unfold Core.Permit, CalculateAssignedPods,
      ActivateSiblings, IterateOverWaitingPods, Allow. good_go.
  - unfold Reserve. good_go.
  - unfold Unreserve; open_manager; unfold IterateOverWaitingPods, DeletePermittedPodGroup,
      Reject. good_go.
  - unfold UpdatePod, event_group, cancel_if_known. good_go.
  - unfold DeletePod, event_group, cancel_if_known. good_go.
  - by apply keeps_good_same.
  - by apply keeps_good_same.
Qed.

Lemma good_steps s s' : rtc step s s' → keeps_good s s'.
Proof.
  induction 1 as [|s1 s2 s3 H12 _ IH]; [done|]. etrans; [by apply step_good|done].
Qed.

Lemma started_good s : started s → good_nodes s.
Proof. intros Hs p n. rewrite Hs. simpl. by rewrite lookup_empty. Qed.

(** Recorded nodes are good, and so are the candidates PreFilter names, but
    for the empty name. *)
Lemma landing `{!CycleStateLaws CS} s0 s :
  started s0 → rtc step s0 s →
  good_nodes s ∧
  ∀ pod names st s', Plugin.PreFilter pod s = (Ret (Some names, st), s') →
    ∀ n, n ∈ names → n = "" ∨ good n.
Proof.
  intros H0 Hst. assert (good_nodes s) as Hs by (by eapply good_steps, started_good).
  split; [done|]. intros pod names st s' E.
  assert (good_nodes s') as Hs'.
  { apply (step_good s s'); [|done]. pose proof (step_PreFilter pod s) as H. by rewrite E in H. }
  apply PreFilter_pins in E as (_&->&_). intros n ->%elem_of_singleton. simpl.
  destruct (podToNode (mgr s') !! pod_Name pod) as [n|] eqn:En; [|by left].
  right. by eapply Hs'.
Qed.
End landing.

(** ** Over the server and its library *)

(** The library was given a graph with compute vertices of these names, and
    allocates parts of it. *)
Class AllocatesFrom {W : Type} (RC : ReapiClient W) (JL : JsonLib) (names : list string) : Prop :=
  allocates_from spec w ma w' dat vs base :
    cli_MatchAllocate false spec w = (ma, w') → ma_fluxerr ma = None → ma_allocated ma ≠ "" →
    json_Unmarshal (ma_allocated ma) = OK dat → alloc_document dat vs →
    (NodeType, base) ∈ vs → base ∈ names.

Section server.
Context {Q : QuantityLib} {W : Type} {CL : Cluster W} {RC : ReapiClient W}.
Context {TR : Transport W} {YL : YamlLib} {JL : JsonLib} {RL : ReapiLaws CL RC TR YL JL}.

Lemma server_answers names `{!AllocatesFrom RC JL names} :
  answers_good (FS:=fluxion_service) (.∈ names).
Proof.
  intros req w resp w' a Hwf E Ha. unfold wf_request in Hwf.
  destruct (pb.Ps req) as [ps|] eqn:Hps; [|done].
  simpl in E. unfold serve in E. destruct (rpc_deliver w) as [[e|] w1]; [done|].
  destruct (Match req w1) as [o w3] eqn:EM.
  destruct (rpc_answer w3) as [[e|] w4]; [done|]. injection E as E _.
  destruct (reapi_yaml (jobspec_of ps (pb.Count req))) as [spec Ey].
  destruct (cli_MatchAllocate false spec w1) as [ma w2] eqn:Em.
  destruct (decide (ma_fluxerr ma = None ∧ ma_allocated ma ≠ "")) as [[Herr Hal]|Hno].
  - destruct (reapi_match_ok _ _ _ _ Em Herr Hal) as (_&_&dat&vs&Ej&Hdoc).
    rewrite (Match_run req ps spec w1 ma w2 dat vs) in EM by done. injection EM as <- _.
    injection E as <-. simpl in Ha. apply list_elem_of_fmap in Ha as (r&->&Hr). simpl.
    apply read_vertices_names in Hr as [Hr|Hr]; [by apply elem_of_nil in Hr|].
    by eapply allocates_from.
  - assert (ma_fluxerr ma ≠ None ∨ ma_allocated ma = "") as Hnone.
    { destruct (ma_fluxerr ma); [by left|right]. apply dec_stable. naive_solver. }
    destruct (Match_none req ps spec w1 ma w2 Hps Ey Em Hnone) as [e E'].
    rewrite E' in EM. injection EM as <- _. done.
Qed.

Context {U : Upstream} {MO : MapOrder} {GC : GoCacheLib} {CS : CycleStateLib}.
Context {CsL : CycleStateLaws CS} {AA : AnswersArrive TR}.
Context {RH : ResourceHelper} {V : Type} {KC : KubeClient V}.

(** C11: Let the server's library be given the graph made of the cluster's nodes, and
    allocate parts of it, and let no answer of the server be lost. Then in every state
    the scheduler can reach over this server, each recorded node, and each candidate
    PreFilter names for a pod, is a node of the cluster that can be scheduled, is no
    control-plane node and does not carry the label to skip; the one other candidate
    PreFilter can name is the empty name. *)
Theorem pods_land_on_eligible_nodes filename skipLabel (v v1 v2 v3 v4 : V) nodes l b
    (s0 s : Sys (W:=W)) :
  rest_InClusterConfig v = (None, v1) →
  kubernetes_NewForConfig v1 = (None, v2) →
  Nodes_List v2 = (OK nodes, v3) →
  survey skipLabel 0 nodes v3 = (OK l, v4) →
  CreateInClusterJGF filename skipLabel (new_builder v) = (Ret None, b) →
  AllocatesFrom RC JL (compute_names (fluxgraph b)) →
  started s0 → rtc (step (FL:=fluxion_laws)) s0 s →
  (∀ p n, podToNode (mgr s) !! p = Some n → eligible nodes skipLabel n) ∧
  (∀ pod names st s',
     Plugin.PreFilter (MG:=PodGroupManager_Manager (FS:=fluxion_service)) pod s
       = (Ret (Some names, st), s') →
     ∀ n, n ∈ names → n = "" ∨ eligible nodes skipLabel n).
Proof.
  intros E1 E2 E3 ES Hrun HA H0 Hst.
  assert (∀ n, n ∈ compute_names (fluxgraph b) → eligible nodes skipLabel n) as Hel
    by (intros n; by eapply compute_names_eligible).
  destruct (landing (FL:=fluxion_laws) _ (server_answers _) s0 s H0 Hst) as [Hs Hp]. split.
  - intros p n Hn. by eapply Hel, Hs.
  - intros pod names st s' E n Hn. destruct (Hp _ _ _ _ E n Hn) as [?|?]; [by left|right].
    by apply Hel.
Qed.
End server.
