(* ===== verification/Webhook.v ===== *)
(** * The admission webhook (apis/scheduling/v1alpha1/podgroup_webhook.go)

    Every pod becomes part of a group: the webhook puts the group's name and
    size on pods, jobs, stateful sets, deployments and replica sets. An
    operation mutates the object it is given, so here it returns the new
    object, or panics. *)

From stdpp Require Import prelude gmap strings list fin_maps pretty.
From S2P Require Import Prelude GoRuntime Kube Wire.

Local Open Scope Z_scope.

(** The fields the webhook reads of [batchv1.Job], [appsv1.StatefulSet],
    [appsv1.Deployment] and [appsv1.ReplicaSet]: the size is [Parallelism] or
    [Replicas], a pointer. *)
Record Workload := mkWorkload {
  wl_Name : string;
  wl_Namespace : string;
  wl_Labels : GoMap.t;
  (** [Spec.Template.ObjectMeta.Labels] *)
  wl_TemplateLabels : GoMap.t;
  wl_Size : option Z;
}.

Definition set_wl_Labels (m : GoMap.t) (w : Workload) : Workload :=
  mkWorkload (wl_Name w) (wl_Namespace w) m (wl_TemplateLabels w) (wl_Size w).
Definition set_wl_TemplateLabels (m : GoMap.t) (w : Workload) : Workload :=
  mkWorkload (wl_Name w) (wl_Namespace w) (wl_Labels w) m (wl_Size w).

Section webhook.
Context {Q : QuantityLib}.

Definition set_pod_Labels (m : GoMap.t) (p : Pod) : Pod :=
  mkPod (pod_Name p) (pod_Namespace p) (pod_UID p) m (pod_OwnerReferences p)
    (pod_DeletionTimestamp p) (pod_NodeName p) (pod_Containers p) (pod_Phase p).

(** ** The operations *)

Definition EnsureGroup (pod : Pod) : outcome Pod :=
  let labels := GoMap.init (pod_Labels pod) in
  labels ← match GoMap.get labels flabel.PodGroupLabel with
           | Some _ => mret labels
           | None =>
               let groupName := "fluence-group-" +:+ pod_Name pod in
               GoMap.set labels flabel.PodGroupLabel groupName
           end;
  labels ← match GoMap.get labels flabel.PodGroupSizeLabel with
           | Some _ => mret labels
           | None => GoMap.set labels flabel.PodGroupSizeLabel "1"
           end;
  mret (set_pod_Labels labels pod).

Definition getJobLabel (job : Workload) (labelName defaultLabel : string) : string :=
  match GoMap.get (wl_Labels job) labelName with
  | Some value => value
  | None =>
      match GoMap.get (wl_TemplateLabels job) labelName with
      | Some value => value
      | None => defaultLabel
      end
  end.

Definition default_group (w : Workload) : string :=
  "fluence-group-" +:+ wl_Namespace w +:+ "-" +:+ wl_Name w.

(** The size a workload's pointer asks for, at least one. *)
Definition at_least_one (size : Z) : Z := if decide (size = 0) then 1 else size.

Definition EnsureGroupOnJob (job : Workload) : outcome Workload :=
  let job := set_wl_TemplateLabels (GoMap.init (wl_TemplateLabels job)) job in
  let job := set_wl_Labels (GoMap.init (wl_Labels job)) job in
  let groupName := getJobLabel job flabel.PodGroupLabel (default_group job) in
  m ← GoMap.set (wl_TemplateLabels job) flabel.PodGroupLabel groupName;
  let job := set_wl_TemplateLabels m job in
  jobSize ← Go.deref (wl_Size job);
  let labelSize := Fmt.d (at_least_one jobSize) in
  let groupSize := getJobLabel job flabel.PodGroupSizeLabel labelSize in
  m ← GoMap.set (wl_TemplateLabels job) flabel.PodGroupSizeLabel groupSize;
  mret (set_wl_TemplateLabels m job).

(** The common body of the three functions for the apps/v1 workloads: the
    template's map is written without a check. *)
Definition ensure_template (set : Workload) : outcome Workload :=
  let set := set_wl_Labels (GoMap.init (wl_Labels set)) set in
  let groupName := default (default_group set) (GoMap.get (wl_Labels set) flabel.PodGroupLabel) in
  m ← GoMap.set (wl_TemplateLabels set) flabel.PodGroupLabel groupName;
  let set := set_wl_TemplateLabels m set in
  size ← Go.deref (wl_Size set);
  let labelSize := Fmt.d (at_least_one size) in
  let groupSize := default labelSize (GoMap.get (wl_Labels set) flabel.PodGroupSizeLabel) in
  m ← GoMap.set (wl_TemplateLabels set) flabel.PodGroupSizeLabel groupSize;
  mret (set_wl_TemplateLabels m set).

Definition EnsureGroupStatefulSet (set : Workload) : outcome Workload := ensure_template set.
Definition EnsureGroupReplicaSet (set : Workload) : outcome Workload := ensure_template set.
Definition EnsureGroupDeployment (d : Workload) : outcome Workload := ensure_template d.

(** ** Default *)

Inductive Object :=
| O_Job (job : Workload)
| O_Pod (pod : Pod)
| O_StatefulSet (set : Workload)
| O_Deployment (d : Workload)
| O_ReplicaSet (set : Workload)
| O_Other.

Definition Default (obj : Object) : outcome Object :=
  match obj with
  | O_Job job => O_Job <$> EnsureGroupOnJob job
  | O_Pod pod => O_Pod <$> EnsureGroup pod
  | O_StatefulSet set => O_StatefulSet <$> EnsureGroupStatefulSet set
  | O_Deployment d => O_Deployment <$> EnsureGroupDeployment d
  | O_ReplicaSet set => O_ReplicaSet <$> EnsureGroupReplicaSet set
  | O_Other => mret O_Other
  end.

(** ** Handle *)

Inductive Response :=
| Errored (code : Z) (err : error)
| PatchResponseFromRaw (original current : string)
| Allowed (message : string).

(** The admission decoder for each type, and [json.Marshal]. *)
Class Codec (Request : Type) := {
  req_Raw : Request → string;
  decode_Job : Request → go_result Workload;
  decode_Pod : Request → go_result Pod;
  decode_StatefulSet : Request → go_result Workload;
  decode_Deployment : Request → go_result Workload;
  decode_ReplicaSet : Request → go_result Workload;
  json_Marshal : Object → go_result string;
}.

Definition StatusInternalServerError : Z := 500.

Section handle.
Context {Request : Type} `{!Codec Request}.

(** The end of each case: marshal the object and answer with a patch. *)
Definition respond (req : Request) (obj : Object) : Response :=
  match json_Marshal obj with
  | Err err => Errored StatusInternalServerError err
  | OK marshalled => PatchResponseFromRaw (req_Raw req) marshalled
  end.

Definition Handle (req : Request) : outcome Response :=
  match decode_Job req with
  | OK job => job ← EnsureGroupOnJob job; mret (respond req (O_Job job))
  | Err _ =>
  match decode_Pod req with
  | OK pod => pod ← EnsureGroup pod; mret (respond req (O_Pod pod))
  | Err _ =>
  match decode_StatefulSet req with
  | OK set => set ← EnsureGroupStatefulSet set; mret (respond req (O_StatefulSet set))
  | Err _ =>
  match decode_Deployment req with
  | OK d => d ← EnsureGroupDeployment d; mret (respond req (O_Deployment d))
  | Err _ =>
  match decode_ReplicaSet req with
  | OK set => set ← EnsureGroupReplicaSet set; mret (respond req (O_ReplicaSet set))
  | Err _ =>
      mret (Allowed "Object not known, this webhook does not validate beyond those.")
  end end end end end.
End handle.

(** ** Facts *)

(** The two keys the webhook writes. *)
Definition group_key (k : string) : Prop :=
  k = flabel.PodGroupLabel ∨ k = flabel.PodGroupSizeLabel.

Lemma keys_differ : flabel.PodGroupLabel ≠ flabel.PodGroupSizeLabel.
Proof. done. Qed.

Definition with_group (g z : string) (m : gmap string string) : gmap string string :=
  <[flabel.PodGroupSizeLabel := z]> (<[flabel.PodGroupLabel := g]> m).

Lemma with_group_id g z m :
  m !! flabel.PodGroupLabel = Some g → m !! flabel.PodGroupSizeLabel = Some z →
  with_group g z m = m.
Proof.
  intros Hg Hz. unfold with_group. rewrite (insert_id m) by done. by apply insert_id.
Qed.

Lemma with_group_label g z m : with_group g z m !! flabel.PodGroupLabel = Some g.
Proof. unfold with_group. by rewrite lookup_insert_ne, lookup_insert_eq. Qed.

Lemma with_group_size g z m : with_group g z m !! flabel.PodGroupSizeLabel = Some z.
Proof. unfold with_group. by rewrite lookup_insert_eq. Qed.

Lemma with_group_other g z m k : ¬ group_key k → with_group g z m !! k = m !! k.
Proof. unfold group_key, with_group. intros. by rewrite !lookup_insert_ne by naive_solver. Qed.

Lemma get_entries m k : GoMap.get m k = GoMap.entries m !! k.
Proof. destruct m; simpl; [done|]. unfold GoMap.entries. simpl. by rewrite lookup_empty. Qed.

Lemma EnsureGroup_run pod :
  EnsureGroup pod = Ret (set_pod_Labels (Some (
    with_group
      (default ("fluence-group-" +:+ pod_Name pod)
         (GoMap.get (pod_Labels pod) flabel.PodGroupLabel))
      (default "1" (GoMap.get (pod_Labels pod) flabel.PodGroupSizeLabel))
      (GoMap.entries (pod_Labels pod)))) pod).
Proof.
  unfold EnsureGroup. rewrite !get_entries.
  unfold GoMap.init, GoMap.get, GoMap.entries, with_group.
  set (m := default ∅ (pod_Labels pod)). simpl.
  unfold mbind, outcome_bind, mret, outcome_ret.
  destruct (m !! flabel.PodGroupLabel) as [g|] eqn:Eg; simpl.
  - rewrite (insert_id m flabel.PodGroupLabel g) by done.
    destruct (m !! flabel.PodGroupSizeLabel) as [z|] eqn:Ez; simpl; [by rewrite insert_id|done].
  - rewrite lookup_insert_ne by apply keys_differ.
    destruct (m !! flabel.PodGroupSizeLabel) as [z|] eqn:Ez; simpl; [|done].
    rewrite (insert_id (<[flabel.PodGroupLabel:=_]> m) flabel.PodGroupSizeLabel z); [done|].
    by rewrite lookup_insert_ne.
Qed.

(** The webhook gives a pod the group and the size label it lacks, with the pod's
    own group and size one, changes nothing else and does nothing the second time. *)
Theorem EnsureGroup_labels pod :
  ∃ pod', EnsureGroup pod = Ret pod' ∧
    flabel.GetPodGroupLabel pod'
      = default ("fluence-group-" +:+ pod_Name pod)
          (GoMap.get (pod_Labels pod) flabel.PodGroupLabel) ∧
    flabel.GetPodGroupSize pod'
      = default "1" (GoMap.get (pod_Labels pod) flabel.PodGroupSizeLabel) ∧
    (∀ k, ¬ group_key k → GoMap.get (pod_Labels pod') k = GoMap.get (pod_Labels pod) k) ∧
    pod' = set_pod_Labels (pod_Labels pod') pod ∧
    EnsureGroup pod' = Ret pod'.
Proof.
  rewrite EnsureGroup_run. eexists. split; [reflexivity|].
  rewrite EnsureGroup_run. unfold flabel.GetPodGroupLabel, flabel.GetPodGroupSize, GoMap.index.
  cbn [pod_Labels set_pod_Labels pod_Name]. rewrite !(get_entries (Some _)).
  change (GoMap.entries (Some ?m)) with m.
  rewrite with_group_label, with_group_size. split_and!; [done..| |done|].
  - intros k Hk. rewrite !get_entries. by apply with_group_other.
  - cbn [default]. by rewrite with_group_id by (apply with_group_label || apply with_group_size).
Qed.

(** ** Jobs *)

Lemma getJobLabel_default job k d :
  getJobLabel job k d =
  default d (match GoMap.get (wl_Labels job) k with
             | Some v => Some v
             | None => GoMap.get (wl_TemplateLabels job) k
             end).
Proof.
  unfold getJobLabel. destruct (GoMap.get (wl_Labels job) k); [done|].
  by destruct (GoMap.get _ _).
Qed.

Lemma EnsureGroupOnJob_run job :
  EnsureGroupOnJob job =
  match wl_Size job with
  | None => Panic "runtime error: invalid memory address or nil pointer dereference"
  | Some size =>
      let g := getJobLabel job flabel.PodGroupLabel (default_group job) in
      let z := getJobLabel job flabel.PodGroupSizeLabel (Fmt.d (at_least_one size)) in
      Ret (set_wl_TemplateLabels (Some (with_group g z (GoMap.entries (wl_TemplateLabels job))))
             (set_wl_Labels (Some (GoMap.entries (wl_Labels job))) job))
  end.
Proof.
  unfold EnsureGroupOnJob, GoMap.init. cbn [wl_TemplateLabels wl_Labels wl_Size wl_Name
    wl_Namespace set_wl_Labels set_wl_TemplateLabels GoMap.set].
  unfold mbind, outcome_bind, mret, outcome_ret.
  destruct (wl_Size job) as [size|]; [|done]. cbn [Go.deref].
  unfold mret, outcome_ret, GoMap.set. cbn [set_wl_TemplateLabels wl_TemplateLabels].
  rewrite !getJobLabel_default. cbn [wl_TemplateLabels wl_Labels].
  rewrite !get_entries. cbn [GoMap.entries default].
  change (default ∅ (wl_TemplateLabels job)) with (GoMap.entries (wl_TemplateLabels job)).
  change (default ∅ (wl_Labels job)) with (GoMap.entries (wl_Labels job)).
  unfold with_group, default_group. simpl.
  by rewrite (lookup_insert_ne _ flabel.PodGroupLabel flabel.PodGroupSizeLabel) by done.
Qed.

(** The first of the values given that is there. *)
Definition first_of (k : string) (ms : list GoMap.t) (d : string) : string :=
  default d (head (omap (λ m, GoMap.get m k) ms)).

Lemma first_of_entries k m ms d :
  first_of k (Some (GoMap.entries m) :: ms) d = first_of k (m :: ms) d.
Proof. unfold first_of. simpl. by rewrite (get_entries m). Qed.

(** Reading back a label that was written where it was looked for last. *)
Lemma first_of_again k m ms m' d d' :
  GoMap.get m' k = Some (first_of k (m :: ms) d) →
  first_of k [m; m'] d' = first_of k (m :: ms) d.
Proof.
  intros E. unfold first_of at 1. simpl. rewrite E.
  destruct (GoMap.get m k) as [v|] eqn:Ev; simpl; [|done].
  unfold first_of. simpl. by rewrite Ev.
Qed.

Lemma getJobLabel_first_of job k d :
  getJobLabel job k d = first_of k [wl_Labels job; wl_TemplateLabels job] d.
Proof.
  unfold getJobLabel, first_of. simpl.
  destruct (GoMap.get (wl_Labels job) k); [done|]. by destruct (GoMap.get _ k).
Qed.

(** The API server admits no negative sizes. *)
Lemma at_least_one_max n : 0 ≤ n → at_least_one n = Z.max 1 n.
Proof. unfold at_least_one. case_decide; lia. Qed.

Lemma at_least_one_fits n : GoInt.fits 32 n → GoInt.fits 32 (at_least_one n).
Proof. unfold at_least_one, GoInt.fits. case_decide; simpl; lia. Qed.

(** The webhook puts on a job's template the group and size named on the job, else
    on the template, else the default name and the parallelism, at least one; it changes
    nothing else, does nothing the second time, and panics exactly without a
    parallelism. *)
Theorem EnsureGroupOnJob_labels job :
  match wl_Size job with
  | None => ∃ e, EnsureGroupOnJob job = Panic e
  | Some n =>
      ∃ job', EnsureGroupOnJob job = Ret job' ∧
        let tmpl k := GoMap.get (wl_TemplateLabels job') k in
        let from k d := first_of k [wl_Labels job; wl_TemplateLabels job] d in
        tmpl flabel.PodGroupLabel = Some (from flabel.PodGroupLabel (default_group job)) ∧
        tmpl flabel.PodGroupSizeLabel
          = Some (from flabel.PodGroupSizeLabel (Fmt.d (if decide (n = 0) then 1 else n))) ∧
        (∀ k, ¬ group_key k → tmpl k = GoMap.get (wl_TemplateLabels job) k) ∧
        (∀ k, GoMap.get (wl_Labels job') k = GoMap.get (wl_Labels job) k) ∧
        EnsureGroupOnJob job' = Ret job'
  end.
Proof.
  rewrite EnsureGroupOnJob_run. destruct (wl_Size job) as [n|] eqn:Hn; [|by eexists].
  eexists. split; [reflexivity|]. cbn zeta.
  rewrite EnsureGroupOnJob_run, !getJobLabel_first_of.
  set (g := first_of flabel.PodGroupLabel _ _). set (z := first_of flabel.PodGroupSizeLabel _ _).
  cbn [wl_TemplateLabels wl_Labels set_wl_TemplateLabels set_wl_Labels wl_Size].
  rewrite Hn. split_and!.
  - rewrite get_entries. apply with_group_label.
  - rewrite get_entries. apply with_group_size.
  - intros k Hk. rewrite !get_entries. by apply with_group_other.
  - intros k. rewrite !get_entries. done.
  - rewrite !getJobLabel_first_of. unfold set_wl_TemplateLabels, set_wl_Labels, default_group.
    cbn [wl_Labels wl_TemplateLabels wl_Name wl_Namespace].
    change (GoMap.entries (Some ?m)) with m. rewrite !first_of_entries. do 3 f_equal.
    rewrite (first_of_again flabel.PodGroupLabel _ [wl_TemplateLabels job] _ (default_group job))
      by (rewrite get_entries; apply with_group_label).
    rewrite (first_of_again flabel.PodGroupSizeLabel _ [wl_TemplateLabels job] _ (Fmt.d (at_least_one n)))
      by (rewrite get_entries; apply with_group_size).
    apply with_group_id; [apply with_group_label|apply with_group_size].
Qed.

(** ** StatefulSets, ReplicaSets and Deployments *)

Lemma ensure_template_run set :
  ensure_template set =
  match wl_TemplateLabels set, wl_Size set with
  | Some m, Some n =>
      let g := first_of flabel.PodGroupLabel [wl_Labels set] (default_group set) in
      let z := first_of flabel.PodGroupSizeLabel [wl_Labels set] (Fmt.d (at_least_one n)) in
      Ret (set_wl_TemplateLabels (Some (with_group g z m))
             (set_wl_Labels (Some (GoMap.entries (wl_Labels set))) set))
  | None, _ => Panic "assignment to entry in nil map"
  | Some _, None => Panic "runtime error: invalid memory address or nil pointer dereference"
  end.
Proof.
  unfold ensure_template. cbn [wl_TemplateLabels wl_Labels wl_Size wl_Name wl_Namespace
    set_wl_Labels set_wl_TemplateLabels].
  unfold mbind, outcome_bind, mret, outcome_ret.
  destruct (wl_TemplateLabels set) as [m|]; [|done]. cbn [GoMap.set].
  destruct (wl_Size set) as [n|]; [|done]. unfold Go.deref, mret, outcome_ret.
  assert (∀ k d, default d (GoMap.get (GoMap.init (wl_Labels set)) k)
                 = first_of k [wl_Labels set] d) as H.
  { intros k d. rewrite GoMap.get_init. unfold first_of. simpl.
    by destruct (GoMap.get (wl_Labels set) k). }
  by rewrite !H.
Qed.

(** For stateful sets, replica sets and deployments the webhook panics exactly when
    the template has no labels map or the size is missing; otherwise the template gets
    the object's own labels or the defaults, whatever labels the template had. *)
Theorem ensure_template_labels set :
  (∀ e, ensure_template set = Panic e → wl_TemplateLabels set = None ∨ wl_Size set = None) ∧
  (wl_TemplateLabels set = None ∨ wl_Size set = None → ∃ e, ensure_template set = Panic e) ∧
  ∀ set', ensure_template set = Ret set' →
    let tmpl k := GoMap.get (wl_TemplateLabels set') k in
    tmpl flabel.PodGroupLabel
      = Some (first_of flabel.PodGroupLabel [wl_Labels set] (default_group set)) ∧
    (∀ n, wl_Size set = Some n →
       tmpl flabel.PodGroupSizeLabel
         = Some (first_of flabel.PodGroupSizeLabel [wl_Labels set]
                   (Fmt.d (if decide (n = 0) then 1 else n)))) ∧
    (∀ k, ¬ group_key k → tmpl k = GoMap.get (wl_TemplateLabels set) k) ∧
    ensure_template set' = Ret set'.
Proof.
  rewrite ensure_template_run.
  destruct (wl_TemplateLabels set) as [m|] eqn:Hm; [|split_and!; [by left|by eexists|done]].
  destruct (wl_Size set) as [n|] eqn:Hn; [|split_and!; [by right|by eexists|done]].
  split; [done|]. split; [by intros [?|?]|]. intros set' [= <-].
  set (g := first_of flabel.PodGroupLabel _ _). set (z := first_of flabel.PodGroupSizeLabel _ _).
  rewrite ensure_template_run.
  cbn [wl_TemplateLabels wl_Labels set_wl_TemplateLabels set_wl_Labels wl_Size].
  rewrite Hn. split_and!.
  - rewrite get_entries. apply with_group_label.
  - intros ? [= <-]. rewrite get_entries. apply with_group_size.
  - intros k Hk. rewrite !get_entries. by apply with_group_other.
  - unfold set_wl_TemplateLabels, set_wl_Labels, default_group.
    cbn [wl_Labels wl_TemplateLabels wl_Name wl_Namespace].
    change (GoMap.entries (Some ?m)) with m. rewrite !first_of_entries. do 3 f_equal.
    apply with_group_id; [apply with_group_label|apply with_group_size].
Qed.

(** The size the webhook writes for a workload that names none is the one
    the controller reads back. *)
Lemma default_size_parses n :
  GoInt.fits 32 n → Strconv.ParseInt (Fmt.d (at_least_one n)) = Some (at_least_one n).
Proof. intros. apply ParseInt_d. by apply at_least_one_fits. Qed.
End webhook.

(** ** The two entry points *)

(** The decoder of a request succeeds for the type of the object in it and
    for no other. *)
Class CodecLaws {Q : QuantityLib} {Request : Type} (C : Codec Request) := {
  req_Object : Request → Object;
  decode_Job_spec req o : decode_Job req = OK o ↔ req_Object req = O_Job o;
  decode_Pod_spec req o : decode_Pod req = OK o ↔ req_Object req = O_Pod o;
  decode_StatefulSet_spec req o : decode_StatefulSet req = OK o ↔ req_Object req = O_StatefulSet o;
  decode_Deployment_spec req o : decode_Deployment req = OK o ↔ req_Object req = O_Deployment o;
  decode_ReplicaSet_spec req o : decode_ReplicaSet req = OK o ↔ req_Object req = O_ReplicaSet o;
}.

(** The handler of admission requests answers with the patch to what the
    defaulting entry point makes of the object, panics where it panics, and lets
    objects of other types pass. *)
Theorem Handle_is_Default {Q : QuantityLib} {Request : Type} `{CodecLaws Request} (req : Request) :
  Handle req =
  match req_Object req with
  | O_Other => mret (Allowed "Object not known, this webhook does not validate beyond those.")
  | obj => obj' ← Default obj; mret (respond req obj')
  end.
Proof.
  unfold Handle.
  destruct (decode_Job req) as [o|e] eqn:E1.
  { apply decode_Job_spec in E1 as ->. simpl. by destruct (EnsureGroupOnJob o). }
  destruct (decode_Pod req) as [o|e2] eqn:E2.
  { apply decode_Pod_spec in E2 as ->. simpl. by destruct (EnsureGroup o). }
  destruct (decode_StatefulSet req) as [o|e3] eqn:E3.
  { apply decode_StatefulSet_spec in E3 as ->. simpl. by destruct (EnsureGroupStatefulSet o). }
  destruct (decode_Deployment req) as [o|e4] eqn:E4.
  { apply decode_Deployment_spec in E4 as ->. simpl. by destruct (EnsureGroupDeployment o). }
  destruct (decode_ReplicaSet req) as [o|e5] eqn:E5.
  { apply decode_ReplicaSet_spec in E5 as ->. simpl. by destruct (EnsureGroupReplicaSet o). }
  destruct (req_Object req) as [o|o|o|o|o|] eqn:Eo; [..|done].
  - apply decode_Job_spec in Eo. congruence.
  - apply decode_Pod_spec in Eo. congruence.
  - apply decode_StatefulSet_spec in Eo. congruence.
  - apply decode_Deployment_spec in Eo. congruence.
  - apply decode_ReplicaSet_spec in Eo. congruence.
Qed.
