(* ===== verification/Controller.v ===== *)
(** * The PodGroup controller (pkg/controllers/podgroup_controller.go)

    [Reconcile] and the functions it calls, and the pod watch
    [ensurePodGroup], as computations over the world of the API server. *)

From stdpp Require Import prelude gmap strings list fin_maps pretty.
From S2P Require Import Prelude GoRuntime Kube Wire.

Local Open Scope Z_scope.

(** ** The API server *)

Inductive get_result (A : Type) :=
| Found (a : A)
| NotFound
| GetErr (e : error).
Arguments Found {A} a.
Arguments NotFound {A}.
Arguments GetErr {A} e.

(** The controller-runtime client, the event recorder and the clock. A write
    that decodes the server's answer into its argument returns the object it
    leaves there. *)
Class ApiServer {Q : QuantityLib} (W : Type) := {
  api_Get : string → string → W → get_result PodGroup * W;
  (** [List] with a label selector and no namespace *)
  api_List : string * string → W → go_result (list Pod) * W;
  api_Create : PodGroup → W → option error * W;
  api_Delete : PodGroup → W → option error * W;
  (** [Status().Update(pg)] *)
  api_StatusUpdate : PodGroup → W → (PodGroup * option error) * W;
  (** [Status().Patch(new, MergeFrom(old))] *)
  api_StatusPatch : PodGroup → PodGroup → W → (PodGroup * option error) * W;
  (** [Patch(new, MergeFrom(old))] *)
  api_Patch : PodGroup → PodGroup → W → option error * W;
  recorder_Event : PodGroup → string → W → W;
  api_Now : W → Time.t * W;
}.

(** The JSON form of a metav1.MicroTime, and the label helper of the upstream
    scheduler plugins. *)
Class ControllerLib {Q : QuantityLib} := {
  MicroTime_MarshalJSON : Time.t → go_result string;
  MicroTime_UnmarshalJSON : string → go_result Time.t;
  upstream_GetPodGroupLabel : Pod → string;
}.

(** [ctrl.Result] *)
Record Result := mkResult { Requeue : bool }.

Section controller.
Context {Q : QuantityLib} {CL : ControllerLib} {W : Type} {API : ApiServer W}.

Definition api {A} (f : W → A * W) : GoM W A := λ w, let '(a, w) := f w in (Ret a, w).

(** The value of the time-created label (labels.go). *)
Definition GetTimeCreated : GoM W string :=
  now ← api api_Now;
  mret (match MicroTime_MarshalJSON (Time.NewMicroTime now) with
        | OK timeCreated => timeCreated
        | Err _ => ""
        end).

(** ** Counting pods *)

Definition count_pod (acc : Z * Z * Z) (pod : Pod) : Z * Z * Z :=
  let '(running, succeeded, failed) := acc in
  match pod_Phase pod with
  | PodRunning => (GoInt.wrap 32 (running + 1), succeeded, failed)
  | PodSucceeded => (running, GoInt.wrap 32 (succeeded + 1), failed)
  | PodFailed => (running, succeeded, GoInt.wrap 32 (failed + 1))
  | _ => acc
  end.

Definition getCurrentPodStats (pods : list Pod) : Z * Z * Z := foldl count_pod (0, 0, 0) pods.

(** ** Phases *)

Definition set_Phase (p : PodGroupPhase) (st : PodGroupStatus) : PodGroupStatus :=
  mkPodGroupStatus p (status_OccupiedBy st) (status_Running st) (status_Succeeded st)
    (status_Failed st) (status_CreationTime st) (status_ScheduleStartTime st).

Definition set_counts (r s f : Z) (st : PodGroupStatus) : PodGroupStatus :=
  mkPodGroupStatus (status_Phase st) (status_OccupiedBy st) r s f
    (status_CreationTime st) (status_ScheduleStartTime st).

Definition set_CreationTime (t : Time.t) (st : PodGroupStatus) : PodGroupStatus :=
  mkPodGroupStatus (status_Phase st) (status_OccupiedBy st) (status_Running st)
    (status_Succeeded st) (status_Failed st) t (status_ScheduleStartTime st).

Definition set_OccupiedBy (o : string) (st : PodGroupStatus) : PodGroupStatus :=
  mkPodGroupStatus (status_Phase st) o (status_Running st)
    (status_Succeeded st) (status_Failed st) (status_CreationTime st)
    (status_ScheduleStartTime st).

(** The switch of [updateStatus]. *)
Definition next_status (minMember : Z) (pods : list Pod) (st : PodGroupStatus)
    : PodGroupStatus :=
  match status_Phase st with
  | PodGroupPhaseEmpty => set_Phase PodGroupPending st
  | PodGroupPending =>
      if decide (minMember ≤ Z.of_nat (length pods)) then set_Phase PodGroupScheduling st
      else st
  | _ =>
      if decide (Z.of_nat (length pods) < minMember) then set_Phase PodGroupPending st
      else
        let '(running, succeeded, failed) := getCurrentPodStats pods in
        let st := if decide (GoInt.wrap 32 (succeeded + running) < minMember)
                  then set_Phase PodGroupScheduling st else st in
        let st := if decide (minMember ≤ GoInt.wrap 32 (succeeded + running))
                  then set_Phase PodGroupRunning st else st in
        let st := if decide (failed ≠ 0 ∧
                             minMember ≤ GoInt.wrap 32 (GoInt.wrap 32 (failed + running) + succeeded))
                  then set_Phase PodGroupFailed st else st in
        let st := if decide (minMember ≤ succeeded) then set_Phase PodGroupFinished st else st in
        set_counts running succeeded failed st
  end.

Definition finished_or_failed (p : PodGroupPhase) : Prop :=
  p = PodGroupFinished ∨ p = PodGroupFailed.
#[export] Instance finished_or_failed_dec p : Decision (finished_or_failed p).
Proof. unfold finished_or_failed. apply _. Defined.

(** ** The writes *)

(** The end the update functions share: the status, then the rest as a
    patch against the copy taken before the change. *)
Definition write_back (old new : PodGroup) : GoM W (Result * option error) :=
  '(new, _) ← api (api_StatusUpdate new);
  err ← api (api_Patch old new);
  mret (mkResult true, err).

Definition updateStatus (pg : PodGroup) (pods : list Pod) : GoM W (Result * option error) :=
  let new := set_Status (next_status (spec_MinMember (pg_Spec pg)) pods (pg_Status pg)) pg in
  if decide (finished_or_failed (status_Phase (pg_Status new))) then
    err ← api (api_Delete new);
    mret (mkResult false, err)
  else write_back pg new.

Definition setTimeCreated (pg : PodGroup) (pods : list Pod) (timestamp : Time.t)
    : GoM W (Result * option error) :=
  let timestamp :=
    match pods with
    | [] => timestamp
    | pod :: _ =>
        match GoMap.get (pod_Labels pod) flabel.PodGroupTimeCreated with
        | None => timestamp
        | Some strTime =>
            match MicroTime_UnmarshalJSON strTime with
            | OK mt => mt
            | Err _ => timestamp
            end
        end
    end in
  write_back pg (set_Status (set_CreationTime timestamp (pg_Status pg)) pg).

Definition updatePodGroupSize (old : PodGroup) (size : Z) (pods : list Pod)
    : GoM W (Result * option error) :=
  let size :=
    match pods with
    | [] => size
    | pod :: _ =>
        match Strconv.ParseInt (GoMap.index (pod_Labels pod) flabel.PodGroupSizeLabel) with
        | Some groupSize => GoInt.wrap 32 groupSize
        | None => size
        end
    end in
  write_back old (set_MinMember size old).

(** ** Reconcile *)

Definition two_days_old (pg : PodGroup) : Prop :=
  48 * Time.Hour < Time.Sub (status_ScheduleStartTime (pg_Status pg)) (pg_CreationTimestamp pg).
#[export] Instance two_days_old_dec pg : Decision (two_days_old pg).
Proof. unfold two_days_old. apply _. Defined.

Definition scheduling_or_pending (p : PodGroupPhase) : Prop :=
  p = PodGroupScheduling ∨ p = PodGroupPending.
#[export] Instance scheduling_or_pending_dec p : Decision (scheduling_or_pending p).
Proof. unfold scheduling_or_pending. apply _. Defined.

Definition Reconcile (namespace name : string) : GoM W (Result * option error) :=
  now ← api api_Now;
  let timestamp := Time.NewMicroTime now in
  r ← api (api_Get namespace name);
  match r with
  | NotFound => mret (mkResult false, None)
  | GetErr err => mret (mkResult false, Some err)
  | Found pg =>
      let phase := status_Phase (pg_Status pg) in
      if decide (finished_or_failed phase) then mret (mkResult false, None)
      else if decide (scheduling_or_pending phase ∧ status_Running (pg_Status pg) = 0 ∧
                      two_days_old pg)
      then
        _ ← Go.modify (recorder_Event pg "schedule time longer than 48 hours");
        mret (mkResult false, None)
      else
        r ← api (api_List (v1alpha1.PodGroupLabel, pg_Name pg));
        match r with
        | Err err => mret (mkResult false, Some err)
        | OK pods =>
            if Time.IsZero (status_CreationTime (pg_Status pg))
            then setTimeCreated pg pods timestamp
            else if decide (spec_MinMember (pg_Spec pg) = 0)
            then updatePodGroupSize pg (GoInt.wrap 32 (Z.of_nat (length pods))) pods
            else updateStatus pg pods
        end
  end.

(** ** The pod watch *)

Definition newPodGroup (name namespace : string) (groupSize : Z)
    : GoM W (PodGroup * option error) :=
  now ← api api_Now;
  let pg := mkPodGroup name namespace [] 0 (mkPodGroupSpec groupSize ∅ None)
              (mkPodGroupStatus PodGroupPhaseEmpty "" 0 0 0 0 (Time.NewMicroTime now)) in
  err ← api (api_Create pg);
  mret (pg, err).

(** The requests to enqueue for a watched object ([None] for one that is not
    a pod). *)
Definition ensurePodGroup (obj : option Pod) : GoM W (list (string * string)) :=
  match obj with
  | None => mret []
  | Some pod =>
      let groupName := upstream_GetPodGroupLabel pod in
      if decide (String.length groupName = 0%nat) then mret []
      else match pod_DeletionTimestamp pod with
      | Some _ =>
          r ← api (api_Get (pod_Namespace pod) groupName);
          match r with
          | Found _ => mret []
          | _ => _ ← api (api_Delete zeroPodGroup); mret []
          end
      | None =>
          if decide (pod_Phase pod ≠ PodPending) then mret []
          else match Strconv.ParseInt (GoMap.index (pod_Labels pod) flabel.PodGroupSizeLabel) with
          | None => mret []
          | Some groupSize =>
              r ← api (api_Get (pod_Namespace pod) groupName);
              match r with
              | NotFound =>
                  '(_, err) ← newPodGroup groupName (pod_Namespace pod) (GoInt.wrap 32 groupSize);
                  match err with
                  | None => mret [(pod_Namespace pod, groupName)]
                  | Some _ => mret []
                  end
              | _ => mret []
              end
          end
      end
  end.

(** ** Functions nothing calls at this commit *)

Definition patchPodGroup (old new : PodGroup) : GoM W (Result * option error) :=
  '(new, err) ← api (api_StatusPatch old new);
  match err with
  | Some err => mret (mkResult false, Some err)
  | None =>
      err ← api (api_Patch old new);
      mret (mkResult false, err)
  end.

Definition updateOwnerReferences (pg : PodGroup) (pods : list Pod)
    : GoM W (Result * option error) :=
  match pods with
  | [] => mret (mkResult true, None)
  | pod :: _ =>
      match pod_OwnerReferences pod with
      | [] => mret (mkResult true, None)
      | owners =>
          let refs := Strings.Sort ((λ o, pod_Namespace pod +:+ "/" +:+ owner_Name o) <$> owners) in
          let new := set_OwnerReferences owners
            (set_Status (set_OccupiedBy (Strings.Join refs ",") (pg_Status pg)) pg) in
          write_back pg new
      end
  end.
End controller.
