(* ===== verification/ControllerFacts.v ===== *)
(** * Facts about the PodGroup controller

    The phase a group moves to, the refinement of [Reconcile] to a pure step
    of the stored group, and the convergence of repeated reconciles. *)

From stdpp Require Import prelude gmap strings list fin_maps pretty.
From S2P Require Import Prelude GoRuntime Kube Wire Controller.

Local Open Scope Z_scope.

(** ** What the API server promises *)

(** An object as the server stores it when it is created at a time. *)
Definition as_created {Q : QuantityLib} (t : Time.t) (pg : PodGroup) : PodGroup :=
  mkPodGroup (pg_Name pg) (pg_Namespace pg) (pg_OwnerReferences pg) t (pg_Spec pg) zeroStatus.

(** What is left of a status under a schema that may lack the field
    creationTime: the server prunes fields the schema does not have. *)
Definition pruned (keep : bool) (st : PodGroupStatus) : PodGroupStatus :=
  if keep then st else set_CreationTime 0 st.

(** [stored w] is the PodGroups by namespace and name, [listed w sel] the
    pods a selector finds. The status subresource is enabled: a status update
    stores the status only, as far as the installed schema has its fields, a
    patch everything else. Decoding the answer of an update leaves a field the
    server omits (a zero [minMember], a pruned [creationTime]) as it was. *)
Class ApiLaws {Q : QuantityLib} {W : Type} (API : ApiServer W) := {
  stored : W → gmap (string * string) PodGroup;
  listed : W → string * string → list Pod;
  (** whether the schema has status.creationTime; that of the repository's
      charts (crds/scheduling.x-k8s.io_podgroups.yaml) does not *)
  keeps_creationTime : bool;
  stored_pruned ns n w pg :
    stored w !! (ns, n) = Some pg → pruned keeps_creationTime (pg_Status pg) = pg_Status pg;
  now_spec w : ∃ t w', api_Now w = (t, w') ∧ stored w' = stored w ∧ listed w' = listed w;
  get_found ns n w pg :
    stored w !! (ns, n) = Some pg →
    ∃ w', api_Get ns n w = (Found pg, w') ∧ stored w' = stored w ∧ listed w' = listed w;
  get_missing ns n w :
    stored w !! (ns, n) = None →
    ∃ w', api_Get ns n w = (NotFound, w') ∧ stored w' = stored w ∧ listed w' = listed w;
  list_spec sel w :
    ∃ w', api_List sel w = (OK (listed w sel), w') ∧ stored w' = stored w ∧ listed w' = listed w;
  stored_key ns n w pg :
    stored w !! (ns, n) = Some pg → pg_Namespace pg = ns ∧ pg_Name pg = n;
  status_update_spec pg old w :
    stored w !! (pg_Namespace pg, pg_Name pg) = Some old →
    ∃ w', api_StatusUpdate pg w =
        ((set_MinMember (if decide (spec_MinMember (pg_Spec old) = 0)
                         then spec_MinMember (pg_Spec pg) else spec_MinMember (pg_Spec old)) pg,
          None), w') ∧
      stored w' = <[(pg_Namespace pg, pg_Name pg) :=
                      set_Status (pruned keeps_creationTime (pg_Status pg)) old]> (stored w) ∧
      listed w' = listed w;
  (** for a patch that differs from its base in the status and [minMember] only *)
  patch_spec base m st old w :
    let new := set_MinMember m (set_Status st base) in
    stored w !! (pg_Namespace base, pg_Name base) = Some old →
    ∃ w', api_Patch base new w = (None, w') ∧
      stored w' = <[(pg_Namespace base, pg_Name base) :=
                      if decide (m = spec_MinMember (pg_Spec base)) then old
                      else set_MinMember m old]> (stored w) ∧
      listed w' = listed w;
  delete_spec pg old w :
    stored w !! (pg_Namespace pg, pg_Name pg) = Some old →
    ∃ w', api_Delete pg w = (None, w') ∧
      stored w' = delete (pg_Namespace pg, pg_Name pg) (stored w) ∧ listed w' = listed w;
  (** the server stamps a created object with the time and drops its status *)
  create_spec pg w :
    stored w !! (pg_Namespace pg, pg_Name pg) = None →
    ∃ t w', api_Create pg w = (None, w') ∧ 0 ≤ t ∧
      stored w' = <[(pg_Namespace pg, pg_Name pg) := as_created t pg]> (stored w) ∧
      listed w' = listed w;
  create_exists pg old w :
    stored w !! (pg_Namespace pg, pg_Name pg) = Some old →
    ∃ e w', api_Create pg w = (Some e, w') ∧ stored w' = stored w ∧ listed w' = listed w;
  delete_missing pg w :
    stored w !! (pg_Namespace pg, pg_Name pg) = None →
    ∃ e w', api_Delete pg w = (Some e, w') ∧ stored w' = stored w ∧ listed w' = listed w;
  (** an event is an object of its own *)
  event_spec pg msg w :
    stored (recorder_Event pg msg w) = stored w ∧ listed (recorder_Event pg msg w) = listed w;
}.

Section facts.
Context {Q : QuantityLib} {CL : ControllerLib}.

(** ** Counting and phases *)

Definition in_phase (p : PodPhase) (pods : list Pod) : Z :=
  Z.of_nat (length (filter (λ pod, pod_Phase pod = p) pods)).

Lemma in_phase_cons p pod pods :
  in_phase p (pod :: pods) = (if decide (pod_Phase pod = p) then 1 else 0) + in_phase p pods.
Proof. unfold in_phase. rewrite filter_cons. case_decide; simpl; lia. Qed.

Lemma in_phase_bound p pods : 0 ≤ in_phase p pods ≤ Z.of_nat (length pods).
Proof. unfold in_phase. pose proof (length_filter (λ pod, pod_Phase pod = p) pods). lia. Qed.

Lemma count_pods pods : ∀ r s f,
  foldl count_pod (GoInt.wrap 32 r, GoInt.wrap 32 s, GoInt.wrap 32 f) pods
  = (GoInt.wrap 32 (r + in_phase PodRunning pods), GoInt.wrap 32 (s + in_phase PodSucceeded pods),
     GoInt.wrap 32 (f + in_phase PodFailed pods)).
Proof.
  induction pods as [|pod pods IH]; intros r s f.
  - unfold in_phase. simpl. by rewrite !Z.add_0_r.
  - rewrite !in_phase_cons. cbn [foldl]. unfold count_pod at 2.
    destruct (pod_Phase pod); rewrite ?GoInt.wrap_add_l by done; rewrite IH;
      repeat case_decide; try done; by rewrite ?Z.add_0_l, ?Z.add_assoc.
Qed.

Lemma stats_run pods :
  Z.of_nat (length pods) < 2 ^ 31 →
  getCurrentPodStats pods
  = (in_phase PodRunning pods, in_phase PodSucceeded pods, in_phase PodFailed pods).
Proof.
  intros Hlen. unfold getCurrentPodStats.
  change (0, 0, 0) with (GoInt.wrap 32 0, GoInt.wrap 32 0, GoInt.wrap 32 0).
  rewrite count_pods, !Z.add_0_l.
  pose proof (in_phase_bound PodRunning pods). pose proof (in_phase_bound PodSucceeded pods).
  pose proof (in_phase_bound PodFailed pods).
  by rewrite !GoInt.wrap_id by (unfold GoInt.fits; lia).
Qed.

Lemma in_phase_sum pods :
  in_phase PodRunning pods + in_phase PodSucceeded pods + in_phase PodFailed pods
  ≤ Z.of_nat (length pods).
Proof.
  induction pods as [|pod pods IH]; [done|]. rewrite !in_phase_cons. cbn [length].
  repeat case_decide; congruence || lia.
Qed.

(** The phase of a group past pending, from the counts of its pods. *)
Definition phase_of (minMember n r s f : Z) : PodGroupPhase :=
  if decide (n < minMember) then PodGroupPending
  else if decide (minMember ≤ s) then PodGroupFinished
  else if decide (f ≠ 0 ∧ minMember ≤ f + r + s) then PodGroupFailed
  else if decide (minMember ≤ s + r) then PodGroupRunning
  else PodGroupScheduling.

Lemma next_status_active minMember pods st :
  Z.of_nat (length pods) < 2 ^ 31 →
  status_Phase st ≠ PodGroupPhaseEmpty → status_Phase st ≠ PodGroupPending →
  let r := in_phase PodRunning pods in
  let s := in_phase PodSucceeded pods in
  let f := in_phase PodFailed pods in
  next_status minMember pods st =
  set_Phase (phase_of minMember (Z.of_nat (length pods)) r s f)
    (if decide (Z.of_nat (length pods) < minMember) then st else set_counts r s f st).
Proof.
  intros Hlen H1 H2 r s f. unfold next_status, phase_of. rewrite stats_run by done.
  fold r s f. pose proof (in_phase_sum pods) as Hsum. fold r s f in Hsum.
  pose proof (in_phase_bound PodRunning pods) as Hr. fold r in Hr.
  pose proof (in_phase_bound PodSucceeded pods) as Hs. fold s in Hs.
  pose proof (in_phase_bound PodFailed pods) as Hf. fold f in Hf.
  assert (GoInt.wrap 32 (s + r) = s + r) as -> by (apply GoInt.wrap_id; unfold GoInt.fits; lia).
  assert (GoInt.wrap 32 (GoInt.wrap 32 (f + r) + s) = f + r + s) as ->.
  { rewrite GoInt.wrap_add_l by done. apply GoInt.wrap_id; unfold GoInt.fits; lia. }
  clearbody r s f. destruct (status_Phase st); try done;
    repeat (case_decide; try lia); done.
Qed.

(** The phase of a group follows from its current phase and the counts of its pods:
    empty to pending, pending to scheduling when there are enough pods, and otherwise
    pending, finished, failed, running or scheduling, in this order of precedence. *)
Theorem next_status_phases minMember pods st :
  Z.of_nat (length pods) < 2 ^ 31 →
  let r := in_phase PodRunning pods in
  let s := in_phase PodSucceeded pods in
  let f := in_phase PodFailed pods in
  let n := Z.of_nat (length pods) in
  let st' := next_status minMember pods st in
  match status_Phase st with
  | PodGroupPhaseEmpty => st' = set_Phase PodGroupPending st
  | PodGroupPending =>
      st' = set_Phase (if decide (minMember ≤ n) then PodGroupScheduling else PodGroupPending) st
  | _ =>
      status_Phase st' = phase_of minMember n r s f ∧
      (minMember ≤ n →
       status_Running st' = r ∧ status_Succeeded st' = s ∧ status_Failed st' = f)
  end.
Proof.
  intros Hlen r s f n st'.
  destruct (status_Phase st) eqn:Hp;
    try (unfold st'; rewrite next_status_active by (done || by rewrite Hp);
         fold r s f n; split; [done|]; intros; by rewrite decide_False by lia).
  - unfold st', next_status. by rewrite Hp.
  - unfold st', next_status. rewrite Hp. fold n.
    case_decide; [done|]. destruct st; simpl in *. by subst.
Qed.

(** ** One reconcile as a step of the stored group *)

Definition creation_stamp (pods : list Pod) (now : Time.t) : Time.t :=
  match pods with
  | [] => now
  | pod :: _ =>
      match GoMap.get (pod_Labels pod) flabel.PodGroupTimeCreated with
      | None => now
      | Some strTime =>
          match MicroTime_UnmarshalJSON strTime with OK mt => mt | Err _ => now end
      end
  end.

(** The size label of the first pod, or else the number of pods. *)
Definition group_size (pods : list Pod) : Z :=
  default (Z.of_nat (length pods))
    (head pods ≫= λ pod,
       Strconv.ParseInt (GoMap.index (pod_Labels pod) flabel.PodGroupSizeLabel)).

(** A group that no pod runs for, more than 48 hours after its creation. *)
Definition timed_out (pg : PodGroup) : Prop :=
  scheduling_or_pending (status_Phase (pg_Status pg)) ∧ status_Running (pg_Status pg) = 0 ∧
  two_days_old pg.
#[export] Instance timed_out_dec pg : Decision (timed_out pg).
Proof. unfold timed_out. apply _. Defined.

(** A group that reconciles leave alone. *)
Definition idle (pg : PodGroup) : Prop :=
  finished_or_failed (status_Phase (pg_Status pg)) ∨ timed_out pg.
#[export] Instance idle_dec pg : Decision (idle pg).
Proof. unfold idle. apply _. Defined.
#[global] Typeclasses Opaque timed_out idle.

(** What a reconcile makes of a stored group: [None] when it deletes it. *)
Definition next_group (keep : bool) (now : Time.t) (pods : list Pod) (pg : PodGroup)
    : option PodGroup :=
  let st := pg_Status pg in
  if decide (idle pg) then Some pg
  else if decide (status_CreationTime st = 0) then
    Some (set_Status (pruned keep (set_CreationTime (creation_stamp pods now) st)) pg)
  else if decide (spec_MinMember (pg_Spec pg) = 0) then
    Some (set_MinMember (group_size pods) pg)
  else
    let st' := next_status (spec_MinMember (pg_Spec pg)) pods st in
    if decide (finished_or_failed (status_Phase st')) then None else Some (set_Status st' pg).

Context {W : Type} {API : ApiServer W} {AL : ApiLaws API}.

Local Abbreviation keep := keeps_creationTime.

Lemma run_api {A} (f : W → A * W) w a w' : f w = (a, w') → api f w = (Ret a, w').
Proof. intros E. unfold api. by rewrite E. Qed.

Lemma set_MinMember_id pg : set_MinMember (spec_MinMember (pg_Spec pg)) pg = pg.
Proof. by destruct pg as [? ? ? ? [] ?]. Qed.

Lemma set_Status_id pg : set_Status (pg_Status pg) pg = pg.
Proof. by destruct pg. Qed.

Lemma set_MinMember_twice m m' pg : set_MinMember m (set_MinMember m' pg) = set_MinMember m pg.
Proof. done. Qed.

(** A stored group has a creation time only under a schema that has the field,
    and then statuses are stored as they are. *)
Lemma stored_keeps ns n w pg :
  stored w !! (ns, n) = Some pg → status_CreationTime (pg_Status pg) ≠ 0 → keep = true.
Proof.
  intros Hs. pose proof (stored_pruned _ _ _ _ Hs) as E. unfold pruned in E.
  destruct keep; [done|]. by rewrite <- E.
Qed.

(** The two calls that write back a new status and a new size: the size
    survives the answer to the first when the stored one is zero. *)
Lemma status_call ns n base m st w :
  stored w !! (ns, n) = Some base →
  m = spec_MinMember (pg_Spec base) ∨ spec_MinMember (pg_Spec base) = 0 →
  ∃ w', api_StatusUpdate (set_MinMember m (set_Status st base)) w
        = ((set_MinMember m (set_Status st base), None), w') ∧
    stored w' = <[(ns, n) := set_Status (pruned keep st) base]> (stored w) ∧
    listed w' = listed w.
Proof.
  intros Hs Hm. destruct (stored_key _ _ _ _ Hs) as [<- <-].
  set (new := set_MinMember m (set_Status st base)).
  destruct (status_update_spec new base w Hs) as (w'&E&S&L). exists w'.
  rewrite E. split_and!; [|exact S|done]. do 2 f_equal. unfold new. rewrite set_MinMember_twice.
  simpl. case_decide; [done|]. by destruct Hm as [->|?].
Qed.

Lemma patch_call ns n base m st st' w :
  stored w !! (ns, n) = Some (set_Status st' base) →
  ∃ w', api_Patch base (set_MinMember m (set_Status st base)) w = (None, w') ∧
    stored w' = <[(ns, n) := set_MinMember m (set_Status st' base)]> (stored w) ∧
    listed w' = listed w.
Proof.
  intros Hs. destruct (stored_key _ _ _ _ Hs) as [Hns Hn]. simpl in Hns, Hn. subst ns n.
  destruct (patch_spec base m st (set_Status st' base) w Hs) as (w'&E&S&L). exists w'.
  split_and!; [exact E| |done]. rewrite S. f_equal. case_decide as Em; [|done]. rewrite Em.
  by rewrite <- (set_MinMember_id (set_Status st' base)) at 1.
Qed.

Lemma write_back_run ns n base m st w :
  stored w !! (ns, n) = Some base →
  m = spec_MinMember (pg_Spec base) ∨ spec_MinMember (pg_Spec base) = 0 →
  ∃ w', write_back base (set_MinMember m (set_Status st base)) w = (Ret (mkResult true, None), w') ∧
    stored w' = <[(ns, n) := set_MinMember m (set_Status (pruned keep st) base)]> (stored w) ∧
    listed w' = listed w.
Proof.
  intros Hs Hm. destruct (status_call ns n base m st w Hs Hm) as (w1&E1&S1&L1).
  destruct (patch_call ns n base m st (pruned keep st) w1) as (w2&E2&S2&L2);
    [by rewrite S1, lookup_insert_eq|].
  exists w2. unfold write_back.
  erewrite Go.run_bind_ret by (apply run_api; exact E1). cbn beta iota.
  erewrite Go.run_bind_ret by (apply run_api; exact E2). split_and!; [done| |congruence].
  by rewrite S2, S1, insert_insert_eq.
Qed.

(** A group that never got a schedule start time does not time out. *)
Lemma never_times_out pg :
  status_ScheduleStartTime (pg_Status pg) = 0 → 0 ≤ pg_CreationTimestamp pg →
  ¬ two_days_old pg.
Proof.
  intros H0 H1. unfold two_days_old, Time.Sub. rewrite H0.
  unfold Time.Hour, Time.Second, Time.minDuration, Time.maxDuration. lia.
Qed.

Lemma never_timed_out pg :
  status_ScheduleStartTime (pg_Status pg) = 0 → 0 ≤ pg_CreationTimestamp pg → ¬ timed_out pg.
Proof. intros H0 H1 (_&_&H). by eapply never_times_out. Qed.

Lemma ParseInt_fits str z : Strconv.ParseInt str = Some z → GoInt.fits 32 z.
Proof.
  unfold Strconv.ParseInt. intros E.
  match type of E with (let '(_, _) := ?x in _) = _ => destruct x as [neg body] end.
  case_decide; [done|]. destruct (Strconv.digits 0 body) as [d|]; [|done].
  simpl in E. case_decide; [|done]. by simplify_eq.
Qed.

Lemma group_size_wrap pods :
  Z.of_nat (length pods) < 2 ^ 31 →
  match pods with
  | [] => GoInt.wrap 32 (Z.of_nat (length pods))
  | pod :: _ =>
      match Strconv.ParseInt (GoMap.index (pod_Labels pod) flabel.PodGroupSizeLabel) with
      | Some groupSize => GoInt.wrap 32 groupSize
      | None => GoInt.wrap 32 (Z.of_nat (length pods))
      end
  end = group_size pods.
Proof.
  intros Hlen. unfold group_size.
  assert (GoInt.wrap 32 (Z.of_nat (length pods)) = Z.of_nat (length pods)) as Hw
    by (apply GoInt.wrap_id; unfold GoInt.fits; lia).
  destruct pods as [|pod pods]; [done|]. simpl in *.
  destruct (Strconv.ParseInt _) as [z|] eqn:E; simpl; [|done].
  apply GoInt.wrap_id; [done|]. by eapply ParseInt_fits.
Qed.

(** What one reconcile leaves of the stored group. *)
Definition store_next (ns n : string) (o : option PodGroup) (m : gmap (string * string) PodGroup) :=
  match o with Some pg' => <[(ns, n) := pg']> m | None => delete (ns, n) m end.

Lemma setTimeCreated_run ns n pg pods t w :
  stored w !! (ns, n) = Some pg →
  ∃ w', setTimeCreated pg pods t w = (Ret (mkResult true, None), w') ∧
    stored w' = <[(ns, n) := set_Status
      (pruned keep (set_CreationTime (creation_stamp pods t) (pg_Status pg))) pg]> (stored w) ∧
    listed w' = listed w.
Proof.
  intros Hs. unfold setTimeCreated. fold (creation_stamp pods t).
  set (st := set_CreationTime _ _).
  destruct (write_back_run ns n pg (spec_MinMember (pg_Spec pg)) st w Hs) as (w'&E&S&L);
    [by left|].
  pose proof (set_MinMember_id (set_Status st pg)) as E1.
  pose proof (set_MinMember_id (set_Status (pruned keep st) pg)) as E2.
  simpl in E1, E2. rewrite E1 in E. rewrite E2 in S. by exists w'.
Qed.

Lemma updatePodGroupSize_run ns n pg pods w :
  stored w !! (ns, n) = Some pg → spec_MinMember (pg_Spec pg) = 0 →
  Z.of_nat (length pods) < 2 ^ 31 →
  ∃ w', updatePodGroupSize pg (GoInt.wrap 32 (Z.of_nat (length pods))) pods w
          = (Ret (mkResult true, None), w') ∧
    stored w' = <[(ns, n) := set_MinMember (group_size pods) pg]> (stored w) ∧
    listed w' = listed w.
Proof.
  intros Hs H0 Hlen. unfold updatePodGroupSize. cbv zeta. rewrite group_size_wrap by done.
  destruct (write_back_run ns n pg (group_size pods) (pg_Status pg) w Hs) as (w'&E&S&L);
    [by right|].
  rewrite (stored_pruned _ _ _ _ Hs) in S. rewrite set_Status_id in E, S. by exists w'.
Qed.

Lemma next_status_CreationTime m pods st :
  status_CreationTime (next_status m pods st) = status_CreationTime st.
Proof.
  unfold next_status. destruct (getCurrentPodStats pods) as [[r s] f].
  destruct (status_Phase st); repeat case_decide; done.
Qed.

Lemma updateStatus_run ns n pg pods w :
  stored w !! (ns, n) = Some pg → status_CreationTime (pg_Status pg) ≠ 0 →
  let st' := next_status (spec_MinMember (pg_Spec pg)) pods (pg_Status pg) in
  let fin := bool_decide (finished_or_failed (status_Phase st')) in
  ∃ w', updateStatus pg pods w = (Ret (mkResult (negb fin), None), w') ∧
    stored w' = store_next ns n (if fin then None else Some (set_Status st' pg)) (stored w) ∧
    listed w' = listed w.
Proof.
  intros Hs Hct st' fin. pose proof (stored_keeps _ _ _ _ Hs Hct) as Hk.
  destruct (stored_key _ _ _ _ Hs) as [<- <-].
  unfold updateStatus. cbv zeta. fold st'. unfold fin.
  change (pg_Status (set_Status st' pg)) with st'. case_bool_decide as Hf.
  - rewrite decide_True by done.
    destruct (delete_spec (set_Status st' pg) pg w Hs) as (w'&E&S&L). exists w'.
    by erewrite Go.run_bind_ret by (apply run_api; exact E).
  - rewrite decide_False by done.
    destruct (write_back_run _ _ pg (spec_MinMember (pg_Spec pg)) st' w Hs) as (w'&E&S&L);
      [by left|].
    unfold pruned in S. rewrite Hk in S.
    pose proof (set_MinMember_id (set_Status st' pg)) as Em. simpl in Em.
    rewrite Em in E, S. by exists w'.
Qed.

(** Whether the reconcile of [pg] that leaves [o] asks to be run again. *)
Definition requeues (pg : PodGroup) (o : option PodGroup) : bool :=
  bool_decide (¬ idle pg ∧ is_Some o).

Lemma Reconcile_step ns n pg w :
  stored w !! (ns, n) = Some pg →
  let pods := listed w (v1alpha1.PodGroupLabel, n) in
  Z.of_nat (length pods) < 2 ^ 31 →
  let o := next_group keep (api_Now w).1 pods pg in
  ∃ w', Reconcile ns n w = (Ret (mkResult (requeues pg o), None), w') ∧
    listed w' = listed w ∧ stored w' = store_next ns n o (stored w).
Proof.
  intros Hs pods Hlen o. unfold Reconcile.
  destruct (now_spec w) as (t&w1&E1&S1&L1).
  assert ((api_Now w).1 = t) as Ht by (by rewrite E1). unfold o. rewrite Ht.
  erewrite Go.run_bind_ret by (apply run_api; exact E1). cbn zeta.
  destruct (get_found ns n w1 pg) as (w2&E2&S2&L2); [by rewrite S1|].
  erewrite Go.run_bind_ret by (apply run_api; exact E2). cbn beta iota zeta.
  assert (stored w2 = stored w) as S2' by congruence.
  assert (listed w2 = listed w) as L2' by congruence.
  unfold requeues, next_group. destruct (decide (idle pg)) as [Hidle|Hidle].
  { rewrite bool_decide_false by tauto. simpl. rewrite insert_id by done.
    case_decide; [by exists w2|]. rewrite decide_True by (by destruct Hidle).
    rewrite Go.run_bind. cbn [Go.modify].
    destruct (event_spec pg "schedule time longer than 48 hours" w2) as [Se Le].
    eexists. split; [reflexivity|]. by rewrite Se, Le. }
  rewrite decide_False by (intros ?; by apply Hidle; left).
  rewrite decide_False by (intros ?; by apply Hidle; right).
  destruct (stored_key _ _ _ _ Hs) as [Hns Hn].
  destruct (list_spec (v1alpha1.PodGroupLabel, pg_Name pg) w2) as (w3&E3&S3&L3).
  erewrite Go.run_bind_ret by (apply run_api; exact E3). cbn beta iota.
  rewrite L2', Hn. fold pods.
  assert (stored w3 !! (ns, n) = Some pg) as Hs3 by (by rewrite S3, S2').
  assert (stored w3 = stored w) as <- by congruence.
  assert (listed w3 = listed w) as <- by congruence.
  unfold Time.IsZero.
  destruct (decide (status_CreationTime (pg_Status pg) = 0)) as [Hct|Hct];
    [rewrite (bool_decide_true (_ = 0)) by done
    |rewrite (bool_decide_false (_ = 0)) by done;
     destruct (decide (spec_MinMember (pg_Spec pg) = 0)) as [Hmm|Hmm]].
  - destruct (setTimeCreated_run ns n pg pods (Time.NewMicroTime t) w3 Hs3) as (w'&E&S&L).
    exists w'. by rewrite bool_decide_true by (split; [done|by eexists]).
  - destruct (updatePodGroupSize_run ns n pg pods w3 Hs3 Hmm Hlen) as (w'&E&S&L).
    exists w'. by rewrite bool_decide_true by (split; [done|by eexists]).
  - destruct (updateStatus_run ns n pg pods w3 Hs3 Hct) as (w'&E&S&L). exists w'.
    cbv zeta. case_bool_decide.
    + rewrite decide_True by done. by rewrite bool_decide_false by (by intros [_ [? ?]]).
    + rewrite decide_False by done. by rewrite bool_decide_true by (split; [done|by eexists]).
Qed.

Lemma Reconcile_missing ns n w :
  stored w !! (ns, n) = None →
  ∃ w', Reconcile ns n w = (Ret (mkResult false, None), w') ∧
    stored w' = stored w ∧ listed w' = listed w.
Proof.
  intros Hs. unfold Reconcile. destruct (now_spec w) as (t&w1&E1&S1&L1).
  erewrite Go.run_bind_ret by (apply run_api; exact E1). cbn zeta.
  destruct (get_missing ns n w1) as (w2&E2&S2&L2); [by rewrite S1|].
  erewrite Go.run_bind_ret by (apply run_api; exact E2). exists w2. split; [done|].
  split; congruence.
Qed.

(** C31: One reconcile of a stored group, with fewer than 2^31 listed pods, has on the
    API server's store exactly the effect of the pure step: nothing for a group that is
    finished or has timed out, else the creation time if it is missing, and as far as
    the installed schema has a field for it, else the size, else the phase, deleting the
    group when it finishes or fails; and it asks to be run again unless the group was
    finished, had timed out, or is deleted. *)
Theorem Reconcile_refines ns n pg w :
  stored w !! (ns, n) = Some pg →
  let pods := listed w (v1alpha1.PodGroupLabel, n) in
  Z.of_nat (length pods) < 2 ^ 31 →
  let now := (api_Now w).1 in
  ∃ requeue w', Reconcile ns n w = (Ret (mkResult requeue, None), w') ∧
    listed w' = listed w ∧
    stored w' = match next_group keeps_creationTime now pods pg with
                | Some pg' => <[(ns, n) := pg']> (stored w)
                | None => delete (ns, n) (stored w)
                end ∧
    (requeue = true ↔ ¬ finished_or_failed (status_Phase (pg_Status pg)) ∧ ¬ timed_out pg ∧
                      is_Some (next_group keeps_creationTime now pods pg)).
Proof.
  intros Hs pods Hlen now.
  destruct (Reconcile_step ns n pg w Hs Hlen) as (w'&E&L&S).
  fold pods now in E, S. do 2 eexists. split_and!; [exact E|done| |].
  - rewrite S. by destruct (next_group _ _ _ _).
  - unfold requeues, idle. rewrite bool_decide_eq_true. tauto.
Qed.

(** ** Repeated reconciles *)

Fixpoint reconciles (k : nat) (ns n : string) (w : W) : W :=
  match k with
  | 0%nat => w
  | S k => reconciles k ns n (Reconcile ns n w).2
  end.

(** The entry of a group and the pods listed for it. *)
Definition entry (w : W) (ns n : string) (pods : list Pod) (o : option PodGroup) : Prop :=
  stored w !! (ns, n) = o ∧ listed w (v1alpha1.PodGroupLabel, n) = pods.

Lemma Reconcile_entry ns n w pods o :
  entry w ns n pods o → Z.of_nat (length pods) < 2 ^ 31 →
  entry (Reconcile ns n w).2 ns n pods (o ≫= next_group keep (api_Now w).1 pods).
Proof.
  unfold entry. intros [Hs <-] Hlen. destruct o as [pg|]; simpl.
  - destruct (Reconcile_step ns n pg w Hs Hlen) as (w'&->&L&S). cbn [snd]. rewrite S, L.
    split; [|done]. destruct (next_group _ _ _ _); [apply lookup_insert_eq|apply lookup_delete_eq].
  - destruct (Reconcile_missing ns n w Hs) as (w'&->&S&L). cbn [snd]. by rewrite S, L.
Qed.

(** An entry that reconciles take to another, whatever the time. *)
Definition moves (pods : list Pod) (o o' : option PodGroup) : Prop :=
  ∀ now, o ≫= next_group keep now pods = o'.

Lemma reconciles_move ns n w pods o o' k :
  entry w ns n pods o → Z.of_nat (length pods) < 2 ^ 31 → moves pods o o' →
  ∃ w', reconciles (S k) ns n w = reconciles k ns n w' ∧ entry w' ns n pods o'.
Proof.
  intros He Hlen Hm. eexists. split; [reflexivity|]. rewrite <- (Hm (api_Now w).1).
  by apply Reconcile_entry.
Qed.

Lemma reconciles_stay ns n pods o k : ∀ w,
  entry w ns n pods o → Z.of_nat (length pods) < 2 ^ 31 → moves pods o o →
  entry (reconciles k ns n w) ns n pods o.
Proof.
  induction k as [|k IH]; intros w He Hlen Hm; [done|].
  destruct (reconciles_move ns n w pods o o k He Hlen Hm) as (w'&->&He'). by apply IH.
Qed.

(** A group as it is created, by the watch or by a user, whatever its size. *)
Definition fresh (pg : PodGroup) : Prop :=
  pg_Status pg = zeroStatus ∧ 0 ≤ pg_CreationTimestamp pg.

(** The group with a size, and a status with a creation time. *)
Definition aged (c m : Z) (p : PodGroupPhase) (r s f : Z) (pg : PodGroup) : PodGroup :=
  set_MinMember m (set_Status (mkPodGroupStatus p "" r s f c 0) pg).

(** What becomes of a group of a size in the end. *)
Definition settled (c size : Z) (pods : list Pod) (pg : PodGroup) : option PodGroup :=
  let n := Z.of_nat (length pods) in
  let r := in_phase PodRunning pods in
  let s := in_phase PodSucceeded pods in
  let f := in_phase PodFailed pods in
  let p := phase_of size n r s f in
  if decide (finished_or_failed p) then None
  else if decide (n < size) then Some (aged c size PodGroupPending 0 0 0 pg)
  else Some (aged c size p r s f pg).

Section converge.
Context (pods : list Pod) (pg : PodGroup) (c : Z).
Context (Hlen : Z.of_nat (length pods) < 2 ^ 31) (Hcr : 0 ≤ pg_CreationTimestamp pg).
Context (Hc : c ≠ 0).

Lemma aged_busy m p r s f : ¬ finished_or_failed p → ¬ idle (aged c m p r s f pg).
Proof. intros Hp [H|H]; [done|]. by apply never_timed_out in H. Qed.

(** One step of a group with a creation time. *)
Lemma aged_next now m p r s f :
  ¬ finished_or_failed p →
  next_group keep now pods (aged c m p r s f pg) =
  if decide (m = 0) then Some (aged c (group_size pods) p r s f pg)
  else
    let st := next_status m pods (mkPodGroupStatus p "" r s f c 0) in
    if decide (finished_or_failed (status_Phase st)) then None
    else Some (set_Status st (aged c m p r s f pg)).
Proof.
  intros Hp. unfold next_group. rewrite decide_False by (by apply aged_busy).
  by rewrite (decide_False (P:=status_CreationTime _ = 0)).
Qed.

Lemma moves_sized :
  moves pods (Some (aged c 0 PodGroupPhaseEmpty 0 0 0 pg))
    (Some (aged c (group_size pods) PodGroupPhaseEmpty 0 0 0 pg)).
Proof. intros now. simpl. rewrite aged_next by (by intros [|]). done. Qed.

Lemma moves_accepted size :
  size ≠ 0 →
  moves pods (Some (aged c size PodGroupPhaseEmpty 0 0 0 pg))
    (Some (aged c size PodGroupPending 0 0 0 pg)).
Proof.
  intros H0 now. simpl. rewrite aged_next, decide_False by (done || by intros [|]).
  unfold next_status. cbv zeta. cbn [set_Phase status_Phase].
  by rewrite decide_False by (by intros [|]).
Qed.

Lemma moves_pending size :
  size ≠ 0 →
  moves pods (Some (aged c size PodGroupPending 0 0 0 pg))
    (Some (aged c size (if decide (size ≤ Z.of_nat (length pods))
                        then PodGroupScheduling else PodGroupPending) 0 0 0 pg)).
Proof.
  intros H0 now. simpl. rewrite aged_next, decide_False by (done || by intros [|]).
  unfold next_status. cbn [status_Phase].
  cbv zeta.
  destruct (decide (size ≤ Z.of_nat (length pods))); cbn [set_Phase status_Phase];
    by rewrite decide_False by (by intros [|]).
Qed.

Lemma moves_active size p r s f :
  size ≠ 0 → size ≤ Z.of_nat (length pods) → p = PodGroupScheduling ∨ p = PodGroupRunning →
  moves pods (Some (aged c size p r s f pg)) (settled c size pods pg).
Proof.
  intros H0 Hn Hp now. simpl.
  rewrite aged_next, (decide_False (P:=size = 0)) by (done || destruct Hp as [-> | ->]; by intros [|]).
  cbv zeta. rewrite next_status_active by (done || by destruct Hp as [-> | ->]).
  unfold settled. cbv zeta. rewrite !(decide_False (P:=_ < size)) by lia. done.
Qed.

Lemma settled_stays size : size ≠ 0 → moves pods (settled c size pods pg) (settled c size pods pg).
Proof.
  intros H0. destruct (settled c size pods pg) as [pg'|] eqn:E; [|by intros now].
  pose proof E as E'. unfold settled in E. cbv zeta in E.
  case_decide as Hf; [done|]. case_decide as Hn; injection E as <-.
  - pose proof (moves_pending size H0) as H. by rewrite decide_False in H by lia.
  - rewrite <- E' at 2. apply moves_active; [done|lia|]. revert Hf.
    unfold phase_of, finished_or_failed.
    rewrite decide_False by lia. repeat case_decide; tauto.
Qed.

Lemma pending_settles size :
  size ≠ 0 →
  ∃ o, moves pods (Some (aged c size PodGroupPending 0 0 0 pg)) o ∧
    moves pods o (settled c size pods pg).
Proof.
  intros H0. eexists. split; [by apply moves_pending|]. case_decide as Hn.
  - by apply moves_active; [..|left].
  - assert (settled c size pods pg = Some (aged c size PodGroupPending 0 0 0 pg)) as E.
    { unfold settled. cbv zeta. rewrite (decide_True (P:=_ < size)) by lia.
      unfold phase_of. rewrite (decide_True (P:=_ < size)) by lia.
      by rewrite decide_False by (by intros [|]). }
    rewrite <- E. by apply settled_stays.
Qed.
End converge.

(** C37: Under a schema that has status.creationTime, five or more reconciles take a new
    group, with a size or without one, whose pods do not change and whose size, its own
    or else that of its pods, is not zero, to its final state and keep it there: deleted
    when enough pods have finished or failed, pending when there are fewer pods than the
    size, and otherwise running or scheduling with the counts of its pods. *)
Theorem reconciles_converge ns n w pg pods :
  keeps_creationTime = true →
  stored w !! (ns, n) = Some pg → listed w (v1alpha1.PodGroupLabel, n) = pods → fresh pg →
  Z.of_nat (length pods) < 2 ^ 31 →
  let c := creation_stamp pods (api_Now w).1 in
  let size := if decide (spec_MinMember (pg_Spec pg) = 0) then group_size pods
              else spec_MinMember (pg_Spec pg) in
  c ≠ 0 → size ≠ 0 →
  ∀ k, (5 ≤ k)%nat → stored (reconciles k ns n w) !! (ns, n) = settled c size pods pg.
Proof.
  intros Hk Hs Hl [Hst Hcr] Hlen c size Hc H0 k Hle.
  assert (entry w ns n pods (Some pg)) as He by done.
  apply Reconcile_entry in He; [|done]. cbn [mbind option_bind] in He.
  assert (next_group keep (api_Now w).1 pods pg
          = Some (aged c (spec_MinMember (pg_Spec pg)) PodGroupPhaseEmpty 0 0 0 pg)) as E.
  { unfold next_group. rewrite Hst. rewrite decide_False.
    2:{ intros [H|H]; [rewrite Hst in H; by destruct H|].
        apply never_timed_out in H; [done|by rewrite Hst|done]. }
    rewrite decide_True by done. unfold pruned. rewrite Hk. f_equal.
    symmetry. apply (set_MinMember_id (set_Status _ pg)). }
  rewrite E in He. destruct k as [|k]; [lia|]. cbn [reconciles]. clear E.
  set (w1 := (Reconcile ns n w).2) in *. clearbody w1.
  assert (∃ k' w2, (3 ≤ k')%nat ∧ reconciles k ns n w1 = reconciles k' ns n w2 ∧
            entry w2 ns n pods (Some (aged c size PodGroupPhaseEmpty 0 0 0 pg)))
    as (k'&w2&Hk'&->&He2).
  { unfold size in *. case_decide as Hm; [|exists k, w1; split; [lia|done]].
    rewrite Hm in He. destruct k as [|k]; [lia|].
    destruct (reconciles_move ns n w1 pods _ _ k He Hlen (moves_sized pods pg c Hcr Hc))
      as (w2&->&?). exists k, w2. split; [lia|done]. }
  destruct k' as [|[|[|k']]]; try lia.
  destruct (reconciles_move ns n w2 pods _ _ (S (S k')) He2 Hlen (moves_accepted pods pg c Hcr Hc size H0))
    as (w3&->&He3).
  destruct (pending_settles pods pg c Hlen Hcr Hc size H0) as (o&M1&M2).
  destruct (reconciles_move ns n w3 pods _ _ (S k') He3 Hlen M1) as (w4&->&He4).
  destruct (reconciles_move ns n w4 pods _ _ k' He4 Hlen M2) as (w5&->&He5).
  by apply (reconciles_stay ns n pods _ k' w5 He5 Hlen), settled_stays.
Qed.

(** ** The pod watch *)

(** The group the watch creates at a time for a pod with a group size. *)
Definition new_group (ns n : string) (size : Z) (t : Time.t) : PodGroup :=
  mkPodGroup n ns [] t (mkPodGroupSpec size ∅ None) zeroStatus.

(** A pending pod whose group is missing. *)
Lemma ensurePodGroup_creates pod w size :
  upstream_GetPodGroupLabel pod ≠ "" →
  Strconv.ParseInt (GoMap.index (pod_Labels pod) flabel.PodGroupSizeLabel) = Some size →
  pod_DeletionTimestamp pod = None → pod_Phase pod = PodPending →
  let ns := pod_Namespace pod in
  let n := upstream_GetPodGroupLabel pod in
  stored w !! (ns, n) = None →
  ∃ t w', ensurePodGroup (Some pod) w = (Ret [(ns, n)], w') ∧ 0 ≤ t ∧
    stored w' = <[(ns, n) := new_group ns n size t]> (stored w).
Proof.
  intros Hl Hp Hd Hph ns n Es. unfold ensurePodGroup.
  rewrite decide_False by (intros E; apply length_zero_empty in E; done).
  rewrite Hd, (decide_False (P:=_ ≠ PodPending)), Hp by (by intros []).
  destruct (get_missing ns n w Es) as (w1&E1&S1&_).
  erewrite Go.run_bind_ret by (apply run_api; exact E1). cbn beta iota.
  unfold newPodGroup. destruct (now_spec w1) as (t&w2&E2&S2&_).
  rewrite GoInt.wrap_id by (done || by eapply ParseInt_fits).
  destruct (create_spec (mkPodGroup n ns [] 0 (mkPodGroupSpec size ∅ None)
             (mkPodGroupStatus PodGroupPhaseEmpty "" 0 0 0 0 (Time.NewMicroTime t))) w2)
    as (t'&w3&E3&Ht'&S3&_); [simpl; by rewrite S2, S1|].
  rewrite Go.run_bind. erewrite Go.run_bind_ret by (apply run_api; exact E2).
  erewrite Go.run_bind_ret by (apply run_api; exact E3). simpl.
  exists t', w3. split; [done|]. split; [done|]. by rewrite S3, S2, S1.
Qed.

(** The group of a pod that is not deleted is left alone once it exists. *)
Lemma ensurePodGroup_present pod w pg :
  upstream_GetPodGroupLabel pod ≠ "" →
  stored w !! (pod_Namespace pod, upstream_GetPodGroupLabel pod) = Some pg →
  ∃ w', ensurePodGroup (Some pod) w = (Ret [], w') ∧ stored w' = stored w.
Proof.
  intros Hl Es. unfold ensurePodGroup.
  rewrite decide_False by (intros E; apply length_zero_empty in E; done).
  destruct (get_found _ _ w pg Es) as (w1&E1&S1&_).
  destruct (pod_DeletionTimestamp pod) as [t|].
  - erewrite Go.run_bind_ret by (apply run_api; exact E1). by eexists.
  - case_decide; [by eexists|]. destruct (Strconv.ParseInt _); [|by eexists].
    erewrite Go.run_bind_ret by (apply run_api; exact E1). by eexists.
Qed.

(** The pod watch creates a group of the labelled size for a pending pod without
    one and enqueues it; for any other pod it leaves the store alone, and in particular
    keeps the group of a deleted pod. *)
Theorem ensurePodGroup_outcomes pod w size :
  upstream_GetPodGroupLabel pod ≠ "" →
  Strconv.ParseInt (GoMap.index (pod_Labels pod) flabel.PodGroupSizeLabel) = Some size →
  let ns := pod_Namespace pod in
  let n := upstream_GetPodGroupLabel pod in
  let '(reqs, w') := ensurePodGroup (Some pod) w in
  match pod_DeletionTimestamp pod, pod_Phase pod, stored w !! (ns, n) with
  | None, PodPending, None =>
      (** a pending pod without a group gets one, which is then reconciled *)
      reqs = Ret [(ns, n)] ∧ ∃ t, 0 ≤ t ∧ stored w' = <[(ns, n) := new_group ns n size t]> (stored w)
  | Some _, _, None => reqs = Ret []
  | _, _, _ =>
      (** anything else leaves the store alone, the group of a deleted pod too *)
      reqs = Ret [] ∧ stored w' = stored w
  end.
Proof.
  intros Hl Hp ns n.
  destruct (stored w !! (ns, n)) as [pg|] eqn:Es.
  { destruct (ensurePodGroup_present pod w pg Hl Es) as (w'&->&S).
    by destruct (pod_DeletionTimestamp pod), (pod_Phase pod). }
  destruct (pod_DeletionTimestamp pod) as [t|] eqn:Ed.
  - unfold ensurePodGroup. rewrite Ed.
    rewrite decide_False by (intros E; apply length_zero_empty in E; done).
    destruct (get_missing ns n w Es) as (w1&E1&S1&_).
    erewrite Go.run_bind_ret by (apply run_api; exact E1). cbn beta iota.
    rewrite Go.run_bind. unfold api. destruct (api_Delete _ _). by destruct (pod_Phase pod).
  - destruct (decide (pod_Phase pod = PodPending)) as [Hph|Hph].
    + rewrite Hph. destruct (ensurePodGroup_creates pod w size Hl Hp Ed Hph Es) as (t&w'&->&Ht&->).
      split; [done|]. by exists t.
    + unfold ensurePodGroup. rewrite Ed.
      rewrite decide_False by (intros E; apply length_zero_empty in E; done).
      rewrite decide_True by done. by destruct (pod_Phase pod).
Qed.
End facts.
