(* ===== verification/ControlPlane.v ===== *)
(** * The controller as a whole: the life of a PodGroup

    Reconciles and pod events of the controller in any order, interleaved with
    everything else that happens to the API server: pods come, change and go,
    users create, edit and delete groups. Every step of the controller moves a
    group along a small life cycle, and the stored groups stay well-formed;
    but under a schema that lacks status.creationTime, such as that of the
    repository's charts, the controller gets no further than its first step. *)

From stdpp Require Import prelude gmap strings list relations.
From S2P Require Import Prelude GoRuntime Kube Wire Controller ControllerFacts.

Local Open Scope Z_scope.

(** ** The life cycle, as an abstract automaton *)

Section life.
Context {Q : QuantityLib}.

(** The phases a stored group can be in. *)
Definition live_phase (p : PodGroupPhase) : Prop :=
  p = PodGroupPhaseEmpty ∨ p = PodGroupPending ∨ p = PodGroupScheduling ∨ p = PodGroupRunning.

(** The arrows between them; a group leaves the last two for good when it
    finishes or fails. *)
Inductive arrow : PodGroupPhase → PodGroupPhase → Prop :=
| arrow_accept : arrow PodGroupPhaseEmpty PodGroupPending
| arrow_wait : arrow PodGroupPending PodGroupPending
| arrow_schedule : arrow PodGroupPending PodGroupScheduling
| arrow_active p q :
    p = PodGroupScheduling ∨ p = PodGroupRunning →
    q = PodGroupPending ∨ q = PodGroupScheduling ∨ q = PodGroupRunning → arrow p q.

(** The pods of a group that has a size have finished or failed. *)
Definition over (pg : PodGroup) (pods : list Pod) : Prop :=
  let size := spec_MinMember (pg_Spec pg) in
  let s := in_phase PodSucceeded pods in
  let r := in_phase PodRunning pods in
  let f := in_phase PodFailed pods in
  size ≠ 0 ∧ size ≤ Z.of_nat (length pods) ∧ (size ≤ s ∨ (0 < f ∧ size ≤ f + r + s)).

(** What the controller may do to the entry of a group, given the pods it
    lists for it. *)
Inductive life (pods : list Pod) : option PodGroup → option PodGroup → Prop :=
| life_same o : life pods o o
| life_created pg :
    pg_Status pg = zeroStatus → 0 ≤ pg_CreationTimestamp pg → life pods None (Some pg)
| life_timed pg t :
    status_CreationTime (pg_Status pg) = 0 →
    life pods (Some pg) (Some (set_Status (set_CreationTime t (pg_Status pg)) pg))
| life_sized pg n :
    spec_MinMember (pg_Spec pg) = 0 → life pods (Some pg) (Some (set_MinMember n pg))
| life_moved pg st :
    arrow (status_Phase (pg_Status pg)) (status_Phase st) →
    status_CreationTime st = status_CreationTime (pg_Status pg) →
    life pods (Some pg) (Some (set_Status st pg))
| life_ended pg :
    status_Phase (pg_Status pg) = PodGroupScheduling ∨
    status_Phase (pg_Status pg) = PodGroupRunning →
    over pg pods → life pods (Some pg) None.

(** A stored group: it has a phase only with a creation time, and is running
    only while the counts it shows have a running pod and no failed one. *)
Record group_ok (pg : PodGroup) : Prop := {
  ok_phase : live_phase (status_Phase (pg_Status pg));
  ok_start : status_ScheduleStartTime (pg_Status pg) = 0;
  ok_created : 0 ≤ pg_CreationTimestamp pg;
  ok_timed : status_Phase (pg_Status pg) ≠ PodGroupPhaseEmpty →
    status_CreationTime (pg_Status pg) ≠ 0;
  ok_running : status_Phase (pg_Status pg) = PodGroupRunning →
    status_Failed (pg_Status pg) = 0 ∧ 0 < status_Running (pg_Status pg);
}.

(** It says nothing about the specification, which is the user's. *)
Lemma group_ok_edit pg pg' :
  pg_Status pg' = pg_Status pg → pg_CreationTimestamp pg' = pg_CreationTimestamp pg →
  group_ok pg → group_ok pg'.
Proof. intros Es Ec [Hp Hst Hcr Ht Hr]. by split; rewrite ?Es, ?Ec. Qed.

Lemma ok_busy `{CL : !ControllerLib} pg : group_ok pg → ¬ idle pg.
Proof.
  intros Hok [Hf|Hout].
  - pose proof (ok_phase _ Hok). unfold live_phase, finished_or_failed in *. intuition congruence.
  - apply never_timed_out in Hout; [done|apply (ok_start _ Hok)|apply (ok_created _ Hok)].
Qed.

(** ** The pure step follows the life cycle *)

Lemma over_phase size n r s f :
  finished_or_failed (phase_of size n r s f) ↔
  size ≤ n ∧ (size ≤ s ∨ (f ≠ 0 ∧ size ≤ f + r + s)).
Proof.
  unfold finished_or_failed, phase_of.
  repeat case_decide; (split; [intros [?|?]; try discriminate; lia|intros [? [?|[? ?]]]; first [lia|auto]]).
Qed.

Lemma phase_of_live size n r s f :
  ¬ finished_or_failed (phase_of size n r s f) →
  phase_of size n r s f = PodGroupPending ∨ phase_of size n r s f = PodGroupScheduling ∨
  phase_of size n r s f = PodGroupRunning.
Proof.
  unfold finished_or_failed, phase_of. repeat case_decide; tauto.
Qed.

(** The status of a group past pending after one step. *)
Lemma next_status_past pg pods :
  group_ok pg → Z.of_nat (length pods) < 2 ^ 31 → spec_MinMember (pg_Spec pg) ≠ 0 →
  status_Phase (pg_Status pg) = PodGroupScheduling ∨
  status_Phase (pg_Status pg) = PodGroupRunning →
  let st := next_status (spec_MinMember (pg_Spec pg)) pods (pg_Status pg) in
  if decide (finished_or_failed (status_Phase st)) then over pg pods
  else arrow (status_Phase (pg_Status pg)) (status_Phase st) ∧
    group_ok (set_Status st pg).
Proof.
  intros Hok Hlen Hsize Hp st. unfold st.
  rewrite next_status_active by (done || (by destruct Hp as [-> | ->])).
  set (r := in_phase PodRunning pods). set (s := in_phase PodSucceeded pods).
  set (f := in_phase PodFailed pods). set (size := spec_MinMember (pg_Spec pg)) in *.
  set (n := Z.of_nat (length pods)) in *. cbn [set_Phase status_Phase].
  pose proof (in_phase_bound PodFailed pods) as Hf. fold f in Hf.
  case_decide as Hfin.
  { apply over_phase in Hfin as [? [?|[? ?]]]; unfold over; fold size s r f n; [auto|].
    split; [done|]. split; [done|right; lia]. }
  apply phase_of_live in Hfin as Hq.
  split; [by apply arrow_active|]. destruct Hok as [_ Hst Hcr Hset _].
  assert (status_Phase (pg_Status pg) ≠ PodGroupPhaseEmpty) as Hne by (by destruct Hp as [-> | ->]).
  split; cbn [pg_Status pg_Spec pg_CreationTimestamp set_Status set_Phase status_Phase
    status_ScheduleStartTime status_CreationTime status_Failed status_Running].
  - unfold live_phase. tauto.
  - by case_decide.
  - done.
  - intros _. case_decide; apply Hset, Hne.
  - intros E. revert E. unfold phase_of. rewrite over_phase in Hfin.
    case_decide; [done|]. repeat (case_decide; try done). intros _. simpl. lia.
Qed.

Lemma set_CreationTime_ok t pg :
  group_ok pg → status_CreationTime (pg_Status pg) = 0 →
  group_ok (set_Status (set_CreationTime t (pg_Status pg)) pg).
Proof. intros [Hp Hst Hcr Hset Hrun] Ht. split; try done. intros Hne. by destruct (Hset Hne). Qed.

(** One pure step of a well-formed group. *)
Lemma next_group_life `{CL : !ControllerLib} keep now pods pg :
  group_ok pg → Z.of_nat (length pods) < 2 ^ 31 →
  life pods (Some pg) (next_group keep now pods pg) ∧
  (∀ pg', next_group keep now pods pg = Some pg' → group_ok pg').
Proof.
  intros Hok Hlen. unfold next_group. pose proof (ok_phase _ Hok) as Hp.
  rewrite decide_False by (by apply ok_busy).
  case_decide as Ht.
  { assert (∃ t, pruned keep (set_CreationTime (creation_stamp pods now) (pg_Status pg))
                 = set_CreationTime t (pg_Status pg)) as [t ->]
      by (destruct keep; by eexists).
    split; [by constructor|]. intros ? [= <-]. by apply set_CreationTime_ok. }
  case_decide as Hn.
  { split; [by constructor|]. intros ? [= <-]. by apply (group_ok_edit pg). }
  assert (status_Phase (pg_Status pg) = PodGroupPhaseEmpty ∨
          status_Phase (pg_Status pg) = PodGroupPending ∨
          (status_Phase (pg_Status pg) = PodGroupScheduling ∨
           status_Phase (pg_Status pg) = PodGroupRunning)) as [He|[He|Ha]]
    by (unfold live_phase in Hp; tauto).
  - unfold next_status. rewrite He. rewrite decide_False by (by intros [|]).
    destruct Hok as [_ Hst Hcr _ _]. split.
    + apply life_moved; [rewrite He; constructor|done].
    + intros ? [= <-]. split; try done. by right; left.
  - unfold next_status. rewrite He. destruct Hok as [_ Hst Hcr _ _].
    destruct (decide (spec_MinMember (pg_Spec pg) ≤ Z.of_nat (length pods))).
    + rewrite decide_False by (by intros [|]). split.
      * apply life_moved; [rewrite He; constructor|done].
      * intros ? [= <-]. split; try done. by right; right; left.
    + rewrite decide_False by (rewrite He; by intros [|]). split.
      * apply life_moved; [rewrite He; constructor|done].
      * intros ? [= <-]. split; try done; simpl; by rewrite ?He.
  - pose proof (next_status_past pg pods Hok Hlen Hn Ha) as H. cbv zeta in H.
    set (st := next_status _ _ _) in *. case_decide.
    + split; [by apply life_ended|done].
    + destruct H as [Harr Hok']. split; [|by intros ? [= <-]].
      apply life_moved; [done|]. apply next_status_CreationTime.
Qed.
End life.

(** ** Steps of the controller and of everybody else *)

Section control_plane.
Context {Q : QuantityLib} {CL : ControllerLib} {W : Type} {API : ApiServer W} {AL : ApiLaws API}.

Definition group_pods (w : W) (n : string) : list Pod := listed w (v1alpha1.PodGroupLabel, n).

(** The controller reconciles a group, of fewer than 2^31 pods, or handles an
    event of the watched objects. *)
Inductive controller : W → W → Prop :=
| controller_reconcile ns n w :
    Z.of_nat (length (group_pods w n)) < 2 ^ 31 → controller w (Reconcile ns n w).2
| controller_watch obj w : controller w (ensurePodGroup obj w).2.

(** Users and the rest of the cluster: pods and the clock change at will, a
    group is created, deleted, or edited in all but its status. *)
Inductive others : W → W → Prop :=
| others_pods w w' : stored w' = stored w → others w w'
| others_create pg t w w' :
    pg_Name pg ≠ "" → stored w !! (pg_Namespace pg, pg_Name pg) = None → 0 ≤ t →
    stored w' = <[(pg_Namespace pg, pg_Name pg) := as_created t pg]> (stored w) → others w w'
| others_delete k w w' : stored w' = delete k (stored w) → others w w'
| others_edit k pg pg' w w' :
    stored w !! k = Some pg → pg_Name pg' = pg_Name pg → pg_Namespace pg' = pg_Namespace pg →
    pg_CreationTimestamp pg' = pg_CreationTimestamp pg → pg_Status pg' = pg_Status pg →
    stored w' = <[k := pg']> (stored w) → others w w'.

Definition event (w w' : W) : Prop := controller w w' ∨ others w w'.

(** The store of a cluster without PodGroups, and all it can become. *)
Definition reachable (w : W) : Prop := ∃ w0, stored w0 = ∅ ∧ rtc event w0 w.

Definition store_ok (w : W) : Prop :=
  stored w !! ("", "") = None ∧ ∀ k pg, stored w !! k = Some pg → group_ok pg.

Lemma as_created_ok t pg : 0 ≤ t → group_ok (as_created t pg).
Proof. intros Ht. split; try done. by left. Qed.

(** What the watch does to the store. *)
Lemma ensurePodGroup_store obj w :
  stored w !! ("", "") = None →
  stored (ensurePodGroup obj w).2 = stored w ∨
  ∃ ns n size t, n ≠ "" ∧ stored w !! (ns, n) = None ∧ 0 ≤ t ∧
    stored (ensurePodGroup obj w).2 = <[(ns, n) := new_group ns n size t]> (stored w).
Proof.
  intros Hz. destruct obj as [pod|]; [|by left].
  destruct (decide (upstream_GetPodGroupLabel pod = "")) as [Hl|Hl].
  { left. unfold ensurePodGroup. by rewrite Hl. }
  set (ns := pod_Namespace pod). set (n := upstream_GetPodGroupLabel pod).
  destruct (stored w !! (ns, n)) as [pg|] eqn:Es.
  { left. by destruct (ensurePodGroup_present pod w pg Hl Es) as (w'&->&?). }
  destruct (pod_DeletionTimestamp pod) as [d|] eqn:Ed.
  - left. unfold ensurePodGroup. rewrite Ed.
    rewrite decide_False by (intros E; apply length_zero_empty in E; done).
    destruct (get_missing ns n w Es) as (w1&E1&S1&_).
    erewrite Go.run_bind_ret by (apply run_api; exact E1). cbn beta iota.
    destruct (delete_missing zeroPodGroup w1) as (e&w2&E2&S2&_); [by rewrite S1|].
    erewrite Go.run_bind_ret by (apply run_api; exact E2). simpl. congruence.
  - destruct (decide (pod_Phase pod = PodPending)) as [Hph|Hph];
      [destruct (Strconv.ParseInt (GoMap.index (pod_Labels pod) flabel.PodGroupSizeLabel))
         as [size|] eqn:Hsize|].
    + right. destruct (ensurePodGroup_creates pod w size Hl Hsize Ed Hph Es) as (t&w'&->&Ht&S).
      by exists ns, n, size, t.
    + left. unfold ensurePodGroup. rewrite Ed, Hsize.
      rewrite decide_False by (intros E; apply length_zero_empty in E; done). by case_decide.
    + left. unfold ensurePodGroup. rewrite Ed.
      rewrite decide_False by (intros E; apply length_zero_empty in E; done).
      by rewrite decide_True.
Qed.

(** A step of the controller on a well-formed store. *)
Lemma controller_life w w' :
  store_ok w → controller w w' →
  store_ok w' ∧ ∀ k, life (group_pods w k.2) (stored w !! k) (stored w' !! k).
Proof.
  intros Hw Hc. revert Hw. destruct Hc as [ns n w1 Hlen|obj w1]; intros [Hz Hok].
  - destruct (stored w1 !! (ns, n)) as [pg|] eqn:Es.
    2:{ destruct (Reconcile_missing _ _ _ Es) as (w2&->&S&_). unfold store_ok. cbn [snd].
        rewrite S. split; [by split|constructor]. }
    pose proof (Hok _ _ Es) as Hpg.
    destruct (Reconcile_step ns n pg w1 Es Hlen) as (w2&->&_&S). cbn [snd].
    destruct (next_group_life keeps_creationTime (api_Now w1).1 (group_pods w1 n) pg Hpg Hlen)
      as [Hlife Hnext].
    unfold group_pods in Hlife, Hnext.
    set (o := next_group _ _ _ _) in *.
    assert (∀ k, stored w2 !! k = if decide (k = (ns, n)) then o else stored w1 !! k) as Hlook.
    { intros k. rewrite S. unfold store_next. case_decide as Hk.
      - subst k. destruct o; [apply lookup_insert_eq|apply lookup_delete_eq].
      - destruct o; [by apply lookup_insert_ne|by apply lookup_delete_ne]. }
    split; [split|].
    + rewrite Hlook. case_decide as Hk; [|done]. exfalso. congruence.
    + intros k pg'. rewrite Hlook. case_decide; [apply Hnext|apply Hok].
    + intros k. rewrite Hlook. case_decide as Hk; [|constructor]. subst k. by rewrite Es.
  - destruct (ensurePodGroup_store obj w1 Hz) as [S|(ns&n&size&t&Hn&Es&Ht&S)];
      unfold store_ok; rewrite S; [split; [by split|constructor]|].
    split; [split|].
    + rewrite lookup_insert_ne; [done|]. congruence.
    + intros k pg' [[<- <-]|[_ ?]]%lookup_insert_Some; [|by eapply Hok].
      split; try done. by left.
    + intros k. destruct (decide (k = (ns, n))) as [->|Hk].
      * rewrite lookup_insert_eq, Es. by apply life_created.
      * rewrite lookup_insert_ne by done. constructor.
Qed.

Lemma others_ok w w' : store_ok w → others w w' → store_ok w'.
Proof.
  unfold store_ok. intros Hw Ho. revert Hw.
  destruct Ho as [w1 w2 S|pg t w1 w2 Hn Hk Ht S|k w1 w2 S|k pg pg' w1 w2 Hk _ _ Hc Hs S];
    intros [Hz Hok]; rewrite S.
  - done.
  - split; [rewrite lookup_insert_ne; [done|congruence]|].
    intros k pg' [[<- <-]|[_ ?]]%lookup_insert_Some; [by apply as_created_ok|by eapply Hok].
  - split; [by apply lookup_delete_None; right|].
    intros k' pg' [_ ?]%lookup_delete_Some. by eapply Hok.
  - split.
    + rewrite lookup_insert_ne; [done|]. congruence.
    + intros k' pg'' [[<- <-]|[_ ?]]%lookup_insert_Some; [|by eapply Hok].
      eapply group_ok_edit; [exact Hs|exact Hc|by eapply Hok].
Qed.

Lemma store_reachable_ok w : reachable w → store_ok w.
Proof.
  intros (w0&H0&Hr). assert (store_ok w0) as Hok.
  { split; [by rewrite H0|]. intros k pg. by rewrite H0. }
  clear H0. induction Hr as [|w1 w2 w3 [Hc|Ho] _ IH]; [done|apply IH..].
  - by eapply controller_life.
  - by eapply others_ok.
Qed.

(** C35: In every state a cluster without PodGroups can reach, through reconciles and
    pod events in any order, while pods change and other users create, delete and edit
    groups, all but their statuses, as they like: a stored group is new, pending,
    scheduling or running, has a phase only with a creation time, and is running only
    while its status counts a running pod and no failed one. *)
Theorem stored_groups_ok w k pg :
  reachable w → stored w !! k = Some pg → group_ok pg.
Proof. intros Hr. apply (store_reachable_ok w Hr). Qed.

(** C32: Each step of the controller, in any reachable state, moves every group along
    the arrows of the life cycle: created without a phase, then timed, sized, pending,
    scheduling and running, and deleted only once its pods have finished or failed. *)
Theorem controller_follows_life_cycle w w' k :
  reachable w → controller w w' → life (group_pods w k.2) (stored w !! k) (stored w' !! k).
Proof. intros Hr Hc. by apply (controller_life w w' (store_reachable_ok w Hr) Hc). Qed.

(** C36: Under a schema without status.creationTime, such as the one in the repository's
    charts, the controller never gets past its first step: in every reachable state a
    stored group has no phase, and each reconcile of it leaves the store as it is and
    asks to be run again, whatever the group's pods do; in particular the controller
    never deletes a group. *)
Theorem schema_stalls_controller ns n pg w :
  keeps_creationTime = false →
  reachable w → stored w !! (ns, n) = Some pg → Z.of_nat (length (group_pods w n)) < 2 ^ 31 →
  status_Phase (pg_Status pg) = PodGroupPhaseEmpty ∧
  ∃ w', Reconcile ns n w = (Ret (mkResult true, None), w') ∧ stored w' = stored w.
Proof.
  intros Hkeep Hr Hs Hlen. pose proof (proj2 (store_reachable_ok w Hr) _ _ Hs) as Hok.
  pose proof (stored_pruned _ _ _ _ Hs) as Hp. unfold pruned in Hp. rewrite Hkeep in Hp.
  assert (status_CreationTime (pg_Status pg) = 0) as Ht by (by rewrite <- Hp).
  split.
  { destruct (decide (status_Phase (pg_Status pg) = PodGroupPhaseEmpty)) as [|Hne]; [done|].
    by destruct (ok_timed _ Hok Hne). }
  destruct (Reconcile_step ns n pg w Hs Hlen) as (w'&E&_&S). exists w'.
  assert (∀ now, next_group keeps_creationTime now (group_pods w n) pg = Some pg) as Hnext.
  { intros now. unfold next_group. rewrite decide_False by (by apply ok_busy).
    rewrite decide_True by done. rewrite Hkeep. f_equal. unfold pruned.
    change (set_CreationTime 0 (set_CreationTime ?t ?st)) with (set_CreationTime 0 st).
    rewrite Hp. apply set_Status_id. }
  unfold group_pods in Hnext. rewrite Hnext in E, S. split.
  - rewrite E. unfold requeues. rewrite bool_decide_true; [done|].
    split; [by apply ok_busy|by eexists].
  - rewrite S. simpl. by rewrite insert_id.
Qed.
End control_plane.
