(* ===== verification/Workers.v ===== *)
(** * The controller's workers

    controller-runtime runs reconciles of different groups, and the handlers
    of pod events, in goroutines of their own (MaxConcurrentReconciles); it
    never runs two reconciles of one group at once. Reconcile and
    ensurePodGroup call by call, in any interleaving: the reconcile of a group
    is one step of that group, on the pods it was listed with. *)

From stdpp Require Import prelude gmap strings list fin_maps relations.
From S2P Require Import Prelude GoRuntime Kube Wire Threads Pool Apart Controller ControllerFacts ControlPlane.

Local Open Scope Z_scope.

(** ** The controller call by call *)

(** Something the controller is asked to do, and what comes of it. *)
Inductive work {Q : QuantityLib} :=
| W_Reconcile (ns n : string)
| W_Watch (obj : option Pod).

Inductive worked :=
| reconciled (r : Result * option error)
| watched (reqs : list (string * string)).

Section workers.
Context {Q : QuantityLib} {CL : ControllerLib} {W : Type} {API : ApiServer W}.

Definition papi {A} (f : W → A * W) : prog W A := act Private f.

Definition write_back_prog (old new : PodGroup) : prog W (Result * option error) :=
  '(new, _) ← papi (api_StatusUpdate new);
  err ← papi (api_Patch old new);
  mret (mkResult true, err).

Definition updateStatus_prog (pg : PodGroup) (pods : list Pod) : prog W (Result * option error) :=
  let new := set_Status (next_status (spec_MinMember (pg_Spec pg)) pods (pg_Status pg)) pg in
  if decide (finished_or_failed (status_Phase (pg_Status new))) then
    err ← papi (api_Delete new);
    mret (mkResult false, err)
  else write_back_prog pg new.

Definition setTimeCreated_prog (pg : PodGroup) (pods : list Pod) (timestamp : Time.t)
    : prog W (Result * option error) :=
  let timestamp :=
    match pods with
    | [] => timestamp
    | pod :: _ =>
        match GoMap.get (pod_Labels pod) flabel.PodGroupTimeCreated with
        | None => timestamp
        | Some strTime =>
            match MicroTime_UnmarshalJSON strTime with
            | OK mt => mt
            | Err _ => timestamp
            end
        end
    end in
  write_back_prog pg (set_Status (set_CreationTime timestamp (pg_Status pg)) pg).

Definition updatePodGroupSize_prog (old : PodGroup) (size : Z) (pods : list Pod)
    : prog W (Result * option error) :=
  let size :=
    match pods with
    | [] => size
    | pod :: _ =>
        match Strconv.ParseInt (GoMap.index (pod_Labels pod) flabel.PodGroupSizeLabel) with
        | Some groupSize => GoInt.wrap 32 groupSize
        | None => size
        end
    end in
  write_back_prog old (set_MinMember size old).

(** The rest of a reconcile that has found a group. *)
Definition found_prog (timestamp : Time.t) (pg : PodGroup) : prog W (Result * option error) :=
  let phase := status_Phase (pg_Status pg) in
  if decide (finished_or_failed phase) then mret (mkResult false, None)
  else if decide (scheduling_or_pending phase ∧ status_Running (pg_Status pg) = 0 ∧
                  two_days_old pg)
  then
    _ ← writes Private (recorder_Event pg "schedule time longer than 48 hours");
    mret (mkResult false, None)
  else
    r ← papi (api_List (v1alpha1.PodGroupLabel, pg_Name pg));
    match r with
    | Err err => mret (mkResult false, Some err)
    | OK pods =>
        if Time.IsZero (status_CreationTime (pg_Status pg))
        then setTimeCreated_prog pg pods timestamp
        else if decide (spec_MinMember (pg_Spec pg) = 0)
        then updatePodGroupSize_prog pg (GoInt.wrap 32 (Z.of_nat (length pods))) pods
        else updateStatus_prog pg pods
    end.

Definition Reconcile_prog (namespace name : string) : prog W (Result * option error) :=
  now ← papi api_Now;
  r ← papi (api_Get namespace name);
  match r with
  | NotFound => mret (mkResult false, None)
  | GetErr err => mret (mkResult false, Some err)
  | Found pg => found_prog (Time.NewMicroTime now) pg
  end.

Definition newPodGroup_prog (name namespace : string) (groupSize : Z)
    : prog W (PodGroup * option error) :=
  now ← papi api_Now;
  let pg := mkPodGroup name namespace [] 0 (mkPodGroupSpec groupSize ∅ None)
              (mkPodGroupStatus PodGroupPhaseEmpty "" 0 0 0 0 (Time.NewMicroTime now)) in
  err ← papi (api_Create pg);
  mret (pg, err).

Definition ensurePodGroup_prog (obj : option Pod) : prog W (list (string * string)) :=
  match obj with
  | None => mret []
  | Some pod =>
      let groupName := upstream_GetPodGroupLabel pod in
      if decide (String.length groupName = 0%nat) then mret []
      else match pod_DeletionTimestamp pod with
      | Some _ =>
          r ← papi (api_Get (pod_Namespace pod) groupName);
          match r with
          | Found _ => mret []
          | _ => _ ← papi (api_Delete zeroPodGroup); mret []
          end
      | None =>
          if decide (pod_Phase pod ≠ PodPending) then mret []
          else match Strconv.ParseInt (GoMap.index (pod_Labels pod) flabel.PodGroupSizeLabel) with
          | None => mret []
          | Some groupSize =>
              r ← papi (api_Get (pod_Namespace pod) groupName);
              match r with
              | NotFound =>
                  '(_, err) ← newPodGroup_prog groupName (pod_Namespace pod)
                                (GoInt.wrap 32 groupSize);
                  match err with
                  | None => mret [(pod_Namespace pod, groupName)]
                  | Some _ => mret []
                  end
              | _ => mret []
              end
          end
      end
  end.

Definition work_prog (x : work) : prog W worked :=
  match x with
  | W_Reconcile ns n => r ← Reconcile_prog ns n; mret (reconciled r)
  | W_Watch obj => l ← ensurePodGroup_prog obj; mret (watched l)
  end.

Definition do_work (x : work) : GoM W worked :=
  match x with
  | W_Reconcile ns n => r ← Reconcile ns n; mret (reconciled r)
  | W_Watch obj => l ← ensurePodGroup obj; mret (watched l)
  end.

(** ** Alone a worker does what the functions do *)

Lemma runs_papi {A} held (f : W → A * W) : runs_as held (papi f) (api f).
Proof. by apply runs_act. Qed.

Local Hint Resolve runs_ret runs_papi runs_writes : go.
Ltac runs_go := repeat first
  [ progress auto with go
  | apply runs_bind; [auto with go|intros ?]
  | case_match | progress intros ? ].

Lemma write_back_runs held old new : runs_as held (write_back_prog old new) (write_back old new).
Proof. unfold write_back_prog, write_back. runs_go. Qed.
Local Hint Resolve write_back_runs : go.

(** A goroutine that reconciles a group or handles an event, and is not
    disturbed, does what the function it runs does. *)
Theorem workers_run_alone held x : runs_as held (work_prog x) (do_work x).
Proof.
  destruct x as [ns n|obj]; (apply runs_bind; [|intros ?; apply runs_ret]).
  - unfold Reconcile_prog, found_prog, Reconcile, setTimeCreated_prog, setTimeCreated,
      updatePodGroupSize_prog, updatePodGroupSize, updateStatus_prog, updateStatus. runs_go.
  - unfold ensurePodGroup_prog, ensurePodGroup, newPodGroup_prog, newPodGroup. runs_go.
Qed.

(** ** What the workers rely on *)

Context {AL : ApiLaws API}.

(** A group as it has just been created. *)
Definition newly (pg : PodGroup) : Prop :=
  pg_Status pg = zeroStatus ∧ 0 ≤ pg_CreationTimestamp pg.

(** The group under a key stays as it is; if there is none one may be made. *)
Definition kept (k : string * string) : relation W := λ w w',
  match stored w !! k with
  | Some pg => stored w' !! k = Some pg
  | None => ∀ pg, stored w' !! k = Some pg → newly pg
  end.
(** No group is stored without a name. *)
Definition named : relation W := λ w w',
  stored w !! ("", "") = None → stored w' !! ("", "") = None.

(** A reconcile relies on its group being left alone. *)
Definition relies (x : work) : relation W :=
  match x with
  | W_Reconcile ns n => kept (ns, n)
  | W_Watch _ => named
  end.
(** It touches no other group, and the watch only makes groups. *)
Definition guarantees (x : work) : relation W := λ w w',
  match x with
  | W_Reconcile ns n => ∀ k, k ≠ (ns, n) → stored w' !! k = stored w !! k
  | W_Watch _ => (∀ k, kept k w w') ∧ named w w'
  end.
(** So do the other users of the API server; pods and time may change. *)
Definition bystanders : relation W := λ w w', (∀ k, kept k w w') ∧ named w w'.

#[export] Instance kept_preorder k : PreOrder (kept k).
Proof.
  split.
  - intros w. unfold kept. destruct (stored w !! k) eqn:E; congruence.
  - intros w1 w2 w3 H12 H23. unfold kept in *. destruct (stored w1 !! k) as [pg|].
    + by rewrite H12 in H23.
    + destruct (stored w2 !! k) as [pg|]; [|done]. intros pg' E. rewrite H23 in E.
      injection E as <-. by apply H12.
Qed.
#[export] Instance named_preorder : PreOrder named.
Proof. split; unfold named; repeat intro; auto. Qed.
#[export] Instance relies_preorder x : PreOrder (relies x).
Proof. destruct x; apply _. Qed.

Lemma kept_stored k w w' : stored w' = stored w → kept k w w'.
Proof. intros E. unfold kept. rewrite E. destruct (stored w !! k) eqn:Ek; congruence. Qed.
Lemma kept_lookup k w w' : stored w' !! k = stored w !! k → kept k w w'.
Proof. intros E. unfold kept. rewrite E. destruct (stored w !! k) eqn:Ek; congruence. Qed.
Lemma kept_Some k w w' pg : kept k w w' → stored w !! k = Some pg → stored w' !! k = Some pg.
Proof. unfold kept. by intros H E; rewrite E in H. Qed.

(** ** One reconcile *)

(** [r] is the answer to, and [o] afterwards the entry of, a group [pg] that
    has taken one step of the controller, with the time and the pods of
    moments of the run. *)
Definition stepped (seen : W → Prop) (n : string) (pg : PodGroup)
    (r : Result * option error) (o : option PodGroup) : Prop :=
  ∃ x z, seen x ∧ seen z ∧
    let next := next_group keeps_creationTime (api_Now x).1 (group_pods z n) pg in
    r = (mkResult (match next with
                   | Some pg' => bool_decide (¬ finished_or_failed (status_Phase (pg_Status pg')))
                   | None => false
                   end), None) ∧
    match next with
    | Some pg' => o = Some pg'
    | None => ∀ pg', o = Some pg' → newly pg'
    end.

Lemma stepped_on (seen : W → Prop) n pg x z pg' :
  seen x → seen z → next_group keeps_creationTime (api_Now x).1 (group_pods z n) pg = Some pg' →
  stepped seen n pg (mkResult (bool_decide (¬ finished_or_failed (status_Phase (pg_Status pg')))), None)
    (Some pg').
Proof. intros Hx Hz E. exists x, z. cbv zeta. by rewrite E. Qed.

Lemma stepped_off (seen : W → Prop) n pg x z o :
  seen x → seen z → next_group keeps_creationTime (api_Now x).1 (group_pods z n) pg = None →
  (∀ pg', o = Some pg' → newly pg') → stepped seen n pg (mkResult false, None) o.
Proof. intros Hx Hz E Ho. exists x, z. cbv zeta. by rewrite E. Qed.

Section reconcile.
Context (seen : W → Prop) (ns n : string).
Context (small : ∀ w, seen w → Z.of_nat (length (group_pods w n)) < 2 ^ 31).

Local Abbreviation follows p P w :=
  (conforms seen (kept (ns, n)) (guarantees (W_Reconcile ns n)) P p w).

(** A call that leaves the groups alone. *)
Lemma quiet_call {A} (f : W → A * W) (P : outcome A → W → Prop) w :
  (∀ v, stored (f v).2 = stored v) →
  (∀ v u, seen v → kept (ns, n) w v → kept (ns, n) (f v).2 u → P (Ret (f v).1) u) →
  follows (papi f) P w.
Proof.
  intros Hf HP. apply conforms_act. intros v Hv Hr. split; [by intros k _; rewrite Hf|].
  intros _ u _ Hu. by apply HP.
Qed.

(** The two calls that write a group back. *)
Lemma write_back_follows base m st w P :
  stored w !! (ns, n) = Some base →
  m = spec_MinMember (pg_Spec base) ∨ spec_MinMember (pg_Spec base) = 0 →
  (∀ v, seen v →
     stored v !! (ns, n) = Some (set_MinMember m (set_Status (pruned keeps_creationTime st) base)) →
     P (Ret (mkResult true, None)) v) →
  follows (write_back_prog base (set_MinMember m (set_Status st base))) P w.
Proof.
  intros Hs Hm HP. unfold write_back_prog.
  apply (conforms_bind _ _ _), conforms_act. intros v Hv Hr.
  destruct (status_call ns n base m st v) as (w1&E1&S1&_); [by eapply kept_Some|done|].
  rewrite E1. cbn [fst snd]. split; [intros k Hk; by rewrite S1, lookup_insert_ne|].
  intros _ u Hu Hru. apply (conforms_bind _ _ _), conforms_act. intros x Hx Hrx.
  destruct (patch_call ns n base m st (pruned keeps_creationTime st) x) as (w2&E2&S2&_).
  { eapply kept_Some; [exact Hrx|]. eapply kept_Some; [exact Hru|]. by rewrite S1, lookup_insert_eq. }
  rewrite E2. cbn [fst snd]. split; [intros k Hk; by rewrite S2, lookup_insert_ne|].
  intros _ y Hy Hry. apply conforms_ret. intros z Hz Hrz. apply HP; [done|].
  eapply kept_Some; [exact Hrz|]. eapply kept_Some; [exact Hry|]. by rewrite S2, lookup_insert_eq.
Qed.

Lemma delete_follows pg st w P :
  stored w !! (ns, n) = Some pg →
  (∀ v, seen v → (∀ pg', stored v !! (ns, n) = Some pg' → newly pg') →
     P (Ret (mkResult false, None)) v) →
  follows (err ← papi (api_Delete (set_Status st pg)); mret (mkResult false, err)) P w.
Proof.
  intros Hs HP. destruct (stored_key _ _ _ _ Hs) as [Hns Hn].
  apply (conforms_bind _ _ _), conforms_act. intros v Hv Hr.
  destruct (delete_spec (set_Status st pg) pg v) as (v'&Ed&Sd&_).
  { simpl. rewrite Hns, Hn. by eapply kept_Some. }
  simpl in Sd. rewrite Hns, Hn in Sd. rewrite Ed. cbn [fst snd].
  split; [intros k Hk; by rewrite Sd, lookup_delete_ne|].
  intros _ y Hy Hry. apply conforms_ret. intros u Hu Hru. apply HP; [done|].
  assert (kept (ns, n) v' u) as Hk by (by etrans).
  unfold kept in Hk. by rewrite Sd, lookup_delete_eq in Hk.
Qed.

Lemma found_follows pg x w :
  seen x → seen w → stored w !! (ns, n) = Some pg →
  status_ScheduleStartTime (pg_Status pg) = 0 → 0 ≤ pg_CreationTimestamp pg →
  follows (found_prog (Time.NewMicroTime (api_Now x).1) pg)
    (λ o v, ∃ r, o = Ret r ∧ stepped seen n pg r (stored v !! (ns, n))) w.
Proof.
  intros Hx Hw Hs Hst Hcr. destruct (stored_key _ _ _ _ Hs) as [_ Hn]. unfold found_prog.
  set (t := (api_Now x).1). case_decide as Hfin.
  { apply conforms_ret. intros v Hv Hr. rewrite (kept_Some _ _ _ _ Hr Hs).
    assert (next_group keeps_creationTime t (group_pods w n) pg = Some pg) as E
      by (unfold next_group; by rewrite decide_True by (by left)).
    pose proof (stepped_on seen n pg x w pg Hx Hw E) as H.
    rewrite bool_decide_false in H by tauto. by eexists. }
  assert (¬ timed_out pg) as Hout by (by apply never_timed_out).
  rewrite decide_False by done.
  apply (conforms_bind _ _ _), quiet_call.
  { intros v. by destruct (list_spec (v1alpha1.PodGroupLabel, pg_Name pg) v) as (w'&->&?&_). }
  intros z u Hz Hrz Hru. rewrite Hn.
  destruct (list_spec (v1alpha1.PodGroupLabel, n) z) as (z'&E&Sz&_). rewrite E.
  rewrite Hn, E in Hru. cbn [fst snd] in Hru |- *. fold (group_pods z n).
  pose proof (small z Hz) as Hlen. set (pods := group_pods z n) in *.
  assert (stored u !! (ns, n) = Some pg) as Hu.
  { eapply kept_Some; [exact Hru|]. rewrite Sz. by eapply kept_Some. }
  assert (∀ m st, m = spec_MinMember (pg_Spec pg) ∨ spec_MinMember (pg_Spec pg) = 0 →
    next_group keeps_creationTime t pods pg
      = Some (set_MinMember m (set_Status (pruned keeps_creationTime st) pg)) →
    ¬ finished_or_failed (status_Phase st) →
    follows (write_back_prog pg (set_MinMember m (set_Status st pg)))
      (λ o v, ∃ r, o = Ret r ∧ stepped seen n pg r (stored v !! (ns, n))) u) as Hwrite.
  { intros m st Hm En Hf. apply write_back_follows; [done..|]. intros v Hv ->. eexists.
    split; [done|]. pose proof (stepped_on seen n pg x z _ Hx Hz En) as H.
    rewrite bool_decide_true in H; [done|]. simpl. unfold pruned. by case_match. }
  pose proof (stepped_off seen n pg x z) as Hoff. fold t pods in Hoff.
  unfold next_group in Hwrite, Hoff.
  rewrite (decide_False (P:=idle pg)) in Hwrite, Hoff by (by intros [|]).
  unfold Time.IsZero. case_bool_decide as Ht;
    [rewrite decide_True in Hwrite by done
    |rewrite decide_False in Hwrite, Hoff by done; case_decide as Hm].
  - unfold setTimeCreated_prog. fold (creation_stamp pods (Time.NewMicroTime t)).
    change (Time.NewMicroTime t) with t. set (st := set_CreationTime _ _) in *.
    rewrite <- (set_MinMember_id (set_Status st pg)) at 1.
    apply Hwrite; [by left| |done]. f_equal. symmetry.
    apply (set_MinMember_id (set_Status (pruned _ st) pg)).
  - unfold updatePodGroupSize_prog. cbv zeta. rewrite group_size_wrap by done.
    rewrite <- (set_Status_id pg) at 2.
    apply Hwrite; [by right| |done]. by rewrite (stored_pruned _ _ _ _ Hs), set_Status_id.
  - unfold updateStatus_prog. set (st := next_status _ _ _) in *. cbv zeta. cbn [pg_Status set_Status].
    case_decide as Hf.
    + apply (delete_follows pg); [done|]. intros v Hv Hnew. eexists. split; [done|]. by apply Hoff.
    + rewrite <- (set_MinMember_id (set_Status st pg)) at 1.
      apply Hwrite; [by left| |done]. rewrite (stored_keeps _ _ _ _ Hs Ht). f_equal. symmetry.
      apply (set_MinMember_id (set_Status st pg)).
Qed.

(** A reconcile of a group that is there, or is made meanwhile. *)
Definition reconciled_ok (entry : option PodGroup) (r : Result * option error)
    (o : option PodGroup) : Prop :=
  match entry with
  | Some pg => stepped seen n pg r o
  | None => r = (mkResult false, None) ∨ ∃ pg, newly pg ∧ stepped seen n pg r o
  end.

Lemma Reconcile_follows w :
  (∀ pg, stored w !! (ns, n) = Some pg →
     status_ScheduleStartTime (pg_Status pg) = 0 ∧ 0 ≤ pg_CreationTimestamp pg) →
  follows (Reconcile_prog ns n)
    (λ o v, ∃ r, o = Ret r ∧ reconciled_ok (stored w !! (ns, n)) r (stored v !! (ns, n))) w.
Proof.
  intros Hok. unfold Reconcile_prog. apply (conforms_bind _ _ _), quiet_call.
  { intros v. by destruct (now_spec v) as (t&w'&->&?&_). }
  intros x u Hx Hrx Hru. destruct (now_spec x) as (t&x'&E&Sx&_).
  assert (t = (api_Now x).1) as -> by (by rewrite E). rewrite E in Hru |- *. cbn [fst snd] in *.
  assert (kept (ns, n) w u) as Hwu.
  { etrans; [exact Hrx|]. etrans; [by apply kept_stored|exact Hru]. }
  apply (conforms_bind _ _ _), conforms_act. intros y Hy Hry.
  assert (kept (ns, n) w y) as Hwy by (by etrans).
  destruct (stored y !! (ns, n)) as [pg|] eqn:Ey.
  - destruct (get_found ns n y pg Ey) as (y'&->&Sy&_). cbn [fst snd].
    split; [intros k _; by rewrite Sy|]. intros _ v Hv Hrv.
    assert (stored v !! (ns, n) = Some pg) as Hsv by (eapply kept_Some; [exact Hrv|by rewrite Sy]).
    unfold kept in Hwy.
    destruct (stored w !! (ns, n)) as [pg0|] eqn:Ew.
    + assert (pg0 = pg) as -> by congruence. destruct (Hok pg eq_refl). by apply found_follows.
    + pose proof (Hwy pg Ey) as Hn. eapply conforms_mono; [|apply found_follows; try done].
      * intros o z (r&->&Hst). eexists. split; [done|]. right. by exists pg.
      * by rewrite (proj1 Hn).
      * apply Hn.
  - destruct (get_missing ns n y Ey) as (y'&->&Sy&_). cbn [fst snd].
    split; [intros k _; by rewrite Sy|]. intros _ v Hv Hrv. apply conforms_ret. intros z Hz Hrz.
    eexists. split; [done|]. unfold kept in Hwy.
    destruct (stored w !! (ns, n)); [congruence|by left].
Qed.
End reconcile.

(** ** One event of the watch *)

(** The watch asks for nothing, or for the group it has made from the pod's
    labels, which was stored at a moment of the run. *)
Definition watched_ok (seen : W → Prop) (obj : option Pod) (reqs : list (string * string)) : Prop :=
  reqs = [] ∨ ∃ pod size t y,
    let k := (pod_Namespace pod, upstream_GetPodGroupLabel pod) in
    obj = Some pod ∧ reqs = [k] ∧
    Strconv.ParseInt (GoMap.index (pod_Labels pod) flabel.PodGroupSizeLabel) = Some size ∧
    seen y ∧ stored y !! k = Some (new_group k.1 k.2 size t).

Section watch.
Context (seen : W → Prop).

Local Abbreviation watches p P w := (conforms seen named (guarantees (W_Watch None)) P p w).

Lemma still_call {A} (f : W → A * W) (P : outcome A → W → Prop) w :
  stored w !! ("", "") = None → (∀ v, stored (f v).2 = stored v) →
  (∀ v u, seen v → stored u !! ("", "") = None → P (Ret (f v).1) u) →
  watches (papi f) P w.
Proof.
  intros Hw Hf HP. apply conforms_act. intros v Hv Hr. specialize (Hr Hw). split.
  - split; [intros k; by apply kept_stored|unfold named; by rewrite Hf].
  - intros _ u _ Hu. apply HP; [done|]. apply Hu. by rewrite Hf.
Qed.

Lemma nothing_watched obj w :
  watches (mret [] : prog W _) (λ o _, ∃ l, o = Ret l ∧ watched_ok seen obj l) w.
Proof. apply conforms_ret. intros v _ _. eexists. split; [done|by left]. Qed.

Lemma get_still ns n w : stored (api_Get ns n w).2 = stored w.
Proof.
  destruct (stored w !! (ns, n)) as [pg|] eqn:E.
  - by destruct (get_found ns n w pg E) as (w'&->&?&_).
  - by destruct (get_missing ns n w E) as (w'&->&?&_).
Qed.

Lemma create_watched pod size w P :
  stored w !! ("", "") = None → upstream_GetPodGroupLabel pod ≠ "" →
  let k := (pod_Namespace pod, upstream_GetPodGroupLabel pod) in
  (∀ v pg e, (e = None → ∃ t y, seen y ∧ stored y !! k = Some (new_group k.1 k.2 size t)) →
     P (Ret (pg, e)) v) →
  watches (newPodGroup_prog k.2 k.1 size) P w.
Proof.
  intros Hw Hn k HP. apply (conforms_bind _ _ _), still_call; [done| |].
  { intros v. by destruct (now_spec v) as (t&w'&->&?&_). }
  intros x u Hx Hu. set (pg := mkPodGroup _ _ _ _ _ _).
  apply (conforms_bind _ _ _), conforms_act. intros v Hv Hr. specialize (Hr Hu).
  destruct (stored v !! k) as [old|] eqn:Ek.
  - destruct (create_exists pg old v Ek) as (e&v'&->&Sv&_). cbn [fst snd]. split.
    + split; [intros k'; by apply kept_stored|unfold named; by rewrite Sv].
    + intros _ y _ _. apply conforms_ret. intros z _ _. by apply HP.
  - destruct (create_spec pg v Ek) as (t&v'&->&Ht&Sv&_). cbn [fst snd].
    assert (stored v' = <[k := new_group k.1 k.2 size t]> (stored v)) as Sv' by exact Sv.
    split; [split|].
    + intros k'. destruct (decide (k' = k)) as [->|Hk].
      * unfold kept. rewrite Ek, Sv', lookup_insert_eq. by intros ? [= <-].
      * apply kept_lookup. by rewrite Sv', lookup_insert_ne.
    + intros _. rewrite Sv', lookup_insert_ne; [done|]. unfold k. congruence.
    + intros Hv' y _ _. apply conforms_ret. intros z _ _. apply HP. intros _.
      exists t, v'. split; [done|]. by rewrite Sv', lookup_insert_eq.
Qed.

Lemma ensurePodGroup_watches obj w :
  stored w !! ("", "") = None →
  watches (ensurePodGroup_prog obj) (λ o _, ∃ l, o = Ret l ∧ watched_ok seen obj l) w.
Proof.
  intros Hw. unfold ensurePodGroup_prog. destruct obj as [pod|]; [|apply nothing_watched].
  case_decide as Hl; [apply nothing_watched|].
  assert (upstream_GetPodGroupLabel pod ≠ "") as Hne by (intros E; by rewrite E in Hl).
  destruct (pod_DeletionTimestamp pod) as [d|]; [|case_decide; [apply nothing_watched|];
    destruct (Strconv.ParseInt _) as [size|] eqn:Esize; [|apply nothing_watched]].
  - apply (conforms_bind _ _ _), still_call; [done|apply get_still|]. intros v u Hv Hu.
    destruct (api_Get _ _ v).1; [apply nothing_watched| |].
    all: apply (conforms_bind _ _ _), conforms_act; intros x Hx Hr; specialize (Hr Hu).
    all: destruct (delete_missing zeroPodGroup x Hr) as (e'&x'&->&Sx&_); cbn [fst snd].
    all: split; [split; [intros k; by apply kept_stored|unfold named; by rewrite Sx]|].
    all: intros _ y _ _; apply nothing_watched.
  - apply (conforms_bind _ _ _), still_call; [done|apply get_still|]. intros v u Hv Hu.
    destruct (api_Get _ _ v).1; [apply nothing_watched| |apply nothing_watched].
    apply (conforms_bind _ _ _).
    apply (create_watched pod (GoInt.wrap 32 size)); [done..|]. intros x pg e He. cbn beta iota.
    destruct e as [e|]; [apply nothing_watched|]. apply conforms_ret. intros y _ _.
    eexists. split; [done|]. right. destruct (He eq_refl) as (t&z&Hz&Sz).
    rewrite GoInt.wrap_id in Sz by (done || by eapply ParseInt_fits). by exists pod, size, t, z.
Qed.
End watch.

(** ** All workers together *)

Definition target (x : work) : option (string * string) :=
  match x with W_Reconcile ns n => Some (ns, n) | W_Watch _ => None end.

(** The postcondition of a worker, for the groups [w0] it started with. *)
Definition worked_ok (seen : W → Prop) (w0 : W) (x : work) (o : outcome worked) (w : W) : Prop :=
  match x with
  | W_Reconcile ns n => ∃ r, o = Ret (reconciled r) ∧
      reconciled_ok seen n (stored w0 !! (ns, n)) r (stored w !! (ns, n))
  | W_Watch obj => ∃ l, o = Ret (watched l) ∧ watched_ok seen obj l
  end.

Lemma stepped_stable seen n pg r k w v :
  stepped seen n pg r (stored w !! k) → kept k w v → stepped seen n pg r (stored v !! k).
Proof.
  intros (x&z&Hx&Hz&H) Hk. exists x, z. split; [done|]. split; [done|]. cbv zeta in *.
  destruct H as [Hr Ho]. split; [exact Hr|]. unfold kept in Hk.
  destruct (next_group _ _ _) as [pg'|]; [by rewrite Ho in Hk|].
  intros pg' E. destruct (stored w !! k) as [old|]; [|by apply Hk].
  rewrite Hk in E. injection E as <-. by apply Ho.
Qed.

Lemma reconciled_stable seen n entry r k w v :
  reconciled_ok seen n entry r (stored w !! k) → kept k w v →
  reconciled_ok seen n entry r (stored v !! k).
Proof.
  destruct entry as [pg|]; simpl; [by apply stepped_stable|].
  intros [->|(pg&Hn&Hs)] Hk; [by left|right]. exists pg. split; [done|by eapply stepped_stable].
Qed.

Lemma work_conforms seen w0 x :
  (∀ w n, seen w → Z.of_nat (length (group_pods w n)) < 2 ^ 31) → store_ok w0 →
  conforms seen (relies x) (guarantees x) (worked_ok seen w0 x) (work_prog x) w0.
Proof.
  intros Hsmall [Hz Hok]. destruct x as [ns n|obj]; apply (conforms_bind _ _ _).
  - eapply conforms_mono; [|apply Reconcile_follows; [by intros w; apply Hsmall|]].
    + intros o v (r&->&Hr). apply conforms_ret. intros u _ Hu. eexists. split; [done|].
      by eapply reconciled_stable.
    + intros pg E. destruct (Hok _ _ E). done.
  - eapply conforms_mono; [|by apply (ensurePodGroup_watches seen obj)].
    intros o v (l&->&Hl). apply conforms_ret. intros u _ _. by exists l.
Qed.

Definition targets (works : list work) : list (string * string) := omap target works.

Definition at_work {X} (default : X) (f : work → X) (works : list work) (i : nat) : X :=
  from_option f default (works !! i).

Lemma targets_apart works i j x y :
  NoDup (targets works) → works !! i = Some x → works !! j = Some y → i ≠ j →
  target x = target y → target x = None.
Proof.
  intros Hnd Hx Hy Hne E. destruct (target x) as [k|] eqn:Ek; [|done]. exfalso. symmetry in E.
  revert i j Hx Hy Hne Hnd. induction works as [|z works IH]; intros [|i] [|j] Hx Hy Hne Hnd;
    simplify_eq/=; try done.
  - unfold targets in Hnd. simpl in Hnd. rewrite Ek in Hnd. apply NoDup_cons in Hnd as [Hin _].
    apply Hin, list_elem_of_omap. exists y. split; [by eapply list_elem_of_lookup_2|done].
  - unfold targets in Hnd. simpl in Hnd. rewrite E in Hnd. apply NoDup_cons in Hnd as [Hin _].
    apply Hin, list_elem_of_omap. exists x. split; [by eapply list_elem_of_lookup_2|done].
  - eapply (IH i j); [done|done|congruence|]. unfold targets in Hnd. simpl in Hnd.
    destruct (target z); [by apply NoDup_cons in Hnd as [_ ?]|done].
Qed.

(** What one worker guarantees another can rely on. *)
Lemma works_apart works i j x y w v :
  NoDup (targets works) → ("", "") ∉ targets works →
  works !! i = Some x → works !! j = Some y → i ≠ j → guarantees x w v → relies y w v.
Proof.
  intros Hnd Hnn Hx Hy Hne. destruct x as [ns n|obj], y as [ns' n'|obj']; simpl.
  - intros Hg. apply kept_lookup, Hg. intros E.
    assert (target (W_Reconcile ns n) = target (W_Reconcile ns' n')) as E' by (simpl; congruence).
    pose proof (targets_apart _ _ _ _ _ Hnd Hx Hy Hne E') as HN. done.
  - intros Hg Hz. rewrite Hg; [done|]. intros E. apply Hnn. rewrite E.
    apply list_elem_of_omap. exists (W_Reconcile ns n).
    split; [by eapply list_elem_of_lookup_2|done].
  - intros [Hk _]. apply Hk.
  - by intros [_ ?].
Qed.

(** C33: The controller's workers keep apart: let reconciles of different groups and
    handlers of pod events run call by call in any order, while pods and time change and
    others create groups. Then each reconcile that has ended has moved its group, as it
    was at the start or was created meanwhile, by one step of the controller on the pods
    listed at some moment of the run; each watch has asked for nothing or for a group it
    has created; and a group no reconcile is about is as it was, or has been created. *)
Theorem workers_keep_apart works w0 hist ps :
  NoDup (targets works) → ("", "") ∉ targets works → store_ok w0 →
  passes bystanders (start (work_prog <$> works) w0) hist ps →
  (∀ w n, w ∈ hist → Z.of_nat (length (group_pods w n)) < 2 ^ 31) →
  (∀ i x t o, works !! i = Some x → threads ps !! i = Some t → code t = Done o →
     worked_ok (.∈ hist) w0 x o (shared ps)) ∧
  (∀ k, k ∉ targets works → kept k w0 (shared ps)).
Proof.
  intros Hnd Hnn Hok Hp Hsmall.
  set (rely := at_work (λ _ _, True) relies works).
  set (guar := at_work (λ _ _, False) guarantees works).
  set (post := at_work (λ _ _, True) (worked_ok (.∈ hist) w0) works).
  assert (∀ i, PreOrder (rely i)) as Hrely.
  { intros i. unfold rely, at_work. destruct (works !! i); simpl; [apply _|by split]. }
  assert (all_conform rely guar post (.∈ hist) (start (work_prog <$> works) w0)) as Hall.
  { intros i t Ht. simpl in Ht. apply list_lookup_fmap_Some in Ht as (p&->&Hp').
    apply list_lookup_fmap_Some in Hp' as (x&->&Hx). unfold rely, guar, post, at_work.
    rewrite Hx. by apply work_conforms. }
  assert (∀ i j w v, i ≠ j → guar i w v → rely j w v) as Hapart.
  { intros i j w v Hne. unfold guar, rely, at_work.
    destruct (works !! i) as [x|] eqn:Hx; [|done]. destruct (works !! j) as [y|] eqn:Hy; [|done].
    by apply (works_apart works i j). }
  assert (∀ j w v, bystanders w v → rely j w v) as Henv.
  { intros j w v [Hk Hn]. unfold rely, at_work. destruct (works !! j) as [[]|]; [apply Hk|done..]. }
  split.
  - intros i x t o Hx Ht Ec.
    pose proof (apart_ended _ _ _ Hapart Henv post _ _ _ _ _ _ Hp Hall Ht Ec) as H.
    unfold post, at_work in H. by rewrite Hx in H.
  - intros k Hk.
    refine (passes_keep _ rely guar Hapart Henv post (kept k) (.∈ hist) _ _ _ Hp _ _ _ Hall);
      [done| |].
    + intros i w v. unfold guar, at_work. destruct (works !! i) as [[ns n|obj]|] eqn:Hx; simpl; [| |done].
      * intros Hg. apply kept_lookup, Hg. intros ->. apply Hk, list_elem_of_omap.
        eexists. by split; [eapply list_elem_of_lookup_2|].
      * by intros [? _].
    + by intros w v [? _].
Qed.

(** ** An edit by a user *)

(** The pool of a single worker. *)
Definition single (p : prog W worked) (w : W) : pool W worked := mkPool [mkThread false p] None w.

Lemma single_step {A} (f : W → A * W) (k : A → prog W worked) l w a w' :
  f w = (a, w') → run_schedule (0%nat :: l) (single (Act Private f k) w) = run_schedule l (single (k a) w').
Proof.
  intros E. cbn [run_schedule]. unfold step_thread, single. cbn. by rewrite E.
Qed.

(** C34: A size that a user gives to a group while a reconcile is about to set one is
    lost: when the user's write comes between the two calls with which the reconcile
    writes the group back, the second puts the size of the pods in its place, and the
    reconcile reports no conflict. *)
Theorem size_edit_overwritten ns n pg w m :
  stored w !! (ns, n) = Some pg →
  status_ScheduleStartTime (pg_Status pg) = 0 → 0 ≤ pg_CreationTimestamp pg →
  ¬ finished_or_failed (status_Phase (pg_Status pg)) →
  status_CreationTime (pg_Status pg) ≠ 0 → spec_MinMember (pg_Spec pg) = 0 →
  let pods := group_pods w n in
  Z.of_nat (length pods) < 2 ^ 31 → group_size pods ≠ 0 →
  ∃ ps1, run_schedule [0; 0; 0; 0]%nat (start [work_prog (W_Reconcile ns n)] w) = Some ps1 ∧
    stored (shared ps1) = stored w ∧
    ∀ w2, stored w2 = <[(ns, n) := set_MinMember m pg]> (stored (shared ps1)) →
    ∃ w3, run_schedule [0%nat] (mkPool (threads ps1) (owner ps1) w2)
        = Some (single (Done (Ret (reconciled (mkResult true, None)))) w3) ∧
      stored w3 !! (ns, n) = Some (set_MinMember (group_size pods) pg).
Proof.
  intros Hs Hst Hcr Hfin Ht Hm pods Hlen Hsize. destruct (stored_key _ _ _ _ Hs) as [Hns Hn].
  destruct (now_spec w) as (t&w1&E1&S1&L1).
  destruct (get_found ns n w1 pg) as (w2&E2&S2&L2); [by rewrite S1|].
  destruct (list_spec (v1alpha1.PodGroupLabel, n) w2) as (w3&E3&S3&L3).
  destruct (status_call ns n pg (group_size pods) (pg_Status pg) w3) as (w4&E4&S4&_);
    [by rewrite S3, S2, S1|by right|].
  rewrite (stored_pruned _ _ _ _ Hs) in S4. rewrite set_Status_id in E4, S4.
  exists (single (Act Private (api_Patch pg (set_MinMember (group_size pods) pg))
    (λ err, Done (Ret (reconciled (mkResult true, err))))) w4).
  split_and!.
  - change (start [work_prog (W_Reconcile ns n)] w) with (single (work_prog (W_Reconcile ns n)) w).
    unfold work_prog, Reconcile_prog, found_prog.
    etrans; [apply (single_step api_Now); exact E1|].
    etrans; [apply (single_step (api_Get ns n)); exact E2|].
    cbn beta iota zeta. rewrite decide_False by done.
    rewrite decide_False by (intros (_&_&?); by eapply never_times_out).
    rewrite Hn. etrans; [apply (single_step (api_List _)); exact E3|].
    cbn beta iota zeta. rewrite L2, L1. fold (group_pods w n). fold pods.
    unfold Time.IsZero. rewrite bool_decide_false by done. rewrite (decide_True (P:=_ = 0)) by done.
    unfold updatePodGroupSize_prog. cbv zeta. rewrite group_size_wrap by done.
    etrans; [apply (single_step (api_StatusUpdate _)); exact E4|]. done.
  - simpl. rewrite S4, insert_id; congruence.
  - intros v Sv. simpl in Sv.
    destruct (patch_spec pg (group_size pods) (pg_Status pg) (set_MinMember m pg) v) as (v'&E&S&_).
    { by rewrite Sv, Hns, Hn, lookup_insert_eq. }
    rewrite set_Status_id in E. rewrite Hns, Hn, decide_False in S by congruence.
    exists v'. split; [|by rewrite S, lookup_insert_eq].
    etrans; [apply (single_step (api_Patch _ _) _ [] v); exact E|done].
Qed.
End workers.
