(* ===== verification/Setup.v ===== *)
(** * Putting the programs together

    The constructor of the scheduler plugin with the registration of its event
    handlers (fluence.go, register.go), the start of the scheduler program
    (cmd/scheduler/main.go), the set-up of the controller
    (podgroup_controller.go, SetupWithManager), and the start of the controller
    program (cmd/controller/app/server.go). *)

From stdpp Require Import prelude gmap strings list fin_maps.
From S2P Require Import Prelude GoRuntime Kube Wire Env Core Plugin Controller.

(** ** The plugin *)

(** The functions an informer calls. *)
Record ResourceEventHandlerFuncs {Q : QuantityLib} (S : Type) := mkHandlers {
  UpdateFunc : InformerObj → InformerObj → GoM S ();
  DeleteFunc : InformerObj → GoM S ();
}.
Arguments mkHandlers {Q S} _ _.
Arguments UpdateFunc {Q S} _.
Arguments DeleteFunc {Q S} _.

(** The framework's handle, with the clients that are made at start-up: [S]
    is the state the handlers work on. *)
Class HandleLib {Q : QuantityLib} (S H : Type) := {
  client_New : H → option error * H;
  AddIndexers : H → H;
  AddEventHandler : ResourceEventHandlerFuncs S → H → H;
  informer_Run : H → H;
  reg_InClusterConfig : H → option error * H;
  reg_NewForConfig : H → option error * H;
  (** the pods of a namespace, of all when it is empty *)
  reg_Pods_List : string → H → go_result (list Pod) * H;
}.

Section plugin.
Context {Q : QuantityLib} {U : Upstream} {MO : MapOrder} {GC : GoCacheLib}.
Context {CS : CycleStateLib} {W : Type} {CL : Cluster W} {FS : FluxService W}.
Context {H : Type} {HL : HandleLib (Sys (W:=W)) H}.

Definition hcall {A} (f : H → A * H) : GoM H A := λ h, let '(a, h) := f h in (Ret a, h).

(** The pods are counted for the log and not told to Fluxion. *)
Definition RegisterExisting : GoM H (option error) :=
  err ← hcall reg_InClusterConfig;
  match err with
  | Some err => mret (Some err)
  | None =>
      err ← hcall reg_NewForConfig;
      match err with
      | Some err => mret (Some err)
      | None =>
          r ← hcall (reg_Pods_List "");
          match r with
          | Err err => mret (Some err)
          | OK _ => mret None
          end
      end
  end.

(** The handlers New registers are methods of the manager it makes. *)
Definition manager_handlers : ResourceEventHandlerFuncs (Sys (W:=W)) :=
  mkHandlers UpdatePod DeletePod.

Definition New : GoM H (option (Fluence * PodGroupManager) * option error) :=
  err ← hcall client_New;
  match err with
  | Some err => mret (None, Some err)
  | None =>
      _ ← Go.modify AddIndexers;
      let '(plugin, podGroupManager) := Plugin.New in
      _ ← Go.modify (AddEventHandler manager_handlers);
      _ ← Go.modify informer_Run;
      err ← RegisterExisting;
      mret (Some (plugin, podGroupManager), err)
  end.

Lemma RegisterExisting_returns h : ∃ e h', RegisterExisting h = (Ret e, h').
Proof.
  unfold RegisterExisting. go_unfold. unfold hcall.
  repeat case_match; simplify_eq/=; eauto.
Qed.

(** The constructor gives no plugin exactly when no client can be made, and
    has then registered nothing; otherwise it gives the plugin with the fixed
    times and an empty manager, with the handlers registered and running, and
    passes on the error of the look at the existing pods. *)
Theorem New_outcomes h :
  match client_New h with
  | (Some e, h1) => New h = (Ret (None, Some e), h1)
  | (None, h1) =>
      ∃ e h2, RegisterExisting (informer_Run (AddEventHandler manager_handlers (AddIndexers h1)))
              = (Ret e, h2) ∧
        New h = (Ret (Some (mkFluence (Some (300 * Time.Second)%Z) (Some 0%Z),
                            NewPodGroupManager (Some (300 * Time.Second)%Z)), e), h2)
  end.
Proof.
  assert (hcall client_New h = (Ret (client_New h).1, (client_New h).2)) as Ec
    by (unfold hcall; by destruct (client_New h)).
  unfold New. rewrite Go.run_bind, Ec. destruct (client_New h) as [[e|] h1]; [done|].
  destruct (RegisterExisting_returns
    (informer_Run (AddEventHandler manager_handlers (AddIndexers h1)))) as (e&h2&E).
  exists e, h2. split; [done|].
  transitivity ((e ← RegisterExisting; mret (Some Plugin.New, e))
    (informer_Run (AddEventHandler manager_handlers (AddIndexers h1)))); [reflexivity|].
  by rewrite Go.run_bind, E.
Qed.

(** ** The scheduler program *)

(** The plugin's part of the framework's registration: its name, the events
    that make the framework look at an unschedulable pod again, and the
    extensions of PreFilter it has (nil). *)
Inductive ActionType := fw_Add | fw_Delete | fw_Update.

(** The API group, as the repository's resource definition names it. *)
Definition scheduling_GroupName : string := "scheduling.x-k8s.io".

Definition EventsToRegister : list (string * list ActionType) * option error :=
  let podGroupGVK := "podgroups.v1alpha1." +:+ scheduling_GroupName in
  ([("Pod", [fw_Add; fw_Delete]); (podGroupGVK, [fw_Add; fw_Update; fw_Delete])], None).

Definition PreFilterExtensions : option () := None.

(** A constructor of a plugin, by the plugin's name. *)
Definition Factory : Type := string * GoM H (option (Fluence * PodGroupManager) * option error).

(** The scheduler command of Kubernetes over a process [P]. The other plugins
    the program registers come with their own names and constructors. *)
Class SchedulerApp (P : Type) := {
  Command : Type;
  Option : Type;
  WithPlugin : Factory → Option;
  NewSchedulerCommand : list Option → Command;
  cli_Run : Command → P → Z * P;
  os_Exit : Z → P → P;
  capacityscheduling : Factory;
  coscheduling : Factory;
  loadvariationriskbalancing : Factory;
  networkoverhead : Factory;
  topologicalsort : Factory;
  noderesourcetopology : Factory;
  preemptiontoleration : Factory;
  targetloadpacking : Factory;
  podstate : Factory;
  qos : Factory;
}.

Context {P : Type} {SA : SchedulerApp P}.

Definition fluence_plugin : Factory := (Plugin.Name, New).

Definition scheduler_main (p : P) : P :=
  let command := NewSchedulerCommand
    [ WithPlugin capacityscheduling; WithPlugin coscheduling;
      WithPlugin loadvariationriskbalancing; WithPlugin networkoverhead;
      WithPlugin topologicalsort; WithPlugin noderesourcetopology;
      WithPlugin preemptiontoleration; WithPlugin targetloadpacking;
      WithPlugin podstate; WithPlugin qos; WithPlugin fluence_plugin ] in
  let '(code, p) := cli_Run command p in
  os_Exit code p.
End plugin.

(** ** The controller program *)

(** Limits on the calls to the API server, as rest.Config has them, and the
    options of the program; [Num] stands for their numbers. *)
Record Config (Num : Type) := mkConfig { QPS : Num; Burst : Num }.
Arguments mkConfig {Num} _ _.

Record ServerRunOptions (Num : Type) := mkServerRunOptions {
  MetricsAddr : string;
  ProbeAddr : string;
  EnableLeaderElection : bool;
  Workers : Z;
  ApiServerQPS : Num;
  ApiServerBurst : Num;
}.
Arguments mkServerRunOptions {Num} _ _ _ _ _ _.
Arguments MetricsAddr {Num} _.
Arguments ProbeAddr {Num} _.
Arguments EnableLeaderElection {Num} _.
Arguments Workers {Num} _.
Arguments ApiServerQPS {Num} _.
Arguments ApiServerBurst {Num} _.

(** The options of the manager that the program sets. *)
Record ManagerOptions := mkManagerOptions {
  opt_MetricsBindAddress : string;
  opt_HealthProbeBindAddress : string;
  opt_LeaderElection : bool;
  opt_LeaderElectionID : string;
  opt_LeaderElectionNamespace : string;
}.

(** A controller as controller-runtime is told to build it: what to enqueue
    for an event of a watched pod ([None] for another object), what to do with
    a request, for which resource, with how many workers. [W] is the API
    server. *)
Record ControllerSpec {Q : QuantityLib} (W : Type) := mkControllerSpec {
  spec_Watches : option Pod → GoM W (list (string * string));
  spec_For : string;
  spec_MaxConcurrentReconciles : Z;
  spec_Reconciler : string → string → GoM W (Result * option error);
}.
Arguments mkControllerSpec {Q W} _ _ _ _.

(** controller-runtime: configuration and manager. *)
Class ManagerLib {Q : QuantityLib} (Num W M : Type) := {
  (** reads the configuration anew, and ends the process if there is none *)
  GetConfigOrDie : M → outcome (Config Num) * M;
  NewManager : Config Num → ManagerOptions → M → option error * M;
  GetEventRecorderFor : string → M → M;
  (** the end of a builder's chain of calls *)
  builder_Complete : ControllerSpec W → M → option error * M;
  webhook_Register : string → M → M;
  ElasticQuota_SetupWithManager : Z → M → option error * M;
  AddHealthzCheck : string → M → option error * M;
  AddReadyzCheck : string → M → option error * M;
  mgr_Start : M → option error * M;
}.

Section controller.
Context {Q : QuantityLib} {CL : ControllerLib} {W : Type} {API : ApiServer W}.
Context {Num M : Type} {ML : ManagerLib Num W M}.

Definition mcall {A} (f : M → A * M) : GoM M A := λ m, let '(a, m) := f m in (Ret a, m).

(** [if err := f(); err != nil { return err }; rest] *)
Definition or_return (f rest : GoM M (option error)) : GoM M (option error) :=
  err ← f;
  match err with
  | Some err => mret (Some err)
  | None => rest
  end.

(** The reconciler with a number of workers. *)
Definition SetupWithManager (workers : Z) : GoM M (option error) :=
  _ ← Go.modify (GetEventRecorderFor "PodGroupController");
  mcall (builder_Complete (mkControllerSpec ensurePodGroup "PodGroup" workers Reconcile)).

(** The options of the program that reach the manager. *)
Definition manager_options (s : ServerRunOptions Num) : ManagerOptions :=
  mkManagerOptions (MetricsAddr s) (ProbeAddr s) (EnableLeaderElection s)
    "sched-plugins-controllers" "kube-system".

Definition Run (s : ServerRunOptions Num) : GoM M (option error) :=
  config ← (GetConfigOrDie : GoM M (Config Num));
  let config := mkConfig (ApiServerQPS s) (ApiServerBurst s) in
  config' ← (GetConfigOrDie : GoM M (Config Num));
  or_return (mcall (NewManager config' (manager_options s)))
  (or_return (SetupWithManager (Workers s))
  (_ ← Go.modify (webhook_Register "/mutate-v1-fluence");
  or_return (mcall (ElasticQuota_SetupWithManager (Workers s)))
  (or_return (mcall (AddHealthzCheck "healthz"))
  (or_return (mcall (AddReadyzCheck "readyz"))
  (or_return (mcall mgr_Start)
  (mret None)))))).

(** The limits asked for are set on a configuration that is then dropped:
    programs with different limits do the same. *)
Theorem Run_ignores_limits addr probe elect workers q1 b1 q2 b2 m :
  Run (mkServerRunOptions addr probe elect workers q1 b1) m =
  Run (mkServerRunOptions addr probe elect workers q2 b2) m.
Proof. done. Qed.

(** A step that fails ends the start with its error, and nothing after it is
    done. *)
Lemma or_return_fails f rest m e m' :
  f m = (Ret (Some e), m') → or_return f rest m = (Ret (Some e), m').
Proof. intros E. unfold or_return. by rewrite Go.run_bind, E. Qed.

Lemma or_return_inv f rest m m' :
  or_return f rest m = (Ret None, m') → ∃ m1, f m = (Ret None, m1) ∧ rest m1 = (Ret None, m').
Proof.
  unfold or_return. intros (err&m1&E&H)%Go.run_bind_inv. exists m1. by destruct err.
Qed.

Lemma mcall_inv {A} (f : M → A * M) m a m' : mcall f m = (Ret a, m') → f m = (a, m').
Proof. unfold mcall. destruct (f m). by intros [= <- <-]. Qed.

(** The program ends without an error only when its manager was started with
    the pod watch and [Reconcile] as its controller, the webhook and both
    checks in place, and has then ended without one. *)
Theorem Run_without_error s m m' :
  Run s m = (Ret None, m') →
  ∃ c1 c2 m1 m2 m3 m4 m5 m6 m7,
    GetConfigOrDie m = (Ret c1, m1) ∧ GetConfigOrDie m1 = (Ret c2, m2) ∧
    NewManager c2 (manager_options s) m2 = (None, m3) ∧
    builder_Complete (mkControllerSpec ensurePodGroup "PodGroup" (Workers s) Reconcile)
      (GetEventRecorderFor "PodGroupController" m3) = (None, m4) ∧
    ElasticQuota_SetupWithManager (Workers s) (webhook_Register "/mutate-v1-fluence" m4)
      = (None, m5) ∧
    AddHealthzCheck "healthz" m5 = (None, m6) ∧ AddReadyzCheck "readyz" m6 = (None, m7) ∧
    mgr_Start m7 = (None, m').
Proof.
  unfold Run. intros (c1&m1&E1&E)%Go.run_bind_inv.
  apply Go.run_bind_inv in E as (c2&m2&E2&E).
  apply or_return_inv in E as (m3&E3%mcall_inv&E).
  apply or_return_inv in E as (m4&E4&E). unfold SetupWithManager in E4.
  rewrite Go.run_bind in E4. cbn [Go.modify] in E4. apply mcall_inv in E4.
  rewrite Go.run_bind in E. cbn [Go.modify] in E.
  apply or_return_inv in E as (m5&E5%mcall_inv&E).
  apply or_return_inv in E as (m6&E6%mcall_inv&E).
  apply or_return_inv in E as (m7&E7%mcall_inv&E).
  apply or_return_inv in E as (m8&E8%mcall_inv&E). injection E as <-.
  by exists c1, c2, m1, m2, m3, m4, m5, m6, m7.
Qed.
End controller.
