(* ===== verification/Pipeline.v ===== *)
(** * From a workload to its group

    The path of a job through the admission webhook and the controller's pod
    watch: the size the webhook writes as a label is the size of the group
    the controller creates, once for all pods of the job. *)

From stdpp Require Import prelude gmap strings list fin_maps pretty.
From S2P Require Import Prelude GoRuntime Kube Wire Webhook Controller ControllerFacts.

Local Open Scope Z_scope.

(** The upstream label helper reads the same label as the repository's own;
    the JSON form of a time keeps its microseconds. *)
Class ControllerLibLaws {Q : QuantityLib} (CL : ControllerLib) : Prop := {
  upstream_GetPodGroupLabel_spec pod :
    upstream_GetPodGroupLabel pod = flabel.GetPodGroupLabel pod;
  MicroTime_JSON t str :
    0 < t → MicroTime_MarshalJSON t = OK str → MicroTime_UnmarshalJSON str = OK (t `div` 1000 * 1000);
}.

Section pipeline.
Context {Q : QuantityLib} {CL : ControllerLib} {W : Type} {API : ApiServer W}.
Context {AL : ApiLaws API} {CLL : ControllerLibLaws CL}.

(** A pod the job controller made from a template, as far as the group's
    labels go: it may have more labels than the template. *)
Definition pod_of_template (w : Workload) (pod : Pod) : Prop :=
  ∀ k, group_key k → GoMap.get (pod_Labels pod) k = GoMap.get (wl_TemplateLabels w) k.

(** A pod that has both labels passes the webhook with them unchanged. *)
Lemma EnsureGroup_labelled pod g z :
  GoMap.get (pod_Labels pod) flabel.PodGroupLabel = Some g →
  GoMap.get (pod_Labels pod) flabel.PodGroupSizeLabel = Some z →
  EnsureGroup pod = Ret pod.
Proof.
  intros Hg Hz. rewrite EnsureGroup_run, Hg, Hz. simpl.
  rewrite with_group_id by (by rewrite <- get_entries). f_equal.
  destruct pod as [? ? ? [m|] ?]; simpl in *; [done|]. discriminate.
Qed.

(** The two labels of the group [g] of [n] pods. *)
Definition labelled (g : string) (n : Z) (pod : Pod) : Prop :=
  GoMap.get (pod_Labels pod) flabel.PodGroupLabel = Some g ∧
  GoMap.get (pod_Labels pod) flabel.PodGroupSizeLabel = Some (Fmt.d (at_least_one n)).

Lemma labelled_group g n pod : labelled g n pod → flabel.GetPodGroupLabel pod = g.
Proof. intros [Hg _]. unfold flabel.GetPodGroupLabel, GoMap.index. by rewrite Hg. Qed.

(** What the webhook makes of a job without a size label. *)
Lemma EnsureGroupOnJob_labelled job n :
  let g := first_of flabel.PodGroupLabel [wl_Labels job; wl_TemplateLabels job]
             (default_group job) in
  wl_Size job = Some n → 0 ≤ n < 2 ^ 31 →
  GoMap.get (wl_Labels job) flabel.PodGroupSizeLabel = None →
  GoMap.get (wl_TemplateLabels job) flabel.PodGroupSizeLabel = None →
  ∃ job', EnsureGroupOnJob job = Ret job' ∧ ∀ p, pod_of_template job' p → labelled g n p.
Proof.
  intros g Hn Hpos Hs1 Hs2. rewrite EnsureGroupOnJob_run, Hn.
  rewrite !getJobLabel_first_of. fold g.
  assert (first_of flabel.PodGroupSizeLabel [wl_Labels job; wl_TemplateLabels job]
            (Fmt.d (at_least_one n)) = Fmt.d (at_least_one n)) as ->.
  { unfold first_of. simpl. by rewrite Hs1, Hs2. }
  cbn zeta.
  match goal with |- context [Ret ?j = Ret _] => set (job' := j) end. exists job'. split; [reflexivity|].
  intros p Hp. unfold labelled. rewrite (Hp flabel.PodGroupLabel), (Hp flabel.PodGroupSizeLabel)
    by first [by left|by right].
  unfold job'. cbn [wl_TemplateLabels set_wl_TemplateLabels GoMap.get].
  split; [apply with_group_label|apply with_group_size].
Qed.

(** The first pending pod with the labels makes the group. *)
Lemma labelled_pod_creates g n pod w :
  labelled g n pod → 0 ≤ n < 2 ^ 31 → g ≠ "" →
  pod_DeletionTimestamp pod = None → pod_Phase pod = PodPending →
  stored w !! (pod_Namespace pod, g) = None →
  ∃ t w', ensurePodGroup (Some pod) w = (Ret [(pod_Namespace pod, g)], w') ∧ 0 ≤ t ∧
    stored w' = <[(pod_Namespace pod, g) := new_group (pod_Namespace pod) g (Z.max 1 n) t]> (stored w).
Proof.
  intros Hl Hpos Hg Hd Hph Hst.
  assert (upstream_GetPodGroupLabel pod = g) as Eg
    by (rewrite upstream_GetPodGroupLabel_spec; by eapply labelled_group).
  assert (GoInt.fits 32 n) as Hfit by (unfold GoInt.fits; lia).
  destruct (ensurePodGroup_creates pod w (at_least_one n)) as (t&w'&E&Ht&S); rewrite ?Eg; [done| |done..|].
  { unfold GoMap.index. rewrite (proj2 Hl). by apply default_size_parses. }
  rewrite Eg in E, S. rewrite at_least_one_max in S by lia. by exists t, w'.
Qed.

(** C40: The size the webhook writes on a job's template is read back by the pod watch:
    the first pending pod of the job creates one group, named on the job or by default,
    whose MinMember is the job's parallelism, at least one; the job's other pods find
    that group and create none. *)
Theorem job_gets_group job n :
  let g := first_of flabel.PodGroupLabel [wl_Labels job; wl_TemplateLabels job]
             (default_group job) in
  wl_Size job = Some n → 0 ≤ n < 2 ^ 31 → g ≠ "" →
  GoMap.get (wl_Labels job) flabel.PodGroupSizeLabel = None →
  GoMap.get (wl_TemplateLabels job) flabel.PodGroupSizeLabel = None →
  ∃ job', EnsureGroupOnJob job = Ret job' ∧
    ∀ pod, pod_of_template job' pod →
      EnsureGroup pod = Ret pod ∧
      ∀ w, pod_DeletionTimestamp pod = None → pod_Phase pod = PodPending →
        stored w !! (pod_Namespace pod, g) = None →
        ∃ t w', ensurePodGroup (Some pod) w = (Ret [(pod_Namespace pod, g)], w') ∧
          stored w' = <[(pod_Namespace pod, g) :=
                          new_group (pod_Namespace pod) g (Z.max 1 n) t]> (stored w) ∧
          (** the other pods of the job find the group there *)
          ∀ pod2, pod_of_template job' pod2 → pod_Namespace pod2 = pod_Namespace pod →
            ∃ w2, ensurePodGroup (Some pod2) w' = (Ret [], w2) ∧ stored w2 = stored w'.
Proof.
  intros g Hn Hpos Hg Hs1 Hs2.
  destruct (EnsureGroupOnJob_labelled job n Hn Hpos Hs1 Hs2) as (job'&E&Hlab).
  exists job'. split; [exact E|]. fold g in Hlab.
  intros pod Hpod. destruct (Hlab pod Hpod) as [Hpg Hpz]. split; [by eapply EnsureGroup_labelled|].
  intros w Hd Hph Hst.
  destruct (labelled_pod_creates g n pod w (Hlab pod Hpod) Hpos Hg Hd Hph Hst) as (t&w'&Ec&_&S).
  exists t, w'. split; [exact Ec|]. split; [exact S|]. intros pod2 Hpod2 Hns.
  assert (upstream_GetPodGroupLabel pod2 = g) as Hup
    by (rewrite upstream_GetPodGroupLabel_spec; eapply labelled_group; by apply Hlab).
  eapply ensurePodGroup_present; [by rewrite Hup|].
  rewrite Hns, Hup, S. apply lookup_insert_eq.
Qed.

(** A pod that carries the label [GetTimeCreated] makes would give its group the
    time the label was made, to the microsecond, as its creation time. *)
Theorem time_label_read_back w t str w' pod pods now :
  api_Now w = (t, w') → 0 < t → GetTimeCreated w = (Ret str, w') → str ≠ "" →
  GoMap.get (pod_Labels pod) flabel.PodGroupTimeCreated = Some str →
  creation_stamp (pod :: pods) now = t `div` 1000 * 1000.
Proof.
  intros Et Hpos E Hne Hl. unfold GetTimeCreated in E. rewrite Go.run_bind in E.
  unfold api in E. rewrite Et in E. unfold Time.NewMicroTime in E.
  destruct (MicroTime_MarshalJSON t) as [str'|e] eqn:Ej; injection E as <-; [|done].
  simpl. rewrite Hl. by rewrite (MicroTime_JSON t str' Hpos Ej).
Qed.
End pipeline.
