(* ===== verification/EndToEnd.v ===== *)
(** * From a workload to the nodes of its pods

    The two controllers and the scheduler one after the other: the webhook
    labels a job's template, the pod watch creates the group, and PreFilter of
    any of the job's pods asks Fluxion for as many slots as the job has
    parallel pods and places all of them. *)

From Stdlib Require Import Ascii.
From stdpp Require Import prelude gmap strings list fin_maps.
From S2P Require Import Prelude GoRuntime Kube Wire Env PodSpec Core CoreFacts CoreMethods Plugin PluginFacts Webhook Controller ControllerFacts Pipeline.

Section end_to_end.
Context {Q : QuantityLib} {U : Upstream} {MO : MapOrder} {GC : GoCacheLib}.
Context {CS : CycleStateLib} {W : Type} {CL : Cluster W} {FS : FluxService W}.

Local Abbreviation Sys := (Sys (W:=W)).
Implicit Types (s : Sys) (pod p : Pod) (pods : list Pod) (pg : PodGroup).

(** ** PreFilter on a group that can be placed *)

(** The calls PreFilter makes, in their order, and good answers to them: the
    group [pg] is there, neither backed off nor admitted before, [pods] are
    listed for it, and Fluxion answers [resp] to a request for MinMember slots
    like the first of them. *)
Definition placeable pod pg pods (resp : pb.MatchResponse) s : Prop :=
  let g := full_name pod in
  ∃ w1 w2 w3 w4 w5 w6 t1 t2 rep,
    client_Get (pod_Namespace pod) (util_GetPodGroupLabel pod) (world s) = (OK pg, w1) ∧
    time_Now w1 = (t1, w2) ∧ cache_Get g t1 (backedOffpodGroup (mgr s)) = false ∧
    lister_List (pod_Namespace pod) (v1alpha1.PodGroupLabel, util_GetPodGroupLabel pod) w2
      = (OK pods, w3) ∧
    time_Now w3 = (t2, w4) ∧ cache_Get g t2 (permittedpodGroup (mgr s)) = false ∧
    grpc_Dial w4 = (None, w5) ∧ pods !! 0 = Some rep ∧
    flux_Match (pb.mkMatchRequest (Some (PreparePodJobSpec rep g)) "allocate"
                  (spec_MinMember (pg_Spec pg))) w5 = (OK resp, w6).

(** Up to the comparison of the sizes: the job is recorded, the nodes are
    about to be handed out. *)
Lemma core_PreFilter_asks pod pg pods resp s :
  util_GetPodGroupLabel pod ≠ "" →
  placeable pod pg pods resp s →
  groupToJobId (mgr s) !! full_name pod = None →
  (spec_MinMember (pg_Spec pg) ≤ Z.of_nat (length pods))%Z →
  ∃ rep w4 w5 w6, pods !! 0 = Some rep ∧
    flux_Match (pb.mkMatchRequest (Some (PreparePodJobSpec rep (full_name pod))) "allocate"
                  (spec_MinMember (pg_Spec pg))) w5 = (OK resp, w6) ∧
    grpc_Dial w4 = (None, w5) ∧
    Core.PreFilter pod s =
      admit_nodes (full_name pod) rep pods (pb.NodeID <$> pb.Nodelist resp)
        (set_world w6 (set_groupToJobId (<[full_name pod := GoInt.uint64 (pb.JobID resp)]>) s)).
Proof.
  intros Hl (w1&w2&w3&w4&w5&w6&t1&t2&rep&E1&E2&E3&E4&E5&E6&E7&E8&E9) Hj Hmin.
  exists rep, w4, w5, w6. split_and!; [done..|].
  unfold Core.PreFilter. rewrite Go.run_bind, GetPodGroup_run, decide_False, E1 by done.
  cbn beta iota. go_ext E2. rewrite Go.run_bind. cbn [Go.gets set_world mgr]. rewrite E3.
  go_ext E4. rewrite decide_False by lia.
  go_ext E5. rewrite Go.run_bind. cbn [Go.gets set_world mgr]. rewrite E6.
  rewrite Go.run_bind. unfold Go.lift, Go.index. rewrite E8. cbn beta iota.
  rewrite Go.run_bind.
  assert (AskFlux rep pg (full_name pod) (set_world w4 s) =
    (Ret (pb.NodeID <$> pb.Nodelist resp, None),
     set_world w6 (set_groupToJobId (<[full_name pod := GoInt.uint64 (pb.JobID resp)]>) s)))
    as EA.
  { unfold AskFlux. rewrite Go.run_bind. cbn [Go.gets set_world mgr].
    rewrite bool_decide_eq_false_2 by (rewrite Hj; by intros [? ?]).
    rewrite Go.run_bind. cbn [mret GoM_ret]. go_ext E7. by go_ext E9. }
  change (set_world w4 (set_world _ s)) with (set_world w4 s). by rewrite EA.
Qed.

Lemma core_PreFilter_places pod pg pods resp s :
  let nodes := pb.NodeID <$> pb.Nodelist resp in
  util_GetPodGroupLabel pod ≠ "" →
  placeable pod pg pods resp s →
  groupToJobId (mgr s) !! full_name pod = None →
  is_Some (scheduleTimeout (mgr s)) →
  (spec_MinMember (pg_Spec pg) ≤ Z.of_nat (length pods))%Z →
  length nodes = length pods →
  ∃ s', Core.PreFilter pod s = (Ret None, s') ∧
    podToNode (mgr s') = assign_pods (zip pods nodes) (podToNode (mgr s)) ∧
    groupToJobId (mgr s') = <[full_name pod := GoInt.uint64 (pb.JobID resp)]> (groupToJobId (mgr s)).
Proof.
  intros nodes Hl Hp Hj [d Hd] Hmin Hlen.
  destruct (core_PreFilter_asks pod pg pods resp s Hl Hp Hj Hmin) as (rep&w4&w5&w6&_&_&_&->).
  fold nodes. rewrite admit_nodes_run. rewrite (decide_True (P:=length nodes ≤ length pods)) by lia.
  change (scheduleTimeout (mgr (set_world _ (set_groupToJobId _ s)))) with (scheduleTimeout (mgr s)).
  rewrite Hd. unfold after_size_check. rewrite (decide_False (P:=length nodes ≠ length pods)) by lia.
  change (world (set_world w6 _)) with w6. destruct (time_Now w6) as [now w].
  eexists. split; [reflexivity|]. done.
Qed.

(** The plugin's PreFilter then pins the pod to its node, and every other pod
    of the group has its node in the table. *)
Lemma PreFilter_places pod pg pods resp s i :
  let nodes := pb.NodeID <$> pb.Nodelist resp in
  util_GetPodGroupLabel pod ≠ "" →
  placeable pod pg pods resp s →
  groupToJobId (mgr s) !! full_name pod = None →
  is_Some (scheduleTimeout (mgr s)) →
  (spec_MinMember (pg_Spec pg) ≤ Z.of_nat (length pods))%Z →
  length nodes = length pods →
  NoDup (pod_Name <$> pods) → pods !! i = Some pod →
  podToNode (mgr s) !! pod_Name pod = None →
  ∃ n s', nodes !! i = Some n ∧
    Plugin.PreFilter pod s = (Ret (Some {[ n ]}, NewStatus fw_Success [""]), s') ∧
    groupToJobId (mgr s') !! full_name pod = Some (GoInt.uint64 (pb.JobID resp)) ∧
    ∀ k p m, pods !! k = Some p → nodes !! k = Some m → podToNode (mgr s') !! pod_Name p = Some m.
Proof.
  intros nodes Hl Hp Hj Hd Hmin Hlen Hnd Hi Hnone.
  destruct (core_PreFilter_places pod pg pods resp s Hl Hp Hj Hd Hmin Hlen) as (s'&E&En&Ej).
  fold nodes in En.
  assert (∀ k p m, pods !! k = Some p → nodes !! k = Some m →
    podToNode (mgr s') !! pod_Name p = Some m) as Hall.
  { intros k p m Hk Hm. rewrite En.
    apply assign_pods_lookup; [by apply zip_fst_NoDup|by eapply lookup_zip]. }
  assert (is_Some (nodes !! i)) as [n Hn].
  { apply lookup_lt_is_Some. rewrite Hlen. by eapply lookup_lt_Some. }
  exists n, s'. split; [done|]. split; [|split; [by rewrite Ej, lookup_insert_eq|done]].
  unfold Plugin.PreFilter; open_manager. rewrite Go.run_bind. cbn [GetPodNode Go.gets]. rewrite Hnone. simpl.
  rewrite Go.run_bind, E, Go.run_bind. cbn [GetPodNode Go.gets].
  by rewrite (Hall i pod n Hi Hn).
Qed.

(** ** The whole way *)

Context {UL : UpstreamLaws U} {CtL : ControllerLib} {A : Type} {API : ApiServer A}.
Context {AL : ApiLaws API} {CLL : ControllerLibLaws CtL}.

(** C38: From the admission of a job to its placement: the webhook labels the job's
    template; once the pod watch has seen the first of its pods, the group on the API
    server asks for the job's parallelism; and a scheduler that reads that group, finds
    as many pods listed and is answered by Fluxion with as many nodes gives each pod of
    the job the node at its position and records the job. *)
Theorem job_is_placed job n pods ns pod i (a : A) :
  let g := first_of flabel.PodGroupLabel [wl_Labels job; wl_TemplateLabels job]
             (default_group job) in
  wl_Size job = Some n → (0 ≤ n < 2 ^ 31)%Z → g ≠ "" →
  GoMap.get (wl_Labels job) flabel.PodGroupSizeLabel = None →
  GoMap.get (wl_TemplateLabels job) flabel.PodGroupSizeLabel = None →
  ∃ job', EnsureGroupOnJob job = Ret job' ∧
    (Forall (λ p, pod_of_template job' p ∧ pod_Namespace p = ns) pods →
     NoDup (pod_Name <$> pods) → pods !! i = Some pod →
     pod_DeletionTimestamp pod = None → pod_Phase pod = PodPending →
     stored a !! (ns, g) = None →
     ∃ t a', ensurePodGroup (Some pod) a = (Ret [(ns, g)], a') ∧
       let pg := new_group ns g (Z.max 1 n) t in
       stored a' !! (ns, g) = Some pg ∧
         ∀ (s : Sys) resp, let nodes := pb.NodeID <$> pb.Nodelist resp in
         (placeable pod pg pods resp s →
          groupToJobId (mgr s) !! (ns +:+ "/" +:+ g) = None →
          is_Some (scheduleTimeout (mgr s)) →
          podToNode (mgr s) !! pod_Name pod = None →
          length pods = Z.to_nat (Z.max 1 n) → length nodes = length pods →
          ∃ nd s', nodes !! i = Some nd ∧
            Plugin.PreFilter pod s = (Ret (Some {[ nd ]}, NewStatus fw_Success [""]), s') ∧
            groupToJobId (mgr s') !! (ns +:+ "/" +:+ g) = Some (GoInt.uint64 (pb.JobID resp)) ∧
            ∀ k p m, pods !! k = Some p → nodes !! k = Some m →
              podToNode (mgr s') !! pod_Name p = Some m)).
Proof.
  intros g Hn Hrange Hg Hs1 Hs2.
  destruct (EnsureGroupOnJob_labelled job n Hn Hrange Hs1 Hs2) as (job'&E&Hlab).
  exists job'. split; [exact E|]. fold g in Hlab.
  intros Hpods Hnd Hi Hd Hph Hst.
  assert (labelled g n pod ∧ pod_Namespace pod = ns) as [Hl Hns].
  { rewrite Forall_lookup in Hpods. destruct (Hpods i pod Hi). split; [by apply Hlab|done]. }
  rewrite <- Hns in *.
  destruct (labelled_pod_creates g n pod a Hl Hrange Hg Hd Hph Hst) as (t&a'&Ea&_&Sa).
  exists t, a'. split; [exact Ea|]. split; [rewrite Sa; apply lookup_insert_eq|].
  intros s resp nodes Hplace Hj Hto Hnone Hlen Hnodes.
  assert (util_GetPodGroupLabel pod = g) as Eu
    by (rewrite util_GetPodGroupLabel_spec; by eapply labelled_group).
  assert (full_name pod = pod_Namespace pod +:+ "/" +:+ g) as Ef by (unfold full_name; by rewrite Eu).
  destruct (PreFilter_places pod (new_group (pod_Namespace pod) g (Z.max 1 n) t) pods resp s i)
    as (nd&s'&H1&H2&H3&H4); rewrite ?Eu, ?Ef; try done; [simpl; lia|].
  rewrite Ef in H3. by exists nd, s'.
Qed.
End end_to_end.
