(* ===== verification/Ending.v ===== *)
(** * The end of a group: controller and scheduler

    When the pods of a group have finished, the controller deletes the group
    and the scheduler's event handler cancels its job. The two programs do not
    wait for each other, and which of them comes first decides whether the job
    is ever released. *)

From Stdlib Require Import Ascii.
From stdpp Require Import prelude gmap strings list fin_maps.
From S2P Require Import Prelude GoRuntime Kube Wire Env PodSpec Core CoreFacts CoreMethods Plugin PluginFacts System Controller ControllerFacts ControlPlane.

Section ending.
Context {Q : QuantityLib} {U : Upstream} {MO : MapOrder} {GC : GoCacheLib}.
Context {CS : CycleStateLib} {W : Type} {CL : Cluster W} {FS : FluxService W}.
Context {FL : FluxServiceLaws CL FS} {HR : FluxReliable FS}.
Context {CtL : ControllerLib} {A : Type} {API : ApiServer A} {AL : ApiLaws API}.

Local Abbreviation Sys := (Sys (W:=W)).
Implicit Types (s : Sys) (pod p : Pod) (pg : PodGroup).

(** The scheduler's client reads what the API server stores. *)
Definition reads_store (a : A) s : Prop := ∀ ns n,
  match stored a !! (ns, n) with
  | Some pg => ∃ w, client_Get ns n (world s) = (OK pg, w)
  | None => ∃ e w, client_Get ns n (world s) = (Err e, w)
  end.

(** A pod whose name and namespace hold no slash. *)
Definition plain_names pod : Prop :=
  ¬ has_char "/" (pod_Namespace pod) ∧ ¬ has_char "/" (pod_Name pod).

(** The made-up group of a pod has no slash in its name. *)
Lemma fake_name_plain pod : plain_names pod → ¬ has_char "/" (fake_name pod).
Proof.
  intros [Hns Hn]. unfold fake_name, fgroup.CreateFakeGroup. simpl.
  change (¬ has_char "/" ("fluence-solo-" +:+ pod_Namespace pod +:+ "-" +:+ pod_Name pod)).
  rewrite !has_char_app. intros [H|[H|[H|H]]]; [|done| |done];
    unfold has_char in H; simpl in H; set_solver.
Qed.

(** Jobs are recorded under names with a slash. *)
Lemma fake_name_unrecorded s0 s pod :
  started s0 → rtc step s0 s → plain_names pod → groupToJobId (mgr s) !! fake_name pod = None.
Proof.
  intros H0 Hst Hpl. destruct (steps_keep _ _ _ Hst (started_inv _ H0)) as [([_ _ H3]&_&_) _].
  destruct (groupToJobId (mgr s) !! fake_name pod) as [j|] eqn:E; [|done].
  by destruct (fake_name_plain pod Hpl); eapply H3.
Qed.

(** An event before the controller has deleted the group. *)
Lemma event_releases s pod newPod pg w j :
  pod_Phase newPod = PodSucceeded ∨ pod_Phase newPod = PodFailed →
  util_GetPodGroupLabel pod ≠ "" →
  client_Get (pod_Namespace pod) (util_GetPodGroupLabel pod) (world s) = (OK pg, w) →
  groupToJobId (mgr s) !! full_name pod = Some j →
  let s' := (UpdatePod (Obj_Pod pod) (Obj_Pod newPod) s).2 in
  groupToJobId (mgr s') !! full_name pod = None ∧ GoInt.int64 j ∉ live (world s').
Proof.
  intros Hphase Hl EG Hj. unfold UpdatePod.
  do 2 (rewrite Go.run_bind; cbn [Go.lift as_pod]).
  rewrite (Go.run_bind_ret _ _ _ _ _ (event_group_found _ _ _ _ Hl EG)).
  assert (groupToJobId (mgr (set_world w s)) !! full_name pod = Some j) as Hj' by done.
  destruct Hphase as [-> | ->]; rewrite cancel_if_known_run, Hj'; cbn [snd];
    (split; [apply cancelFluxJob_forgets|rewrite (cancelFluxJob_frees _ _ _ _ Hj'); set_solver]).
Qed.

(** C39: When the pods of a group are over the order of the two programs decides what
    becomes of its job: the event handler of the scheduler releases it if it runs while
    the group is stored; if the controller's reconcile comes first it deletes the group,
    and no later event of a pod of the group releases the job. *)
Theorem release_depends_on_order a pg pod newPod s0 s j :
  let ns := pod_Namespace pod in
  let n := util_GetPodGroupLabel pod in
  n ≠ "" → plain_names pod →
  pod_Phase newPod = PodSucceeded ∨ pod_Phase newPod = PodFailed →
  (* a stored group that is scheduling or running, whose pods are over *)
  reachable a → stored a !! (ns, n) = Some pg →
  status_Phase (pg_Status pg) = PodGroupScheduling ∨
  status_Phase (pg_Status pg) = PodGroupRunning →
  (Z.of_nat (length (group_pods a n)) < 2 ^ 31)%Z → over pg (group_pods a n) →
  (* a scheduler that has recorded a job for it *)
  started s0 → rtc step s0 s → groupToJobId (mgr s) !! full_name pod = Some j →
  (reads_store a s →
   let s' := (UpdatePod (Obj_Pod pod) (Obj_Pod newPod) s).2 in
   groupToJobId (mgr s') !! full_name pod = None ∧ GoInt.int64 j ∉ live (world s')) ∧
  (let a' := (Reconcile ns n a).2 in
   stored a' !! (ns, n) = None ∧
   (reads_store a' s →
    ∀ p q, pod_Namespace p = ns → util_GetPodGroupLabel p = n → plain_names p →
      groupToJobId (mgr (UpdatePod (Obj_Pod p) (Obj_Pod q) s).2) !! full_name pod = Some j ∧
      groupToJobId (mgr (DeletePod (Obj_Pod p) s).2) !! full_name pod = Some j)).
Proof.
  intros ns n Hn Hpl Hphase Hra Hs Hp Hlen Hover H0 Hst Hj. split.
  - intros Hread. pose proof (Hread ns n) as HG. rewrite Hs in HG. destruct HG as [w EG].
    by eapply event_releases.
  - pose proof (proj2 (store_reachable_ok a Hra) _ _ Hs) as Hok.
    destruct (Reconcile_step ns n pg a Hs Hlen) as (a'&->&_&S). cbn [snd].
    assert (next_group keeps_creationTime (api_Now a).1 (group_pods a n) pg = None) as Hnext.
    { unfold next_group.
      assert (status_CreationTime (pg_Status pg) ≠ 0%Z) as Ht
        by (apply (ok_timed _ Hok); by destruct Hp as [-> | ->]).
      destruct Hover as [Hm Hover].
      rewrite (decide_False (P:=idle pg)) by (by apply ok_busy).
      rewrite !decide_False by done.
      rewrite next_status_active by (done || (by destruct Hp as [-> | ->])).
      cbn [set_Phase status_Phase]. rewrite decide_True; [done|].
      destruct Hover as [? Hover]. apply over_phase. split; [done|].
      destruct Hover as [?|[? ?]]; [by left|right; lia]. }
    assert (stored a' !! (ns, n) = None) as Ha'.
    { rewrite S. unfold group_pods in Hnext. rewrite Hnext. apply lookup_delete_eq. }
    split; [done|]. intros Hread p q Hpn Hpl' Hplain.
    pose proof (Hread ns n) as HG. rewrite Ha' in HG. destruct HG as (e&w&EG).
    rewrite <- Hpn, <- Hpl' in EG.
    destruct (group_gone_keeps_job p q s e w EG) as [-> ->];
      [by eapply fake_name_unrecorded|done].
Qed.
End ending.
