(* ===== verification/Packing.v ===== *)
(** * Gangs whose pods share nodes

    The server answers a match with one entry per compute node, and with the
    number of tasks on it; the manager reads the names and not the numbers. So
    an allocation that puts two pods of a gang on one node is an answer with
    fewer nodes than pods, and what the manager makes of it is the subject of
    this file. *)

From Stdlib Require Import Ascii.
From stdpp Require Import prelude gmap strings list fin_maps.
From S2P Require Import Prelude GoRuntime Kube Wire Env PodSpec Core CoreFacts CoreMethods Plugin PluginFacts System EndToEnd.

Section packing.
Context {Q : QuantityLib} {U : Upstream} {MO : MapOrder} {GC : GoCacheLib}.
Context {CS : CycleStateLib} {W : Type} {CL : Cluster W} {FS : FluxService W}.

Local Abbreviation Sys := (Sys (W:=W)).
Implicit Types (s : Sys) (pod p : Pod) (pods : list Pod) (pg : PodGroup).

(** ** A pod without a node in a group that is permitted *)

(** The group of the pod is there, not backed off, has enough pods, and
    is still marked as permitted when PreFilter looks. *)
Definition still_permitted pod s : Prop :=
  let g := full_name pod in
  ∃ pg pods w1 w2 w3 w4 t1 t2,
    client_Get (pod_Namespace pod) (util_GetPodGroupLabel pod) (world s) = (OK pg, w1) ∧
    time_Now w1 = (t1, w2) ∧ cache_Get g t1 (backedOffpodGroup (mgr s)) = false ∧
    lister_List (pod_Namespace pod) (v1alpha1.PodGroupLabel, util_GetPodGroupLabel pod) w2
      = (OK pods, w3) ∧
    (spec_MinMember (pg_Spec pg) ≤ Z.of_nat (length pods))%Z ∧
    time_Now w3 = (t2, w4) ∧ cache_Get g t2 (permittedpodGroup (mgr s)) = true.

Lemma core_PreFilter_permitted pod s :
  util_GetPodGroupLabel pod ≠ "" → still_permitted pod s →
  ∃ w, Core.PreFilter pod s = (Ret None, set_world w s).
Proof.
  intros Hl (pg&pods&w1&w2&w3&w4&t1&t2&E1&E2&E3&E4&Hmin&E5&E6). exists w4.
  unfold Core.PreFilter. rewrite Go.run_bind, GetPodGroup_run, decide_False, E1 by done.
  cbn beta iota. go_ext E2. rewrite Go.run_bind. cbn [Go.gets set_world mgr]. rewrite E3.
  go_ext E4. rewrite decide_False by lia.
  go_ext E5. rewrite Go.run_bind. cbn [Go.gets set_world mgr]. by rewrite E6.
Qed.

(** Such a pod passes PreFilter with the empty name as its only candidate. *)
Lemma PreFilter_no_node pod s :
  util_GetPodGroupLabel pod ≠ "" → still_permitted pod s →
  podToNode (mgr s) !! pod_Name pod = None →
  (Plugin.PreFilter pod s).1 = Ret (Some {[ "" ]}, NewStatus fw_Success [""]).
Proof.
  intros Hl Hp Hn. destruct (core_PreFilter_permitted pod s Hl Hp) as [w E].
  unfold Plugin.PreFilter; open_manager. rewrite Go.run_bind. cbn [GetPodNode Go.gets]. rewrite Hn. simpl.
  rewrite Go.run_bind, E, Go.run_bind. cbn [GetPodNode Go.gets set_world mgr]. by rewrite Hn.
Qed.

(** ** Too few nodes *)

Lemma not_zipped pods (nodes : list string) k p :
  NoDup (pod_Name <$> pods) → pods !! k = Some p → length nodes ≤ k →
  pod_Name p ∉ pod_Name <$> (zip pods nodes).*1.
Proof.
  intros Hnd Hk Hlen Hin. apply list_elem_of_fmap in Hin as (q&Hq&Hin).
  apply list_elem_of_fmap in Hin as ([q' n]&->&Hin).
  apply list_elem_of_lookup in Hin as [i Hi]. apply lookup_zip_with_Some in Hi as (?&?&[= <- <-]&Hqi&Hni).
  assert (i = k) as ->; [|apply lookup_lt_Some in Hni; lia].
  eapply (NoDup_lookup (pod_Name <$> pods) i k (pod_Name p)); [done|..]; rewrite list_lookup_fmap.
  - rewrite Hqi. simpl in *. congruence.
  - by rewrite Hk.
Qed.

(** The nodes handed out for too short an answer. *)
Lemma assigned_short pods (nodes : list string) (m : gmap string string) k p :
  NoDup (pod_Name <$> pods) → length nodes ≤ length pods →
  pods !! k = Some p → m !! pod_Name p = None →
  assign_pods (zip pods nodes) m !! pod_Name p = nodes !! k.
Proof.
  intros Hnd Hlen Hk Hm. destruct (nodes !! k) as [n|] eqn:Hn.
  - apply assign_pods_lookup; [by apply zip_fst_NoDup|by eapply lookup_zip].
  - apply lookup_ge_None in Hn. by rewrite assign_pods_other by (by eapply not_zipped).
Qed.

Context {FL : FluxServiceLaws CL FS} {HR : FluxReliable FS} {LL : ListerLaws CL}.

(** C12: When Fluxion answers a gang with fewer nodes than it has pods, as when pods
    share a node, PreFilter frees the allocation and forgets the job and yet passes the
    pod; the first pods keep the freed nodes, and each pod for which no node is left
    passes PreFilter, as long as the group is marked as permitted, with the empty name
    as its only candidate. *)
Theorem short_answer_strands_gang pod pg pods resp s i :
  let nodes := pb.NodeID <$> pb.Nodelist resp in
  util_GetPodGroupLabel pod ≠ "" →
  placeable pod pg pods resp s →
  groupToJobId (mgr s) !! full_name pod = None →
  is_Some (scheduleTimeout (mgr s)) →
  (spec_MinMember (pg_Spec pg) ≤ Z.of_nat (length pods))%Z →
  length nodes < length pods →
  NoDup (pod_Name <$> pods) → pods !! i = Some pod →
  (∀ p, p ∈ pods → podToNode (mgr s) !! pod_Name p = None) →
  ∃ s', Plugin.PreFilter pod s
      = (Ret (Some {[ default "" (nodes !! i) ]}, NewStatus fw_Success [""]), s') ∧
    groupToJobId (mgr s') !! full_name pod = None ∧
    GoInt.fits 64 (pb.JobID resp) ∧ pb.JobID resp ∉ live (world s') ∧
    ∀ k p, pods !! k = Some p →
      podToNode (mgr s') !! pod_Name p = nodes !! k ∧
      ∀ t, podToNode (mgr t) !! pod_Name p = nodes !! k → length nodes ≤ k →
        util_GetPodGroupLabel p ≠ "" → still_permitted p t →
        (Plugin.PreFilter p t).1 = Ret (Some {[ "" ]}, NewStatus fw_Success [""]).
Proof.
  intros nodes Hl Hp Hj [d Hd] Hmin Hlen Hnd Hi Hnone.
  destruct (core_PreFilter_asks pod pg pods resp s Hl Hp Hj Hmin) as (rep&w4&w5&w6&Hrep&EM&_&E).
  fold nodes in E. set (s1 := set_world w6 _) in E.
  assert (groupToJobId (mgr s1) !! full_name pod = Some (GoInt.uint64 (pb.JobID resp))) as Hj1
    by apply lookup_insert_eq.
  rewrite admit_nodes_run in E. rewrite (decide_True (P:=length nodes ≤ length pods)) in E by lia.
  change (scheduleTimeout (mgr s1)) with (scheduleTimeout (mgr s)) in E. rewrite Hd in E.
  set (s2 := after_size_check _ _ _ _ s1) in E. 
  assert (s2 = (cancelFluxJob (full_name pod) rep s1).2) as Es2
    by (unfold s2, after_size_check; by rewrite decide_True by lia).
  assert (wf_request (pb.mkMatchRequest (Some (PreparePodJobSpec rep (full_name pod))) "allocate"
            (spec_MinMember (pg_Spec pg)))) as Hwf by apply PreparePodJobSpec_Cpu_nonzero.
  destruct (match_ok_live _ _ _ _ Hwf EM) as [_ Hlive].
  assert (GoInt.fits 64 (pb.JobID resp)) as Hfit
    by (apply (live_fits w6); rewrite Hlive; set_solver).
  assert (live (world s2) = live w6 ∖ {[pb.JobID resp]}) as Hlive2.
  { rewrite Es2, (cancelFluxJob_frees _ _ _ _ Hj1). by rewrite GoInt.int64_uint64. }
  assert (podToNode (mgr s2) = podToNode (mgr s)) as Hn2
    by (rewrite Es2; apply (cancelFluxJob_keeps_nodes _ _ s1), full_name_slash).
  pose proof (now_live (world s2)) as Hnow.
  destruct (time_Now (world s2)) as [now w7]. simpl in Hnow.
  set (s3 := set_permitted _ _) in E.
  assert (∀ k p, pods !! k = Some p → podToNode (mgr s3) !! pod_Name p = nodes !! k) as Hnodes.
  { intros k p Hk. change (podToNode (mgr s3))
      with (assign_pods (zip pods nodes) (podToNode (mgr s2))). rewrite Hn2.
    apply assigned_short; [done|lia|done|]. by eapply Hnone, list_elem_of_lookup_2. }
  exists s3. split_and!.
  - unfold Plugin.PreFilter; open_manager. rewrite Go.run_bind. cbn [GetPodNode Go.gets].
    rewrite Hnone by (by eapply list_elem_of_lookup_2). simpl.
    rewrite Go.run_bind, E, Go.run_bind. cbn [GetPodNode Go.gets]. by rewrite (Hnodes i pod Hi).
  - change (groupToJobId (mgr s3)) with (groupToJobId (mgr s2)). rewrite Es2.
    apply cancelFluxJob_forgets.
  - done.
  - change (world s3) with w7. rewrite Hnow, Hlive2. set_solver.
  - intros k p Hk. split; [by apply Hnodes|]. intros t Ht Hge Hlp Hsp.
    apply PreFilter_no_node; [done..|]. rewrite Ht. by apply lookup_ge_None.
Qed.
End packing.
