(* ===== verification/Concrete.v ===== *)
(** * A concrete environment

    Instances of the interfaces of [Env], [System], [ClusterGraph],
    [FluxionFacts], [Startup], [ControllerFacts], [Pipeline], [Release] and [Serving], with the laws
    proved, so that the theorems can be applied at concrete inputs: quantities are integers, the
    cluster and Fluxion are records, and the library calls compute on them. *)

From Stdlib Require Import Ascii.
From stdpp Require Import prelude gmap strings list fin_maps fin_sets.
From S2P Require Import Prelude GoRuntime Kube Wire Env Core CoreFacts System Jgf ClusterGraph JobSpec Fluxion FluxionFacts Startup Controller ControllerFacts Pipeline Plugin PluginFacts Gang Release Threads Pool  .

Local Open Scope Z_scope.

(** ** Libraries without state *)

#[export] Instance cQuantity : QuantityLib := {|
  Quantity := Z;
  Quantity_zero := 0;
  Quantity_Value q := GoInt.wrap 64 q;
  Quantity_MilliValue q := GoInt.wrap 64 (1000 * q);
  Quantity_Add := Z.add;
  RL_Cpu rl := default 0 (rl !! "cpu");
  RL_Memory rl := default 0 (rl !! "memory");
  RL_StorageEphemeral rl := default 0 (rl !! "ephemeral-storage");
|}.

#[export] Instance cQuantityLaws : QuantityLaws cQuantity.
Proof. split; try done. intros q. by apply GoInt.wrap_fits. Qed.

#[export] Instance cMapOrder : MapOrder := {| range_order V m := map_to_list m |}.
#[export] Instance cMapOrderLaws : MapOrderLaws cMapOrder.
Proof. by split. Qed.

#[export] Instance cUpstream : Upstream := {|
  util_GetPodGroupLabel := flabel.GetPodGroupLabel;
  corev1helpers_PodPriority pod := 0;
|}.
#[export] Instance cUpstreamLaws : UpstreamLaws cUpstream.
Proof. by split. Qed.

(** A cache maps a key to the time it expires at. *)
Definition cache_has (k : string) (t : Z) (c : gmap string Z) : bool :=
  match c !! k with Some e => bool_decide (t ≤ e) | None => false end.

#[export] Instance cCache : GoCacheLib := {|
  Cache := gmap string Z;
  cache_New d i := ∅;
  cache_Add k d t c := if cache_has k t c then c else <[k := t + d]> c;
  cache_Get := cache_has;
  cache_Delete := delete;
|}.

#[export] Instance cCacheLaws : GoCacheLaws cCache.
Proof.
  split; simpl; unfold cache_has.
  - done.
  - intros k d t0 t c Hd Ht ->. by rewrite lookup_insert_eq.
  - by intros k k' d t0 t c -> Ht.
  - intros k k' d t0 t c Hne. destruct (match c !! k with Some _ => _ | None => _ end); [done|].
    by rewrite lookup_insert_ne.
  - intros k t c. by rewrite lookup_delete_eq.
  - intros k k' t c Hne. by rewrite lookup_delete_ne.
Qed.

#[export] Instance cCycle : CycleStateLib := {|
  CycleState := gmap string StateData;
  cs_Read k c := c !! k;
  cs_Write k d c := <[k := d]> c;
|}.
#[export] Instance cCycleLaws : CycleStateLaws cCycle.
Proof. split; simpl; intros; [by rewrite lookup_insert_eq|by rewrite lookup_insert_ne]. Qed.

(** ** The world of the scheduler *)

Record World := mkWorld {
  w_groups : gmap (string * string) PodGroup;
  w_pods : list Pod;
  w_infos : list (list Pod);
  w_waiting : list Pod;
  w_now : Z;
  (** the jobs Fluxion holds, the next job id, and the document of the next
      allocation *)
  w_live : gset Z;
  w_next : Z;
  w_alloc : list pb.NodeAlloc;
  (** what the framework was told about waiting pods *)
  w_told : list string;
}.

Definition with_live (l : gset Z) (n : Z) (w : World) : World :=
  mkWorld (w_groups w) (w_pods w) (w_infos w) (w_waiting w) (w_now w) l n (w_alloc w) (w_told w).
Definition tell (s : string) (w : World) : World :=
  mkWorld (w_groups w) (w_pods w) (w_infos w) (w_waiting w) (w_now w) (w_live w) (w_next w)
    (w_alloc w) (w_told w ++ [s]).

(** A pod whose label values hold no slash. *)
Definition plain_labels (p : Pod) : Prop :=
  map_Forall (λ _ v, ¬ has_char "/" v) (GoMap.entries (pod_Labels p)).
#[export] Instance plain_labels_dec p : Decision (plain_labels p).
Proof. unfold plain_labels. apply _. Defined.

Definition selects (ns : string) (sel : string * string) (p : Pod) : Prop :=
  pod_Namespace p = ns ∧ GoMap.get (pod_Labels p) sel.1 = Some sel.2 ∧ plain_labels p.
#[export] Instance selects_dec ns sel p : Decision (selects ns sel p).
Proof. unfold selects. apply _. Defined.

#[export] Instance cCluster : Cluster World := {|
  client_Get ns n w :=
    (match w_groups w !! (ns, n) with
     | Some pg => if decide (pg_Name pg = n ∧ pg_Namespace pg = ns) then OK pg else Err "mismatch"
     | None => Err "not found"
     end, w);
  lister_List ns sel w := (OK (filter (selects ns sel) (w_pods w)), w);
  NodeInfos_List w := (OK (w_infos w), w);
  WaitingPods w := (w_waiting w, w);
  waiting_Allow name p w := tell ("allow " +:+ pod_Name p) w;
  waiting_Reject name msg p w := tell ("reject " +:+ pod_Name p) w;
  time_Now w := (w_now w, w);
|}.

#[export] Instance cClientLaws : ClientLaws cCluster.
Proof.
  split. simpl. intros ns n w pg w'.
  destruct (w_groups w !! (ns, n)); [|done]. case_decide; [|done]. by intros [= <- <-].
Qed.

#[export] Instance cListerLaws : ListerLaws cCluster.
Proof.
  split; simpl.
  - intros ns k v w w' pods p [= <- <-] Hp. apply list_elem_of_filter in Hp as [(?&?&?) _]. done.
  - intros ns sel w w' pods p k v [= <- <-] Hp Hk.
    apply list_elem_of_filter in Hp as [(_&_&Hpl) _].
    unfold plain_labels in Hpl. eapply (map_Forall_lookup_1 _ _ k v) in Hpl; [done|].
    unfold GoMap.entries. by destruct (pod_Labels p).
Qed.

#[export] Instance cSeenLaws : SeenLaws cCluster.
Proof.
  refine (Build_SeenLaws _ _ cCluster (λ w, mkSeen _ (concat (w_infos w)) (w_waiting w) (λ k,
    match w_groups w !! k with
    | Some pg => if decide (pg_Name pg = k.2 ∧ pg_Namespace pg = k.1) then Some pg else None
    | None => None
    end)) _ _ _ _); try done.
  - intros w. by do 2 eexists.
  - intros w. by do 2 eexists.
  - intros ns n w pg. simpl. destruct (w_groups w !! (ns, n)) as [pg'|]; [|done].
    case_decide; [|done]. intros [= <-]. by eexists.
Defined.

(** Fluxion hands out its next id while it is fresh and fits. *)
Definition can_allocate (w : World) : Prop := GoInt.fits 64 (w_next w) ∧ w_next w ∉ w_live w.
#[export] Instance can_allocate_dec w : Decision (can_allocate w).
Proof. unfold can_allocate. apply _. Defined.

#[export] Instance cFlux : FluxService World := {|
  grpc_Dial w := (None, w);
  flux_Match req w :=
    if decide (can_allocate w)
    then (OK (pb.mkMatchResponse "" (w_alloc w) (w_next w)),
          with_live ({[w_next w]} ∪ w_live w) (w_next w + 1) w)
    else (Err "no id left", w);
  flux_Cancel req w :=
    (OK (pb.mkCancelResponse (pb.cancel_JobID req) 0),
     with_live (w_live w ∖ {[pb.cancel_JobID req]}) (w_next w) w);
|}.

Definition fitting (l : gset Z) : gset Z := filter (GoInt.fits 64) l.

#[export] Instance cFluxLaws : FluxServiceLaws cCluster cFlux.
Proof.
  refine (Build_FluxServiceLaws _ _ cCluster cFlux (λ w, fitting (w_live w))
    _ _ _ _ _ _ _ _ _ _ _ _ _ _); try done.
  - intros w j Hj. apply elem_of_filter in Hj as [? _]. done.
  - intros req w resp w' _. simpl. case_decide as Hc; [|done]. intros [= <- <-].
    destruct Hc as [Hf Hn]. simpl. unfold fitting. split.
    + rewrite elem_of_filter. tauto.
    + apply set_eq. intros x. rewrite elem_of_union, !elem_of_filter, elem_of_union,
        !elem_of_singleton. split; [naive_solver|]. intros [->|[? ?]]; auto.
  - intros req w e w' _. simpl. case_decide; [done|]. by intros [= _ <-].
  - intros req w resp w' _ [= <- <-] _. simpl. unfold fitting.
    apply set_eq. intros x. rewrite elem_of_difference, !elem_of_filter, elem_of_difference. tauto.
  - intros req w resp w' _ [= <- <-]. done.
Defined.

#[export] Instance cFluxReliable : FluxReliable cFlux.
Proof. split; intros; by repeat eexists. Qed.

(** ** The Fluxion library *)

#[export] Instance cYaml : YamlLib := {| yaml_Marshal js := OK "jobspec" |}.

(** Every document decodes to one compute node with two cores. *)
Definition vertex_json (type basename : string) : json :=
  JObject [("metadata", JObject [("type", JString type); ("basename", JString basename)])].

Definition one_node : list (string * json) :=
  [("graph", JObject [("nodes",
     JArray [vertex_json CoreType "core"; vertex_json CoreType "core";
             vertex_json NodeType "node-a"])])].

#[export] Instance cJson : JsonLib := {| json_Unmarshal s := OK one_node |}.

#[export] Instance cReapi : ReapiClient World := {|
  cli_MatchAllocate reserve spec w :=
    if decide (can_allocate w)
    then (mkMatchAllocation false "document" (w_next w) None,
          with_live ({[w_next w]} ∪ w_live w) (w_next w + 1) w)
    else (mkMatchAllocation false "" 0 None, w);
  cli_Cancel j noent w := (None, with_live (w_live w ∖ {[j]}) (w_next w) w);
  cli_GetErrMsg w := ("", w);
  cli_Info j w := (tt, w);
  cli_InitContext jgf options w := w;
  os_ReadFile path w := (OK "graph", w);
|}.

#[export] Instance cTransport : Transport World := {|
  rpc_dial w := (None, w);
  rpc_deliver w := (None, w);
  rpc_answer w := (None, w);
|}.
#[export] Instance cAnswersArrive : AnswersArrive cTransport.
Proof. by intros w. Qed.

Lemma one_node_document :
  alloc_document one_node [(CoreType, "core"); (CoreType, "core"); (NodeType, "node-a")].
Proof.
  do 2 eexists. split_and!; [reflexivity..|]. repeat constructor; by do 2 eexists.
Qed.

#[export] Instance cReapiLaws : ReapiLaws cCluster cReapi cTransport cYaml cJson.
Proof.
  refine (Build_ReapiLaws _ _ cCluster cReapi cTransport cYaml cJson
    (λ w, fitting (w_live w)) _ _ _ _ _ _ _ _ _ _ _ _ _ _ _ _ _ _); try done.
  - intros w j Hj. apply elem_of_filter in Hj as [? _]. done.
  - intros spec w ma w'. simpl. case_decide as Hc; [|by intros [= <- <-]].
    destruct Hc as [Hf Hn]. intros [= <- <-] _ _. simpl. rewrite GoInt.wrap_id by done.
    unfold fitting. split_and!.
    + rewrite elem_of_filter. tauto.
    + apply set_eq. intros x. rewrite elem_of_union, !elem_of_filter, elem_of_union,
        !elem_of_singleton. split; [naive_solver|]. intros [->|[? ?]]; auto.
    + do 2 eexists. split; [done|apply one_node_document].
  - intros spec w ma w'. simpl. case_decide; intros [= <- <-]; simpl; [by intros [|]|done].
  - intros j b w w' [= <-]. simpl. unfold fitting. apply set_eq. intros x.
    rewrite elem_of_difference, !elem_of_filter, elem_of_difference. tauto.
  - intros js. by eexists.
Defined.

#[export] Instance cTransportReliable : FluxReliable fluxion_service.
Proof. split; intros; by repeat eexists. Qed.

(** ** The builder's clientset: the world is the node list *)

#[export] Instance cResourceHelper : ResourceHelper := {|
  PodRequests pod := foldr (λ c m, union_with (λ a b, Some (a + b)) (container_Requests c) m) ∅
                       (pod_Containers pod);
|}.

#[export] Instance cKube : KubeClient (list KNode) := {|
  rest_InClusterConfig w := (None, w);
  kubernetes_NewForConfig w := (None, w);
  Nodes_List w := (OK w, w);
  fields_ParseSelector s := OK s;
  Pods_List sel w := (OK [], w);
  json_MarshalIndent g := OK "graph";
  os_Create path w := (None, w);
  f_Write path contents w := (None, w);
|}.

(** ** The server at start-up: nodes, files and the library's context *)

Record SWorld := mkSWorld {
  sw_nodes : list KNode;
  sw_files : gmap string string;
  sw_loaded : option (string * string);
}.

#[export] Instance cServerKube : KubeClient SWorld := {|
  rest_InClusterConfig w := (None, w);
  kubernetes_NewForConfig w := (None, w);
  Nodes_List w := (OK (sw_nodes w), w);
  fields_ParseSelector s := OK s;
  Pods_List sel w := (OK [], w);
  json_MarshalIndent g := OK "graph";
  os_Create path w := (None, mkSWorld (sw_nodes w) (<[path := ""]> (sw_files w)) (sw_loaded w));
  f_Write path contents w :=
    (None, mkSWorld (sw_nodes w) (<[path := contents]> (sw_files w)) (sw_loaded w));
|}.

#[export] Instance cServerReapi : ReapiClient SWorld := {|
  cli_MatchAllocate reserve spec w := (mkMatchAllocation false "" 0 None, w);
  cli_Cancel j noent w := (None, w);
  cli_GetErrMsg w := ("", w);
  cli_Info j w := (tt, w);
  cli_InitContext jgf options w := mkSWorld (sw_nodes w) (sw_files w) (Some (jgf, options));
  os_ReadFile path w :=
    (match sw_files w !! path with Some c => OK c | None => Err "no such file" end, w);
|}.

#[export] Instance cFileLaws : FileLaws cServerKube cServerReapi.
Proof.
  refine (Build_FileLaws _ _ cServerKube cServerReapi (λ w p, sw_files w !! p) sw_loaded _ _ _).
  - intros p c w0 w1 w2 _ [= <-]. simpl. by rewrite lookup_insert_eq.
  - intros p c w E. simpl. rewrite E. by eexists.
  - done.
Defined.

#[export] Instance cNet : NetLib SWorld := {|
  net_Listen network addr w :=
    (if String.prefix "::" addr then Err "too many colons in address" else OK ("[::]" +:+ addr), w);
  server_Serve services addr w := (None, w);
|}.

#[export] Instance cNetLaws : NetLaws cNet.
Proof. split. intros port w. eexists _, w. simpl. by destruct port. Qed.

(** ** The controller's API server *)

Record AWorld := mkAWorld {
  aw_groups : gmap (string * string) PodGroup;
  aw_pods : list Pod;
  aw_now : Z;
}.

#[export] Instance cControllerLib : ControllerLib := {|
  MicroTime_MarshalJSON t := OK (Fmt.d (t `div` 1000));
  MicroTime_UnmarshalJSON s :=
    match Strconv.digits 0 s with Some t => OK (t * 1000) | None => Err "not a time" end;
  upstream_GetPodGroupLabel := flabel.GetPodGroupLabel;
|}.

#[export] Instance cControllerLibLaws : ControllerLibLaws cControllerLib.
Proof.
  split; [done|]. intros t str Ht. simpl. intros [= <-]. rewrite digits_d; [done|].
  apply Z.div_pos; lia.
Qed.

Definition pg_key (pg : PodGroup) : string * string := (pg_Namespace pg, pg_Name pg).

(** A group that can be stored under a key, and under a schema with or without
    the field status.creationTime. *)
Definition storable (keep : bool) (k : string * string) (pg : PodGroup) : Prop :=
  pg_key pg = k ∧ (keep = true ∨ status_CreationTime (pg_Status pg) = 0).
#[export] Instance storable_dec keep k pg : Decision (storable keep k pg).
Proof. unfold storable. apply _. Defined.

Definition proper_groups (keep : bool) (m : gmap (string * string) PodGroup)
    : gmap (string * string) PodGroup :=
  filter (λ kv, storable keep kv.1 kv.2) m.

Definition put_group (pg : PodGroup) (w : AWorld) : AWorld :=
  mkAWorld (<[pg_key pg := pg]> (aw_groups w)) (aw_pods w) (aw_now w).

Definition has_label (sel : string * string) (p : Pod) : Prop :=
  GoMap.get (pod_Labels p) sel.1 = Some sel.2.
#[export] Instance has_label_dec sel p : Decision (has_label sel p).
Proof. unfold has_label. apply _. Defined.

Definition api_under (keep : bool) : ApiServer AWorld := {|
  api_Get ns n w :=
    (match proper_groups keep (aw_groups w) !! (ns, n) with Some pg => Found pg | None => NotFound end, w);
  api_List sel w := (OK (filter (has_label sel) (aw_pods w)), w);
  api_Create pg w :=
    match proper_groups keep (aw_groups w) !! pg_key pg with
    | Some _ => (Some "already exists", w)
    | None => (None, put_group (as_created (aw_now w `max` 0) pg) w)
    end;
  api_Delete pg w :=
    match proper_groups keep (aw_groups w) !! pg_key pg with
    | Some _ => (None, mkAWorld (delete (pg_key pg) (aw_groups w)) (aw_pods w) (aw_now w))
    | None => (Some "not found", w)
    end;
  api_StatusUpdate pg w :=
    match proper_groups keep (aw_groups w) !! pg_key pg with
    | Some old =>
        ((set_MinMember (if decide (spec_MinMember (pg_Spec old) = 0)
                         then spec_MinMember (pg_Spec pg) else spec_MinMember (pg_Spec old)) pg,
          None), put_group (set_Status (pruned keep (pg_Status pg)) old) w)
    | None => ((pg, Some "not found"), w)
    end;
  api_StatusPatch old new w := ((new, None), w);
  api_Patch base new w :=
    match proper_groups keep (aw_groups w) !! pg_key base with
    | Some old =>
        (None, put_group (if decide (spec_MinMember (pg_Spec new) = spec_MinMember (pg_Spec base))
                          then old else set_MinMember (spec_MinMember (pg_Spec new)) old) w)
    | None => (Some "not found", w)
    end;
  recorder_Event pg msg w := w;
  api_Now w := (Z.max 1 (aw_now w), w);
|}.

(** A server whose schema has the field, and one with the repository's. *)
#[export] Instance cApi : ApiServer AWorld := api_under true.
Definition charts_api : ApiServer AWorld := api_under false.

Lemma proper_groups_lookup keep m k pg :
  proper_groups keep m !! k = Some pg ↔ m !! k = Some pg ∧ storable keep k pg.
Proof. unfold proper_groups. apply map_lookup_filter_Some. Qed.

Lemma proper_groups_insert keep m k pg :
  storable keep k pg → proper_groups keep (<[k := pg]> m) = <[k := pg]> (proper_groups keep m).
Proof. intros H. unfold proper_groups. by apply map_filter_insert_True. Qed.

Lemma proper_groups_delete keep m k :
  proper_groups keep (delete k m) = delete k (proper_groups keep m).
Proof. unfold proper_groups. apply map_filter_delete. Qed.

Definition api_laws (keep : bool) : ApiLaws (api_under keep).
Proof.
  refine (Build_ApiLaws _ _ (api_under keep) (λ w, proper_groups keep (aw_groups w))
    (λ w sel, filter (has_label sel) (aw_pods w)) keep _ _ _ _ _ _ _ _ _ _ _ _ _).
  - intros ns n w pg [_ [_ [->|H]]]%proper_groups_lookup; [done|].
    destruct keep; [done|]. unfold pruned. destruct (pg_Status pg). simpl in H. by subst.
  - intros w. by do 2 eexists.
  - intros ns n w pg E. simpl. rewrite E. by eexists.
  - intros ns n w E. simpl. rewrite E. by eexists.
  - intros sel w. by eexists.
  - intros ns n w pg [_ [[= <- <-] _]]%proper_groups_lookup. done.
  - intros pg old w E. fold (pg_key pg) in *. simpl. rewrite E. eexists. split; [done|].
    apply proper_groups_lookup in E as [_ [Hk _]]. split; [|done]. unfold put_group. simpl.
    change (pg_key (set_Status _ old)) with (pg_key old). rewrite Hk.
    apply proper_groups_insert. split; [done|]. destruct keep; [by left|by right].
  - intros base m st old w new E. fold (pg_key base) in *. simpl. rewrite E. eexists.
    split; [done|]. apply proper_groups_lookup in E as [_ [Hk Hc]]. split; [|done].
    unfold put_group. simpl.
    set (r := if decide (m = spec_MinMember (pg_Spec base)) then old else set_MinMember m old).
    assert (storable keep (pg_key base) r) as Hr by (unfold r; by case_decide).
    rewrite (proj1 Hr). by apply proper_groups_insert.
  - intros pg old w E. fold (pg_key pg) in *. simpl. rewrite E. eexists. split; [done|].
    split; [|done]. simpl. apply proper_groups_delete.
  - intros pg w E. fold (pg_key pg) in *. simpl. rewrite E. do 2 eexists. split; [done|].
    split; [|split; [|done]].
    2:{ unfold put_group. simpl. apply proper_groups_insert. split; [done|by right]. }
    lia.
  - intros pg old w E. fold (pg_key pg) in *. simpl. rewrite E. by do 2 eexists.
  - intros pg w E. fold (pg_key pg) in *. simpl. rewrite E. by do 2 eexists.
  - done.
Defined.

#[export] Instance cApiLaws : ApiLaws cApi := api_laws true.
