(* ===== verification/Witnesses.v ===== *)
(** * The theorems at concrete inputs

    Each lemma applies one theorem to a small cluster of [Concrete] and
    discharges its hypotheses by computation. *)

From Stdlib Require Import Ascii.
From stdpp Require Import prelude gmap strings list fin_maps fin_sets.
From S2P Require Import Prelude GoRuntime Kube Wire Env PodSpec Core CoreFacts CoreMethods Plugin PluginFacts Threads Pool Logger Locks CycleTypes Gang System Interleaving Jgf JgfFacts ClusterGraph ClusterFacts ClusterTree JobSpec Fluxion FluxionFacts Startup Placement Webhook Controller ControllerFacts Pipeline EndToEnd Concrete.

Local Open Scope Z_scope.

(** ** A small cluster *)

(** A pod of the group [g] in the namespace [ns] that asks for one cpu. *)
Definition ex_pod (name node : string) (phase : PodPhase) : Pod :=
  mkPod name "ns" name (Some {[ flabel.PodGroupLabel := "g" ]}) [] None node
    [mkContainer {[ "cpu" := 1 ]} ∅] phase.

Definition pod_a : Pod := ex_pod "a" "" PodPending.
Definition pod_b : Pod := ex_pod "b" "" PodPending.

Definition ex_group (minMember : Z) : PodGroup :=
  mkPodGroup "g" "ns" [] 0 (mkPodGroupSpec minMember ∅ None) zeroStatus.

(** Two pods wait for a group of two; Fluxion would give it [nodes]. *)
Definition ex_world (nodes : list string) : World :=
  mkWorld {[ ("ns", "g") := ex_group 2 ]} [pod_a; pod_b] [[ex_pod "c" "node-c" PodRunning]]
    [pod_a; pod_b] 1000 ∅ 7 ((λ n, pb.mkNodeAlloc n 1) <$> nodes) [].

Definition two_nodes : list string := ["node-a"; "node-b"].

Definition ex_start (nodes : list string) : Sys (W:=World) :=
  mkSys New.2 ∅ (ex_world nodes).

(** The state after the first pod's PreFilter. *)
Definition ex_placed : Sys (W:=World) := (Core.PreFilter pod_a (ex_start two_nodes)).2.

(** A computation that returns [a] ends in the state it ends in. *)
Lemma runs_to {A B} (p : A * B) a : p.1 = a → p = (a, p.2).
Proof. by destruct p as [x y]; simpl; intros ->. Qed.

(** ** The manager *)

Lemma PreparePodJobSpec_correct_witness :
  pb.Cpu (PreparePodJobSpec (MO:=cMapOrder) pod_a "ns/g") = 1.
Proof.
  destruct (PreparePodJobSpec_correct (MO:=cMapOrder) pod_a "ns/g") as (_&_&_&H&_).
  apply H. vm_compute. split; [intros ?|]; done.
Defined.

Lemma AskFlux_correct_witness :
  ∃ resp w,
    flux_Match (pb.mkMatchRequest (Some (PreparePodJobSpec pod_a "ns/g")) "allocate" 2) w
      = (OK resp, world (AskFlux pod_a (ex_group 2) "ns/g" (ex_start two_nodes)).2) ∧
    two_nodes = pb.NodeID <$> pb.Nodelist resp.
Proof.
  destruct (AskFlux_correct pod_a (ex_group 2) "ns/g" (ex_start two_nodes) two_nodes None
              (AskFlux pod_a (ex_group 2) "ns/g" (ex_start two_nodes)).2)
    as [(resp&w&H1&H2&_) _];
    [apply runs_to; vm_compute; reflexivity|]. by exists resp, w.
Defined.

Lemma admit_nodes_exact_witness :
  ∃ s', admit_nodes "ns/g" pod_a [pod_a; pod_b] two_nodes (ex_start two_nodes)
        = (Ret None, s') ∧
    podToNode (mgr s') !! "b" = Some "node-b".
Proof.
  destruct (admit_nodes_exact "ns/g" pod_a [pod_a; pod_b] two_nodes (ex_start two_nodes)
              300000000000) as (s'&H&Hn&_); [done| |done|done|].
  { refine (bool_decide_unpack _ _). by vm_compute. }
  exists s'. split; [exact H|]. by destruct (Hn 1%nat pod_b "node-b").
Defined.

Definition ex_known : Sys (W:=World) :=
  set_groupToJobId (<["ns/g" := 7]>) (ex_start ["node-a"]).

Lemma admit_nodes_wrong_size_witness :
  (admit_nodes "ns/g" pod_a [pod_a; pod_b] ["node-a"] ex_known).1 = Ret None ∧
  groupToJobId (mgr (admit_nodes "ns/g" pod_a [pod_a; pod_b] ["node-a"] ex_known).2) !! "ns/g"
    = None.
Proof.
  pose proof (admit_nodes_wrong_size "ns/g" pod_a [pod_a; pod_b] ["node-a"] ex_known
    300000000000 7 (world ex_known)
    (with_live ∅ 7 (ex_world ["node-a"])) (pb.mkCancelResponse 7 0)) as H.
  destruct (admit_nodes _ _ _ _ _) as [res s']. destruct H as (H1&_&H2&_);
    [done| |reflexivity|reflexivity|reflexivity|vm_compute; reflexivity|done|].
  { refine (bool_decide_unpack _ _). by vm_compute. }
  split; [apply H2; simpl; lia|exact H1].
Defined.

Lemma PreFilter_assigns_only_gangs_witness :
  ∃ (pods : list Pod) resp (i : nat) p, pods !! i = Some p ∧ pod_Name p = "b" ∧
    (pb.NodeID <$> pb.Nodelist resp) !! i = Some "node-b".
Proof.
  destruct (PreFilter_assigns_only_gangs pod_a (ex_start two_nodes) "b" "node-b")
    as [H|(pg&pods&rep&resp&w0&w1&w2&w3&w4&i&p&_&_&_&_&_&Hi&Hp&Hn)];
    [vm_compute; reflexivity|discriminate H|].
  by exists pods, resp, i, p.
Defined.

(** A group of three with two pods. *)
Definition ex_small : Sys (W:=World) :=
  mkSys New.2 ∅
    (mkWorld {[ ("ns", "g") := ex_group 3 ]} [pod_a; pod_b] [] [] 1000 ∅ 7 [] []).

Definition small_error : string :=
  "pre-filter pod a cannot find enough sibling pods, current pods number: 2, minMember of group: 3".

Lemma PreFilter_error_safe_witness :
  podToNode (mgr (Core.PreFilter pod_a ex_small).2) ⊆ podToNode (mgr ex_small).
Proof.
  refine (sh_nodes _ _ _ (PreFilter_error_safe pod_a ex_small small_error
    (Core.PreFilter pod_a ex_small).2 _)).
  apply runs_to. vm_compute. reflexivity.
Defined.

Lemma Permit_correct_witness : (Core.Permit pod_a (ex_start two_nodes)).1 = Ret Success.
Proof.
  rewrite (Permit_correct pod_a (ex_start two_nodes) (ex_group 2) (ex_world two_nodes)
             [[ex_pod "c" "node-c" PodRunning]] (ex_world two_nodes));
    [vm_compute; reflexivity|vm_compute; discriminate|reflexivity|reflexivity|vm_compute; reflexivity].
Defined.

Lemma Backoff_blocks_PreFilter_witness :
  ∃ s', BackoffPodGroup (full_name pod_a) 10 (ex_start two_nodes) = (Ret (), s') ∧
    (Core.PreFilter pod_a s').1 = Ret (Some "podGroup ns/g failed recently").
Proof.
  destruct (Backoff_blocks_PreFilter pod_a (ex_start two_nodes) 10 1000 (ex_world two_nodes)
              (ex_group 2) (ex_world two_nodes) 1000 (ex_world two_nodes)) as (s'&H1&H2);
    [done|reflexivity|reflexivity|vm_compute; discriminate|reflexivity|reflexivity|lia|].
  exists s'. split; [exact H1|]. rewrite H2. reflexivity.
Defined.

Lemma finished_pod_releases_job_witness :
  ∃ s', UpdatePod (Obj_Pod pod_a) (Obj_Pod (ex_pod "a" "node-a" PodSucceeded)) ex_known
        = (Ret (), s') ∧
    groupToJobId (mgr s') = delete "ns/g" (groupToJobId (mgr ex_known)).
Proof.
  destruct (finished_pod_releases_job pod_a (ex_pod "a" "node-a" PodSucceeded) ex_known
              (ex_group 2) (world ex_known) 7 (world ex_known)
              (with_live ∅ 7 (ex_world ["node-a"])) (pb.mkCancelResponse 7 0)) as (s'&H1&H2);
    [by left|vm_compute; discriminate|reflexivity|reflexivity|reflexivity|
     vm_compute; reflexivity|reflexivity|].
  by exists s'.
Defined.

(** The group's object is gone, its job is not. *)
Definition ex_gone : Sys (W:=World) :=
  set_world (mkWorld ∅ [pod_a; pod_b] [] [] 1000 {[ 7 ]} 8 [] []) ex_known.

Lemma group_gone_keeps_job_witness :
  groupToJobId (mgr (UpdatePod (Obj_Pod pod_a) (Obj_Pod (ex_pod "a" "node-a" PodSucceeded))
                       ex_gone).2) !! "ns/g" = Some 7.
Proof.
  destruct (group_gone_keeps_job pod_a (ex_pod "a" "node-a" PodSucceeded) ex_gone "not found"
              (world ex_gone)) as [H _]; [reflexivity|reflexivity|].
  rewrite H. reflexivity.
Defined.

(** ** The plugin *)

Definition ex_queued (pod : Pod) (t : Z) : QueuedPodInfo := mkQueuedPodInfo cQuantity pod (Some t).

Lemma Less_strict_total_order_witness :
  let s := ex_start two_nodes in
  Less (ex_queued pod_a 5) (ex_queued pod_b 9) s = (Ret true, s) ∧
  Less (ex_queued pod_b 9) (ex_queued pod_a 5) s ≠ (Ret true, s).
Proof.
  destruct (Less_strict_total_order (ex_start two_nodes)) as (H&_); [done|].
  assert (attempted (ex_queued pod_a 5)) as Ha by (by eexists).
  assert (attempted (ex_queued pod_b 9)) as Hb by (by eexists).
  split.
  - apply (H _ _ Ha Hb). right. split; [done|]. left. done.
  - rewrite (H _ _ Hb Ha). intros [?|(_&[?|[? _]])]; [done|done|].
    vm_compute in H0. discriminate.
Defined.

Lemma PreFilter_pins_pod_witness :
  (Filter pod_a "node-b" (Plugin.PreFilter pod_a (ex_start two_nodes)).2).1
  = Ret (NewStatus fw_Unschedulable ["pod is not permitted"]).
Proof.
  destruct (PreFilter_pins_pod pod_a (ex_start two_nodes) {[ "node-a" ]}
              (NewStatus fw_Success [""])
              (Plugin.PreFilter pod_a (ex_start two_nodes)).2) as (_&_&H);
    [apply runs_to; vm_compute; reflexivity|].
  rewrite (H eq_refl "node-a" eq_refl "node-b"). vm_compute. reflexivity.
Defined.

Lemma Permit_releases_gang_witness :
  w_told (world (Plugin.Permit New.1 pod_a "node-a" (ex_start two_nodes)).2)
  = ["allow a"; "allow b"].
Proof.
  rewrite (Permit_releases_gang New.1 pod_a "node-a" 300000000000 (ex_start two_nodes)
             (Core.Permit pod_a (ex_start two_nodes)).2 [pod_a; pod_b] (ex_world two_nodes));
    [vm_compute; reflexivity|reflexivity|vm_compute; discriminate| |reflexivity| |].
  - apply runs_to. vm_compute. reflexivity.
  - refine (bool_decide_unpack _ _). by vm_compute.
  - repeat constructor; refine (bool_decide_unpack _ _); by vm_compute.
Defined.

Lemma Unreserve_rejects_gang_witness :
  ∃ s', Unreserve pod_a "node-a" (ex_start two_nodes) = (Ret (), s') ∧
    w_told (world s') = ["reject a"; "reject b"].
Proof.
  destruct (Unreserve_rejects_gang pod_a "node-a" (ex_start two_nodes) (ex_group 2)
              (ex_world two_nodes) [pod_a; pod_b] (ex_world two_nodes)) as (s'&H1&H2&_);
    [vm_compute; discriminate|reflexivity|reflexivity|].
  exists s'. split; [exact H1|]. rewrite H2. vm_compute. reflexivity.
Defined.

Lemma PostFilter_outcomes_witness :
  w_told (world (PostFilter New.1 pod_a (ex_start two_nodes)).2) = ["reject a"; "reject b"].
Proof.
  pose proof (PostFilter_outcomes pod_a (ex_start two_nodes) (ex_group 2) (ex_world two_nodes)
    [[ex_pod "c" "node-c" PodRunning]] (ex_world two_nodes) [pod_a; pod_b]
    (ex_world two_nodes)) as H.
  destruct (PostFilter New.1 pod_a (ex_start two_nodes)) as [r s'].
  specialize (H ltac:(vm_compute; discriminate) eq_refl eq_refl eq_refl).
  rewrite decide_False in H by (vm_compute; intros H'; by apply H').
  destruct H as [_ ->]. vm_compute. reflexivity.
Defined.

(** ** The gang *)

Lemma gang_placed_at_once_witness :
  ∃ pg (pods : list Pod) resp, fluxion_answer pod_a (ex_start two_nodes) pg pods resp ∧
    (spec_MinMember (pg_Spec pg) ≤ Z.of_nat (length pods)).
Proof.
  destruct (gang_placed_at_once pod_a (ex_start two_nodes) {[ "node-a" ]}
              (NewStatus fw_Success [""])
              (Plugin.PreFilter pod_a (ex_start two_nodes)).2 "node-a")
    as (pg&pods&resp&H1&H2&_);
    [reflexivity|apply runs_to; vm_compute; reflexivity|vm_compute; reflexivity|].
  exists pg, pods, resp. split; [exact H1|exact H2].
Defined.

(** The first of two pods reaches Permit while the other is not assigned. *)
Definition ex_waiting : World :=
  mkWorld {[ ("ns", "g") := ex_group 2 ]} [pod_a; pod_b] [] [] 1000 ∅ 7 [] [].
Definition ex_first : Sys (W:=World) :=
  mkSys New.2 {[ PodsToActivateKey := SD_PodsToActivate ∅ ]} ex_waiting.

Lemma Permit_waits_witness :
  ∃ s' m', Plugin.Permit New.1 pod_a "node-a" ex_first
      = (Ret (NewStatus fw_Wait [], 300000000000), s') ∧
    cs_Read PodsToActivateKey (cycle s') = Some (SD_PodsToActivate m') ∧
    m' !! "ns/b" = Some pod_b.
Proof.
  destruct (Permit_waits New.1 pod_a "node-a" 300000000000 ex_first
              (Core.Permit pod_a ex_first).2 (ex_group 2) ex_waiting [pod_a; pod_b] ex_waiting ∅)
    as (s'&H1&_&H2);
    [reflexivity|discriminate|vm_compute; discriminate|apply runs_to; vm_compute; reflexivity
    |reflexivity|reflexivity|reflexivity| | |].
  1, 2: refine (bool_decide_unpack _ _); by vm_compute.
  destruct H2 as (m'&H2&H3). exists s', m'. split; [exact H1|]. split; [exact H2|].
  apply H3. left. split; [|reflexivity]. apply list_elem_of_filter.
  split; [vm_compute; discriminate|]. right. left.
Defined.

(** ** The system *)

Definition ex_asked : Sys (W:=World) := (Plugin.PreFilter pod_a (ex_start two_nodes)).2.

Lemma ex_asked_reached : rtc step (ex_start two_nodes) ex_asked.
Proof. apply rtc_once. apply (step_PreFilter pod_a (ex_start two_nodes)). Qed.

Lemma recorded_jobs_are_live_witness : 7 ∈ live (world ex_asked).
Proof.
  destruct (recorded_jobs_are_live (ex_start two_nodes) ex_asked) as [H _];
    [reflexivity|apply ex_asked_reached|].
  apply (H "ns/g" 7). vm_compute. reflexivity.
Defined.

Lemma no_job_is_lost_witness :
  ∃ g, groupToJobId (mgr ex_asked) !! g = Some (GoInt.uint64 7).
Proof.
  destruct (no_job_is_lost (ex_start two_nodes) ex_asked 7) as (g&H&_);
    [reflexivity|apply ex_asked_reached| | |by exists g].
  - refine (bool_decide_unpack _ _). vm_compute. done.
  - refine (bool_decide_unpack _ _). vm_compute. done.
Defined.

(** The pod has finished and its job is cancelled; its node is still there. *)
Definition ex_finished : Sys (W:=World) :=
  (UpdatePod (Obj_Pod pod_a) (Obj_Pod (ex_pod "a" "node-a" PodSucceeded)) ex_asked).2.

Lemma assignments_outlive_jobs_witness :
  groupToJobId (mgr ex_finished) !! "ns/g" = None ∧
  ∃ n, podToNode (mgr ex_finished) !! "a" = Some n.
Proof.
  split; [vm_compute; reflexivity|].
  destruct (assignments_outlive_jobs (ex_start two_nodes) ex_asked ex_finished pod_a)
    as (n&H&_); [reflexivity|apply ex_asked_reached| | |by exists n].
  - apply rtc_once. apply (step_UpdatePod (Obj_Pod pod_a) _ ex_asked).
  - exists "node-a". vm_compute. reflexivity.
Defined.

(** Pod a has passed PreFilter; Filter refuses another node for pod b. *)
Lemma Filter_well_typed_witness :
  (Filter pod_b "node-a" ex_asked).1 = Ret (NewStatus fw_Unschedulable ["pod is not permitted"]).
Proof.
  rewrite (Filter_well_typed (ex_start two_nodes) ex_asked pod_b "node-a").
  - vm_compute. reflexivity.
  - intros k _. left. reflexivity.
  - apply rtc_once. apply (cycle_PreFilter pod_a (ex_start two_nodes)).
  - intros [H|H]; vm_compute in H; discriminate.
Defined.

(** ** Goroutines *)

(** PreFilter of pod a on the scheduling goroutine; the event that pod a has
    succeeded on another. *)
Definition ex_scheduling : thread (Sys (W:=World)) answer :=
  mkThread true (r ← PreFilter_prog pod_a; mret (Some (pod_a, r))).
Definition ex_handling : thread (Sys (W:=World)) answer :=
  mkThread false
    (_ ← UpdatePod_prog (Obj_Pod pod_a) (Obj_Pod (ex_pod "a" "node-a" PodSucceeded)); mret None).

Definition ex_pool : pool (Sys (W:=World)) answer :=
  mkPool [ex_scheduling; ex_handling] None (ex_start two_nodes).

Lemma ex_pool_arises : arises (ex_start two_nodes) ex_pool.
Proof.
  split; [reflexivity|].
  eapply rtc_l;
    [apply (pstep_entry manager_goroutines (start_pool None (ex_start two_nodes)) 0%nat None (code ex_scheduling))|
     apply rtc_once;
     apply (pstep_handler manager_goroutines (mkPool [ex_scheduling] None (ex_start two_nodes))
              (code ex_handling))].
  - reflexivity.
  - by exists pod_a.
  - left. by eexists _, _.
Qed.

(** The pool after a schedule. *)
Definition ex_after (l : list nat) : pool (Sys (W:=World)) answer :=
  default ex_pool (run_schedule l ex_pool).

Lemma ex_after_run l : bool_decide (is_Some (run_schedule l ex_pool)) = true → rtc run ex_pool (ex_after l).
Proof.
  intros [ps E]%bool_decide_eq_true. apply (run_schedule_run l). unfold ex_after. by rewrite E.
Qed.

Lemma ex_after_arises l :
  bool_decide (is_Some (run_schedule l ex_pool)) = true → arises (ex_start two_nodes) (ex_after l).
Proof.
  intros Hl%ex_after_run. split; [apply ex_pool_arises|].
  pose proof (proj2 ex_pool_arises) as Hp. unfold reachable in *. etrans; [exact Hp|].
  eapply rtc_subrel, Hl. intros. by apply pstep_run.
Qed.

(** PreFilter up to the record of the job, the handler waiting. *)
Definition ex_recorded : list nat := replicate 15 0%nat.

Lemma unlocked_jobs_are_live_witness : 7 ∈ live (world (shared (ex_after ex_recorded))).
Proof.
  destruct (unlocked_jobs_are_live (ex_start two_nodes) (ex_after ex_recorded)) as [_ H].
  - apply ex_after_arises. vm_compute. reflexivity.
  - apply (H ltac:(vm_compute; reflexivity) "ns/g" 7). vm_compute. reflexivity.
Defined.

(** PreFilter to its end. *)
Definition ex_whole : list nat := replicate 27 0%nat.

Lemma unlocked_no_job_is_lost_witness :
  ∃ g, groupToJobId (mgr (shared (ex_after ex_whole))) !! g = Some (GoInt.uint64 7).
Proof.
  destruct (unlocked_no_job_is_lost (ex_start two_nodes) (ex_after ex_whole) 7) as (g&H&_);
    [|vm_compute; reflexivity| | | |by exists g].
  - apply ex_after_arises. vm_compute. reflexivity.
  - vm_compute. reflexivity.
  - refine (bool_decide_unpack _ _). vm_compute. done.
  - refine (bool_decide_unpack _ _). vm_compute. done.
Defined.

(** Both goroutines before their first access. *)
Lemma tables_race_free_witness : ¬ race Threads.Jobs ex_pool ∧ ¬ race Threads.Nodes ex_pool.
Proof. apply (tables_race_free (ex_start two_nodes)). apply ex_pool_arises. Defined.

Lemma goroutines_end_witness : Acc (λ ps2 ps1, run ps1 ps2) ex_pool.
Proof. apply (goroutines_end (ex_start two_nodes)). apply ex_pool_arises. Defined.

(** The handler runs between the record of the job and the assignment of the
    nodes: the job is cancelled, and its nodes are assigned. *)
Definition ex_between : list nat := ex_recorded ++ replicate 9 1%nat ++ replicate 12 0%nat.

Example assigned_after_cancel :
  bool_decide (is_Some (run_schedule ex_between ex_pool)) = true ∧
  groupToJobId (mgr (shared (ex_after ex_between))) !! "ns/g" = None ∧
  podToNode (mgr (shared (ex_after ex_between))) !! "b" = Some "node-b" ∧
  bool_decide (7 ∈ w_live (world (shared (ex_after ex_between)))) = false ∧
  (ended ∘ code <$> threads (ex_after ex_between)) = [true; true].
Proof. repeat apply conj; vm_compute; done. Qed.

(** Even then the answer of PreFilter is the recorded node. *)
Lemma answers_stay_pinned_witness :
  default "" (podToNode (mgr (shared (ex_after ex_between))) !! "a") = "node-a".
Proof.
  assert (match threads (ex_after ex_between) !! 0%nat ≫= returned with
          | Some (Some (p, (Some names, _))) =>
              bool_decide (pod_Name p = "a") && bool_decide ("node-a" ∈ names)
          | _ => false
          end = true) as Hb by (vm_compute; reflexivity).
  destruct (threads (ex_after ex_between) !! 0%nat ≫= returned)
    as [[[p [[names|] st]]|]|] eqn:E; [|discriminate..].
  apply andb_true_iff in Hb as [Hp%bool_decide_eq_true Hn%bool_decide_eq_true].
  rewrite (answers_stay_pinned (HL:=cListerLaws) (ex_start two_nodes) (ex_after ex_between) 0
    p names st) in Hn; [|apply ex_after_arises; vm_compute; reflexivity|exact E].
  rewrite Hp in Hn. symmetry. by apply elem_of_singleton in Hn.
Defined.

(** ** The logger *)

Definition ex_log : logger.LogState :=
  logger.mkLogState (logger.NewDebugLogger logger.LevelDebug "/tmp/fluence.log")
    (logger.mkOs ∅ ∅ 3 (λ _, false)).
Definition plain_Sprintf (s : string) (_ : list logger.any) : string := s.

Lemma log_writes_witness :
  ∃ s', logger.log plain_Sprintf logger.LevelInfo "   INFO: " [logger.AnyString "hello"] ex_log
        = (Ret None, s') ∧
    logger.contents s' = logger.entry_line "   INFO:  hello" ∧ logger.os_open (logger.os s') = ∅.
Proof.
  pose proof (logger.log_writes plain_Sprintf logger.LevelInfo "   INFO: " [logger.AnyString "hello"]
    ex_log eq_refl) as H.
  destruct H as (s'&H1&H2&H3&_). exists s'. split; [exact H1|]. split; [exact H3|exact H2].
Defined.

(** ** The Fluxion server *)

Definition ex_request : pb.MatchRequest :=
  pb.mkMatchRequest (Some (PreparePodJobSpec pod_a "ns/g")) "allocate" 2.

Lemma Match_correct_witness :
  (Match ex_request (ex_world [])).1
  = Ret (OK (pb.mkMatchResponse "ns/g" [pb.mkNodeAlloc "node-a" 2] 7)).
Proof.
  rewrite (Match_correct ex_request (PreparePodJobSpec pod_a "ns/g") "jobspec" (ex_world [])
             (mkMatchAllocation false "document" 7 None)
             (with_live {[ 7 ]} 8 (ex_world [])) one_node
             [([(CoreType, "core"); (CoreType, "core")], "node-a")] []);
    [vm_compute; reflexivity|reflexivity|vm_compute; reflexivity|reflexivity| |reflexivity
    |discriminate|reflexivity| | |constructor].
  - vm_compute. reflexivity.
  - apply one_node_document.
  - constructor; [split; [repeat constructor; vm_compute; discriminate|reflexivity]|constructor].
Defined.

Lemma fluxion_refines_service_witness :
  ∃ L : FluxServiceLaws cCluster fluxion_service,
    live (FluxServiceLaws:=L) (ex_world []) = reapi_live (ex_world []).
Proof. destruct fluxion_refines_service as [L H]. by exists L. Defined.

(** ** The cluster graph *)

(** A node with two free cpus and one gibibyte, next to the control plane. *)
Definition ex_knode : KNode :=
  mkKNode cQuantity "n1" {[ "topology.kubernetes.io/zone" := "z" ]} false
    (<[ "cpu" := 2 ]> {[ "memory" := 2 ^ 30 ]}).
Definition ex_control : KNode :=
  mkKNode cQuantity "cp" {[ controlPlaneLabel := "" ]} false {[ "cpu" := 4 ]}.
Definition ex_nodes : list KNode := [ex_control; ex_knode].

Definition ex_built : Builder (W:=list KNode) :=
  (CreateInClusterJGF "/tmp/jgf" "" (new_builder ex_nodes)).2.

Lemma ex_built_run :
  CreateInClusterJGF "/tmp/jgf" "" (new_builder ex_nodes) = (Ret None, ex_built).
Proof. unfold ex_built. apply runs_to. vm_compute. reflexivity. Qed.

Lemma CreateInClusterJGF_layout_witness :
  ∃ b, CreateInClusterJGF "/tmp/jgf" "" (new_builder ex_nodes) = WriteJGF "/tmp/jgf" b ∧
    view <$> Nodes (Graph (fluxgraph b))
    = [ mkView ClusterType "k8scluster" "k8scluster0" 1 (Some "/k8scluster0");
        mkView SubnetType "z" "z0" 1 (Some "/k8scluster0/z0");
        mkView NodeType "n1" "n11" 1 (Some "/k8scluster0/z0/n11");
        mkView CoreType "core" "core0" 1 (Some "/k8scluster0/z0/n11/core0");
        mkView CoreType "core" "core1" 1 (Some "/k8scluster0/z0/n11/core1");
        mkView MemoryType "memory" "memory0" 1024 (Some "/k8scluster0/z0/n11/memory0") ].
Proof.
  destruct (CreateInClusterJGF_layout "/tmp/jgf" "" ex_nodes ex_nodes ex_nodes ex_nodes ex_nodes
              ex_nodes [(1, ex_knode, [])]) as (b&H1&_&_&H2&_); [reflexivity..|].
  exists b. split; [exact H1|]. rewrite H2. vm_compute. reflexivity.
Defined.

Lemma ex_survey : survey "" 0 ex_nodes ex_nodes = (OK [(1, ex_knode, [])], ex_nodes).
Proof. reflexivity. Qed.

Lemma ex_plain_nodes : Forall plain_node ex_nodes.
Proof. repeat constructor; refine (bool_decide_unpack _ _); by vm_compute. Qed.

Lemma ex_built_size : is_Some (Nodes (Graph (fluxgraph ex_built)) !! 5%nat).
Proof. eexists. vm_compute. reflexivity. Qed.

Lemma CreateInClusterJGF_tree_witness :
  ∃ n p, Nodes (Graph (fluxgraph ex_built)) !! 5%nat = Some n ∧
    hangs_under (view p) (view n) ∧
    new_edge (node_Id p) (node_Id n) ∈ Edges (Graph (fluxgraph ex_built)).
Proof.
  destruct ex_built_size as [n E]. exists n.
  pose proof (CreateInClusterJGF_tree (Q:=cQuantity) (MO:=cMapOrder) (RH:=cResourceHelper)
    (W:=list KNode) (KC:=cKube) "/tmp/jgf" "" ex_nodes ex_nodes ex_nodes ex_nodes ex_nodes ex_nodes
    [(1, ex_knode, [])] ex_built eq_refl eq_refl eq_refl ex_survey ex_plain_nodes eq_refl
    ex_built_run 4%nat n E) as (pi&p&_&_&H&H'&_).
  exists p. split; [exact E|]. split; [exact H|exact H'].
Defined.

Definition ex_server : SWorld := mkSWorld ex_nodes ∅ None.

(** Started on port 4242 the server serves; with its default port it crashes. *)
Lemma main_outcomes_witness :
  (main (mkFlags "lonode" "" "4242" true) ex_server).1 = Ret () ∧
  ∃ msg w2, main default_flags ex_server = (Panic msg, w2).
Proof.
  split.
  - destruct (main_outcomes (mkFlags "lonode" "" "4242" true) ex_server
      (InitFluxion "lonode" "" ex_server).2) as [H _]; [apply runs_to; reflexivity|].
    rewrite (H "[::]:4242" (InitFluxion "lonode" "" ex_server).2); reflexivity.
  - destruct (main_outcomes default_flags ex_server (InitFluxion "" "" ex_server).2)
      as (_&_&H); [apply runs_to; reflexivity|]. by apply H.
Defined.

Lemma InitFluxion_loads_graph_witness :
  ∃ w', InitFluxion "lonode" "" ex_server = (Ret (), w') ∧
    loaded w' = Some ("graph", policy_json "lonode").
Proof.
  pose proof (InitFluxion_loads_graph (Q:=cQuantity) (MO:=cMapOrder) (RH:=cResourceHelper)
    (W:=SWorld) (KC:=cServerKube) (RC:=cServerReapi) (FL:=cFileLaws) "lonode" "" ex_server
    (CreateInClusterJGF KubernetesJsonGraphFormat "" (new_builder ex_server)).2 None) as H.
  destruct H as (doc&w'&Hd&Hi&Hl&_); [apply runs_to; vm_compute; reflexivity|].
  injection Hd as <-. exists w'. split; [exact Hi|exact Hl].
Defined.

(** The node the document of [Concrete] names, next to the control plane. *)
Definition ex_node_a : KNode := mkKNode cQuantity "node-a" ∅ false {[ "cpu" := 2 ]}.

Lemma Match_names_eligible_nodes_witness :
  ∃ resp v', Match ex_request (ex_world []) = (Ret (OK resp), v') ∧
    ∀ a, a ∈ pb.Nodelist resp → ∃ node, node ∈ [ex_control; ex_node_a] ∧
      kn_Name node = pb.NodeID a ∧ kn_Labels node !! controlPlaneLabel = None.
Proof.
  destruct (Match_names_eligible_nodes (Q:=cQuantity) (MO:=cMapOrder) (RH:=cResourceHelper)
    (W:=list KNode) (KC:=cKube) "/tmp/jgf" "" [ex_control; ex_node_a] [ex_control; ex_node_a]
    [ex_control; ex_node_a] [ex_control; ex_node_a] [ex_control; ex_node_a]
    [ex_control; ex_node_a] [(1, ex_node_a, [])]
    (CreateInClusterJGF "/tmp/jgf" "" (new_builder [ex_control; ex_node_a])).2
    ex_request (PreparePodJobSpec pod_a "ns/g") "jobspec" (ex_world [])
    (mkMatchAllocation false "document" 7 None) (with_live {[ 7 ]} 8 (ex_world [])) one_node
    [(CoreType, "core"); (CoreType, "core"); (NodeType, "node-a")]) as (resp&v'&H1&H2);
    [reflexivity|reflexivity|reflexivity|reflexivity
    |apply runs_to; vm_compute; reflexivity|reflexivity|vm_compute; discriminate|reflexivity
    |vm_compute; reflexivity|reflexivity|discriminate|reflexivity|apply one_node_document| |].
  - intros base Hin. assert (base = "node-a") as ->.
    { repeat (apply elem_of_cons in Hin as [Hin|Hin]; [by injection Hin|]).
      by apply elem_of_nil in Hin. }
    refine (bool_decide_unpack _ _). vm_compute. done.
  - exists resp, v'. split; [exact H1|]. intros a Ha.
    destruct (H2 a Ha) as (node&Hn&Hname&_&Hl&_). by exists node.
Defined.

Lemma ex_fits :
  Forall (λ e, GoInt.fits 64 (free_millicpu e) ∧ GoInt.fits 64 (free_bytes e))
    [(1, ex_knode, [])].
Proof. repeat constructor; vm_compute; intuition discriminate. Qed.


(** An edge to a vertex that is not there, and one there and back. *)
Definition ex_calls : list graph_call :=
  [C_InitCluster "k8scluster"; C_MakeEdge "0" "7" "contains"; C_MakeSubnet "" 0;
   C_MakeBidirectionalEdge "0" "1"].

Lemma built_graph_wf_witness :
  let g := build ex_calls NewFluxJGF in
  NoDup (node_Id <$> Nodes (Graph g)) ∧
  Edges (Graph g) = [new_edge "0" "7"; new_edge "0" "1"; new_edge "1" "0"].
Proof.
  destruct (built_graph_wf ex_calls) as (_&H&_&He); [vm_compute; discriminate|].
  split; [exact H|exact He].
Defined.

Lemma computeTotalRequests_sum_witness :
  computeTotalRequests [pod_a; pod_b] !! "cpu" = Some 2.
Proof. rewrite (computeTotalRequests_sum [pod_a; pod_b] "cpu"). reflexivity. Defined.

(** ** The controller *)

Definition ex_done (name : string) : Pod := ex_pod name "node-a" PodSucceeded.

Definition ex_new_group : PodGroup :=
  mkPodGroup "g" "ns" [] 100 (mkPodGroupSpec 0 ∅ None) zeroStatus.

Definition ex_api : AWorld :=
  mkAWorld {[ ("ns", "g") := ex_new_group ]} [ex_done "a"; ex_done "b"] 1000.

Lemma next_status_phases_witness :
  status_Phase (next_status 2 [ex_done "a"; ex_done "b"]
    (set_Phase PodGroupScheduling zeroStatus)) = PodGroupFinished.
Proof.
  destruct (next_status_phases 2 [ex_done "a"; ex_done "b"]
              (set_Phase PodGroupScheduling zeroStatus) eq_refl) as [H _].
  rewrite H. vm_compute. reflexivity.
Defined.

Lemma Reconcile_refines_witness :
  ∃ w', Reconcile "ns" "g" ex_api = (Ret (mkResult true, None), w').
Proof.
  destruct (Reconcile_refines (AL:=cApiLaws) "ns" "g" ex_new_group ex_api)
    as (rq&w'&H&_&_&Hr); [reflexivity|reflexivity|].
  exists w'. rewrite H. assert (rq = true) as ->; [|done].
  apply Hr. split; [by intros [|]|]. split; [by intros [[|] _]|by eexists].
Defined.

(** The group as the watch creates it, and a third pod that has not started. *)
Definition ex_sized_group : PodGroup := new_group "ns" "g" 2 100.
Definition ex_sized_pods : list Pod :=
  [ex_pod "a" "node-a" PodRunning; ex_pod "b" "node-a" PodRunning; ex_pod "c" "" PodPending].

Lemma reconciles_converge_witness :
  stored (reconciles 5 "ns" "g" ex_api) !! ("ns", "g") = None ∧
  stored (reconciles 9 "ns" "g" (mkAWorld {[ ("ns", "g") := ex_sized_group ]} ex_sized_pods 1000))
    !! ("ns", "g")
  = Some (set_Status (mkPodGroupStatus PodGroupRunning "" 2 0 0 1000 0) ex_sized_group).
Proof.
  split.
  - rewrite (reconciles_converge "ns" "g" ex_api ex_new_group [ex_done "a"; ex_done "b"]);
      [reflexivity|reflexivity|reflexivity|reflexivity|by split|reflexivity|discriminate
      |discriminate|lia].
  - rewrite (reconciles_converge "ns" "g" _ ex_sized_group ex_sized_pods);
      [reflexivity|reflexivity|reflexivity|reflexivity|by split|reflexivity|discriminate
      |discriminate|lia].
Defined.

(** A pod the webhook has labelled, before its group exists. *)
Definition ex_labelled : Pod :=
  mkPod "a" "ns" "a" (Some (<[ flabel.PodGroupLabel := "g" ]> {[ flabel.PodGroupSizeLabel := "2" ]}))
    [] None "" [] PodPending.

Lemma ensurePodGroup_outcomes_witness :
  (ensurePodGroup (Some ex_labelled) (mkAWorld ∅ [] 1000)).1 = Ret [("ns", "g")].
Proof.
  pose proof (ensurePodGroup_outcomes (AL:=cApiLaws) ex_labelled (mkAWorld ∅ [] 1000) 2) as H.
  destruct (ensurePodGroup _ _) as [reqs w'].
  specialize (H ltac:(discriminate) eq_refl). apply H.
Defined.

(** ** From the webhook to the group *)

Definition ex_job : Workload := mkWorkload "lammps" "ns" None None (Some 4).
Definition ex_job_pod (name : string) : Pod :=
  mkPod name "ns" name
    (Some (<[ "job-name" := "lammps" ]> (<[ flabel.PodGroupSizeLabel := "4" ]>
       {[ flabel.PodGroupLabel := "fluence-group-ns-lammps" ]})))
    [] None "" [] PodPending.

Lemma job_gets_group_witness :
  ∃ w', ensurePodGroup (Some (ex_job_pod "lammps-0")) (mkAWorld ∅ [] 1000)
      = (Ret [("ns", "fluence-group-ns-lammps")], w') ∧
    stored w' !! ("ns", "fluence-group-ns-lammps")
      = Some (new_group "ns" "fluence-group-ns-lammps" 4 1000).
Proof.
  destruct (job_gets_group (AL:=cApiLaws) ex_job 4) as (job'&E&H);
    [reflexivity|lia|discriminate|reflexivity|reflexivity|].
  vm_compute in E. injection E as <-.
  destruct (H (ex_job_pod "lammps-0")) as [_ Hw].
  { intros k [-> | ->]; vm_compute; reflexivity. }
  destruct (Hw (mkAWorld ∅ [] 1000)) as (t&w'&E&S&_); [reflexivity..|].
  exists w'. split; [exact E|]. vm_compute in E. injection E as <-. reflexivity.
Defined.

(** ** From the webhook to the nodes *)

Definition ex_job2 : Workload := mkWorkload "lammps" "ns" None None (Some 2).
Definition ex_job2_pod (name : string) : Pod :=
  mkPod name "ns" name
    (Some (<[ flabel.PodGroupSizeLabel := "2" ]> {[ flabel.PodGroupLabel := "fluence-group-ns-lammps" ]}))
    [] None "" [] PodPending.
Definition ex_job2_pods : list Pod := [ex_job2_pod "lammps-0"; ex_job2_pod "lammps-1"].

(** The scheduler's cluster, with the group the controller has made. *)
Definition ex_job2_world (t : Z) : World :=
  mkWorld {[ ("ns", "fluence-group-ns-lammps") := new_group "ns" "fluence-group-ns-lammps" 2 t ]}
    ex_job2_pods [] [] 1000 ∅ 7 ((λ n, pb.mkNodeAlloc n 1) <$> two_nodes) [].
Definition ex_job2_start (t : Z) : Sys (W:=World) := mkSys New.2 ∅ (ex_job2_world t).
Definition ex_job2_answer : pb.MatchResponse :=
  pb.mkMatchResponse "" ((λ n, pb.mkNodeAlloc n 1) <$> two_nodes) 7.

Lemma ex_job2_placeable t :
  placeable (ex_job2_pod "lammps-1") (new_group "ns" "fluence-group-ns-lammps" 2 t) ex_job2_pods
    ex_job2_answer (ex_job2_start t).
Proof.
  exists (ex_job2_world t), (ex_job2_world t), (ex_job2_world t), (ex_job2_world t),
    (ex_job2_world t), (with_live {[ 7 ]} 8 (ex_job2_world t)), 1000, 1000,
    (ex_job2_pod "lammps-0").
  repeat apply conj; reflexivity.
Qed.

Lemma job_is_placed_witness :
  ∃ t s', Plugin.PreFilter (ex_job2_pod "lammps-1") (ex_job2_start t)
      = (Ret (Some {[ "node-b" ]}, NewStatus fw_Success [""]), s') ∧
    podToNode (mgr s') !! "lammps-0" = Some "node-a".
Proof.
  destruct (job_is_placed (API:=cApi) (AL:=cApiLaws) ex_job2 2 ex_job2_pods "ns"
              (ex_job2_pod "lammps-1") 1 (mkAWorld ∅ [] 1000))
    as (job'&E&H); [reflexivity|lia|discriminate|reflexivity|reflexivity|].
  vm_compute in E. injection E as <-.
  destruct H as (t&a'&_&_&H).
  - repeat constructor; intros k [-> | ->]; vm_compute; reflexivity.
  - refine (bool_decide_unpack _ _). by vm_compute.
  - reflexivity.
  - reflexivity.
  - reflexivity.
  - reflexivity.
  - destruct (H (ex_job2_start t) ex_job2_answer) as (nd&s'&Hnd&Hpre&_&Ht);
      [apply ex_job2_placeable|reflexivity|by eexists|reflexivity..|].
    exists t, s'. injection Hnd as <-. split; [exact Hpre|]. by apply (Ht 0%nat (ex_job2_pod "lammps-0")).
Defined.
