(* ===== verification/Scenarios.v ===== *)
(** * The theorems on interacting components, at concrete inputs

    Scenarios on the cluster of [Concrete]: concurrent requests to the server,
    a gang that shares a node, a gang at the Permit gate, a group's life at the
    controller and its end. *)

From Stdlib Require Import Ascii.
From stdpp Require Import prelude gmap strings list fin_maps fin_sets.
From S2P Require Import Prelude GoRuntime Kube Wire Env PodSpec Core CoreFacts CoreMethods Plugin PluginFacts Threads Pool Gang Release System Jgf ClusterGraph JobSpec Fluxion FluxionFacts Placement Landing Serving Controller ControllerFacts ControlPlane Apart Workers EndToEnd Packing Ending Concrete Witnesses.

Local Open Scope Z_scope.

(** ** Concurrent requests *)

Definition ex_match : request :=
  R_Match (pb.mkMatchRequest (Some (PreparePodJobSpec pod_a "ns/g")) "allocate" 2).
Definition ex_requests : list request := [ex_match; R_Cancel (pb.mkCancelRequest 7)].

Lemma handlers_race_witness :
  ∃ ps, run_schedule [0; 1]%nat (serving ex_requests (ex_world two_nodes)) = Some ps ∧
    race Client ps ∧ owner ps = None.
Proof.
  apply (handlers_race ex_requests _ 0 1 ex_match (R_Cancel (pb.mkCancelRequest 7)));
    [discriminate|reflexivity|reflexivity|by eexists|done].
Defined.

(** ** The life of a group *)

(** Two pods labelled for the group [g] of two. *)
Definition ex_labelled_pod (name : string) (phase : PodPhase) : Pod :=
  mkPod name "ns" name
    (Some (<[ flabel.PodGroupLabel := "g" ]> {[ flabel.PodGroupSizeLabel := "2" ]}))
    [] None "" [] phase.

Definition with_pods (pods : list Pod) (w : AWorld) : AWorld :=
  mkAWorld (aw_groups w) pods (aw_now w).

Definition ex_pending_pods : list Pod :=
  [ex_labelled_pod "a" PodPending; ex_labelled_pod "b" PodPending].
Definition ex_over_pods : list Pod :=
  [ex_labelled_pod "a" PodSucceeded; ex_labelled_pod "b" PodSucceeded].

(** The pod watch has created the group. *)
Definition ex_watched : AWorld :=
  (ensurePodGroup (Some (ex_labelled_pod "a" PodPending)) (mkAWorld ∅ ex_pending_pods 1000)).2.
(** It has been reconciled until it is scheduling. *)
Definition ex_group_scheduling : AWorld := reconciles 3 "ns" "g" ex_watched.
(** And then its pods have succeeded. *)
Definition ex_group_over : AWorld := with_pods ex_over_pods ex_group_scheduling.

Lemma ex_watched_reached : reachable ex_watched.
Proof.
  exists (mkAWorld ∅ [] 1000). split; [reflexivity|].
  eapply rtc_l; [right; by apply (others_pods _ (mkAWorld ∅ ex_pending_pods 1000))|].
  apply rtc_once. left. apply controller_watch.
Qed.

Lemma ex_scheduling_reached : reachable ex_group_scheduling.
Proof.
  destruct ex_watched_reached as (w0&H0&Hr). exists w0. split; [done|].
  etrans; [exact Hr|].
  do 2 (eapply rtc_l; [left; apply (controller_reconcile "ns" "g"); by vm_compute|]).
  apply rtc_once. left. apply (controller_reconcile "ns" "g"). by vm_compute.
Qed.

Lemma ex_over_reached : reachable ex_group_over.
Proof.
  destruct ex_scheduling_reached as (w0&H0&Hr). exists w0. split; [done|].
  eapply rtc_r; [exact Hr|]. right. by apply others_pods.
Qed.

(** The group in the store. *)
Definition ex_stored : PodGroup :=
  mkPodGroup "g" "ns" [] 1000 (mkPodGroupSpec 2 ∅ None)
    (mkPodGroupStatus PodGroupScheduling "" 0 0 0 1000 0).

Lemma stored_groups_ok_witness : group_ok ex_stored.
Proof. by apply (stored_groups_ok ex_group_scheduling ("ns", "g") _ ex_scheduling_reached). Defined.

Lemma controller_follows_life_cycle_witness :
  life (group_pods ex_group_over "g") (Some ex_stored) None.
Proof.
  assert (stored ex_group_over !! ("ns", "g") = Some ex_stored) as <- by reflexivity.
  assert (stored (Reconcile "ns" "g" ex_group_over).2 !! ("ns", "g") = None) as <-
    by reflexivity.
  apply (controller_follows_life_cycle _ _ ("ns", "g") ex_over_reached).
  apply controller_reconcile. by vm_compute.
Defined.

(** Under the schema of the charts the group of pods that have succeeded has no
    phase. *)
Definition ex_charts_watched : AWorld :=
  (ensurePodGroup (API:=charts_api) (Some (ex_labelled_pod "a" PodPending))
     (mkAWorld ∅ ex_pending_pods 1000)).2.
Definition ex_charts_over : AWorld := with_pods ex_over_pods ex_charts_watched.

Lemma ex_charts_reached : reachable (AL:=api_laws false) ex_charts_over.
Proof.
  exists (mkAWorld ∅ [] 1000). split; [reflexivity|].
  eapply rtc_l; [right; by apply (others_pods _ (mkAWorld ∅ ex_pending_pods 1000))|].
  eapply rtc_l; [left; apply controller_watch|].
  apply rtc_once. right. by apply others_pods.
Qed.

Lemma schema_stalls_controller_witness :
  stored (ApiLaws:=api_laws false) ex_charts_over !! ("ns", "g")
    = Some (new_group "ns" "g" 2 1000) ∧
  ∃ w', Reconcile (API:=charts_api) "ns" "g" ex_charts_over = (Ret (mkResult true, None), w') ∧
    stored (ApiLaws:=api_laws false) w' = stored (ApiLaws:=api_laws false) ex_charts_over.
Proof.
  split; [reflexivity|].
  apply (schema_stalls_controller (AL:=api_laws false) "ns" "g" (new_group "ns" "g" 2 1000));
    [reflexivity|apply ex_charts_reached|reflexivity|by vm_compute].
Defined.

(** ** The controller's workers *)

(** The group [g] is reconciled while the watch makes the group [h]. *)
Definition pod_h : Pod :=
  mkPod "h0" "ns" "h0"
    (Some (<[ flabel.PodGroupLabel := "h" ]> {[ flabel.PodGroupSizeLabel := "3" ]}))
    [] None "" [] PodPending.
Definition ex_works : list work := [W_Reconcile "ns" "g"; W_Watch (Some pod_h)].
Definition ex_working : pool AWorld worked := start (work_prog <$> ex_works) ex_watched.
Definition ex_turns : list nat := [0; 1; 0; 1; 0; 1; 0; 0]%nat.
Definition ex_worked : pool AWorld worked := default ex_working (run_schedule ex_turns ex_working).

Lemma few_pods (w : AWorld) n :
  (length (aw_pods w) < 10)%nat → Z.of_nat (length (group_pods w n)) < 2 ^ 31.
Proof.
  intros H. pose proof (length_filter (has_label (v1alpha1.PodGroupLabel, n)) (aw_pods w)).
  change (group_pods w n) with (filter (has_label (v1alpha1.PodGroupLabel, n)) (aw_pods w)). lia.
Qed.

Lemma workers_keep_apart_witness :
  worked_ok (.∈ states ex_turns ex_working) ex_watched (W_Reconcile "ns" "g")
    (Ret (reconciled (mkResult true, None))) (shared ex_worked) ∧
  worked_ok (.∈ states ex_turns ex_working) ex_watched (W_Watch (Some pod_h))
    (Ret (watched [("ns", "h")])) (shared ex_worked).
Proof.
  destruct (workers_keep_apart ex_works ex_watched (states ex_turns ex_working) ex_worked)
    as [H _].
  - apply NoDup_singleton.
  - refine (bool_decide_unpack _ _). by vm_compute.
  - apply store_reachable_ok, ex_watched_reached.
  - apply run_schedule_passes. reflexivity.
  - intros w n Hw. apply few_pods. revert w Hw. apply Forall_forall.
    refine (bool_decide_unpack _ _). by vm_compute.
  - split.
    + eapply (H 0%nat); reflexivity.
    + eapply (H 1%nat); reflexivity.
Defined.

(** A group without a size whose two pods have one, and a user who wants five. *)
Definition ex_unsized : PodGroup :=
  mkPodGroup "g" "ns" [] 1000 (mkPodGroupSpec 0 ∅ None)
    (mkPodGroupStatus PodGroupPhaseEmpty "" 0 0 0 1000 0).
Definition ex_unsized_world : AWorld := mkAWorld {[ ("ns", "g") := ex_unsized ]} ex_pending_pods 2000.

Lemma size_edit_overwritten_witness :
  ∃ ps1, run_schedule [0; 0; 0; 0]%nat (start [work_prog (W_Reconcile "ns" "g")] ex_unsized_world)
      = Some ps1 ∧
    ∃ w3, run_schedule [0%nat] (mkPool (threads ps1) (owner ps1)
        (put_group (set_MinMember 5 ex_unsized) (shared ps1)))
      = Some (single (Done (Ret (reconciled (mkResult true, None)))) w3) ∧
      stored w3 !! ("ns", "g") = Some (set_MinMember 2 ex_unsized).
Proof.
  destruct (size_edit_overwritten "ns" "g" ex_unsized ex_unsized_world 5) as (ps1&E1&_&H);
    [reflexivity|reflexivity|done|by intros [|]|done|done|apply few_pods; simpl; lia|by vm_compute|].
  exists ps1. split; [exact E1|].
  destruct (H (put_group (set_MinMember 5 ex_unsized) (shared ps1))) as (w3&E3&S3).
  - apply (proper_groups_insert true _ _ (set_MinMember 5 ex_unsized)). by split; [|left].
  - assert (group_size (group_pods ex_unsized_world "g") = 2) as Eg by (by vm_compute).
    rewrite Eg in S3. exists w3. split; [exact E3|exact S3].
Defined.

(** ** The scheduler and other jobs *)

(** Fluxion holds job 3 of somebody else when the scheduler starts. *)
Definition ex_shared : Sys (W:=World) :=
  set_world (with_live {[ 3 ]} 7 (ex_world two_nodes)) (ex_start two_nodes).

Lemma foreign_jobs_survive_witness :
  3 ∈ live (world (Plugin.PreFilter pod_a ex_shared).2) ∧
  7 ∈ live (world (DeletePod (Obj_Pod pod_a)
    (mkSys New.2 (cycle ex_shared) (world (Plugin.PreFilter pod_a ex_shared).2))).2).
Proof.
  destruct (foreign_jobs_survive ex_shared (Plugin.PreFilter pod_a ex_shared).2) as [H1 H2];
    [reflexivity|apply rtc_once, step_PreFilter|].
  split; [apply H1; by vm_compute|].
  set (s0 := mkSys New.2 (cycle ex_shared) (world (Plugin.PreFilter pod_a ex_shared).2)).
  destruct (H2 s0 (DeletePod (Obj_Pod pod_a) s0).2 "ns/g" 7) as [H _];
    [by vm_compute|done|done|apply rtc_once, step_DeletePod|exact H].
Defined.

(** ** A gang that shares a node *)

Definition ex_one_node : Sys (W:=World) := ex_start ["node-a"].
Lemma ex_one_placeable :
  placeable pod_a (ex_group 2) [pod_a; pod_b]
    (pb.mkMatchResponse "" [pb.mkNodeAlloc "node-a" 1] 7) ex_one_node.
Proof.
  exists (world ex_one_node), (world ex_one_node), (world ex_one_node), (world ex_one_node),
    (world ex_one_node), (with_live {[ 7 ]} 8 (world ex_one_node)), 1000, 1000, pod_a.
  repeat apply conj; reflexivity.
Qed.

Lemma short_answer_strands_gang_witness :
  ∃ s', Plugin.PreFilter pod_a ex_one_node
      = (Ret (Some {[ "node-a" ]}, NewStatus fw_Success [""]), s') ∧
    groupToJobId (mgr s') !! "ns/g" = None ∧ 7 ∉ live (world s') ∧
    podToNode (mgr s') !! "b" = None ∧
    (Plugin.PreFilter pod_b s').1 = Ret (Some {[ "" ]}, NewStatus fw_Success [""]).
Proof.
  destruct (short_answer_strands_gang pod_a (ex_group 2) [pod_a; pod_b]
              (pb.mkMatchResponse "" [pb.mkNodeAlloc "node-a" 1] 7) ex_one_node 0%nat)
    as (s'&E&Hj&_&Hl&Hn); [discriminate|apply ex_one_placeable|reflexivity|by eexists|..].
  - simpl. lia.
  - simpl. lia.
  - refine (bool_decide_unpack _ _). by vm_compute.
  - reflexivity.
  - intros p [-> | [-> | []%elem_of_nil]%elem_of_cons]%elem_of_cons; reflexivity.
  - assert (s' = (Plugin.PreFilter pod_a ex_one_node).2) as Es by (by rewrite E).
    exists s'. destruct (Hn 1%nat pod_b eq_refl) as [Hb Hp].
    split; [exact E|]. split; [exact Hj|]. split; [exact Hl|]. split; [exact Hb|].
    apply Hp; [exact Hb|simpl; lia|discriminate|]. subst s'.
    exists (ex_group 2), [pod_a; pod_b]. do 6 eexists.
    split_and!; [reflexivity|reflexivity|reflexivity|reflexivity|discriminate|reflexivity|].
    reflexivity.
Defined.

(** ** A gang at the Permit gate *)

(** A pod of another group is on a node and waits. *)
Definition pod_z : Pod :=
  mkPod "z" "ns" "z" (Some {[ flabel.PodGroupLabel := "other" ]}) [] None "node-c" [] PodRunning.

Definition ex_gate_first : Sys (W:=World) :=
  mkSys New.2 ∅ (mkWorld {[ ("ns", "g") := ex_group 2 ]} [pod_a; pod_b] [[pod_z]] [pod_z]
    1000 ∅ 7 [] []).

(** Pod [a] has been told to wait and is on its node. *)
Definition ex_gate_second : Sys (W:=World) :=
  mkSys New.2 ∅ (mkWorld {[ ("ns", "g") := ex_group 2 ]} [pod_a; pod_b]
    [[pod_z]; [assume "node-a" pod_a]] [pod_z; pod_a] 2000 ∅ 7 [] []).

Lemma ex_cycles : cycles New.1 (ex_group 2) [pod_a] ex_gate_second.
Proof.
  eapply (cycles_wait _ _ [] pod_a "node-a" _ ex_gate_first).
  - constructor; reflexivity.
  - by split.
  - discriminate.
  - apply runs_to. vm_compute. reflexivity.
  - reflexivity.
  - apply reflexive_eq. reflexivity.
  - reflexivity.
Qed.

Lemma gang_released_together_witness :
  (Plugin.Permit New.1 pod_b "node-b" ex_gate_second).1 = Ret (NewStatus fw_Success [], 0).
Proof.
  destruct (gang_released_together New.1 (ex_group 2) 300000000000 [pod_a] pod_b "node-b"
              ex_gate_second) as (s1&qs&Hs&_&_&E);
    [reflexivity|discriminate|discriminate|reflexivity| | |apply ex_cycles|by split|].
  - intros H. refine (bool_decide_unpack _ _ H). by vm_compute.
  - repeat constructor; refine (bool_decide_unpack _ _); by vm_compute.
  - rewrite E. reflexivity.
Defined.

(** ** The end of a group *)

(** A scheduler whose client reads the groups of [a]. *)
Definition with_groups (a : AWorld) (w : World) : World :=
  mkWorld (stored a) (w_pods w) (w_infos w) (w_waiting w) (w_now w) (w_live w) (w_next w)
    (w_alloc w) (w_told w).

(** Groups are stored under their namespace and name. *)
Definition keyed (m : gmap (string * string) PodGroup) : Prop :=
  map_Forall (λ k pg, pg_Name pg = k.2 ∧ pg_Namespace pg = k.1) m.

Lemma with_groups_reads a s :
  w_groups (world s) = stored a →
  keyed (stored a) → reads_store a s.
Proof.
  intros E Hk ns n. unfold client_Get, cCluster. rewrite E.
  destruct (stored a !! (ns, n)) as [pg|] eqn:Es; [|by do 2 eexists].
  rewrite decide_True by apply (Hk _ _ Es). by eexists.
Qed.

Definition ex_start_over : Sys (W:=World) :=
  set_world (with_groups ex_group_over (ex_world two_nodes)) (ex_start two_nodes).
(** Job 7 is recorded for the group, whose pods are over. *)
Definition ex_asked_over : Sys (W:=World) := (Plugin.PreFilter pod_a ex_start_over).2.

(** The group has been deleted before the scheduler hears of its pods. *)
Definition ex_group_deleted : AWorld := (Reconcile "ns" "g" ex_group_over).2.
Definition ex_too_late : Sys (W:=World) :=
  set_world (with_groups ex_group_deleted (world ex_asked_over)) ex_asked_over.

Lemma ex_asked_over_reached : rtc step ex_start_over ex_asked_over.
Proof. apply rtc_once, step_PreFilter. Qed.

Lemma ex_too_late_reached : rtc step ex_start_over ex_too_late.
Proof.
  eapply rtc_r; [apply ex_asked_over_reached|]. by apply step_outside.
Qed.

Lemma plain_pod_a : plain_names pod_a.
Proof. split; intros H; refine (bool_decide_unpack _ _ H); by vm_compute. Qed.

Lemma ex_pods_over : over ex_stored (group_pods ex_group_over "g").
Proof. split; [done|]. split; [by vm_compute|]. left. by vm_compute. Qed.

Lemma ex_over_keys : keyed (stored ex_group_over).
Proof. refine (bool_decide_unpack _ _). by vm_compute. Qed.
Lemma ex_deleted_keys : keyed (stored ex_group_deleted).
Proof. refine (bool_decide_unpack _ _). by vm_compute. Qed.

Lemma release_depends_on_order_witness :
  (groupToJobId (mgr ex_asked_over) !! "ns/g" = Some 7 ∧
   groupToJobId (mgr (UpdatePod (Obj_Pod pod_a) (Obj_Pod (ex_pod "a" "node-a" PodSucceeded))
     ex_asked_over).2) !! "ns/g" = None) ∧
  groupToJobId (mgr (UpdatePod (Obj_Pod pod_a) (Obj_Pod (ex_pod "a" "node-a" PodSucceeded))
    ex_too_late).2) !! full_name pod_a = Some 7.
Proof.
  split; [split; [by vm_compute|]|].
  - destruct (release_depends_on_order ex_group_over ex_stored pod_a
                (ex_pod "a" "node-a" PodSucceeded) ex_start_over ex_asked_over 7) as [H _];
    [discriminate|apply plain_pod_a|by left|apply ex_over_reached|reflexivity|by left|by vm_compute
    |apply ex_pods_over|reflexivity|apply ex_asked_over_reached|by vm_compute|].
    apply H, with_groups_reads; [reflexivity|apply ex_over_keys].
  - destruct (release_depends_on_order ex_group_over ex_stored pod_a
                (ex_pod "a" "node-a" PodSucceeded) ex_start_over ex_too_late 7) as [_ [_ H]];
    [discriminate|apply plain_pod_a|by left|apply ex_over_reached|reflexivity|by left|by vm_compute
    |apply ex_pods_over|reflexivity|apply ex_too_late_reached|by vm_compute|].
    edestruct H as [H1 _]; [|reflexivity|reflexivity|apply plain_pod_a|exact H1].
    apply with_groups_reads; [reflexivity|apply ex_deleted_keys].
Defined.

(** ** Scheduler, server and graph together *)

(** The scheduler over the server over the library of [Concrete]. *)
Definition ex_served_start : Sys (W:=World) := mkSys New.2 ∅ (ex_world []).
Definition ex_landed : Sys (W:=World) :=
  (Plugin.PreFilter (MG:=PodGroupManager_Manager (FS:=fluxion_service)) pod_a ex_served_start).2.
Definition ex_cluster : list KNode := [ex_control; ex_node_a].
Definition ex_cluster_graph : Builder (W:=list KNode) :=
  (CreateInClusterJGF "/tmp/jgf" "" (new_builder ex_cluster)).2.

Lemma ex_cluster_built :
  CreateInClusterJGF "/tmp/jgf" "" (new_builder ex_cluster) = (Ret None, ex_cluster_graph).
Proof. unfold ex_cluster_graph. apply runs_to. vm_compute. reflexivity. Qed.

Lemma ex_names : compute_names (fluxgraph ex_cluster_graph) = ["node-a"].
Proof. by vm_compute. Qed.

Lemma ex_allocates : AllocatesFrom cReapi cJson (compute_names (fluxgraph ex_cluster_graph)).
Proof.
  intros spec w ma w' dat vs base _ _ _ [= <-] Hdoc Hin. rewrite ex_names.
  rewrite (alloc_document_inj _ _ _ Hdoc one_node_document) in Hin.
  rewrite !elem_of_cons, elem_of_nil in Hin.
  destruct Hin as [E|[E|[E|[]]]]; try discriminate E. injection E as ->. by left.
Qed.

Lemma pods_land_on_eligible_nodes_witness :
  podToNode (mgr ex_landed) !! "a" = Some "node-a" ∧ eligible ex_cluster "" "node-a".
Proof.
  destruct (pods_land_on_eligible_nodes (RH:=cResourceHelper) (KC:=cKube) "/tmp/jgf" ""
    ex_cluster ex_cluster ex_cluster ex_cluster ex_cluster ex_cluster [(1, ex_node_a, [])]
    ex_cluster_graph ex_served_start ex_landed) as [H _];
    [reflexivity|reflexivity|reflexivity|reflexivity|apply ex_cluster_built|apply ex_allocates
    |reflexivity|apply rtc_once, (step_PreFilter (FL:=fluxion_laws))|].
  assert (podToNode (mgr ex_landed) !! "a" = Some "node-a") as E by (by vm_compute).
  split; [exact E|]. eapply H, E.
Defined.
